(* ===== verification/_CoqProject ===== *)
-Q . S2P
Prelude.v
Std.v
Decimal.v
Text.v
BTree.v
Json.v
Calendar.v
Logger.v
Common.v
Route.v
Cid.v
LbCore.v
Provision.v
ConnTable.v
Initial.v
Token.v
LoadRate.v
RetryPacket.v
RetryConfig.v
ConfigTable.v
Frame.v
Ebpf.v
Packet.v
RetryDatapath.v
Neigh.v
Netlink.v
DaemonConfig.v
Health.v
Reload.v
Stats.v
Status.v
Control.v
Inspect.v
ControlMain.v
Float64.v
Watch.v
PidFile.v
Rings.v
RingConsume.v
Wakeup.v
SocketSetup.v
SocketLife.v
Shuffle.v
Worker.v
Threading.v
Handoff.v
Pool.v
Threads.v
Loader.v
Aes.v
Digest.v
Xsk.v
Delivery.v
Interface.v
Startup.v
Cli.v
Fuzz.v
Display.v
MainLoop.v
Probe.v
Xtask.v
Backends.v
Servers.v
Testing.v
TestRouting.v
TestRetry.v
TestConfig.v
TestPacket.v
TestDaemon.v
TestControl.v
