(* ===== verification/Prelude.v ===== *)
(** * Pesigitg: a verified model of a QUIC-aware load balancer

    Pesigitg forwards QUIC packets to backends by the server id that the backend
    encrypted into the Connection ID (QUIC-LB).  An XDP program in the kernel
    redirects the frames of the monitored ports to AF_XDP sockets.  One worker
    thread per NIC queue polls its socket, answers Initials with Retry packets
    when the policy asks for it, routes the other packets by rewriting their
    Ethernet addresses, and hands the frames back to the rings.  The main thread
    reloads the configuration on SIGHUP, resolves the backends' MAC addresses from
    the kernel's neighbour table, probes the backends, and publishes a new route
    table as a whole whenever one of these changed it.  A status socket answers
    with JSON documents; the control tool reads them, finds and signals instances,
    decodes Connection IDs and exports the parameters of backends.  A handoff
    restart leaves the XDP program pinned and passes descriptors through systemd.

    ** Conventions

    The model is a shallow embedding.  A function that can panic (an index, a
    slice, an [expect]) returns [rs], whose [Panic] is the panic; a fallible one
    returns [result] with the source's error constructors.  Bytes are [byte],
    offsets and counters are [Z] with the wrap-around of their width written out,
    hash maps are [gmap], instants and durations are integers (nanoseconds).  State
    is passed explicitly.  Shared memory that several threads touch (the load
    tracker, the rings) has in addition a step relation with one step per access,
    and the worker threads are a step function labelled with the thread that moves.
    The code of other crates is a parameter with the laws the code relies on as a
    class: AES-128 ([Route.Aes128]), HMAC-SHA-256 ([Token.Hmac]), AES-128-GCM
    ([RetryPacket.AesGcm]), the flow hash ([Packet.FxHash]), the machine's byte
    order ([Neigh.Endian]), the TOML deserializer, the file system, the neighbour
    dump, the health probes, the argument parser ([Cli.PicoArgs]), crate xsk-rs
    with the kernel behind it ([Xsk]), and the BPF interface of the kernel and of
    crate aya ([Loader.Bpf], with [Loader.BpfLaws] and [Loader.PortsRoom]).  Each
    has a small concrete instance for the witnesses; the ciphers and hashes have in
    addition their standard definitions ([Aes], [Digest]), which satisfy the laws
    and reproduce the published test vectors.  Random bytes, clocks and the answers
    of system calls are arguments.  Floating-point numbers are IEEE binary64
    ([Float64]).

    ** Files and sources

    - [Prelude], [Std], [Shuffle]: bytes, machine words, panics and results,
      slices; the parts of the standard library the code uses; rearrangements.
    - [Decimal], [Text], [BTree], [Json]: printing and parsing of numbers, UTF-8 and
      addresses as text, ordered maps, and JSON trees with their types.
    - [Calendar]: the dates of [utils.rs] (log stamps) and of [xtask/src/main.rs].
      [Logger]: the JSON log of [utils.rs].  [Float64]: double-precision numbers.
    - [Common]: [pesigitg-common] (constants, [hex.rs], [mac.rs]).
    - [Route], [Cid]: [pesigitg-routing] ([route.rs], [cid.rs]).
    - [LbCore]: [contrib/quic-lb-core] and the length check of
      [contrib/quic-lb-quinn].  [Provision]: how [contrib/welman] and
      [contrib/quic-echo] take their parameters from the route file.
    - [ConnTable]: [pesigitg-daemon/src/conntable.rs].
    - [Initial], [Token], [LoadRate], [RetryPacket], [RetryConfig],
      [RetryDatapath]: the Retry service ([quic/initial.rs], [retry/*.rs],
      [config/retry.rs], [frame.rs]).
    - [ConfigTable]: [config/route.rs], [cid.rs] and [config/key_age.rs] of the
      daemon.
    - [Frame], [Packet]: [packet.rs], its parser and its routing.
    - [Ebpf]: [pesigitg-ebpf/src/main.rs].
    - [Neigh], [Netlink]: [neigh.rs], its parser and its socket.  [DaemonConfig],
      [Cli]: [config/daemon.rs] and [args.rs], the merge and the command line.
      [Health], [Probe]: [health.rs], its automaton and its rounds of probes.
      [Reload]: [config/mod.rs] and the loop of [main.rs].
    - [Stats]: [stats.rs].  [Rings], [RingConsume], [Wakeup]: the rings of
      [xdp_adopt.rs], both sides beside the kernel, and the calls around them.
      [Worker]: [worker_loop_generic] of [threading.rs] over [worker_socket.rs].
      [Xsk]: [xsk.rs], the sockets made with crate xsk-rs.  [Delivery]: the worker,
      the packet pipeline, the route table and the encoder put together.
    - [MainLoop]: the loop of [main.rs] with its notifications to systemd, its log
      lines and the calls of each way out.
    - [Startup]: [main.rs] around its loop, with [StatusApi::spawn] and [shutdown].
      [Interface]: the interface queries, [daemonize] and [init_logging] of
      [utils.rs], and the queue count of [threading.rs].
    - [Display]: the printed forms of routes, tables, tokens, configurations,
      statistics and health.
    - [SocketSetup], [SocketLife]: creating and adopting sockets ([xdp_adopt.rs]),
      and what a socket owns.  [Threading]: the thread plan and core placement of
      [threading.rs].  [Pool]: the life of the workers there, and the chain of
      processes that [main.rs] makes of it with [Handoff] ([fdstore.rs]).
      [Threads]: the workers beside the main thread and their shutdown.  [Loader]: [ebpf.rs].  [PidFile]: [pidfile.rs].
    - [Status]: [status_api.rs].  [Control], [Inspect], [ControlMain]:
      [pesigitg-control/src/main.rs], its discovery and commands, its decoding of
      CIDs and export of backend parameters, and its command table.  [Watch]: the
      table of rates of its [watch].
    - [Backends], [Servers]: the command lines, answers and echoes of
      [contrib/welman] and [contrib/quic-echo], and their mains and connections.  [Xtask]: [xtask/src/main.rs].  [Fuzz]: the five entry
      points under [pesigitg-daemon/fuzz].
    - [Aes], [Digest]: FIPS 197, SHA-256, HMAC and GCM, instances of the ciphers.
    - [Testing], [TestRouting], [TestRetry], [TestConfig], [TestPacket],
      [TestDaemon], [TestControl]: the unit tests of the repository as suites of
      checks on the model, under the names of the test functions.

    Definitions keep the source's names; a prefix tells apart two functions of the
    same name ([table_get], [conn_lookup], [mac_parse]).

    ** What the theorems show

    - Routing.  A Connection ID issued by a server's encoder resolves to that
      server in every mode ([cid_roundtrip]), through the slot table
      ([issued_cid_selects_server]), on the wire ([issued_cid_forwarded]) and through
      a worker: whatever else is in the batch and whatever came before, the packet
      leaves with the address of the server that issued its CID ([system_delivers]).
      Decoding is total on configurations whose nonce fits a block, and panics on
      the others.  Packet processing is characterised on every frame, with the one
      panic it has ([process_packet_total], [cut_icmp_panics]).
    - Stickiness.  The connection table refines a log of decisions, and a flow
      placed by hashing keeps its backend for the lifetime of its entry.
    - Retry.  The Initial parser accepts exactly the wire format; verification
      accepts exactly the minted tokens; the built packet is the specified one;
      the datapath's decision is characterised on every frame
      ([try_handle_contract]) and the exchange with the client closes
      ([retry_exchange]).  Checksums verify, with the exception that is proved.
    - The load tracker neither loses nor duplicates a count and rotates once under
      every interleaving.
    - Configuration.  What validation accepts, what a loaded table satisfies, how
      key ages are inherited and warned about, how the fallback pool is built, what
      a reload does to health, and where start-up panics.
    - Kernel interfaces.  The XDP program and the daemon agree on the port up to
      extension headers of 32 units; a netlink dump fills in the MAC addresses and
      its socket is closed on every path ([netlink_resolves], [netlink_no_leak]);
      the rings refine bounded queues, alone and interleaved with the kernel
      ([ring_concurrent_fifo], [consume_concurrent_fifo]), and wake it exactly when
      it asks ([transmit_wakes], [refill_wakes]).  A socket releases each descriptor
      and mapping once on every path, or hands it over ([socket_owns]).
    - Threads and the service manager.  A shutdown returns in every fair execution,
      with every worker finished ([shutdown_completes]), and a handoff of the threads
      is a generation of [Pool] ([handoff_is_generation]).  The notifications follow
      the protocol of systemd: READY first and after every RELOADING, one watchdog
      beat per completed round, STOPPING before the teardown on every way out
      ([notify_protocol]); erasing the events gives the loop of [Reload]
      ([loop_refines]).  A reload announces the ports of the new arguments, which
      nothing monitors ([reload_announces_ports]).
    - Start and restart.  Every way through [main] is classified by what it leaves
      behind ([startup_ends]), a command line is parsed in finitely many steps
      whatever it is ([parse_args_total]).  The thread plan is characterised on
      every host.  The
      loader leaves exactly the configured ports in the map however it started
      ([load_ebpf_exact], [reconcile_room]).  Descriptors stay with their queue over
      any number of restarts ([handoff_generations], [handoff_keeps_queue]), but
      nothing ever starts that chain ([descriptors_never_start]).  Adopting a socket
      repeats the mappings of its creation ([adopt_repeats_mapping]).  The pid file
      excludes a second instance until one exits in good order
      ([pidfile_exclusive], [pidfile_gaps]).
    - Status and control.  Every document has its type and none depends on a key
      ([responses_typed], [config_redacts_keys]); a connection is always answered
      or dropped; the handlers are bounded.  Target resolution, cleaning up and the
      command table are characterised; the decoder names the issuer of a CID
      ([whoami_names_issuer]); a backend provisioned from the tool or from the route
      file is routed to ([backend_config_provisions], [backends_share_the_file]).
      The rates that [watch] prints are those of the counters, with a bound on the
      error of the binary64 arithmetic and of the rounding ([watch_reports_traffic]).
    - Dates.  The day arithmetic is the Gregorian calendar and its inverse; the
      order of log stamps is the order of time ([log_order_is_time_order]).
    - Printing and fuzzing.  No printed form depends on a key
      ([display_redacts_keys]); the entry points of the fuzzer return on every
      input but the ones found ([fuzz_targets_return]).
    - Tests.  Every suite evaluates to success ([routing_tests_pass] and the like):
      the model computes the values the repository's own tests expect, down to the
      bytes of tokens, Retry packets and encrypted Connection IDs.
    - Workers.  Frames are conserved and counters balanced over any run, against
      the socket interface ([Worker.AfXdpSocket]), which the rings and the sockets
      of crate xsk-rs implement ([adopted_socket_contract], [fresh_backlog_bounded]).

    ** Bounds and fuel

    [fold_carry] has fuel [CARRY_FUEL] = 3: two rounds bring any 32-bit sum to 16
    bits, and the third tests that it is there ([RetryDatapath.fold_carry_done]).
    The netlink loops get the length of their buffer plus one as fuel, and every
    step consumes at least four bytes; running out would be a [Panic], which the
    theorems exclude.  Decimal printing has twenty steps, enough for 64 bits, and
    309 for the integer part of a double, which has no more digits.  Collecting the
    ports of a command line has one step more than it has arguments, and each step
    takes one away.
    Reading a request has fuel [request_fuel] = 257: a round that does not end
    takes at least one of the 256 bytes ([Status.read_request_ends]).  All other
    recursion is structural.  Executions of threads are infinite sequences; [fair]
    says that a thread that can move does so in the end, and that the relaxed store
    of the flag is seen in the end, which the memory model asks of implementations.

    ** Not modelled

    Log lines below level info, and those of the parts other than the main loop; the
    text of JSON (a document is its tree, which crate serde_json prints); the CPU
    features of [utils.rs]; the texts of help and version of the daemon; what the
    crates quinn, rustls, h3, toml, pico_args, aya and xsk-rs do, of which the model
    has the interface; the build scripts, which run commands.  System calls are
    arguments: what they return, not what they do.  Weak-memory reorderings are not
    modelled but for the shutdown flag: a step relation interleaves whole accesses,
    which is what the acquire and release orderings of the rings and the single-word
    operations of the tracker give; the relaxed load of the wake-up flag after the
    store of an index is outside of it. *)

From Stdlib Require Export Strings.Byte.
From Stdlib Require Export ZArith Lia.
From Stdlib Require Import ZifyClasses Zify ZifyInst.
From stdpp Require Export base list option numbers countable.

#[global] Open Scope Z_scope.

(** ** Bytes

    A Rust [u8] is an element of [byte]; [u8] is its value and [b8] the
    truncating cast [as u8]. *)

Definition u8 (b : byte) : Z := Z.of_N (Byte.to_N b).

Definition b8 (z : Z) : byte :=
  match Byte.of_N (Z.to_N (z mod 256)) with Some b => b | None => Byte.x00 end.

Definition byte_of_lit (z : Z) : option byte :=
  if (0 <=? z) then Byte.of_N (Z.to_N z) else None.

Declare Scope u8_scope.
Delimit Scope u8_scope with u8.
Bind Scope u8_scope with byte.
Number Notation byte byte_of_lit u8 : u8_scope.

Lemma u8_range (b : byte) : 0 <= u8 b < 256.
Proof.
  unfold u8. pose proof (Byte.to_N_bounded b). lia.
Qed.

Lemma u8_inj (a b : byte) : u8 a = u8 b -> a = b.
Proof.
  unfold u8. intros H%N2Z.inj.
  pose proof (Byte.of_to_N a) as Ha. pose proof (Byte.of_to_N b) as Hb. congruence.
Qed.

Lemma u8_b8 (z : Z) : u8 (b8 z) = z mod 256.
Proof.
  unfold b8, u8. pose proof (Z.mod_pos_bound z 256 ltac:(lia)) as Hz.
  destruct (Byte.of_N (Z.to_N (z mod 256))) as [b|] eqn:E.
  - apply Byte.to_of_N in E. rewrite E. lia.
  - apply Byte.of_N_None_iff in E. lia.
Qed.

Lemma b8_u8 (b : byte) : b8 (u8 b) = b.
Proof. apply u8_inj. rewrite u8_b8. apply Z.mod_small, u8_range. Qed.

Lemma u8_b8_small (z : Z) : 0 <= z < 256 -> u8 (b8 z) = z.
Proof. intros. rewrite u8_b8. by apply Z.mod_small. Qed.

#[global] Instance byte_eq_dec : EqDecision byte.
Proof.
  intros a b. destruct (decide (u8 a = u8 b)) as [E|E].
  - left. by apply u8_inj.
  - right. intros ->. done.
Defined.

#[global] Instance byte_countable : Countable byte :=
  inj_countable Byte.to_N Byte.of_N Byte.of_to_N.

(** [lia] sees [u8 b] as an integer of [0..255]. *)
#[global] Instance Inj_byte_Z : InjTyp byte Z :=
  { inj := u8; pred := fun x => 0 <= x < 256; cstr := u8_range }.
Add Zify InjTyp Inj_byte_Z.
#[global] Instance Op_u8 : UnOp u8 := { TUOp := fun x => x; TUOpInj := fun x => eq_refl }.
Add Zify UnOp Op_u8.

Definition bxor (a b : byte) : byte := b8 (Z.lxor (u8 a) (u8 b)).

Lemma bxor_range (a b : byte) : 0 <= Z.lxor (u8 a) (u8 b) < 256.
Proof.
  split; [apply Z.lxor_nonneg; lia|].
  destruct (decide (Z.lxor (u8 a) (u8 b) = 0)) as [->|Hne]; [lia|].
  assert (0 <= Z.lxor (u8 a) (u8 b)) by (apply Z.lxor_nonneg; lia).
  change 256 with (2 ^ 8). apply Z.log2_lt_pow2; [lia|].
  eapply Z.le_lt_trans; [apply Z.log2_lxor; lia|].
  apply Z.max_lub_lt; (destruct (decide (u8 a = 0)) as [Ha|Ha], (decide (u8 b = 0)) as [Hb|Hb];
    rewrite ?Ha, ?Hb; simpl; try lia; apply Z.log2_lt_pow2; lia).
Qed.

Lemma u8_bxor (a b : byte) : u8 (bxor a b) = Z.lxor (u8 a) (u8 b).
Proof. unfold bxor. apply u8_b8_small, bxor_range. Qed.

Lemma bxor_cancel (a b : byte) : bxor (bxor a b) b = a.
Proof.
  apply u8_inj. rewrite !u8_bxor, Z.lxor_assoc, Z.lxor_nilpotent. apply Z.lxor_0_r.
Qed.

(** ** Panics

    A Rust computation either returns or panics; the release profile of the
    workspace sets [panic = "abort"], so a panic of any thread ends the whole
    process.  Slicing and indexing out of range, a length mismatch of
    [copy_from_slice], [expect] on [None] and [unreachable!] are panics. *)

Inductive rs (A : Type) : Type :=
| Done (a : A)
| Panic.
Arguments Done {A} a.
Arguments Panic {A}.

(** Rust's [Result]. *)
Inductive result (A E : Type) : Type :=
| Ok (a : A)
| Err (e : E).
Arguments Ok {A E} a.
Arguments Err {A E} e.

Definition is_ok {A E} (r : result A E) : bool := match r with Ok _ => true | Err _ => false end.

Notation "'let*' x := e 'in' k" :=
  (match e with Done x => k | Panic => Panic end)
  (at level 200, x pattern, e at level 200, k at level 200, right associativity).
Notation "'let+' x := e 'in' k" :=
  (match e with Ok x => k | Err er => Err er end)
  (at level 200, x pattern, e at level 200, k at level 200, right associativity).
Notation "'let?' x := e 'in' k" :=
  (match e with Some x => k | None => None end)
  (at level 200, x pattern, e at level 200, k at level 200, right associativity).
Notation "'let*+' x := e 'in' k" :=
  (match e with Done (Ok x) => k | Done (Err er) => Done (Err er) | Panic => Panic end)
  (at level 200, x pattern, e at level 200, k at level 200, right associativity).
Notation "'let*?' x := e 'in' k" :=
  (match e with Done (Some x) => k | Done None => Done None | Panic => Panic end)
  (at level 200, x pattern, e at level 200, k at level 200, right associativity).

Definition returns {A} (m : rs A) : Prop := exists a, m = Done a.

Lemma returns_Done {A} (a : A) : returns (Done a).
Proof. by exists a. Qed.

(** ** Slices

    Offsets are [usize] values kept as [Z]; all the sums the code forms are far
    below [2^64], and the two places where they need not be use
    [checked_add], which is modelled where it occurs. *)

Definition len {A} (l : list A) : Z := Z.of_nat (length l).

#[global] Instance byte_inhabited : Inhabited byte := populate Byte.x00.

(** The element at [i], for offsets known to be in range. *)
Definition elt {A} `{Inhabited A} (l : list A) (i : Z) : A := l !!! Z.to_nat i.

(** [l[a..b]] for bounds known to be in range. *)
Definition sub {A} (l : list A) (a b : Z) : list A :=
  take (Z.to_nat (b - a)) (drop (Z.to_nat a) l).

(** [l[i]] *)
Definition idx {A} (l : list A) (i : Z) : rs A :=
  if 0 <=? i then match l !! Z.to_nat i with Some x => Done x | None => Panic end
  else Panic.

(** [&l[a..b]] *)
Definition slice {A} (l : list A) (a b : Z) : rs (list A) :=
  if (0 <=? a) && (a <=? b) && (b <=? len l) then Done (sub l a b) else Panic.

(** [&l[a..]] *)
Definition slice_from {A} (l : list A) (a : Z) : rs (list A) := slice l a (len l).

(** The list with [src] written from offset [a] on. *)
Definition splice {A} (l : list A) (a : Z) (src : list A) : list A :=
  take (Z.to_nat a) l ++ src ++ drop (Z.to_nat (a + len src)) l.

(** [l[a..b].copy_from_slice(src)] *)
Definition copy_to {A} (l : list A) (a b : Z) (src : list A) : rs (list A) :=
  if (0 <=? a) && (a <=? b) && (b <=? len l) && (b - a =? len src)
  then Done (splice l a src) else Panic.

(** [l[i] = v] *)
Definition set_at {A} (l : list A) (i : Z) (v : A) : rs (list A) :=
  if (0 <=? i) && (i <? len l) then Done (<[Z.to_nat i := v]> l) else Panic.

(** [[0u8; n]] *)
Definition zeros (n : Z) : list byte := replicate (Z.to_nat n) Byte.x00.

Lemma len_nonneg {A} (l : list A) : 0 <= len l.
Proof. unfold len. lia. Qed.

Lemma len_nil {A} : len (@nil A) = 0.
Proof. done. Qed.

Lemma len_cons {A} (x : A) l : len (x :: l) = 1 + len l.
Proof. unfold len. simpl length. lia. Qed.

Lemma len_app {A} (l k : list A) : len (l ++ k) = len l + len k.
Proof. unfold len. rewrite length_app. lia. Qed.

Lemma len_map {A B} (f : A -> B) l : len (map f l) = len l.
Proof. unfold len. by rewrite length_map. Qed.

Lemma len_replicate {A} n (x : A) : len (replicate n x) = Z.of_nat n.
Proof. unfold len. by rewrite length_replicate. Qed.

Lemma len_zeros n : 0 <= n -> len (zeros n) = n.
Proof. intros. unfold zeros. rewrite len_replicate. lia. Qed.

Lemma len_insert {A} (l : list A) i x : len (<[i := x]> l) = len l.
Proof. unfold len. by rewrite length_insert. Qed.

Lemma len_take {A} n (l : list A) : len (take n l) = Z.min (Z.of_nat n) (len l).
Proof. unfold len. rewrite length_take. lia. Qed.

Lemma len_drop {A} n (l : list A) : len (drop n l) = Z.max 0 (len l - Z.of_nat n).
Proof. unfold len. rewrite length_drop. lia. Qed.

Lemma len_0_nil {A} (l : list A) : len l = 0 -> l = [].
Proof. destruct l; [done|]. rewrite len_cons. pose proof (len_nonneg l). lia. Qed.

Lemma len_sub {A} (l : list A) a b : 0 <= a <= b -> b <= len l -> len (sub l a b) = b - a.
Proof. intros. unfold sub. rewrite len_take, len_drop. lia. Qed.

Lemma len_splice {A} (l : list A) a src :
  0 <= a -> a + len src <= len l -> len (splice l a src) = len l.
Proof.
  intros. unfold splice. rewrite !len_app, len_take, len_drop.
  pose proof (len_nonneg src). lia.
Qed.

Lemma idx_in {A} `{Inhabited A} (l : list A) i : 0 <= i < len l -> idx l i = Done (elt l i).
Proof.
  intros [Hi Hl]. unfold idx, elt, len in *. destruct (0 <=? i) eqn:E; [|lia].
  destruct (lookup_lt_is_Some_2 l (Z.to_nat i)) as [x Hx]; [lia|].
  by rewrite Hx, (list_lookup_total_correct _ _ _ Hx).
Qed.

Lemma idx_Done_inv {A} `{Inhabited A} (l : list A) i x :
  idx l i = Done x -> 0 <= i < len l /\ elt l i = x.
Proof.
  unfold idx, elt, len. destruct (0 <=? i) eqn:E; [|done].
  destruct (l !! Z.to_nat i) as [y|] eqn:Hy; [|done]. intros [= <-].
  pose proof (lookup_lt_Some _ _ _ Hy). split; [lia|].
  by apply list_lookup_total_correct.
Qed.

Lemma idx_lookup {A} (l : list A) (i : nat) x : l !! i = Some x -> idx l (Z.of_nat i) = Done x.
Proof.
  intros Hx. unfold idx. rewrite Nat2Z.id, Hx. destruct (Z.leb_spec 0 (Z.of_nat i)); [done|lia].
Qed.

Lemma slice_in {A} (l : list A) a b :
  0 <= a <= b -> b <= len l -> slice l a b = Done (sub l a b).
Proof.
  intros. unfold slice. destruct ((0 <=? a) && (a <=? b) && (b <=? len l)) eqn:E; [done|lia].
Qed.

Lemma slice_Done_inv {A} (l : list A) a b s :
  slice l a b = Done s -> 0 <= a <= b /\ b <= len l /\ s = sub l a b.
Proof.
  unfold slice. destruct ((0 <=? a) && (a <=? b) && (b <=? len l)) eqn:E; [|done].
  intros [= <-]. repeat split; lia.
Qed.

Lemma slice_Panic {A} (l : list A) a b : len l < b \/ b < a -> slice l a b = Panic.
Proof.
  intros. unfold slice. destruct ((0 <=? a) && (a <=? b) && (b <=? len l)) eqn:E; [lia|done].
Qed.

Lemma slice_from_in {A} (l : list A) a :
  0 <= a <= len l -> slice_from l a = Done (sub l a (len l)).
Proof. intros. unfold slice_from. apply slice_in; lia. Qed.

Lemma copy_to_in {A} (l : list A) a b src :
  0 <= a <= b -> b <= len l -> b - a = len src -> copy_to l a b src = Done (splice l a src).
Proof.
  intros. unfold copy_to.
  destruct ((0 <=? a) && (a <=? b) && (b <=? len l) && (b - a =? len src)) eqn:E; [done|lia].
Qed.

Lemma set_at_in {A} (l : list A) i v :
  0 <= i < len l -> set_at l i v = Done (<[Z.to_nat i := v]> l).
Proof. intros. unfold set_at. destruct ((0 <=? i) && (i <? len l)) eqn:E; [done|lia]. Qed.

(** ** Sublists and splices *)

Lemma sub_full {A} (l : list A) n : len l = n -> sub l 0 n = l.
Proof. intros <-. unfold sub. simpl. rewrite drop_0. apply take_ge. unfold len. lia. Qed.

Lemma sub_nil {A} (l : list A) a : sub l a a = [].
Proof. unfold sub. by replace (Z.to_nat (a - a)) with 0%nat by lia. Qed.

Lemma sub_app_l {A} (l k : list A) a b :
  0 <= a <= b -> b <= len l -> sub (l ++ k) a b = sub l a b.
Proof.
  intros. unfold sub, len in *. rewrite drop_app_le by lia.
  rewrite take_app_le; [done|]. rewrite length_drop. lia.
Qed.

Lemma sub_app_r {A} (l k : list A) a b :
  len l <= a -> a <= b -> sub (l ++ k) a b = sub k (a - len l) (b - len l).
Proof.
  intros. unfold sub, len in *. rewrite drop_app_ge by lia. f_equal; [lia|].
  f_equal. lia.
Qed.

Lemma sub_app_mid {A} (l m k : list A) a b :
  a = len l -> b = len l + len m -> sub (l ++ m ++ k) a b = m.
Proof.
  intros -> ->. rewrite sub_app_r by (pose proof (len_nonneg m); lia).
  rewrite sub_app_l by (pose proof (len_nonneg m); lia).
  replace (len l - len l) with 0 by lia. apply sub_full. lia.
Qed.

Lemma sub_splice_same {A} (l : list A) a b src :
  0 <= a -> b = a + len src -> a <= len l -> sub (splice l a src) a b = src.
Proof.
  intros. unfold splice. apply sub_app_mid; rewrite len_take; lia.
Qed.

Lemma splice_0 {A} (l src : list A) : splice l 0 src = src ++ drop (length src) l.
Proof. unfold splice, len. rewrite Z.add_0_l, Nat2Z.id. done. Qed.

Lemma splice_app_mid {A} (l m m' r : list A) a :
  a = len l -> length m = length m' -> splice (l ++ m ++ r) a m' = l ++ m' ++ r.
Proof.
  intros -> Hm. unfold splice, len. rewrite Nat2Z.id, take_app_length. do 2 f_equal.
  rewrite app_assoc. apply drop_app_length'. rewrite length_app. lia.
Qed.

Lemma sub_splice_before {A} (l : list A) a b c src :
  0 <= a <= b -> b <= c -> c <= len l -> sub (splice l c src) a b = sub l a b.
Proof.
  intros. unfold splice. rewrite sub_app_l by (rewrite ?len_take; lia).
  unfold sub. rewrite skipn_firstn_comm, take_take. f_equal. lia.
Qed.

Lemma sub_splice_after {A} (l : list A) a b c src :
  0 <= c -> c + len src <= a -> a <= b -> b <= len l -> sub (splice l c src) a b = sub l a b.
Proof.
  intros. pose proof (len_nonneg src). unfold splice, sub, len in *.
  rewrite drop_app_ge by (rewrite length_take; lia).
  rewrite drop_app_ge by (rewrite length_take; lia).
  rewrite drop_drop, length_take. do 2 f_equal. lia.
Qed.

Lemma sub_sub {A} (l : list A) a b c d :
  0 <= a -> 0 <= c <= d -> a + d <= b -> sub (sub l a b) c d = sub l (a + c) (a + d).
Proof.
  intros. unfold sub. rewrite skipn_firstn_comm, drop_drop, take_take. f_equal; [lia|].
  f_equal. lia.
Qed.

Lemma sub_split {A} (l : list A) a b c :
  0 <= a <= b -> b <= c -> c <= len l -> sub l a c = sub l a b ++ sub l b c.
Proof.
  intros. unfold sub, len in *.
  replace (Z.to_nat (c - a)) with (Z.to_nat (b - a) + Z.to_nat (c - b))%nat by lia.
  rewrite <- take_take_drop, drop_drop. do 3 f_equal. lia.
Qed.

Lemma elt_lookup {A} `{Inhabited A} (l : list A) i x :
  0 <= i -> l !! Z.to_nat i = Some x -> elt l i = x.
Proof. intros _ Hx. unfold elt. by apply list_lookup_total_correct. Qed.

Lemma lookup_elt {A} `{Inhabited A} (l : list A) (i : nat) :
  (i < length l)%nat -> l !! i = Some (elt l (Z.of_nat i)).
Proof.
  intros. unfold elt. rewrite Nat2Z.id. by apply list_lookup_lookup_total_lt.
Qed.

Lemma elt_app_l {A} `{Inhabited A} (l k : list A) i :
  0 <= i < len l -> elt (l ++ k) i = elt l i.
Proof.
  intros. unfold elt, len in *. apply lookup_total_app_l. lia.
Qed.

Lemma elt_app_r {A} `{Inhabited A} (l k : list A) i :
  len l <= i -> elt (l ++ k) i = elt k (i - len l).
Proof.
  intros. unfold elt, len in *. rewrite lookup_total_app_r by lia. f_equal. lia.
Qed.

Lemma elt_cons_0 {A} `{Inhabited A} (x : A) l : elt (x :: l) 0 = x.
Proof. done. Qed.

Lemma elt_cons_S {A} `{Inhabited A} (x : A) l i : 0 < i -> elt (x :: l) i = elt l (i - 1).
Proof.
  intros. unfold elt. replace (Z.to_nat i) with (S (Z.to_nat (i - 1))) by lia. done.
Qed.

Lemma elt_sub {A} `{Inhabited A} (l : list A) a b i :
  0 <= a -> 0 <= i < b - a -> elt (sub l a b) i = elt l (a + i).
Proof.
  intros. unfold elt, sub. rewrite lookup_total_take_lt by lia. rewrite lookup_total_drop.
  f_equal. lia.
Qed.

Lemma sub_succ {A} `{Inhabited A} (l : list A) a b :
  0 <= a < b -> b <= len l -> sub l a b = elt l a :: sub l (a + 1) b.
Proof.
  intros. unfold sub, len in *.
  replace (Z.to_nat (b - a)) with (S (Z.to_nat (b - (a + 1)))) by lia.
  replace (Z.to_nat (a + 1)) with (S (Z.to_nat a)) by lia.
  rewrite (drop_S l (elt l a) (Z.to_nat a)); [done|].
  rewrite lookup_elt by lia. by rewrite Z2Nat.id by lia.
Qed.

Lemma idx_app_mid {A} `{Inhabited A} (l : list A) x r i :
  i = len l -> idx (l ++ x :: r) i = Done x.
Proof.
  intros ->. pose proof (len_nonneg l). pose proof (len_nonneg r).
  rewrite idx_in by (rewrite len_app, len_cons; lia).
  rewrite elt_app_r by lia. by rewrite Z.sub_diag.
Qed.

Lemma slice_app_mid {A} (l m r : list A) a b :
  a = len l -> b = len l + len m -> slice (l ++ m ++ r) a b = Done m.
Proof.
  intros -> ->. pose proof (len_nonneg l). pose proof (len_nonneg m). pose proof (len_nonneg r).
  rewrite slice_in by (rewrite ?len_app; lia). by rewrite sub_app_mid.
Qed.

Lemma slice_from_app {A} (l r : list A) a : a = len l -> slice_from (l ++ r) a = Done r.
Proof.
  intros ->. unfold slice_from. rewrite <- (app_nil_r r) at 1.
  apply slice_app_mid; [done|]. apply len_app.
Qed.

(** A list is its head up to [a] and its tail from [a] on. *)
Lemma sub_head_tail {A} (l : list A) a : 0 <= a <= len l -> l = sub l 0 a ++ sub l a (len l).
Proof. intros. rewrite <- sub_split by lia. symmetry. by apply sub_full. Qed.

(** ** Big-endian integers *)

Definition be_val (l : list byte) : Z := foldl (fun acc b => acc * 256 + u8 b) 0 l.

(** [to_be_bytes] of an [n]-byte integer. *)
Fixpoint be_bytes (n : nat) (z : Z) : list byte :=
  match n with
  | O => []
  | S n' => be_bytes n' (z / 256) ++ [b8 z]
  end.

Definition be16 (a b : byte) : Z := be_val [a; b].
Definition be32 (a b c d : byte) : Z := be_val [a; b; c; d].

Lemma be_val_snoc l b : be_val (l ++ [b]) = be_val l * 256 + u8 b.
Proof. unfold be_val. by rewrite foldl_app. Qed.

Lemma be_val_app l k : be_val (l ++ k) = be_val l * 256 ^ len k + be_val k.
Proof.
  induction k as [|b k IH] using rev_ind.
  - rewrite app_nil_r. change (be_val []) with 0. change (len []) with 0. lia.
  - rewrite app_assoc, !be_val_snoc, IH, len_app. change (len [b]) with 1.
    rewrite (Z.pow_add_r 256 (len k) 1) by (pose proof (len_nonneg k); lia). lia.
Qed.

Lemma be_val_cons b l : be_val (b :: l) = u8 b * 256 ^ len l + be_val l.
Proof. apply (be_val_app [b] l). Qed.

Lemma len_be_bytes n z : len (be_bytes n z) = Z.of_nat n.
Proof.
  revert z. induction n as [|n IH]; intros z; [done|]. cbn [be_bytes].
  rewrite len_app, IH, len_cons, len_nil. lia.
Qed.

Lemma be_val_range l : 0 <= be_val l < 256 ^ len l.
Proof.
  induction l as [|b l IH] using rev_ind; [done|].
  rewrite be_val_snoc, len_app. change (len [b]) with 1.
  rewrite (Z.pow_add_r 256 (len l) 1) by (pose proof (len_nonneg l); lia). lia.
Qed.

Lemma be_val_be_bytes n z : be_val (be_bytes n z) = z mod 256 ^ Z.of_nat n.
Proof.
  revert z. induction n as [|n IH]; intros z; [by rewrite Z.mod_1_r|]. cbn [be_bytes].
  rewrite be_val_snoc, IH, u8_b8, Nat2Z.inj_succ, Z.pow_succ_r by lia.
  rewrite Z.rem_mul_r by lia. lia.
Qed.

Lemma be_bytes_be_val l : be_bytes (length l) (be_val l) = l.
Proof.
  induction l as [|b l IH] using rev_ind; [done|].
  rewrite length_app, Nat.add_comm. cbn [length Nat.add be_bytes]. rewrite be_val_snoc.
  rewrite Z.div_add_l, Z.div_small, Z.add_0_r, IH by (pose proof (u8_range b); lia).
  do 2 f_equal. apply u8_inj. rewrite u8_b8.
  rewrite Z.add_comm, Z.mod_add by lia. apply Z.mod_small, u8_range.
Qed.

Lemma be_val_inj l k : length l = length k -> be_val l = be_val k -> l = k.
Proof.
  intros Hl Hv. rewrite <- (be_bytes_be_val l), <- (be_bytes_be_val k). congruence.
Qed.

Lemma be_bytes_inj n x y :
  0 <= x < 256 ^ Z.of_nat n -> 0 <= y < 256 ^ Z.of_nat n ->
  be_bytes n x = be_bytes n y -> x = y.
Proof.
  intros Hx Hy H%(f_equal be_val). rewrite !be_val_be_bytes in H.
  by rewrite !Z.mod_small in H by done.
Qed.

Lemma be16_range a b : 0 <= be16 a b < 65536.
Proof. apply (be_val_range [a; b]). Qed.

(** ** Sums over lists *)

Definition zsum {A} (f : A -> Z) (l : list A) : Z := foldr (fun x acc => f x + acc) 0 l.

Lemma zsum_app {A} (f : A -> Z) l k : zsum f (l ++ k) = zsum f l + zsum f k.
Proof. unfold zsum. induction l as [|x l IH]; simpl; lia. Qed.

Lemma zsum_insert {A} (f : A -> Z) l i x y :
  l !! i = Some x -> zsum f (<[i := y]> l) = zsum f l - f x + f y.
Proof.
  unfold zsum. revert i. induction l as [|z l IH]; intros [|i]; simpl; try done.
  - intros [= ->]. lia.
  - intros Hx. rewrite (IH i Hx). lia.
Qed.

Lemma zsum_const0 {A} (f : A -> Z) l : Forall (fun x => f x = 0) l -> zsum f l = 0.
Proof. unfold zsum. induction 1; simpl; lia. Qed.

Lemma zsum_ext {A} (f g : A -> Z) l : Forall (fun x => f x = g x) l -> zsum f l = zsum g l.
Proof. unfold zsum. induction 1; simpl; lia. Qed.

Lemma zsum_nonneg {A} (f : A -> Z) l : (forall x, 0 <= f x) -> 0 <= zsum f l.
Proof. intros Hf. unfold zsum. induction l as [|x l IH]; simpl; [lia|]. pose proof (Hf x). lia. Qed.

(** ** Machine integers *)

Definition U8_MAX : Z := 255.
Definition wrap8 (z : Z) : Z := z mod 2 ^ 8.
Definition wrap16 (z : Z) : Z := z mod 2 ^ 16.
Definition wrap32 (z : Z) : Z := z mod 2 ^ 32.
Definition wrap64 (z : Z) : Z := z mod 2 ^ 64.

(** [a.wrapping_sub(b)] on [u64]. *)
Definition wsub64 (a b : Z) : Z := wrap64 (a - b).
(** [a.wrapping_sub(b)] on [u32]. *)
Definition wsub32 (a b : Z) : Z := wrap32 (a - b).

Definition is_u16 (z : Z) : bool := (0 <=? z) && (z <? 2 ^ 16).
Definition is_u32 (z : Z) : bool := (0 <=? z) && (z <? 2 ^ 32).
Definition is_u64 (z : Z) : bool := (0 <=? z) && (z <? 2 ^ 64).

(** [b & 0x80 != 0] and the like on a byte. *)
Definition has_bits (b : byte) (mask : Z) : bool := negb (Z.land (u8 b) mask =? 0).

(** ** Proof automation *)

Create HintDb pesi.
#[export] Hint Rewrite @len_nil @len_cons @len_app @len_map @len_replicate @len_insert
  @len_be_bytes : len.
#[export] Hint Resolve returns_Done len_nonneg u8_range be16_range : pesi.

(** Arithmetic with list lengths: every [len] of the goal and of the
    hypotheses is nonnegative. *)
Ltac pose_len :=
  repeat match goal with
  | |- context [len ?l] =>
      lazymatch goal with H : 0 <= len l |- _ => fail | _ => pose proof (len_nonneg l) end
  | _ : context [len ?l] |- _ =>
      lazymatch goal with H : 0 <= len l |- _ => fail | _ => pose proof (len_nonneg l) end
  end.
Ltac llia := autorewrite with len in *; pose_len; lia.

(** One step of the evaluation of a panicking computation: an access known to
    be in range returns its element. *)
Ltac rs_access :=
  match goal with
  | |- context [idx ?l ?i] => rewrite (idx_in l i) by lia
  | |- context [slice ?l ?a ?b] => rewrite (slice_in l a b) by lia
  | |- context [slice_from ?l ?a] => rewrite (slice_from_in l a) by lia
  end.

(** Case analysis on the scrutinee of the first [if] or [match] of the goal
    that is not itself one. *)
Ltac case_goal :=
  match goal with
  | |- context [if ?c then _ else _] =>
      lazymatch c with
      | context [if _ then _ else _] => fail
      | context [match _ with _ => _ end] => fail
      | _ => let E := fresh "E" in destruct c eqn:E
      end
  | |- context [match ?c with _ => _ end] =>
      lazymatch c with
      | context [if _ then _ else _] => fail
      | context [match _ with _ => _ end] => fail
      | _ => let E := fresh "E" in destruct c eqn:E
      end
  end.

Ltac rs_run := repeat (first [rs_access | case_goal]); eauto with pesi.

(** Split a conjunction of boolean tests in the context. *)
Ltac bools :=
  repeat match goal with
  | H : _ && _ = true |- _ => apply andb_true_iff in H as [? ?]
  | H : _ || _ = false |- _ => apply orb_false_iff in H as [? ?]
  | H : negb _ = true |- _ => apply negb_true_iff in H
  | H : negb _ = false |- _ => apply negb_false_iff in H
  | H : bool_decide _ = true |- _ => apply bool_decide_eq_true in H
  | H : bool_decide _ = false |- _ => apply bool_decide_eq_false in H
  end.

(** Invert equations between results. *)
Ltac inv_res :=
  repeat match goal with
  | H : Done _ = Done _ |- _ => injection H as H; try subst
  | H : Ok _ = Ok _ |- _ => injection H as H; try subst
  | H : Err _ = Err _ |- _ => injection H as H; try subst
  | H : Some _ = Some _ |- _ => injection H as H; try subst
  | H : Done _ = Panic |- _ => discriminate H
  | H : Panic = Done _ |- _ => discriminate H
  | H : Ok _ = Err _ |- _ => discriminate H
  | H : Err _ = Ok _ |- _ => discriminate H
  | H : Some _ = None |- _ => discriminate H
  | H : None = Some _ |- _ => discriminate H
  end.
