(* ===== verification/Std.v ===== *)
(** * The parts of Rust's standard library the sources use

    Strings ([str] as a list of Unicode scalar values together with its UTF-8
    encoding), [trim], [split], [split_once], [lines], [from_str_radix] and the
    integer parsers built on it, byte-indexed string slices with their
    char-boundary check, hexadecimal and decimal formatting, IP addresses and
    their textual parser, and time as integers. *)

From Stdlib Require Import Ascii.
From stdpp Require Export strings.
From S2P Require Import Prelude.

#[global] Open Scope Z_scope.

(** ** Strings *)

(** A Rust [char] is a Unicode scalar value, a [str] a sequence of them. *)
Definition str := list Z.

Definition chr (a : ascii) : Z := Z.of_N (N_of_ascii a).

Fixpoint lit (s : string) : str :=
  match s with
  | EmptyString => []
  | String a s' => chr a :: lit s'
  end.

Definition utf8 (c : Z) : list byte :=
  if c <? 0x80 then [b8 c]
  else if c <? 0x800 then [b8 (0xC0 + c / 64); b8 (0x80 + c mod 64)]
  else if c <? 0x10000 then
    [b8 (0xE0 + c / 4096); b8 (0x80 + (c / 64) mod 64); b8 (0x80 + c mod 64)]
  else
    [b8 (0xF0 + c / 262144); b8 (0x80 + (c / 4096) mod 64);
     b8 (0x80 + (c / 64) mod 64); b8 (0x80 + c mod 64)].

(** [s.as_bytes()]; [s.len()] is its length. *)
Definition str_bytes (s : str) : list byte := concat (map utf8 s).

Definition str_len (s : str) : Z := len (str_bytes s).

(** [char::is_whitespace]: the Unicode property White_Space. *)
Definition is_whitespace (c : Z) : bool :=
  ((9 <=? c) && (c <=? 13)) || (c =? 0x20) || (c =? 0x85) || (c =? 0xA0) || (c =? 0x1680)
  || ((0x2000 <=? c) && (c <=? 0x200A)) || (c =? 0x2028) || (c =? 0x2029) || (c =? 0x202F)
  || (c =? 0x205F) || (c =? 0x3000).

Fixpoint trim_start (s : str) : str :=
  match s with
  | [] => []
  | c :: s' => if is_whitespace c then trim_start s' else s
  end.

Definition trim (s : str) : str := rev (trim_start (rev (trim_start s))).

(** [s.split(sep)] for a single character: always at least one part. *)
Fixpoint split (sep : Z) (s : str) : list str :=
  match s with
  | [] => [[]]
  | c :: s' =>
      if c =? sep then [] :: split sep s'
      else match split sep s' with
           | [] => [[c]]
           | p :: ps => (c :: p) :: ps
           end
  end.

(** [s.split_once(sep)] *)
Fixpoint split_once (sep : Z) (s : str) : option (str * str) :=
  match s with
  | [] => None
  | c :: s' =>
      if c =? sep then Some ([], s')
      else let? (a, b) := split_once sep s' in Some (c :: a, b)
  end.

(** [s.strip_prefix(p)] *)
Fixpoint strip_prefix (p s : str) : option str :=
  match p, s with
  | [], _ => Some s
  | a :: p', b :: s' => if a =? b then strip_prefix p' s' else None
  | _ :: _, [] => None
  end.

(** [s.strip_suffix(p)] *)
Definition strip_suffix (p s : str) : option str :=
  let? r := strip_prefix (rev p) (rev s) in Some (rev r).

(** [s.lines()]: split at line feeds, the empty last line and a carriage
    return before the line feed dropped. *)
Definition drop_cr (l : str) : str :=
  match rev l with
  | 13 :: r => rev r
  | _ => l
  end.

Fixpoint lines_aux (parts : list str) : list str :=
  match parts with
  | [] => []
  | [p] => match p with [] => [] | _ => [p] end
  | p :: ps => drop_cr p :: lines_aux ps
  end.

Definition lines (s : str) : list str := lines_aux (split 10 s).

(** ** Integer parsing *)

Definition to_digit (radix : Z) (b : byte) : option Z :=
  let c := u8 b in
  let d := if (48 <=? c) && (c <=? 57) then c - 48
           else if (97 <=? c) && (c <=? 122) then c - 87
           else if (65 <=? c) && (c <=? 90) then c - 55
           else radix in
  if d <? radix then Some d else None.

Fixpoint digits_acc (radix max acc : Z) (bs : list byte) : option Z :=
  match bs with
  | [] => Some acc
  | b :: r =>
      let? d := to_digit radix b in
      let v := acc * radix + d in
      if v <=? max then digits_acc radix max v r else None
  end.

(** [from_str_radix] of an unsigned type with the given maximum; a leading
    plus sign is accepted, the empty string and a lone sign are not. *)
Definition from_str_radix (radix max : Z) (bs : list byte) : option Z :=
  match bs with
  | [] => None
  | b :: r =>
      if u8 b =? 43 then match r with [] => None | _ => digits_acc radix max 0 r end
      else digits_acc radix max 0 bs
  end.

Definition parse_u16 (s : str) : option Z := from_str_radix 10 (2 ^ 16 - 1) (str_bytes s).
Definition parse_u32 (s : str) : option Z := from_str_radix 10 (2 ^ 32 - 1) (str_bytes s).
Definition parse_usize (s : str) : option Z := from_str_radix 10 (2 ^ 64 - 1) (str_bytes s).

(** [s.is_char_boundary(i)] on the UTF-8 bytes of [s]. *)
Definition is_char_boundary (bs : list byte) (i : Z) : bool :=
  if i =? len bs then true
  else if (0 <=? i) && (i <? len bs) then
    let c := u8 (elt bs i) in negb ((0x80 <=? c) && (c <? 0xC0))
  else false.

(** [&s[a..b]] on the UTF-8 bytes of [s]: off a char boundary it panics. *)
Definition str_slice (bs : list byte) (a b : Z) : rs (list byte) :=
  if (a <=? b) && is_char_boundary bs a && is_char_boundary bs b
  then slice bs a b else Panic.

(** ** Formatting *)

Definition hex_digit (n : Z) : Z := if n <? 10 then 48 + n else 87 + n.

(** [format!("{b:02x}")] *)
Definition fmt_02x (b : byte) : str := [hex_digit (u8 b / 16); hex_digit (u8 b mod 16)].

(** [format!("{n}")] of an unsigned integer below [10^k], [k] the fuel. *)
Fixpoint fmt_dec_fuel (fuel : nat) (n : Z) (acc : str) : str :=
  match fuel with
  | O => acc
  | S f =>
      let acc' := 48 + n mod 10 :: acc in
      if n / 10 =? 0 then acc' else fmt_dec_fuel f (n / 10) acc'
  end.

(** Twenty digits hold any [u64]. *)
Definition fmt_dec (n : Z) : str := fmt_dec_fuel 20 n [].

(** ** IP addresses *)

(** [IpAddr], by octets: four for [V4], sixteen for [V6]. *)
Inductive IpAddr :=
| V4 (octets : list byte)
| V6 (octets : list byte).

Definition octets (a : IpAddr) : list byte := match a with V4 o | V6 o => o end.

Definition ip_wf (a : IpAddr) : Prop :=
  match a with V4 o => length o = 4%nat | V6 o => length o = 16%nat end.

#[global] Instance IpAddr_eq_dec : EqDecision IpAddr.
Proof. solve_decision. Defined.

#[global] Instance IpAddr_countable : Countable IpAddr.
Proof.
  refine (inj_countable' (fun a => match a with V4 o => inl o | V6 o => inr o end)
            (fun s => match s with inl o => V4 o | inr o => V6 o end) _).
  by intros [].
Defined.

(** *** The textual parser ([core::net::parser])

    A parser takes the remaining bytes and returns a value with what is left;
    on failure nothing is consumed. *)

Definition parser (A : Type) := list byte -> option (A * list byte).

Definition read_given_char (c : Z) : parser unit := fun s =>
  match s with
  | b :: r => if u8 b =? c then Some (tt, r) else None
  | [] => None
  end.

(** [read_separator]: the separator is required before every item but the
    first. *)
Definition read_separator {A} (sep : Z) (index : nat) (inner : parser A) : parser A := fun s =>
  match index with
  | O => inner s
  | S _ => let? (_, r) := read_given_char sep s in inner r
  end.

(** The digits of [read_number] with a digit limit. *)
Fixpoint read_digits (fuel : nat) (radix acc : Z) (count : nat) (s : list byte)
    : Z * nat * list byte :=
  match fuel, s with
  | S f, b :: r =>
      match to_digit radix b with
      | Some d => read_digits f radix (acc * radix + d) (S count) r
      | None => (acc, count, s)
      end
  | _, _ => (acc, count, s)
  end.

(** [read_number(radix, Some(max_digits), allow_zero_prefix)] of a type with
    the given maximum.  Reading one digit more than the limit fails, so the
    limit plus one is fuel enough. *)
Definition read_number (radix max : Z) (max_digits : nat) (allow_zero_prefix : bool)
    : parser Z := fun s =>
  let leading_zero := match s with b :: _ => u8 b =? 48 | [] => false end in
  let '(v, count, r) := read_digits (S max_digits) radix 0 0 s in
  if (max_digits <? count)%nat then None
  else if (count =? 0)%nat then None
  else if negb allow_zero_prefix && leading_zero && (1 <? count)%nat then None
  else if v <=? max then Some (v, r) else None.

Fixpoint read_v4_groups (n i : nat) (acc : list byte) : parser (list byte) := fun s =>
  match n with
  | O => Some (acc, s)
  | S n' =>
      let? (v, r) := read_separator 46 i (read_number 10 255 3 false) s in
      read_v4_groups n' (S i) (acc ++ [b8 v]) r
  end.

Definition read_ipv4_addr : parser (list byte) := read_v4_groups 4 0 [].

(** [read_groups]: the groups read so far (as octets), whether an embedded
    IPv4 address ended them, and the rest; [left] groups are still free. *)
Fixpoint read_groups (left i : nat) (acc : list byte) (s : list byte)
    : list byte * bool * list byte :=
  match left with
  | O => (acc, false, s)
  | S left' =>
      let group :=
        match read_separator 58 i (read_number 16 65535 4 true) s with
        | Some (g, r) => read_groups left' (S i) (acc ++ be_bytes 2 g) r
        | None => (acc, false, s)
        end in
      match left' with
      | O => group
      | S _ =>
          match read_separator 58 i read_ipv4_addr s with
          | Some (v4, r) => (acc ++ v4, true, r)
          | None => group
          end
      end
  end.

Definition read_ipv6_addr : parser (list byte) := fun s =>
  let '(head, head_ipv4, r) := read_groups 8 0 [] s in
  if (length head =? 16)%nat then Some (head, r)
  else if head_ipv4 then None
  else
    let? (_, r1) := read_given_char 58 r in
    let? (_, r2) := read_given_char 58 r1 in
    let limit := (8 - (length head / 2 + 1))%nat in
    let '(tail, _, r3) := read_groups limit 0 [] r2 in
    Some (head ++ replicate (16 - length head - length tail) (b8 0) ++ tail, r3).

(** [s.parse::<IpAddr>()]: the whole input has to be consumed. *)
Definition parse_ip (s : str) : option IpAddr :=
  let bs := str_bytes s in
  let '(a, r) :=
    match read_ipv4_addr bs with
    | Some (o, r) => (Some (V4 o), r)
    | None => match read_ipv6_addr bs with
              | Some (o, r) => (Some (V6 o), r)
              | None => (None, bs)
              end
    end in
  match r with [] => a | _ => None end.

(** ** Time

    An [Instant] is a number of nanoseconds on the monotonic clock, a
    [Duration] a number of nanoseconds. *)

Definition Instant := Z.
Definition Duration := Z.
Definition from_secs (s : Z) : Duration := s * 1000000000.
Definition as_secs (d : Duration) : Z := d / 1000000000.

(** [a.duration_since(b)] and [saturating_duration_since]: zero when [b] is
    later. *)
Definition duration_since (a b : Instant) : Duration := Z.max 0 (a - b).

(** ** Lemmas *)

Lemma read_v4_groups_length n i acc s o r :
  read_v4_groups n i acc s = Some (o, r) -> length o = (length acc + n)%nat.
Proof.
  revert i acc s. induction n as [|n IH]; intros i acc s; simpl.
  - intros [= <- <-]. lia.
  - destruct (read_separator _ _ _ s) as [[v r']|]; [|done].
    intros ->%IH. rewrite length_app. simpl. lia.
Qed.

Lemma length_be_bytes n z : length (be_bytes n z) = n.
Proof. pose proof (len_be_bytes n z). unfold len in *. lia. Qed.

Lemma read_groups_length left i acc s o v r :
  read_groups left i acc s = (o, v, r) ->
  (length acc <= length o <= length acc + 2 * left)%nat /\
  (Nat.Even (length acc) -> Nat.Even (length o)).
Proof.
  revert i acc s o v r. induction left as [|left IH]; intros i acc s o v r; [intros [= <- <- <-]; split; [lia|done]|].
  cbn [read_groups].
  assert (Hg : forall o v r,
    match read_separator 58 i (read_number 16 65535 4 true) s with
    | Some (g, r) => read_groups left (S i) (acc ++ be_bytes 2 g) r
    | None => (acc, false, s)
    end = (o, v, r) ->
    (length acc <= length o <= length acc + 2 * S left)%nat /\
    (Nat.Even (length acc) -> Nat.Even (length o))).
  { clear o v r. intros o v r. destruct (read_separator _ _ _ s) as [[g r']|].
    - intros [Hl He]%IH. rewrite length_app, length_be_bytes in *. split; [lia|].
      intros [k Hk]. apply He. exists (S k). lia.
    - intros [= <- <- <-]. split; [lia|done]. }
  destruct left as [|left]; [apply Hg|].
  destruct (read_separator 58 i read_ipv4_addr s) as [[v4 r']|] eqn:E4; [|apply Hg].
  intros [= <- <- <-]. rewrite length_app.
  assert (length v4 = 4%nat) as ->.
  { destruct i; simpl in E4.
    - by apply read_v4_groups_length in E4.
    - destruct (read_given_char 58 s) as [[[] ?]|]; [|done].
      by apply read_v4_groups_length in E4. }
  split; [lia|]. intros [k Hk]. exists (k + 2)%nat. lia.
Qed.

(** Every parsed address has the octet count of its family. *)
Lemma parse_ip_wf s a : parse_ip s = Some a -> ip_wf a.
Proof.
  unfold parse_ip. destruct (read_ipv4_addr (str_bytes s)) as [[o r]|] eqn:E4.
  - destruct r; [|done]. intros [= <-]. by apply read_v4_groups_length in E4.
  - destruct (read_ipv6_addr (str_bytes s)) as [[o r]|] eqn:E6; [|by destruct (str_bytes s)].
    destruct r; [|done]. intros [= <-]. unfold read_ipv6_addr in E6. simpl.
    destruct (read_groups 8 0 [] (str_bytes s)) as [[head v] r] eqn:Eh.
    apply read_groups_length in Eh as [Hl He]. simpl in Hl, He.
    destruct (length head =? 16)%nat eqn:E16; [apply Nat.eqb_eq in E16; congruence|].
    apply Nat.eqb_neq in E16. destruct v; [done|].
    destruct (read_given_char 58 r) as [[[] r1]|]; [|done].
    destruct (read_given_char 58 r1) as [[[] r2]|]; [|done].
    destruct (read_groups _ 0 [] r2) as [[tail v'] r3] eqn:Et.
    apply read_groups_length in Et as [Hl' _]. injection E6 as <- _. cbn [length] in Hl'.
    rewrite !length_app, length_replicate.
    destruct He as [k Hk]; [exists 0%nat; lia|].
    assert (length head / 2 = k)%nat as Hd by (rewrite Hk, Nat.mul_comm; apply Nat.div_mul; lia).
    rewrite Hd in Hl'. lia.
Qed.

Lemma trim_start_id s c s' : s = c :: s' -> is_whitespace c = false -> trim_start s = s.
Proof. intros -> H. simpl. by rewrite H. Qed.

(** A string without white space is its own trim. *)
Lemma trim_id s : Forall (fun c => is_whitespace c = false) s -> trim s = s.
Proof.
  intros H. unfold trim.
  assert (Hs : forall t, Forall (fun c => is_whitespace c = false) t -> trim_start t = t).
  { intros [|c t] Ht; [done|]. inversion Ht; subst. by eapply trim_start_id. }
  rewrite (Hs s) by done. rewrite Hs; [apply rev_involutive|].
  by apply Forall_rev.
Qed.

Lemma str_bytes_app s t : str_bytes (s ++ t) = str_bytes s ++ str_bytes t.
Proof. unfold str_bytes. by rewrite map_app, concat_app. Qed.

Lemma str_bytes_cons c s : str_bytes (c :: s) = utf8 c ++ str_bytes s.
Proof. done. Qed.

Definition is_ascii (c : Z) : Prop := 0 <= c < 128.

Lemma str_bytes_ascii s : Forall is_ascii s -> str_bytes s = map b8 s.
Proof.
  unfold is_ascii. induction 1 as [|c s Hc Hs IH]; [done|]. rewrite str_bytes_cons, IH. unfold utf8.
  destruct (c <? 0x80) eqn:E; [done|lia].
Qed.

Lemma hex_digit_range n : 0 <= n < 16 -> 48 <= hex_digit n <= 102.
Proof. unfold hex_digit. destruct (n <? 10) eqn:E; lia. Qed.

Lemma to_digit_hex n : 0 <= n < 16 -> to_digit 16 (b8 (hex_digit n)) = Some n.
Proof.
  intros. pose proof (hex_digit_range n ltac:(lia)). unfold to_digit.
  rewrite u8_b8_small by lia. unfold hex_digit in *.
  destruct (n <? 10) eqn:E.
  - replace ((48 <=? 48 + n) && (48 + n <=? 57)) with true by lia.
    replace (48 + n - 48) with n by lia. by replace (n <? 16) with true by lia.
  - replace ((48 <=? 87 + n) && (87 + n <=? 57)) with false by lia.
    replace ((97 <=? 87 + n) && (87 + n <=? 122)) with true by lia.
    replace (87 + n - 87) with n by lia. by replace (n <? 16) with true by lia.
Qed.

Lemma hex_digit_not_ws n : 0 <= n < 16 -> is_whitespace (hex_digit n) = false.
Proof. intros. pose proof (hex_digit_range n ltac:(lia)). unfold is_whitespace. lia. Qed.

(** Two hex digits parse back to their byte. *)
Lemma from_str_radix_02x b : from_str_radix 16 255 (map b8 (fmt_02x b)) = Some (u8 b).
Proof.
  pose proof (u8_range b). unfold fmt_02x. cbn [map from_str_radix].
  assert (0 <= u8 b / 16 < 16) by (split; [apply Z.div_pos|apply Z.div_lt_upper_bound]; lia).
  pose proof (Z.mod_pos_bound (u8 b) 16 ltac:(lia)).
  rewrite u8_b8_small by (pose proof (hex_digit_range (u8 b / 16) ltac:(lia)); lia).
  pose proof (hex_digit_range (u8 b / 16) ltac:(lia)).
  destruct (hex_digit (u8 b / 16) =? 43) eqn:E; [lia|].
  cbn [digits_acc]. rewrite !to_digit_hex by lia.
  pose proof (Z.div_mod (u8 b) 16 ltac:(lia)).
  replace (0 * 16 + u8 b / 16 <=? 255) with true by lia.
  replace ((0 * 16 + u8 b / 16) * 16 + u8 b mod 16) with (u8 b) by lia.
  by replace (u8 b <=? 255) with true by lia.
Qed.

Lemma fmt_02x_ascii b : Forall is_ascii (fmt_02x b).
Proof.
  pose proof (u8_range b). unfold fmt_02x, is_ascii.
  assert (0 <= u8 b / 16 < 16) by (split; [apply Z.div_pos|apply Z.div_lt_upper_bound]; lia).
  pose proof (Z.mod_pos_bound (u8 b) 16 ltac:(lia)).
  repeat constructor; match goal with |- context [hex_digit ?n] =>
    pose proof (hex_digit_range n ltac:(lia)); lia end.
Qed.
