(* ===== verification/Decimal.v ===== *)
(** * Decimal text

    Signed integer parsing and zero-padded printing, as Rust's [parse] and
    [format!] do them, and what relates printing to parsing; shared by the files
    that read or write numbers as text. *)

From S2P Require Import Prelude Std.

(** [s.parse::<i32>()]: a sign is allowed, alone it is not. *)
Definition parse_i32 (s : str) : option Z :=
  match str_bytes s with
  | [] => None
  | b :: r =>
      if u8 b =? 43 then match r with [] => None | _ => digits_acc 10 (2 ^ 31 - 1) 0 r end
      else if u8 b =? 45 then
        match r with [] => None | _ => option_map Z.opp (digits_acc 10 (2 ^ 31) 0 r) end
      else digits_acc 10 (2 ^ 31 - 1) 0 (b :: r)
  end.

(** [format!("{n:0w$}")] of a non-negative integer. *)
Definition fmt_0 (w : nat) (n : Z) : str :=
  let s := fmt_dec n in replicate (w - length s) 48 ++ s.

(** The same of a signed one: the sign comes first and counts. *)
Definition fmt_i0 (w : nat) (n : Z) : str :=
  if n <? 0 then 45 :: fmt_0 (w - 1) (- n) else fmt_0 w n.

(** ** Lemmas *)

Definition is_digit (c : Z) : Prop := 48 <= c <= 57.

Definition dec_val (acc : Z) (s : str) : Z := foldl (fun a c => a * 10 + (c - 48)) acc s.

Lemma fmt_dec_fuel_spec k n acc :
  0 <= n < 10 ^ Z.of_nat k -> (0 < k)%nat ->
  exists s, fmt_dec_fuel k n acc = s ++ acc /\ s <> [] /\ Forall is_digit s /\ dec_val 0 s = n.
Proof.
  revert n acc. induction k as [|k IH]; intros n acc Hn Hk; [lia|]. cbn [fmt_dec_fuel].
  pose proof (Z.mod_pos_bound n 10 eq_refl). pose proof (Z.div_mod n 10 ltac:(lia)).
  destruct (n / 10 =? 0) eqn:E.
  { exists [48 + n mod 10]. split; [done|]. split; [done|]. split; [by repeat constructor; unfold is_digit; lia|].
    unfold dec_val. simpl. lia. }
  rewrite Nat2Z.inj_succ, Z.pow_succ_r in Hn by lia.
  assert (k <> 0%nat) by (intros ->; simpl in Hn; lia).
  destruct (IH (n / 10) (48 + n mod 10 :: acc)) as (s & -> & Hs & Hd & Hv); [lia|lia|].
  exists (s ++ [48 + n mod 10]). split; [by rewrite <- app_assoc|]. split; [by destruct s|].
  split; [apply Forall_app; split; [done|]; repeat constructor; unfold is_digit; lia|].
  unfold dec_val in *. rewrite foldl_snoc, Hv. lia.
Qed.

Lemma dec_val_mono s acc : 0 <= acc -> Forall is_digit s -> acc <= dec_val acc s.
Proof.
  intros Ha Hs. revert acc Ha. induction Hs as [|c s Hc _ IH]; intros acc Ha; unfold dec_val in *; simpl; [lia|].
  unfold is_digit in Hc. specialize (IH (acc * 10 + (c - 48)) ltac:(lia)). lia.
Qed.

Lemma digits_acc_dec s acc max :
  0 <= acc -> Forall is_digit s -> dec_val acc s <= max ->
  digits_acc 10 max acc (map b8 s) = Some (dec_val acc s).
Proof.
  intros Ha Hs. revert acc Ha. induction Hs as [|c s Hc Hs IH]; intros acc Ha Hm; [done|].
  unfold is_digit in Hc. cbn [map digits_acc]. unfold to_digit. rewrite u8_b8_small by lia.
  assert (acc * 10 + (c - 48) <= dec_val (acc * 10 + (c - 48)) s) by (apply dec_val_mono; [lia|done]).
  change (dec_val acc (c :: s)) with (dec_val (acc * 10 + (c - 48)) s) in *.
  destruct ((48 <=? c) && (c <=? 57)) eqn:E; [|bools; lia].
  destruct (c - 48 <? 10) eqn:E2; [|lia]. cbn. destruct (_ <=? max) eqn:E3; [|lia]. apply IH; lia.
Qed.

Lemma parse_u32_fmt_dec q : 0 <= q < 2 ^ 32 -> parse_u32 (fmt_dec q) = Some q.
Proof.
  intros Hq. unfold parse_u32, fmt_dec.
  destruct (fmt_dec_fuel_spec 20 q []) as (s & -> & Hs & Hd & Hv); [simpl; lia|lia|]. rewrite app_nil_r.
  rewrite str_bytes_ascii by (eapply Forall_impl; [exact Hd|]; unfold is_digit, is_ascii; intros; lia).
  destruct s as [|c s]; [done|]. cbn [map from_str_radix].
  pose proof (Forall_inv Hd) as Hc. unfold is_digit in Hc. rewrite u8_b8_small by lia.
  destruct (c =? 43) eqn:E; [lia|]. change (b8 c :: map b8 s) with (map b8 (c :: s)).
  rewrite digits_acc_dec by (try done; lia). by rewrite Hv.
Qed.

Lemma fmt_dec_spec n :
  0 <= n < 10 ^ 20 -> fmt_dec n <> [] /\ Forall is_digit (fmt_dec n) /\ dec_val 0 (fmt_dec n) = n.
Proof.
  intros Hn. unfold fmt_dec. destruct (fmt_dec_fuel_spec 20 n []) as (s & -> & H); [simpl; lia|lia|].
  by rewrite app_nil_r.
Qed.

Lemma fmt_dec_fuel_len k n acc w :
  0 <= n < 10 ^ Z.of_nat w -> (0 < w)%nat -> (length (fmt_dec_fuel k n acc) <= w + length acc)%nat.
Proof.
  revert n acc w. induction k as [|k IH]; intros n acc w Hn Hw; cbn [fmt_dec_fuel]; [lia|].
  destruct (n / 10 =? 0) eqn:E; [simpl; lia|]. destruct w as [|w]; [lia|].
  rewrite Nat2Z.inj_succ, Z.pow_succ_r in Hn by lia. pose proof (Z.div_mod n 10 ltac:(lia)).
  pose proof (Z.mod_pos_bound n 10 eq_refl).
  assert (w <> 0%nat) by (intros ->; simpl in Hn; lia).
  etrans; [apply (IH _ _ w); [lia|lia]|]. simpl. lia.
Qed.

Lemma dec_val_zeros k s : dec_val 0 (replicate k 48 ++ s) = dec_val 0 s.
Proof. induction k as [|k IH]; [done|]. exact IH. Qed.

Lemma dec_val_acc acc s : dec_val acc s = acc * 10 ^ len s + dec_val 0 s.
Proof.
  revert acc. induction s as [|c s IH]; intros acc; [unfold dec_val; change (len (@nil Z)) with 0; cbn [foldl]; lia|].
  unfold dec_val in *. cbn [foldl]. rewrite IH, (IH (0 * 10 + _)).
  replace (len (c :: s)) with (1 + len s) by llia. rewrite Z.pow_add_r by llia. lia.
Qed.

Lemma dec_val_app a b : dec_val 0 (a ++ b) = dec_val 0 a * 10 ^ len b + dec_val 0 b.
Proof. unfold dec_val at 1. rewrite foldl_app. apply dec_val_acc. Qed.

(** A padded number has exactly the given width, and its digits are the number. *)
Lemma fmt_0_spec w n :
  0 <= n < 10 ^ Z.of_nat w -> (0 < w <= 20)%nat ->
  length (fmt_0 w n) = w /\ Forall is_digit (fmt_0 w n) /\ dec_val 0 (fmt_0 w n) = n.
Proof.
  intros Hn Hw. unfold fmt_0.
  assert (10 ^ Z.of_nat w <= 10 ^ 20) by (apply Z.pow_le_mono_r; lia).
  destruct (fmt_dec_spec n) as (_ & Hd & Hv); [lia|].
  pose proof (fmt_dec_fuel_len 20 n [] w Hn ltac:(lia)) as Hl. fold (fmt_dec n) in Hl. simpl in Hl.
  split; [rewrite length_app, length_replicate; lia|]. split; [|by rewrite dec_val_zeros].
  apply Forall_app. split; [|done]. apply Forall_replicate. unfold is_digit. lia.
Qed.

Lemma dec_val_bound s : Forall is_digit s -> 0 <= dec_val 0 s < 10 ^ len s.
Proof.
  induction 1 as [|c s Hc Hs IH]; [done|]. unfold dec_val in *. cbn [foldl]. fold (dec_val (0 * 10 + (c - 48)) s).
  rewrite dec_val_acc. unfold dec_val, is_digit in *. replace (len (c :: s)) with (1 + len s) by llia.
  rewrite Z.pow_add_r by llia. nia.
Qed.
