(* ===== verification/Text.v ===== *)
(** * Text the tools read and print

    The rest of Rust's text handling that the status interface and the control
    tool use: decoding UTF-8 ([std::str::from_utf8], [String::from_utf8_lossy]),
    the order of strings, [join], and printing IP addresses. *)

From S2P Require Import Prelude Std Decimal.

(** ** UTF-8 *)

(** The second byte a first byte of a longer sequence allows, and how many
    continuation bytes follow that one. *)
Definition utf8_lead (b : Z) : option (Z * Z * nat) :=
  if (0xC2 <=? b) && (b <=? 0xDF) then Some (0x80, 0xBF, 0%nat)
  else if b =? 0xE0 then Some (0xA0, 0xBF, 1%nat)
  else if b =? 0xED then Some (0x80, 0x9F, 1%nat)
  else if (0xE1 <=? b) && (b <=? 0xEF) then Some (0x80, 0xBF, 1%nat)
  else if b =? 0xF0 then Some (0x90, 0xBF, 2%nat)
  else if (0xF1 <=? b) && (b <=? 0xF3) then Some (0x80, 0xBF, 2%nat)
  else if b =? 0xF4 then Some (0x80, 0x8F, 2%nat)
  else None.

Definition is_cont (b : byte) : bool := (0x80 <=? u8 b) && (u8 b <=? 0xBF).

(** Characters, and [None] for each ill-formed part: a byte that cannot start a
    sequence, or the bytes of a sequence up to the one that breaks it. *)
Fixpoint utf8_chunks (bs : list byte) : list (option Z) :=
  match bs with
  | [] => []
  | b0 :: r0 =>
      if u8 b0 <? 0x80 then Some (u8 b0) :: utf8_chunks r0
      else
        match utf8_lead (u8 b0), r0 with
        | Some (lo, hi, more), b1 :: r1 =>
            if (lo <=? u8 b1) && (u8 b1 <=? hi) then
              match more with
              | O => Some (u8 b0 mod 32 * 64 + u8 b1 mod 64) :: utf8_chunks r1
              | S more' =>
                  match r1 with
                  | b2 :: r2 =>
                      if is_cont b2 then
                        match more' with
                        | O => Some (u8 b0 mod 16 * 4096 + u8 b1 mod 64 * 64 + u8 b2 mod 64)
                               :: utf8_chunks r2
                        | S _ =>
                            match r2 with
                            | b3 :: r3 =>
                                if is_cont b3 then
                                  Some (u8 b0 mod 8 * 262144 + u8 b1 mod 64 * 4096
                                        + u8 b2 mod 64 * 64 + u8 b3 mod 64) :: utf8_chunks r3
                                else None :: utf8_chunks r2
                            | [] => [None]
                            end
                        end
                      else None :: utf8_chunks r1
                  | [] => [None]
                  end
              end
            else None :: utf8_chunks r0
        | _, _ => None :: utf8_chunks r0
        end
  end.

Fixpoint all_some {A} (l : list (option A)) : option (list A) :=
  match l with
  | [] => Some []
  | o :: l' => let? x := o in let? r := all_some l' in Some (x :: r)
  end.

Definition from_utf8 (bs : list byte) : option str := all_some (utf8_chunks bs).

Definition from_utf8_lossy (bs : list byte) : str :=
  map (fun c => match c with Some c => c | None => 0xFFFD end) (utf8_chunks bs).

(** A Unicode scalar value. *)
Definition is_scalar (c : Z) : Prop := 0 <= c < 0xD800 \/ 0xE000 <= c <= 0x10FFFF.

(** ** Strings *)

(** [Ord for str], which compares the UTF-8 encodings: the order of the scalar
    values, position by position. *)
Fixpoint str_ltb (s t : str) : bool :=
  match s, t with
  | _, [] => false
  | [], _ :: _ => true
  | c :: s', d :: t' => (c <? d) || ((c =? d) && str_ltb s' t')
  end.

(** [parts.join(sep)] *)
Fixpoint join (sep : str) (parts : list str) : str :=
  match parts with
  | [] => []
  | [p] => p
  | p :: rest => p ++ sep ++ join sep rest
  end.

(** [s.starts_with(p)] *)
Definition starts_with (p s : str) : bool :=
  match strip_prefix p s with Some _ => true | None => false end.

(** ** IP addresses *)

(** [format!("{:x}")] of a sixteen-bit integer. *)
Definition fmt_x16 (n : Z) : str :=
  if n <? 16 then [hex_digit n]
  else if n <? 256 then [hex_digit (n / 16); hex_digit (n mod 16)]
  else if n <? 4096 then [hex_digit (n / 256); hex_digit (n / 16 mod 16); hex_digit (n mod 16)]
  else [hex_digit (n / 4096); hex_digit (n / 256 mod 16); hex_digit (n / 16 mod 16); hex_digit (n mod 16)].

Definition fmt_ipv4 (o : list byte) : str := join (lit ".") (map (fun b => fmt_dec (u8 b)) o).

Fixpoint segments (o : list byte) : list Z :=
  match o with
  | a :: b :: r => (u8 a * 256 + u8 b) :: segments r
  | _ => []
  end.

(** The first longest run of zero segments: its start and length. *)
Fixpoint longest_zeros (i : nat) (l : list Z) (current longest : nat * nat) : nat * nat :=
  match l with
  | [] => longest
  | seg :: r =>
      if seg =? 0 then
        let current := (if (current.2 =? 0)%nat then i else current.1, S current.2) in
        longest_zeros (S i) r current (if (longest.2 <? current.2)%nat then current else longest)
      else longest_zeros (S i) r (0%nat, 0%nat) longest
  end.

Definition fmt_segments (l : list Z) : str := join (lit ":") (map fmt_x16 l).

Definition fmt_ipv6 (o : list byte) : str :=
  if bool_decide (take 12 o = zeros 10 ++ [0xff; 0xff]%u8) then lit "::ffff:" ++ fmt_ipv4 (drop 12 o)
  else
    let segs := segments o in
    let '(start, n) := longest_zeros 0 segs (0%nat, 0%nat) (0%nat, 0%nat) in
    if (1 <? n)%nat then fmt_segments (take start segs) ++ lit "::" ++ fmt_segments (drop (start + n) segs)
    else fmt_segments segs.

(** [s.contains(p)] *)
Definition contains_str (p s : str) : bool :=
  List.existsb (fun i => bool_decide (take (length p) (drop i s) = p)) (seq 0 (S (length s))).

(** [address.to_string()] *)
Definition ip_to_string (a : IpAddr) : str :=
  match a with V4 o => fmt_ipv4 o | V6 o => fmt_ipv6 o end.

(** ** Lemmas *)

#[local] Ltac Zify.zify_post_hook ::= Z.to_euclidean_division_equations.

Lemma utf8_chunks_char c r : is_scalar c -> utf8_chunks (utf8 c ++ r) = Some c :: utf8_chunks r.
Proof.
  unfold is_scalar. intros Hc. unfold utf8.
  destruct (c <? 0x80) eqn:E1.
  { cbn [app utf8_chunks]. rewrite u8_b8_small by lia. by rewrite E1. }
  destruct (c <? 0x800) eqn:E2; [|destruct (c <? 0x10000) eqn:E3]; cbn [app utf8_chunks];
    unfold utf8_lead, is_cont; rewrite !u8_b8_small by lia;
    repeat (case_goal; try (exfalso; bools; lia); cbv beta iota); f_equal; f_equal; lia.
Qed.

Lemma from_utf8_str_bytes s : Forall is_scalar s -> from_utf8 (str_bytes s) = Some s.
Proof.
  unfold from_utf8. induction 1 as [|c s Hc _ IH]; [done|].
  rewrite str_bytes_cons, utf8_chunks_char by done. cbn [all_some]. by rewrite IH.
Qed.

Lemma ascii_scalar s : Forall is_ascii s -> Forall is_scalar s.
Proof. intros Hs. eapply Forall_impl; [exact Hs|]. unfold is_ascii, is_scalar. lia. Qed.

Lemma from_utf8_ascii s : Forall is_ascii s -> from_utf8 (map b8 s) = Some s.
Proof. intros Hs. rewrite <- str_bytes_ascii by done. apply from_utf8_str_bytes, ascii_scalar, Hs. Qed.

Lemma str_ltb_irrefl s : str_ltb s s = false.
Proof. induction s as [|c s IH]; [done|]. cbn. rewrite IH. lia. Qed.

Lemma str_ltb_trans s t u : str_ltb s t = true -> str_ltb t u = true -> str_ltb s u = true.
Proof.
  revert t u. induction s as [|c s IH]; intros [|d t] [|e u]; cbn; try done. intros H1 H2.
  apply orb_true_iff in H1 as [H1|H1], H2 as [H2|H2]; apply orb_true_iff; try (left; bools; lia).
  right. bools. apply andb_true_iff. split; [lia|]. by eapply IH.
Qed.

Lemma str_ltb_total s t : s <> t -> str_ltb s t = false -> str_ltb t s = true.
Proof.
  revert t. induction s as [|c s IH]; intros [|d t]; cbn; try done. intros Hne H.
  apply orb_false_iff in H as [H1 H2]. destruct (c =? d) eqn:E; [|apply orb_true_iff; left; lia].
  assert (c = d) as -> by lia. apply orb_true_iff. right. rewrite Z.eqb_refl. apply IH; [congruence|done].
Qed.

Lemma strip_prefix_app p s : strip_prefix p (p ++ s) = Some s.
Proof. induction p as [|a p IH]; simpl; [done|]. by rewrite Z.eqb_refl. Qed.

Lemma strip_suffix_app p s : strip_suffix p (s ++ p) = Some s.
Proof. unfold strip_suffix. rewrite rev_app_distr, strip_prefix_app. cbn. by rewrite rev_involutive. Qed.
