(* ===== verification/BTree.v ===== *)
(** * Ordered maps with string keys

    [BTreeMap<String, A>] as the list of its entries in key order: [alter] is
    [*entry(k).or_insert(..) = f(..)], insertion the case where [f] ignores the
    old value. *)

From S2P Require Import Prelude Std Text.

Section btree.
  Context {A : Type}.

Fixpoint bt_alter (k : str) (f : option A -> A) (m : list (str * A)) : list (str * A) :=
  match m with
  | [] => [(k, f None)]
  | (k', v) :: m' =>
      if bool_decide (k = k') then (k, f (Some v)) :: m'
      else if str_ltb k k' then (k, f None) :: m
      else (k', v) :: bt_alter k f m'
  end.

Definition bt_insert (k : str) (v : A) (m : list (str * A)) : list (str * A) := bt_alter k (fun _ => v) m.

Fixpoint bt_get (k : str) (m : list (str * A)) : option A :=
  match m with
  | [] => None
  | (k', v) :: m' => if bool_decide (k = k') then Some v else bt_get k m'
  end.

Fixpoint bt_sorted (m : list (str * A)) : bool :=
  match m with
  | [] => true
  | e :: m' => match m' with [] => true | e' :: _ => str_ltb e.1 e'.1 && bt_sorted m' end
  end.

(** ** Lemmas *)

(** On sorted entries no key is repeated, so the first one found is the one. *)
Lemma bt_sorted_lt k v m : bt_sorted ((k, v) :: m) = true -> Forall (fun e => str_ltb k e.1 = true) m.
Proof.
  revert k v. induction m as [|[k1 v1] m IH]; intros k v; [constructor|]. cbn [bt_sorted fst].
  intros [H1 H2]%andb_true_iff. constructor; [done|]. eapply Forall_impl; [exact (IH k1 v1 H2)|].
  intros e He. by eapply str_ltb_trans.
Qed.

Lemma bt_get_notin k m : k ∉ m.*1 -> bt_get k m = None.
Proof.
  induction m as [|[k' v] m IH]; [done|]. cbn. intros [Hk Hm]%not_elem_of_cons.
  rewrite bool_decide_false by done. auto.
Qed.

Lemma bt_get_lt k m : Forall (fun e => str_ltb k e.1 = true) m -> bt_get k m = None.
Proof.
  intros Hm. apply bt_get_notin. intros (e & -> & He)%list_elem_of_fmap. rewrite list.Forall_forall in Hm.
  specialize (Hm e He). by rewrite str_ltb_irrefl in Hm.
Qed.

Lemma bt_tail_sorted e m : bt_sorted (e :: m) = true -> bt_sorted m = true.
Proof. destruct m; [done|]. cbn [bt_sorted]. by intros [_ H]%andb_true_iff. Qed.

Lemma bt_get_alter k k' f m :
  bt_sorted m = true -> bt_get k (bt_alter k' f m) = if bool_decide (k = k') then Some (f (bt_get k' m)) else bt_get k m.
Proof.
  induction m as [|[k1 v1] m IH]; intros Hs; cbn [bt_alter bt_get]; [done|].
  destruct (decide (k' = k1)) as [<-|Hne].
  { rewrite !bool_decide_true by done. cbn [bt_get]. by case_goal. }
  rewrite !(bool_decide_false (k' = k1)) by done. destruct (str_ltb k' k1) eqn:E; cbn [bt_get].
  { rewrite (bt_get_lt k' m); [done|]. eapply Forall_impl; [by eapply bt_sorted_lt|].
    intros e He. by eapply str_ltb_trans. }
  rewrite IH by by eapply bt_tail_sorted.
  destruct (decide (k = k1)) as [->|]; [by rewrite bool_decide_true, bool_decide_false by congruence|].
  by rewrite !(bool_decide_false (k = k1)).
Qed.

(** An insertion needs no order. *)
Lemma bt_get_insert k k' v m :
  bt_get k (bt_insert k' v m) = if bool_decide (k = k') then Some v else bt_get k m.
Proof.
  unfold bt_insert. induction m as [|[k1 v1] m IH]; cbn [bt_alter bt_get]; [done|].
  destruct (decide (k' = k1)) as [<-|Hne].
  { rewrite bool_decide_true by done. cbn [bt_get]. by case_goal. }
  rewrite bool_decide_false by done. destruct (str_ltb k' k1); cbn [bt_get]; [done|].
  destruct (decide (k = k1)) as [->|]; [by rewrite !bool_decide_true, bool_decide_false by congruence|].
  by rewrite bool_decide_false, IH by done.
Qed.

Lemma bt_alter_sorted k f m : bt_sorted m = true -> bt_sorted (bt_alter k f m) = true.
Proof.
  induction m as [|[k1 v1] m IH]; [done|]. intros Hs. cbn [bt_alter].
  destruct (decide (k = k1)) as [<-|Hne].
  { rewrite bool_decide_true by done. by destruct m. }
  rewrite bool_decide_false by done. destruct (str_ltb k k1) eqn:E.
  { cbn [bt_sorted fst]. by rewrite E. }
  apply str_ltb_total in E; [|done]. destruct m as [|[k2 v2] m].
  { cbn. by rewrite E. }
  cbn [bt_sorted fst] in Hs. apply andb_true_iff in Hs as [H1 H2]. specialize (IH H2). cbn [bt_alter] in *.
  destruct (bool_decide (k = k2)); [cbn [bt_sorted fst] in *; by rewrite E|].
  destruct (str_ltb k k2); cbn [bt_sorted fst] in *; [by rewrite E|]. by rewrite H1.
Qed.

Lemma bt_alter_keys k f m e : e ∈ bt_alter k f m -> e.1 = k \/ e ∈ m.
Proof.
  induction m as [|[k1 v1] m IH]; cbn [bt_alter].
  { intros ->%list_elem_of_singleton. by left. }
  case_goal; [|case_goal]; rewrite ?elem_of_cons; intros; naive_solver.
Qed.

Lemma bt_get_elem k v m : bt_sorted m = true -> (k, v) ∈ m <-> bt_get k m = Some v.
Proof.
  induction m as [|[k1 v1] m IH]; intros Hs; [split; [by intros ?%elem_of_nil|done]|]. cbn [bt_get].
  pose proof (bt_sorted_lt _ _ _ Hs) as Hlt. rewrite elem_of_cons, IH by by eapply bt_tail_sorted.
  destruct (decide (k = k1)) as [<-|Hne].
  - rewrite bool_decide_true by done. rewrite (bt_get_lt _ _ Hlt). naive_solver.
  - rewrite bool_decide_false by done. naive_solver.
Qed.

Lemma bt_get_app k l m : bt_get k (l ++ m) = match bt_get k l with Some v => Some v | None => bt_get k m end.
Proof. induction l as [|[k' v] l IH]; [done|]. cbn. by case_goal. Qed.

End btree.
