(* ===== verification/Json.v ===== *)
(** * JSON values

    The values of crate [serde_json] as the daemon builds them and the control
    tool reads them: a map keeps its keys sorted ([BTreeMap], the crate's default)
    and an insertion replaces the value of a key that is there.  Writing a value
    as text and reading it back is the crate's business and is not modelled: the
    daemon's responses and the tool's analyses are functions on values.  [ty] is a
    language of schemas, for stating the shape of a response. *)

From S2P Require Import Prelude Std Text BTree.

#[local] Set Warnings "-register-all".

(** A counter or length is an integer; the two rates are floating-point quotients
    of counters, kept as numerator and denominator. *)
Inductive json :=
| JNull
| JBool (b : bool)
| JNum (n : Z)
| JRatio (num den : Z)
| JStr (s : str)
| JArr (l : list json)
| JObj (m : list (str * json)).

(** ** Objects *)

(** [json!({..})], or the value of a struct: its fields inserted in order. *)
Definition obj (fields : list (str * json)) : json :=
  JObj (foldl (fun m '(k, v) => bt_insert k v m) [] fields).

(** A field with [skip_serializing_if = "Option::is_none"]. *)
Definition skip_none (k : str) (o : option json) : list (str * json) :=
  match o with Some v => [(k, v)] | None => [] end.

(** An [Option] without it. *)
Definition or_null (o : option json) : json := match o with Some v => v | None => JNull end.

(** ** Reading *)

Definition get (k : str) (v : json) : option json :=
  match v with JObj m => bt_get k m | _ => None end.

Definition as_str (v : json) : option str := match v with JStr s => Some s | _ => None end.
Definition as_bool (v : json) : option bool := match v with JBool b => Some b | _ => None end.
Definition as_array (v : json) : option (list json) := match v with JArr l => Some l | _ => None end.

(** An integer of 64 bits that is not negative. *)
Definition as_u64 (v : json) : option Z :=
  match v with JNum n => if (0 <=? n) && (n <? 2 ^ 64) then Some n else None | _ => None end.

(** [v.get(k).and_then(f)] *)
Definition get_as {A} (f : json -> option A) (k : str) (v : json) : option A :=
  let? x := get k v in f x.

Definition or_default {A} (d : A) (o : option A) : A := match o with Some x => x | None => d end.

(** ** Schemas *)

(** [TNum max] is an integer of [0..=max], [TRatio] a finite quotient; a field of [TObj] has its key, whether
    it must be present, and its type; [TMap] has arbitrary keys. *)
Inductive ty :=
| TBool
| TNum (max : Z)
| TRatio
| TStr
| TEnum (names : list str)
| TNullable (t : ty)
| TArr (t : ty)
| TMap (t : ty)
| TObj (fields : list (str * bool * ty)).

(** The keys are sorted without repetition and are all of the schema; every
    required one is there; the values have their types. *)
Fixpoint has_type (t : ty) (v : json) {struct t} : bool :=
  match t, v with
  | TBool, JBool _ => true
  | TNum max, JNum n => (0 <=? n) && (n <=? max)
  | TRatio, JRatio n d => (0 <=? n) && (0 <? d)
  | TStr, JStr _ => true
  | TEnum names, JStr s => existsb (fun n => bool_decide (n = s)) names
  | TNullable _, JNull => true
  | TNullable t', _ => has_type t' v
  | TArr t', JArr l => forallb (has_type t') l
  | TMap t', JObj m => bt_sorted m && forallb (fun e => has_type t' e.2) m
  | TObj fields, JObj m =>
      bt_sorted m
      && forallb (fun e => existsb (fun f => bool_decide (f.1.1 = e.1)) fields) m
      && forallb (fun f => match f with
                           | (k, required, t') =>
                               match bt_get k m with
                               | Some x => has_type t' x
                               | None => negb required
                               end
                           end) fields
  | _, _ => false
  end.

(** ** Lemmas *)

(** The value of a key is the one given last. *)
Lemma get_obj k fs : get k (obj fs) = bt_get k (rev fs).
Proof.
  unfold obj, get. induction fs as [|[k' v] fs IH] using rev_ind; [done|].
  rewrite foldl_snoc, rev_unit. cbn [bt_get]. by rewrite bt_get_insert, IH.
Qed.

Lemma sorted_fields (fs m : list (str * json)) :
  bt_sorted m = true -> bt_sorted (foldl (fun m '(k, v) => bt_insert k v m) m fs) = true.
Proof. revert m. induction fs as [|[k v] fs IH]; intros m Hm; [done|]. apply IH, bt_alter_sorted, Hm. Qed.

Lemma fields_keys (fs m : list (str * json)) e :
  e ∈ foldl (fun m '(k, v) => bt_insert k v m) m fs -> e.1 ∈ fs.*1 \/ e ∈ m.
Proof.
  revert m. induction fs as [|[k v] fs IH]; intros m; [by right|]. cbn [foldl fmap list_fmap fst].
  intros [He|He]%IH; [left; by apply elem_of_cons; right|].
  apply bt_alter_keys in He as [<-|He]; [left; apply elem_of_cons; by left|by right].
Qed.

(** Fields that follow a schema in its order, optional ones possibly missing. *)
Inductive follows : list (str * bool * ty) -> list (str * json) -> Prop :=
| follows_nil : follows [] []
| follows_cons k r t v schema fs :
    has_type t v = true -> follows schema fs -> follows ((k, r, t) :: schema) ((k, v) :: fs)
| follows_skip k t schema fs : follows schema fs -> follows ((k, false, t) :: schema) fs.

Lemma follows_opt k t o schema fs :
  (forall v, o = Some v -> has_type t v = true) -> follows schema fs ->
  follows ((k, false, t) :: schema) (skip_none k o ++ fs).
Proof. intros Ho Hf. destruct o as [v|]; [constructor; auto|by constructor]. Qed.

Definition field_names (schema : list (str * bool * ty)) : list str := (fun f => f.1.1) <$> schema.

Lemma follows_keys schema fs : follows schema fs -> forall k, k ∈ fs.*1 -> k ∈ field_names schema.
Proof.
  induction 1 as [|k r t v schema fs _ _ IH|k t schema fs _ IH]; intros k' Hk; [done| |].
  - cbn in *. apply elem_of_cons in Hk as [->|Hk]; apply elem_of_cons; auto.
  - apply elem_of_cons. auto.
Qed.

Lemma follows_notin schema fs k : follows schema fs -> k ∉ field_names schema -> bt_get k (rev fs) = None.
Proof.
  intros Hf Hk. apply bt_get_notin. intros ((k' & v) & -> & Hin)%list_elem_of_fmap. apply Hk.
  eapply follows_keys; [done|]. apply list_elem_of_fmap. exists (k', v). split; [done|].
  by apply list_elem_of_In, in_rev, list_elem_of_In.
Qed.

Lemma follows_typed schema fs f :
  NoDup (field_names schema) -> follows schema fs -> f ∈ schema ->
  match bt_get f.1.1 (rev fs) with Some x => has_type f.2 x = true | None => f.1.2 = false end.
Proof.
  intros Hnd Hf. induction Hf as [|k r t v schema fs Hv Hf IH|k t schema fs Hf IH]; [by intros ?%elem_of_nil| |];
    apply NoDup_cons in Hnd as [Hk Hnd]; intros [->|Hin]%elem_of_cons.
  - cbn [rev fst snd]. rewrite bt_get_app. erewrite follows_notin by done. cbn. by rewrite bool_decide_true.
  - specialize (IH Hnd Hin). cbn [rev]. rewrite bt_get_app. destruct (bt_get f.1.1 (rev fs)); [done|].
    cbn. rewrite bool_decide_false; [done|]. intros <-. apply Hk, list_elem_of_fmap. by exists f.
  - cbn [fst snd]. by erewrite follows_notin by done.
  - by apply IH.
Qed.

Lemma has_type_obj schema fs :
  NoDup (field_names schema) -> follows schema fs -> has_type (TObj schema) (obj fs) = true.
Proof.
  intros Hnd Hf. unfold obj. cbn [has_type]. apply andb_true_iff. split; [apply andb_true_iff; split|].
  - by apply sorted_fields.
  - apply forallb_forall. intros e He%list_elem_of_In. apply fields_keys in He as [He|He]; [|by apply elem_of_nil in He].
    eapply follows_keys in He; [|done]. apply list_elem_of_fmap in He as (f & Hf' & Hin).
    apply existsb_exists. exists f. split; [by apply list_elem_of_In|]. by apply bool_decide_eq_true.
  - apply forallb_forall. intros [[k req] t] Hin%list_elem_of_In. pose proof (follows_typed _ _ _ Hnd Hf Hin) as Ht.
    cbn [fst snd] in Ht. change (bt_get k (foldl _ [] fs)) with (get k (obj fs)). rewrite get_obj.
    destruct (bt_get k (rev fs)); [done|]. by rewrite Ht.
Qed.

Lemma has_type_arr t l : Forall (fun v => has_type t v = true) l -> has_type (TArr t) (JArr l) = true.
Proof. intros Hl. cbn. apply forallb_forall, List.Forall_forall, Hl. Qed.

Lemma has_type_num max n : 0 <= n <= max -> has_type (TNum max) (JNum n) = true.
Proof. intros. cbn. lia. Qed.
