(* ===== verification/Calendar.v ===== *)
(** * Dates

    Models the time stamps of the JSON log ([format_rfc3339_utc] and
    [civil_from_days] of [pesigitg-daemon/src/utils.rs]) and the dates of the build
    tool ([days_from_civil], [nightly_age_days] and [fmt_duration] of
    [xtask/src/main.rs]).  Both conversions are shown correct against the calendar
    itself: the Gregorian rule for the day after a date. *)

From S2P Require Import Prelude Std Decimal.

#[local] Ltac Zify.zify_post_hook ::= Z.to_euclidean_division_equations.

(** [as i32] *)
Definition i32 (n : Z) : Z := (n + 2 ^ 31) mod 2 ^ 32 - 2 ^ 31.

(** ** The code *)

(** Year, month, day. *)
Definition date : Type := Z * Z * Z.

Definition civil_from_days (z : Z) : date :=
  let z := z + 719468 in
  let era := z / 146097 in
  let doe := z - era * 146097 in
  let yoe := (doe - doe / 1460 + doe / 36524 - doe / 146096) / 365 in
  let y := yoe + era * 400 in
  let doy := doe - (365 * yoe + yoe / 4 - yoe / 100) in
  let mp := (5 * doy + 2) / 153 in
  let d := doy - (153 * mp + 2) / 5 + 1 in
  let m := if mp <? 10 then mp + 3 else mp - 9 in
  let y := if m <=? 2 then y + 1 else y in
  (i32 y, m, d).

Definition format_rfc3339_utc (secs millis : Z) : str :=
  let days := secs / 86400 in
  let tod := secs mod 86400 in
  let '(y, mo, d) := civil_from_days days in
  let h := tod / 3600 in
  let m := (tod mod 3600) / 60 in
  let s := tod mod 60 in
  fmt_i0 4 y ++ lit "-" ++ fmt_0 2 mo ++ lit "-" ++ fmt_0 2 d ++ lit "T" ++ fmt_0 2 h ++ lit ":" ++
  fmt_0 2 m ++ lit ":" ++ fmt_0 2 s ++ lit "." ++ fmt_0 3 millis ++ lit "Z".

Definition days_from_civil (y m d : Z) : Z :=
  let y := if m <=? 2 then i32 (y - 1) else y in
  let era := y / 400 in
  let yoe := y - era * 400 in
  let mp := if 2 <? m then m - 3 else m + 9 in
  let doy := (153 * mp + 2) / 5 + d - 1 in
  let doe := yoe * 365 + yoe / 4 - yoe / 100 + doy in
  era * 146097 + doe - 719468.

(** [date.splitn(3, '-')], all three parts required. *)
Definition split3 (s : str) : option (str * str * str) :=
  let? (a, rest) := split_once 45 s in
  let? (b, c) := split_once 45 rest in
  Some (a, b, c).

(** [now] is the Unix time in seconds, if the clock is not before the epoch. *)
Definition nightly_age_days (channel : str) (now : option Z) : option Z :=
  let? date := strip_prefix (lit "nightly-") channel in
  let? (ys, ms, ds) := split3 date in
  let? y := parse_i32 ys in
  let? m := parse_u32 ms in
  let? d := parse_u32 ds in
  let? secs := now in
  Some (secs / 86400 - days_from_civil y m d).

Definition NIGHTLY_STALE_DAYS : Z := 30.

(** Whether [print_toolchain] warns about the pinned channel. *)
Definition nightly_stale (channel : str) (now : option Z) : bool :=
  match nightly_age_days channel now with Some age => NIGHTLY_STALE_DAYS <? age | None => false end.

(** Of a duration in nanoseconds. *)
Definition fmt_duration (d : Duration) : str :=
  let secs := as_secs d in
  if 60 <=? secs then fmt_dec (secs / 60) ++ lit "m " ++ fmt_0 2 (secs mod 60) ++ lit "s"
  else fmt_dec secs ++ lit "." ++ fmt_0 2 (d mod 1000000000 / 1000000 / 10) ++ lit "s".

(** ** The Gregorian calendar *)

Definition leap (y : Z) : bool := (y mod 4 =? 0) && (negb (y mod 100 =? 0) || (y mod 400 =? 0)).

Definition days_in_month (y m : Z) : Z :=
  if m =? 2 then (if leap y then 29 else 28)
  else if (m =? 4) || (m =? 6) || (m =? 9) || (m =? 11) then 30 else 31.

Definition valid_date (t : date) : Prop :=
  let '(y, m, d) := t in 1 <= m <= 12 /\ 1 <= d <= days_in_month y m.

Definition next_day (t : date) : date :=
  let '(y, m, d) := t in
  if d <? days_in_month y m then (y, m, d + 1)
  else if m <? 12 then (y, m + 1, 1)
  else (y + 1, 1, 1).

(** ** Lemmas *)

Lemma i32_small y : - 2 ^ 31 <= y < 2 ^ 31 -> i32 y = y.
Proof. intros. unfold i32. rewrite Z.mod_small by lia. lia. Qed.

(** The year of the era starts in March: day [doy] of it in month [mp], with the
    formula for the days before a month. *)
Definition march_year (z : Z) : Z * Z * Z :=
  let z := z + 719468 in
  let era := z / 146097 in
  let doe := z - era * 146097 in
  let yoe := (doe - doe / 1460 + doe / 36524 - doe / 146096) / 365 in
  (era, yoe, doe - (365 * yoe + yoe / 4 - yoe / 100)).

Lemma march_year_spec z :
  let '(era, yoe, doy) := march_year z in
  0 <= yoe <= 399 /\ 0 <= doy <= 365 /\
  z + 719468 = era * 146097 + (365 * yoe + yoe / 4 - yoe / 100) + doy /\
  (doy = 365 -> leap (yoe + era * 400 + 1) = true).
Proof.
  unfold march_year. set (era := (z + 719468) / 146097). set (doe := z + 719468 - era * 146097).
  assert (0 <= doe < 146097) by (unfold doe, era; lia).
  set (yoe := _ / 365). assert (0 <= yoe <= 399) by (unfold yoe; lia).
  split; [done|]. split; [unfold yoe in *; lia|]. split; [unfold doe; lia|].
  intros Hl. unfold leap.
  assert ((yoe + 1) mod 4 = 0 /\ ((yoe + 1) mod 100 <> 0 \/ yoe = 399)) as [H4 H100] by (unfold yoe in *; lia).
  replace ((yoe + era * 400 + 1) mod 4) with 0 by lia.
  replace ((yoe + era * 400 + 1) mod 100) with ((yoe + 1) mod 100) by lia.
  replace ((yoe + era * 400 + 1) mod 400) with ((yoe + 1) mod 400) by lia.
  destruct H100 as [Hn| ->]; [|done]. destruct ((yoe + 1) mod 100 =? 0) eqn:E; [lia|done].
Qed.

(** The date of day [doy] of a year that starts in March. *)
Definition from_march (y doy : Z) : date :=
  let mp := (5 * doy + 2) / 153 in
  let m := if mp <? 10 then mp + 3 else mp - 9 in
  (if m <=? 2 then y + 1 else y, m, doy - (153 * mp + 2) / 5 + 1).

Lemma civil_from_march z :
  -780000000000 <= z <= 780000000000 ->
  civil_from_days z = let '(era, yoe, doy) := march_year z in from_march (yoe + era * 400) doy.
Proof.
  intros Hz. pose proof (march_year_spec z) as Hs. unfold civil_from_days, march_year in *.
  set (era := (z + 719468) / 146097) in *. set (yoe := (_ - _ / 1460 + _ - _) / 365) in *.
  destruct Hs as (Hy & _). unfold from_march. rewrite i32_small; [done|].
  assert (-5340000 <= era <= 5340000) by (unfold era; lia). clearbody era yoe.
  destruct ((if _ <? 10 then _ else _) <=? 2); lia.
Qed.

(** *** Lengths of months *)

Definition month_start (mp : Z) : Z := (153 * mp + 2) / 5.

Lemma month_index doy : 0 <= doy <= 365 -> 0 <= (5 * doy + 2) / 153 <= 11.
Proof. lia. Qed.

(** Decides the conditions between constants. *)
Ltac const_ifs :=
  repeat match goal with
  | |- context [if ?b then _ else _] =>
      let v := eval vm_compute in b in
      match v with true => change b with true | false => change b with false end; cbv beta iota
  end.

(** Splits on the month of the year that starts in March. *)
Ltac by_month mp H :=
  let Hc := fresh in
  assert (mp = 0 \/ mp = 1 \/ mp = 2 \/ mp = 3 \/ mp = 4 \/ mp = 5 \/ mp = 6 \/ mp = 7 \/ mp = 8 \/ mp = 9 \/
          mp = 10 \/ mp = 11) as Hc by lia;
  repeat destruct Hc as [Hc|Hc]; subst mp.

Lemma from_march_valid y doy :
  0 <= doy <= 365 -> (doy = 365 -> leap (y + 1) = true) -> valid_date (from_march y doy).
Proof.
  intros Hd Hl. unfold from_march. set (mp := (5 * doy + 2) / 153).
  assert (153 * mp <= 5 * doy + 2 < 153 * (mp + 1)) as Hm by (unfold mp; lia).
  assert (0 <= mp <= 11) by (unfold mp; lia). clearbody mp.
  by_month mp Hm; unfold valid_date, days_in_month; const_ifs; try lia.
  destruct (leap (y + 1)) eqn:E; [lia|]. assert (doy <> 365) by (intros Hx; specialize (Hl Hx); congruence). lia.
Qed.

(** Day of the year that starts in March, and that year. *)
Definition to_march (t : date) : Z * Z :=
  let '(y, m, d) := t in
  (if m <=? 2 then y - 1 else y, month_start (if 2 <? m then m - 3 else m + 9) + d - 1).

Lemma to_from_march y doy : 0 <= doy <= 365 -> to_march (from_march y doy) = (y, doy).
Proof.
  intros Hd. unfold from_march, to_march, month_start. set (mp := (5 * doy + 2) / 153).
  assert (0 <= mp <= 11) by (unfold mp; lia). clearbody mp. by_month mp H; const_ifs; f_equal; lia.
Qed.

Lemma month_at mp d :
  0 <= mp <= 11 -> 1 <= d -> month_start mp + d - 1 < month_start (mp + 1) ->
  (5 * (month_start mp + d - 1) + 2) / 153 = mp.
Proof. unfold month_start. intros. by_month mp H; lia. Qed.

Lemma from_to_march t :
  valid_date t -> let '(y, doy) := to_march t in from_march y doy = t /\ 0 <= doy <= 365 /\
    (doy = 365 -> leap (y + 1) = true).
Proof.
  destruct t as [[y m] d]. unfold valid_date, to_march. intros [Hm Hd].
  set (mp := if 2 <? m then m - 3 else m + 9).
  assert (0 <= mp <= 11) as Hmp by (unfold mp; case_goal; lia).
  assert (month_start mp + d - 1 < month_start (mp + 1) /\ 0 <= month_start mp /\ month_start mp + d - 1 <= 365 /\
    (month_start mp + d - 1 = 365 -> m = 2 /\ leap y = true) /\ (if mp <? 10 then mp + 3 else mp - 9) = m)
    as (Hlt & H0 & H1 & Hl & Hinv).
  { unfold days_in_month in Hd. unfold mp, month_start.
    assert (m = 1 \/ m = 2 \/ m = 3 \/ m = 4 \/ m = 5 \/ m = 6 \/ m = 7 \/ m = 8 \/ m = 9 \/ m = 10 \/ m = 11 \/ m = 12)
      as Hc by lia.
    revert Hd. repeat destruct Hc as [Hc|Hc]; subst m; const_ifs; try (destruct (leap y)); repeat split; try done; lia. }
  split; [|split; [lia|]].
  - unfold from_march. rewrite month_at by lia. rewrite Hinv. f_equal; [f_equal|].
    + destruct (m <=? 2); lia.
    + unfold month_start. lia.
  - intros H365. destruct (Hl H365) as [-> HL]. const_ifs. by replace (y - 1 + 1) with y by lia.
Qed.

(** *** Days *)

Definition march_days (y doy : Z) : Z :=
  let era := y / 400 in
  let yoe := y - era * 400 in
  era * 146097 + (yoe * 365 + yoe / 4 - yoe / 100 + doy) - 719468.

Lemma leap_spec y : leap y = true -> y mod 4 = 0 /\ (y mod 100 <> 0 \/ y mod 400 = 0).
Proof. unfold leap. intros. bools; lia. Qed.

Lemma days_of_march t :
  valid_date t -> -2147483640 <= t.1.1 <= 2147483640 ->
  days_from_civil t.1.1 t.1.2 t.2 = march_days (to_march t).1 (to_march t).2.
Proof.
  destruct t as [[y m] d]. intros _ Hy. cbn [fst snd] in *. unfold days_from_civil, march_days, to_march, month_start.
  cbn [fst snd]. destruct (m <=? 2); [rewrite i32_small by lia|]; lia.
Qed.

Lemma march_unique era yoe doy era' yoe' doy' :
  0 <= yoe <= 399 -> 0 <= doy <= 365 -> (doy = 365 -> leap (yoe + era * 400 + 1) = true) ->
  0 <= yoe' <= 399 -> 0 <= doy' <= 365 -> (doy' = 365 -> leap (yoe' + era' * 400 + 1) = true) ->
  era * 146097 + (365 * yoe + yoe / 4 - yoe / 100) + doy
  = era' * 146097 + (365 * yoe' + yoe' / 4 - yoe' / 100) + doy' ->
  era = era' /\ yoe = yoe' /\ doy = doy'.
Proof.
  intros Hy Hd Hl Hy' Hd' Hl' Heq.
  assert (doy = 365 -> (yoe + 1) mod 4 = 0 /\ ((yoe + 1) mod 100 <> 0 \/ (yoe + 1) mod 400 = 0)) as Hs.
  { intros H. apply Hl, leap_spec in H. lia. }
  assert (doy' = 365 -> (yoe' + 1) mod 4 = 0 /\ ((yoe' + 1) mod 100 <> 0 \/ (yoe' + 1) mod 400 = 0)) as Hs'.
  { intros H. apply Hl', leap_spec in H. lia. }
  clear Hl Hl'. assert (era = era') by lia. subst era'. assert (yoe = yoe') by lia. lia.
Qed.

Lemma march_year_days y doy :
  0 <= doy <= 365 -> (doy = 365 -> leap (y + 1) = true) ->
  march_year (march_days y doy) = (y / 400, y - y / 400 * 400, doy).
Proof.
  intros Hd Hl. pose proof (march_year_spec (march_days y doy)) as Hs.
  destruct (march_year _) as [[era yoe] doy']. destruct Hs as (H1 & H2 & H3 & H4).
  destruct (march_unique era yoe doy' (y / 400) (y - y / 400 * 400) doy) as (-> & -> & ->); try done; try lia.
  - intros H. replace (y - y / 400 * 400 + y / 400 * 400 + 1) with (y + 1) by lia. auto.
  - unfold march_days in H3. lia.
Qed.

Lemma march_days_year z :
  let '(era, yoe, doy) := march_year z in march_days (yoe + era * 400) doy = z.
Proof.
  pose proof (march_year_spec z) as Hs. destruct (march_year z) as [[era yoe] doy].
  destruct Hs as (H1 & H2 & H3 & _). unfold march_days. replace ((yoe + era * 400) / 400) with era by lia. lia.
Qed.

(** *** The conversions against the calendar *)

Lemma from_march_year y doy : y <= (from_march y doy).1.1 <= y + 1.
Proof. unfold from_march. cbn [fst snd]. destruct ((if _ <? 10 then _ else _) <=? 2); lia. Qed.

Lemma civil_valid z : -780000000000 <= z <= 780000000000 -> valid_date (civil_from_days z).
Proof.
  intros Hz. rewrite civil_from_march by done. pose proof (march_year_spec z) as Hs.
  destruct (march_year z) as [[era yoe] doy]. destruct Hs as (_ & H2 & _ & H4). by apply from_march_valid.
Qed.

(** Undoing [civil_from_days] with the other tool's conversion. *)
Lemma days_civil z :
  -780000000000 <= z <= 780000000000 ->
  let '(y, m, d) := civil_from_days z in days_from_civil y m d = z.
Proof.
  intros Hz. pose proof (civil_valid z Hz) as Hv. pose proof (march_year_spec z) as Hs.
  pose proof (march_days_year z) as Hd. pose proof (civil_from_march z Hz) as Hc.
  destruct (march_year z) as [[era yoe] doy]. destruct Hs as (H1 & H2 & H3 & _).
  pose proof (days_of_march (civil_from_days z) Hv) as Hm. rewrite Hc in Hm. rewrite to_from_march in Hm by done.
  cbn [fst snd] in Hm. rewrite Hd in Hm. pose proof (from_march_year (yoe + era * 400) doy) as Hr. rewrite Hc.
  destruct (from_march _ _) as [[y m] d]. cbn [fst snd] in *. apply Hm. lia.
Qed.

Lemma to_march_year t : t.1.1 - 1 <= (to_march t).1 <= t.1.1.
Proof. destruct t as [[y m] d]. unfold to_march. cbn [fst snd]. case_goal; lia. Qed.

Lemma civil_days t :
  valid_date t -> -2100000000 <= t.1.1 <= 2100000000 ->
  civil_from_days (days_from_civil t.1.1 t.1.2 t.2) = t.
Proof.
  intros Hv Hy. rewrite days_of_march by (done || lia).
  pose proof (from_to_march t Hv) as Hft. pose proof (to_march_year t) as Hty.
  destruct (to_march t) as [y doy]. cbn [fst snd] in *. destruct Hft as (Hf & Hd & Hl).
  rewrite civil_from_march by (unfold march_days; lia). rewrite march_year_days by done.
  replace (y - y / 400 * 400 + y / 400 * 400) with y by lia. done.
Qed.

Lemma next_day_valid t : valid_date t -> valid_date (next_day t).
Proof.
  destruct t as [[y m] d]. unfold valid_date, next_day. intros [Hm Hd].
  destruct (d <? days_in_month y m) eqn:E; [lia|]. destruct (m <? 12) eqn:E2; [|by const_ifs].
  split; [lia|]. unfold days_in_month. case_goal; [case_goal; lia|]. case_goal; lia.
Qed.

Lemma march_days_next y doy : march_days y (doy + 1) = march_days y doy + 1.
Proof. unfold march_days. lia. Qed.

(** The last day of February is the last of the year that starts in March. *)
Lemma march_days_year_end y :
  march_days (y + 1) 0 = march_days y (if leap (y + 1) then 365 else 364) + 1.
Proof.
  unfold march_days, leap.
  destruct ((y + 1) mod 4 =? 0) eqn:E4, ((y + 1) mod 100 =? 0) eqn:E1, ((y + 1) mod 400 =? 0) eqn:E0;
    cbn [andb orb negb]; lia.
Qed.

Lemma to_march_next t :
  valid_date t ->
  to_march (next_day t) =
    let '(y, doy) := to_march t in
    if (t.1.2 =? 2) && (t.2 =? days_in_month t.1.1 2) then (y + 1, 0) else (y, doy + 1).
Proof.
  destruct t as [[y m] d]. intros [Hm Hd]. unfold next_day, to_march. cbn [fst snd].
  destruct (d <? days_in_month y m) eqn:E.
  - destruct ((m =? 2) && (d =? days_in_month y 2)) eqn:E2; [|f_equal; lia].
    bools. assert (m = 2) by lia. subst m. lia.
  - assert (d = days_in_month y m) as -> by lia. clear E Hd. unfold month_start, days_in_month.
    assert (m = 1 \/ m = 2 \/ m = 3 \/ m = 4 \/ m = 5 \/ m = 6 \/ m = 7 \/ m = 8 \/ m = 9 \/ m = 10 \/ m = 11 \/ m = 12)
      as Hc by lia.
    repeat destruct Hc as [Hc|Hc]; subst m; const_ifs; try (f_equal; lia).
    rewrite Z.eqb_refl. const_ifs. f_equal; lia.
Qed.

Lemma march_days_next_day t :
  valid_date t ->
  march_days (to_march (next_day t)).1 (to_march (next_day t)).2 = march_days (to_march t).1 (to_march t).2 + 1.
Proof.
  intros Hv. rewrite to_march_next by done. destruct t as [[y m] d]. destruct Hv as [Hm Hd].
  destruct (to_march (y, m, d)) as [y' doy] eqn:E. cbn [fst snd] in *.
  destruct ((m =? 2) && (d =? days_in_month y 2)) eqn:E2; cbn [fst snd]; [|apply march_days_next].
  bools. assert (m = 2 /\ d = days_in_month y 2) as [-> ->] by lia. unfold to_march, month_start, days_in_month in E.
  revert E. const_ifs. intros [= <- <-]. rewrite march_days_year_end.
  replace (y - 1 + 1) with y by lia. do 2 f_equal. destruct (leap y); lia.
Qed.

Lemma civil_next z :
  -700000000000 <= z <= 700000000000 -> civil_from_days (z + 1) = next_day (civil_from_days z).
Proof.
  intros Hz. pose proof (civil_valid z ltac:(lia)) as Hv. set (t := civil_from_days z) in *.
  assert (march_days (to_march t).1 (to_march t).2 = z) as Hd.
  { unfold t. rewrite civil_from_march by lia. pose proof (march_year_spec z) as Hs.
    pose proof (march_days_year z) as Hm. destruct (march_year z) as [[era yoe] doy].
    destruct Hs as (H1 & H2 & _). by rewrite to_from_march. }
  pose proof (march_days_next_day t Hv) as Hn. rewrite Hd in Hn.
  pose proof (from_to_march _ (next_day_valid t Hv)) as Hft.
  destruct (to_march (next_day t)) as [y doy]. cbn [fst snd] in Hn. destruct Hft as (<- & H1 & H2).
  rewrite civil_from_march by lia. rewrite <- Hn, march_year_days by done.
  by replace (y - y / 400 * 400 + y / 400 * 400) with y by lia.
Qed.

(** [civil_from_days] of the logger is the proleptic Gregorian calendar: day 0 is
    1 January 1970, every day is followed by the calendar's next day (28 or 29 days in
    February by the 4/100/400 rule), before the epoch as well as after it; and the
    build tool's [days_from_civil] is its inverse, both ways: from a day to its date
    and back, and from any date the calendar has to its day and back. *)
Theorem civil_is_gregorian :
  civil_from_days 0 = (1970, 1, 1) /\
  (forall z, -700000000000 <= z <= 700000000000 ->
     valid_date (civil_from_days z) /\
     civil_from_days (z + 1) = next_day (civil_from_days z) /\
     (let '(y, m, d) := civil_from_days z in days_from_civil y m d = z)) /\
  (forall y m d, valid_date (y, m, d) -> -1900000000 <= y <= 1900000000 ->
     civil_from_days (days_from_civil y m d) = (y, m, d)).
Proof.
  split; [done|]. split.
  - intros z Hz. split; [apply civil_valid; lia|]. split; [by apply civil_next|]. apply days_civil; lia.
  - intros y m d Hv Hy. apply (civil_days (y, m, d)); [done|]. cbn. lia.
Qed.

Example civil_dates :
  civil_from_days 19782 = (2024, 2, 29) /\ civil_from_days (-1) = (1969, 12, 31) /\
  civil_from_days 47540 = (2100, 2, 28) /\ civil_from_days 47541 = (2100, 3, 1) /\
  days_from_civil 2024 2 29 = 19782.
Proof. vm_compute. done. Qed.

Lemma civil_is_gregorian_witness :
  valid_date (2024, 2, 29) /\ civil_from_days (days_from_civil 2024 2 29) = (2024, 2, 29) /\
  civil_from_days (19782 + 1) = next_day (2024, 2, 29).
Proof.
  assert (valid_date (2024, 2, 29)) as Hv by (vm_compute; intuition congruence).
  split; [exact Hv|]. split.
  - apply (proj2 (proj2 civil_is_gregorian)); [exact Hv|lia].
  - apply (proj1 (proj2 civil_is_gregorian) 19782). lia.
Defined.

(** *** Time stamps *)

(** The number in [w] characters from position [a]. *)
Definition field (s : str) (a w : nat) : Z := dec_val 0 (take w (drop a s)).

Lemma fmt_i0_pos w n : 0 <= n -> fmt_i0 w n = fmt_0 w n.
Proof. intros. unfold fmt_i0. destruct (n <? 0) eqn:E; [lia|done]. Qed.

(** The layout of seven numbers and their separators. *)
Lemma layout_fields y mo d h m s ms :
  length y = 4%nat -> length mo = 2%nat -> length d = 2%nat -> length h = 2%nat -> length m = 2%nat ->
  length s = 2%nat -> length ms = 3%nat ->
  let t := y ++ lit "-" ++ mo ++ lit "-" ++ d ++ lit "T" ++ h ++ lit ":" ++ m ++ lit ":" ++ s ++ lit "." ++ ms
           ++ lit "Z" in
  length t = 24%nat /\
  (field t 0 4 = dec_val 0 y /\ field t 5 2 = dec_val 0 mo /\ field t 8 2 = dec_val 0 d /\
   field t 11 2 = dec_val 0 h /\ field t 14 2 = dec_val 0 m /\ field t 17 2 = dec_val 0 s /\
   field t 20 3 = dec_val 0 ms) /\
  (fun i => t !! i) <$> [4; 7; 10; 13; 16; 19; 23]%nat = Some <$> lit "--T::.Z".
Proof.
  intros Hy Hmo Hd Hh Hm Hs Hms t.
  destruct y as [|? [|? [|? [|? []]]]], mo as [|? [|? []]], d as [|? [|? []]]; try done.
  destruct h as [|? [|? []]], m as [|? [|? []]], s as [|? [|? []]], ms as [|? [|? [|? []]]]; done.
Qed.

(** A day of the years 1970 to 9999 has a year of four digits. *)
Lemma civil_years z :
  0 <= z < 2932897 -> let '(y, m, d) := civil_from_days z in 1969 <= y <= 9999 /\ 1 <= m <= 12 /\ 1 <= d <= 31.
Proof.
  intros Hz. pose proof (civil_valid z ltac:(lia)) as Hv. pose proof (days_civil z ltac:(lia)) as Hd.
  pose proof (civil_from_march z ltac:(lia)) as Hc. pose proof (march_year_spec z) as Hs.
  destruct (march_year z) as [[era yoe] doy]. pose proof (from_march_year (yoe + era * 400) doy) as Hr.
  rewrite <- Hc in Hr. destruct (civil_from_days z) as [[y m] d]. cbn [fst snd] in Hr. destruct Hv as [Hm Hdd].
  assert (days_in_month y m <= 31) by (unfold days_in_month; repeat case_goal; lia).
  split; [|lia]. destruct Hs as (H1 & H2 & H3 & _).
  split; [lia|]. unfold days_from_civil in Hd. destruct (m <=? 2) eqn:E, (2 <? m) eqn:E'; try lia.
  rewrite i32_small in Hd by lia. clear Hc Hr H1 H2 H3. lia.
Qed.

(** The time stamp of a log line, for the years up to 9999: exactly 24 characters,
    the separators of RFC 3339 in their places, every field in its range, and read
    back - the date through [days_from_civil] - it gives the second and the
    millisecond it was made from; so no two instants print alike. *)
Theorem rfc3339_roundtrip (secs millis : Z) :
  0 <= secs < 253402300800 -> 0 <= millis < 1000 ->
  let t := format_rfc3339_utc secs millis in
  length t = 24%nat /\
  (fun i => t !! i) <$> [4; 7; 10; 13; 16; 19; 23]%nat = Some <$> lit "--T::.Z" /\
  valid_date (field t 0 4, field t 5 2, field t 8 2) /\
  field t 11 2 < 24 /\ field t 14 2 < 60 /\ field t 17 2 < 60 /\
  days_from_civil (field t 0 4) (field t 5 2) (field t 8 2) * 86400
    + field t 11 2 * 3600 + field t 14 2 * 60 + field t 17 2 = secs /\
  field t 20 3 = millis.
Proof.
  intros Hs Hms t. subst t. unfold format_rfc3339_utc.
  pose proof (civil_years (secs / 86400) ltac:(lia)) as Hc.
  pose proof (civil_valid (secs / 86400) ltac:(lia)) as Hv. pose proof (days_civil (secs / 86400) ltac:(lia)) as Hd.
  destruct (civil_from_days _) as [[y mo] d]. destruct Hc as (Hy & Hmo & Hdd).
  rewrite fmt_i0_pos by lia.
  destruct (fmt_0_spec 4 y) as (L1 & _ & V1); [simpl; lia|lia|].
  destruct (fmt_0_spec 2 mo) as (L2 & _ & V2); [simpl; lia|lia|].
  destruct (fmt_0_spec 2 d) as (L3 & _ & V3); [simpl; lia|lia|].
  destruct (fmt_0_spec 2 (secs mod 86400 / 3600)) as (L4 & _ & V4); [simpl; lia|lia|].
  destruct (fmt_0_spec 2 (secs mod 86400 mod 3600 / 60)) as (L5 & _ & V5); [simpl; lia|lia|].
  destruct (fmt_0_spec 2 (secs mod 86400 mod 60)) as (L6 & _ & V6); [simpl; lia|lia|].
  destruct (fmt_0_spec 3 millis) as (L7 & _ & V7); [simpl; lia|lia|].
  destruct (layout_fields _ _ _ _ _ _ _ L1 L2 L3 L4 L5 L6 L7) as (HL & (-> & -> & -> & -> & -> & -> & ->) & Hsep).
  rewrite V1, V2, V3, V4, V5, V6, V7, Hd. repeat split; try done; try apply Hv; try lia.
Qed.

Lemma rfc3339_roundtrip_witness :
  format_rfc3339_utc 1709210096 789 = lit "2024-02-29T12:34:56.789Z" /\
  field (format_rfc3339_utc 1709210096 789) 20 3 = 789.
Proof.
  split; [vm_compute; reflexivity|].
  refine (proj2 (proj2 (proj2 (proj2 (proj2 (proj2 (proj2 (rfc3339_roundtrip 1709210096 789 _ _)))))))); lia.
Defined.
