(* ===== verification/Logger.v ===== *)
(** * The JSON log

    Models [JsonLogger] of [pesigitg-daemon/src/utils.rs]: the document of a record,
    over the time stamps of [Calendar].  The theorem is what a reader of the log
    relies on: sorting lines by the text of their time sorts them by the clock. *)

From S2P Require Import Prelude Std Decimal Text BTree Json Calendar.

(** What the crate [log] gives of a record. *)
Record LogRecord := mkRecord {
  l_level : str;
  l_target : str;
  l_args : str;
}.

Record JsonLogger := mkLogger { l_pid : Z }.

(** [now] is the time since the epoch, zero when the clock is before it. *)
Definition json_log (l : JsonLogger) (now : Duration) (r : LogRecord) : json :=
  obj [(lit "time", JStr (format_rfc3339_utc (as_secs now) (now mod 1000000000 / 1000000)));
       (lit "level", JStr (l_level r)); (lit "target", JStr (l_target r));
       (lit "msg", JStr (l_args r)); (lit "pid", JNum (l_pid l))].

(** ** The order of texts *)

Lemma str_ltb_prefix x s t : str_ltb s t = true -> str_ltb (x ++ s) (x ++ t) = true.
Proof.
  intros H. induction x as [|c x IH]; [done|]. cbn [app str_ltb]. rewrite IH, Z.eqb_refl. by rewrite orb_true_r.
Qed.

Lemma str_ltb_app a a' b b' : length a = length a' -> str_ltb a a' = true -> str_ltb (a ++ b) (a' ++ b') = true.
Proof.
  revert a'. induction a as [|c a IH]; intros [|c' a'] Hl H; try done. cbn [app str_ltb] in *.
  destruct (c <? c') eqn:E; [done|]. cbn [orb] in *. apply andb_true_iff in H as [-> H].
  apply IH; [by injection Hl|done].
Qed.

Lemma str_ltb_digits a a' :
  Forall is_digit a -> Forall is_digit a' -> length a = length a' -> str_ltb a a' = (dec_val 0 a <? dec_val 0 a').
Proof.
  intros Ha. revert a'. induction Ha as [|c a Hc Ha IH]; intros a' Ha' Hl; destruct a' as [|c' a']; try done.
  apply Forall_cons in Ha' as [Hc' Ha']. injection Hl as Hl. cbn [str_ltb]. rewrite IH by done.
  assert (forall c s, dec_val 0 (c :: s) = (c - 48) * 10 ^ len s + dec_val 0 s) as Hcons.
  { intros x s. unfold dec_val at 1. cbn [foldl]. fold (dec_val (0 * 10 + (x - 48)) s). rewrite dec_val_acc. lia. }
  rewrite !Hcons. pose proof (dec_val_bound a Ha). pose proof (dec_val_bound a' Ha') as Hb'.
  assert (len a = len a') as El by (unfold len; lia). rewrite El in *. unfold is_digit in *.
  destruct (Z.ltb_spec c c'), (Z.eqb_spec c c'), (Z.ltb_spec (dec_val 0 a) (dec_val 0 a'));
    cbn [orb andb]; symmetry; apply Z.ltb_lt || apply Z.ltb_ge; nia.
Qed.

(** A smaller number of the same width comes first, whatever follows. *)
Lemma fmt_0_before w n n' s s' :
  0 <= n < n' -> n' < 10 ^ Z.of_nat w -> (0 < w <= 20)%nat -> str_ltb (fmt_0 w n ++ s) (fmt_0 w n' ++ s') = true.
Proof.
  intros Hn Hn' Hw. destruct (fmt_0_spec w n) as (Hl & Hd & Hv); [lia|done|].
  destruct (fmt_0_spec w n') as (Hl' & Hd' & Hv'); [lia|done|].
  apply str_ltb_app; [congruence|]. rewrite str_ltb_digits by (done || congruence). rewrite Hv, Hv'. lia.
Qed.

(** ** The order of dates *)

Definition date_lt (t t' : date) : Prop :=
  t.1.1 < t'.1.1 \/ t.1.1 = t'.1.1 /\ (t.1.2 < t'.1.2 \/ t.1.2 = t'.1.2 /\ t.2 < t'.2).

Lemma date_lt_next t : date_lt t (next_day t).
Proof.
  destruct t as [[y m] d]. unfold date_lt, next_day. cbn [fst snd].
  destruct (d <? days_in_month y m); [cbn; lia|]. destruct (Z.ltb_spec m 12); cbn; lia.
Qed.

Lemma civil_mono z z' : 0 <= z < z' -> z' <= 700000000000 -> date_lt (civil_from_days z) (civil_from_days z').
Proof.
  intros Hz Hz'. replace z' with (z + Z.of_nat (S (Z.to_nat (z' - z - 1)))) in * by lia.
  induction (Z.to_nat (z' - z - 1)) as [|n IH].
  - change (Z.of_nat 1) with 1. rewrite civil_next by lia. apply date_lt_next.
  - replace (z + Z.of_nat (S (S n))) with (z + Z.of_nat (S n) + 1) by lia. rewrite civil_next by lia.
    pose proof (IH ltac:(lia) ltac:(lia)) as H1. pose proof (date_lt_next (civil_from_days (z + Z.of_nat (S n)))) as H2.
    unfold date_lt in *. lia.
Qed.

(** The time of day, hour by hour. *)
Lemma tod_lex s s' :
  0 <= s < s' ->
  s / 3600 < s' / 3600 \/ s / 3600 = s' / 3600 /\
    (s mod 3600 / 60 < s' mod 3600 / 60 \/ s mod 3600 / 60 = s' mod 3600 / 60 /\ s mod 60 < s' mod 60).
Proof.
  intros H. pose proof (Z.div_mod s 3600 ltac:(lia)). pose proof (Z.div_mod s' 3600 ltac:(lia)).
  pose proof (Z.mod_pos_bound s 3600 eq_refl). pose proof (Z.mod_pos_bound s' 3600 eq_refl).
  pose proof (Z.div_mod (s mod 3600) 60 ltac:(lia)). pose proof (Z.div_mod (s' mod 3600) 60 ltac:(lia)).
  pose proof (Z.mod_pos_bound (s mod 3600) 60 eq_refl). pose proof (Z.mod_pos_bound (s' mod 3600) 60 eq_refl).
  assert (forall x, (x mod 3600) mod 60 = x mod 60) as Hm by (intros x; apply (Z.mod_mod_divide x 3600 60); by exists 60).
  rewrite Hm in *. lia.
Qed.

(** Two times of which the first is earlier, both before the year 10000. *)
Lemma rfc3339_before s ms s' ms' :
  0 <= s -> s' < 253402300800 -> 0 <= ms < 1000 -> 0 <= ms' < 1000 -> s < s' \/ s = s' /\ ms < ms' ->
  str_ltb (format_rfc3339_utc s ms) (format_rfc3339_utc s' ms') = true.
Proof.
  intros Hs Hs' Hms Hms' Hlt. unfold format_rfc3339_utc.
  pose proof (Z.div_mod s 86400 ltac:(lia)). pose proof (Z.div_mod s' 86400 ltac:(lia)).
  pose proof (Z.mod_pos_bound s 86400 eq_refl). pose proof (Z.mod_pos_bound s' 86400 eq_refl).
  pose proof (civil_years (s / 86400) ltac:(lia)) as Hy. pose proof (civil_years (s' / 86400) ltac:(lia)) as Hy'.
  destruct (Z.lt_trichotomy (s / 86400) (s' / 86400)) as [Hd|[Hd|Hd]]; [| |lia].
  - pose proof (civil_mono (s / 86400) (s' / 86400) ltac:(lia) ltac:(lia)) as Hc.
    destruct (civil_from_days (s / 86400)) as [[y m] d]. destruct (civil_from_days (s' / 86400)) as [[y' m'] d'].
    unfold date_lt in Hc. cbn [fst snd] in Hc. rewrite !fmt_i0_pos by lia.
    destruct Hc as [Hc|[-> [Hc|[-> Hc]]]]; repeat apply str_ltb_prefix; apply fmt_0_before; cbn; lia.
  - rewrite <- Hd. destruct (civil_from_days (s / 86400)) as [[y m] d].
    do 6 apply str_ltb_prefix. set (t := s mod 86400) in *. set (t' := s' mod 86400) in *.
    assert (forall x, 0 <= x < 86400 -> 0 <= x / 3600 < 100 /\ 0 <= x mod 3600 / 60 < 100 /\ 0 <= x mod 60 < 100) as Hr.
    { intros x Hx. pose proof (Z.mod_pos_bound x 3600 eq_refl). pose proof (Z.mod_pos_bound x 60 eq_refl).
      split_and!; try lia; try (apply Z.div_pos; lia); apply Z.div_lt_upper_bound; lia. }
    pose proof (Hr t ltac:(lia)). pose proof (Hr t' ltac:(lia)).
    destruct (Z.eq_dec t t') as [Et|Et].
    + rewrite <- Et. repeat apply str_ltb_prefix. apply fmt_0_before; cbn; lia.
    + destruct (tod_lex t t') as [Hc|[<- [Hc|[<- Hc]]]]; [lia|..]; repeat apply str_ltb_prefix; apply fmt_0_before; cbn; lia.
Qed.

Definition time_of (d : json) : option str := get_as as_str (lit "time") d.

(** The logged milliseconds, from the parts of the stamp. *)
Lemma millis_parts now :
  0 <= now -> now / 1000000 = as_secs now * 1000 + now mod 1000000000 / 1000000 /\ 0 <= now mod 1000000000 / 1000000 < 1000.
Proof.
  intros Hn. unfold as_secs. pose proof (Z.mod_pos_bound now 1000000000 eq_refl) as Hm.
  split; [|split; [apply Z.div_pos; lia|apply Z.div_lt_upper_bound; lia]].
  rewrite (Z.div_mod now 1000000000) at 1 by lia.
  replace (1000000000 * (now / 1000000000)) with (now / 1000000000 * 1000 * 1000000) by lia.
  rewrite Z.div_add_l by lia. done.
Qed.

(** Until the year 10000, one line of the log has an earlier time text than another exactly when it
    was written in an earlier millisecond, by whichever process and about whatever. *)
Theorem log_order_is_time_order (l l' : JsonLogger) (now now' : Duration) (r r' : LogRecord) :
  0 <= now < from_secs 253402300800 -> 0 <= now' < from_secs 253402300800 ->
  exists t t', time_of (json_log l now r) = Some t /\ time_of (json_log l' now' r') = Some t' /\
    (str_ltb t t' = true <-> now / 1000000 < now' / 1000000).
Proof.
  unfold from_secs. intros Hn Hn'.
  exists (format_rfc3339_utc (as_secs now) (now mod 1000000000 / 1000000)),
    (format_rfc3339_utc (as_secs now') (now' mod 1000000000 / 1000000)).
  split; [reflexivity|]. split; [reflexivity|].
  destruct (millis_parts now) as [-> Hm]; [lia|]. destruct (millis_parts now') as [-> Hm']; [lia|].
  set (ms := now mod 1000000000 / 1000000) in *. set (ms' := now' mod 1000000000 / 1000000) in *.
  assert (0 <= as_secs now < 253402300800) as Hs by (unfold as_secs; split; [apply Z.div_pos|apply Z.div_lt_upper_bound]; lia).
  assert (0 <= as_secs now' < 253402300800) as Hs' by (unfold as_secs; split; [apply Z.div_pos|apply Z.div_lt_upper_bound]; lia).
  split; [|intros H; apply rfc3339_before; lia]. intros H.
  destruct (Z.lt_trichotomy (as_secs now * 1000 + ms) (as_secs now' * 1000 + ms')) as [L|[E|L]]; [done| |]; exfalso.
  - replace (as_secs now') with (as_secs now) in H by lia. replace ms' with ms in H by lia. by rewrite str_ltb_irrefl in H.
  - assert (str_ltb (format_rfc3339_utc (as_secs now') ms') (format_rfc3339_utc (as_secs now) ms) = true) as H'
      by (apply rfc3339_before; lia).
    pose proof (str_ltb_trans _ _ _ H' H) as Ht. by rewrite str_ltb_irrefl in Ht.
Qed.
