(* ===== verification/Common.v ===== *)
(** * The shared crate: constants, hexadecimal strings, MAC addresses

    Models [pesigitg-common/src/lib.rs], [hex.rs] and [mac.rs]. *)

From S2P Require Import Prelude Std.

(** ** Constants *)

Definition ETH_HDR_LEN : Z := 14.
Definition IPV4_MIN_HDR_LEN : Z := 20.
Definition IPV6_HDR_LEN : Z := 40.
Definition UDP_HDR_LEN : Z := 8.
Definition ETH_P_IP : Z := 0x0800.
Definition ETH_P_IPV6 : Z := 0x86DD.
Definition IPPROTO_ICMP : Z := 1.
Definition IPPROTO_HOPOPTS : Z := 0.
Definition IPPROTO_UDP : Z := 17.
Definition IPPROTO_ROUTING : Z := 43.
Definition IPPROTO_FRAGMENT : Z := 44.
Definition IPPROTO_ICMPV6 : Z := 58.
Definition IPPROTO_DSTOPTS : Z := 60.
Definition ICMP_HDR_LEN : Z := 8.
Definition ICMP_DEST_UNREACH : Z := 3.
Definition ICMP_TIME_EXCEEDED : Z := 11.
Definition ICMPV6_DEST_UNREACH : Z := 1.
Definition ICMPV6_PACKET_TOO_BIG : Z := 2.
Definition ICMPV6_TIME_EXCEEDED : Z := 3.
Definition MAX_IPV6_EXT_HDRS : nat := 6.
Definition MAX_QUEUES : Z := 256.
Definition MAX_PORTS : Z := 64.
Definition MAX_CONFIG_SIZE : Z := 1000000.
Definition DEFAULT_PORT : Z := 443.
Definition DEFAULT_QUEUES : Z := 1.

Definition PID_DIR : str := lit "/var/run".
Definition PROC_NAME : str := lit "pesigitgd".

(** [format!("{}/{}-{}.pid", PID_DIR, PROC_NAME, iface)] *)
Definition pid_file (iface : str) : str :=
  PID_DIR ++ lit "/" ++ PROC_NAME ++ lit "-" ++ iface ++ lit ".pid".

(** ** Hexadecimal strings *)

Inductive hex_error :=
| OddLength
| InvalidHex (position : Z).

(** The lazy [map] over the even offsets, stopped by the first error; [n]
    chunks are left from offset [i] on. *)
Fixpoint hex_chunks (n : nat) (bs : list byte) (i : Z) : rs (result (list byte) hex_error) :=
  match n with
  | O => Done (Ok [])
  | S n' =>
      let* d := str_slice bs i (i + 2) in
      match from_str_radix 16 255 d with
      | None => Done (Err (InvalidHex i))
      | Some v =>
          let*+ r := hex_chunks n' bs (i + 2) in
          Done (Ok (b8 v :: r))
      end
  end.

Definition hex_decode (s : str) : rs (result (list byte) hex_error) :=
  let bs := str_bytes (trim s) in
  if negb (len bs mod 2 =? 0) then Done (Err OddLength)
  else hex_chunks (Z.to_nat (len bs / 2)) bs 0.

Fixpoint hex_encode (bytes : list byte) : str :=
  match bytes with
  | [] => []
  | b :: r => fmt_02x b ++ hex_encode r
  end.

(** ** MAC addresses *)

(** [[u8; 6]], a list of six bytes. *)
Definition mac := list byte.

Definition mac_format (m : mac) : rs str :=
  let* m0 := idx m 0 in let* m1 := idx m 1 in let* m2 := idx m 2 in
  let* m3 := idx m 3 in let* m4 := idx m 4 in let* m5 := idx m 5 in
  Done (fmt_02x m0 ++ 58 :: fmt_02x m1 ++ 58 :: fmt_02x m2 ++ 58 ::
        fmt_02x m3 ++ 58 :: fmt_02x m4 ++ 58 :: fmt_02x m5).

Inductive mac_error :=
| WrongOctetCount (got : Z)
| InvalidOctet (part : str) (position : Z).

(** The loop over the enumerated parts, writing [mac[i]]. *)
Fixpoint mac_octets (i : Z) (parts : list str) (m : mac) : rs (result mac mac_error) :=
  match parts with
  | [] => Done (Ok m)
  | part :: ps =>
      match from_str_radix 16 255 (str_bytes part) with
      | None => Done (Err (InvalidOctet part i))
      | Some v =>
          let* m' := set_at m i (b8 v) in
          mac_octets (i + 1) ps m'
      end
  end.

Definition mac_parse (s : str) : rs (result mac mac_error) :=
  let parts := split 58 s in
  if negb (len parts =? 6) then Done (Err (WrongOctetCount (len parts)))
  else mac_octets 0 parts (zeros 6).

(** ** Lemmas on hexadecimal strings *)

Lemma hex_encode_ascii bs : Forall is_ascii (hex_encode bs).
Proof. induction bs; cbn [hex_encode]; [constructor|]. apply Forall_app; auto using fmt_02x_ascii. Qed.

Lemma fmt_02x_not_ws b : Forall (fun c => is_whitespace c = false) (fmt_02x b).
Proof.
  pose proof (u8_range b). unfold fmt_02x.
  pose proof (Z.mod_pos_bound (u8 b) 16 ltac:(lia)).
  assert (0 <= u8 b / 16 < 16) by (split; [apply Z.div_pos|apply Z.div_lt_upper_bound]; lia).
  repeat constructor; by apply hex_digit_not_ws.
Qed.

Lemma hex_encode_not_ws bs : Forall (fun c => is_whitespace c = false) (hex_encode bs).
Proof. induction bs; cbn [hex_encode]; [constructor|]. apply Forall_app; auto using fmt_02x_not_ws. Qed.

Lemma length_hex_encode bs : length (hex_encode bs) = (2 * length bs)%nat.
Proof. induction bs as [|b bs IH]; simpl; [done|]. rewrite IH. lia. Qed.

Definition ascii_byte (b : byte) : Prop := u8 b < 128.

Lemma char_boundary_ascii bs i :
  Forall ascii_byte bs -> 0 <= i <= len bs -> is_char_boundary bs i = true.
Proof.
  intros Ha Hi. unfold is_char_boundary. destruct (i =? len bs) eqn:E; [done|].
  destruct ((0 <=? i) && (i <? len bs)) eqn:E'; [|lia].
  assert (Hb : ascii_byte (elt bs i)).
  { rewrite Forall_lookup in Ha. apply (Ha (Z.to_nat i)).
    rewrite lookup_elt by (unfold len in *; lia). by rewrite Z2Nat.id by lia. }
  unfold ascii_byte in Hb. lia.
Qed.

Lemma str_slice_ascii bs a b :
  Forall ascii_byte bs -> 0 <= a <= b -> b <= len bs -> str_slice bs a b = Done (sub bs a b).
Proof.
  intros Ha Hab Hb. unfold str_slice. rewrite !char_boundary_ascii by (done || lia).
  replace (a <=? b) with true by lia. apply slice_in; lia.
Qed.

Lemma map_b8_ascii s : Forall is_ascii s -> Forall ascii_byte (map b8 s).
Proof.
  unfold is_ascii, ascii_byte. induction 1; constructor; [|done]. rewrite u8_b8_small; lia.
Qed.

(** The chunk loop never leaves the string: with a boundary at every offset it
    returns. *)
Lemma hex_chunks_returns n bs i :
  Forall ascii_byte bs -> 0 <= i -> i + 2 * Z.of_nat n <= len bs -> returns (hex_chunks n bs i).
Proof.
  revert i. induction n as [|n IH]; intros i Ha Hi Hn; simpl; [eauto with pesi|].
  rewrite str_slice_ascii by (done || lia).
  destruct (from_str_radix _ _ _) as [v|]; [|eauto with pesi].
  destruct (IH (i + 2)) as [[r|e] ->]; [done|lia|lia|eauto with pesi|eauto with pesi].
Qed.

Lemma hex_chunks_length n bs i l : hex_chunks n bs i = Done (Ok l) -> length l = n.
Proof.
  revert i l. induction n as [|n IH]; intros i l; simpl; [by intros [= <-]|].
  destruct (str_slice bs i (i + 2)); [|done].
  destruct (from_str_radix _ _ _); [|done].
  destruct (hex_chunks n bs (i + 2)) as [[r|e]|] eqn:E; try done.
  intros [= <-]. simpl. by rewrite (IH _ _ E).
Qed.

Lemma hex_chunks_encode pre l :
  Forall ascii_byte pre ->
  hex_chunks (length l) (pre ++ map b8 (hex_encode l)) (len pre) = Done (Ok l).
Proof.
  revert pre. induction l as [|b l IH]; intros pre Hp; [done|].
  cbn [length hex_chunks hex_encode]. rewrite map_app.
  assert (H2 : len (map b8 (fmt_02x b)) = 2) by done.
  rewrite str_slice_ascii; [|..].
  - rewrite sub_app_mid by (rewrite ?H2; lia). rewrite from_str_radix_02x.
    rewrite app_assoc. replace (len pre + 2) with (len (pre ++ map b8 (fmt_02x b))) by llia.
    rewrite IH; [by rewrite b8_u8|].
    apply Forall_app; auto using map_b8_ascii, fmt_02x_ascii.
  - rewrite !Forall_app; repeat split; auto using map_b8_ascii, fmt_02x_ascii, hex_encode_ascii.
  - pose_len; lia.
  - rewrite !len_app, H2. pose_len; lia.
Qed.

(** Decoding what [encode] printed gives the bytes back, for every byte
    string. *)
Theorem hex_decode_encode (l : list byte) : hex_decode (hex_encode l) = Done (Ok l).
Proof.
  unfold hex_decode. rewrite trim_id by apply hex_encode_not_ws.
  rewrite str_bytes_ascii by apply hex_encode_ascii.
  assert (Hl : len (map b8 (hex_encode l)) = 2 * len l).
  { rewrite len_map. unfold len. rewrite length_hex_encode. lia. }
  rewrite Hl. replace (2 * len l mod 2 =? 0) with true
    by (symmetry; apply Z.eqb_eq; rewrite Z.mul_comm; apply Z.mod_mul; lia).
  simpl negb. cbn iota.
  replace (2 * len l / 2) with (len l) by (rewrite Z.mul_comm, Z.div_mul; lia).
  unfold len at 1. rewrite Nat2Z.id. by apply (hex_chunks_encode []).
Qed.

(** An accepted string has two characters of one byte for every byte decoded. *)
Lemma hex_decode_length s l :
  hex_decode s = Done (Ok l) -> str_len (trim s) = 2 * len l.
Proof.
  unfold hex_decode, str_len. set (bs := str_bytes (trim s)).
  destruct (len bs mod 2 =? 0) eqn:E; [|done]. simpl. intros H%hex_chunks_length.
  pose proof (Z.div_mod (len bs) 2 ltac:(lia)). unfold len at 2. rewrite H. pose_len. lia.
Qed.

(** On ASCII input [decode] returns, whatever the characters are. *)
Lemma hex_decode_returns_ascii s : Forall is_ascii (trim s) -> returns (hex_decode s).
Proof.
  intros Ha. unfold hex_decode. case_goal; [eauto with pesi|].
  rewrite str_bytes_ascii by done. apply hex_chunks_returns; [by apply map_b8_ascii|lia|].
  rewrite str_bytes_ascii in E by done. pose_len.
  pose proof (Z.div_mod (len (map b8 (trim s))) 2 ltac:(lia)). lia.
Qed.

(** The doc comment promises an error for every interior character that
    is not a hex digit.  Two inputs get something else: a plus sign inside a
    pair is accepted, and a two-byte character that straddles a pair cuts a
    string slice off its char boundary, which panics. *)
Theorem hex_decode_beyond_hex :
  hex_decode (lit "+f") = Done (Ok [0x0f]%u8) /\
  hex_decode [97; 233; 49] = Panic.
Proof. split; vm_compute; reflexivity. Qed.

(** ** Lemmas on MAC addresses *)

Lemma split_no_sep sep p : Forall (fun c => c <> sep) p -> split sep p = [p].
Proof.
  induction 1 as [|c p Hc Hp IH]; simpl; [done|].
  destruct (c =? sep) eqn:E; [lia|]. by rewrite IH.
Qed.

Lemma split_app_sep sep p s :
  Forall (fun c => c <> sep) p -> split sep (p ++ sep :: s) = p :: split sep s.
Proof.
  induction 1 as [|c p Hc Hp IH]; simpl; [by rewrite Z.eqb_refl|].
  destruct (c =? sep) eqn:E; [lia|]. by rewrite IH.
Qed.

Lemma fmt_02x_not_colon b : Forall (fun c => c <> 58) (fmt_02x b).
Proof.
  pose proof (u8_range b). unfold fmt_02x.
  pose proof (Z.mod_pos_bound (u8 b) 16 ltac:(lia)).
  assert (0 <= u8 b / 16 < 16) by (split; [apply Z.div_pos|apply Z.div_lt_upper_bound]; lia).
  unfold hex_digit. repeat constructor; case_goal; lia.
Qed.

Lemma from_str_radix_fmt b : from_str_radix 16 255 (str_bytes (fmt_02x b)) = Some (u8 b).
Proof. rewrite str_bytes_ascii by apply fmt_02x_ascii. apply from_str_radix_02x. Qed.

(** Every six-byte address prints, and parsing the printed string gives
    the address back. *)
Theorem mac_parse_format (m : mac) :
  len m = 6 -> exists s, mac_format m = Done s /\ mac_parse s = Done (Ok m).
Proof.
  unfold len. intros Hm%(Nat2Z.inj _ 6). do 7 (destruct m as [|? m]; try done).
  eexists. split; [reflexivity|]. unfold mac_parse.
  rewrite !split_app_sep by apply fmt_02x_not_colon.
  rewrite split_no_sep by apply fmt_02x_not_colon.
  cbn -[fmt_02x from_str_radix str_bytes]. rewrite !from_str_radix_fmt.
  cbn -[u8 b8]. by rewrite !b8_u8.
Qed.

Lemma mac_parse_format_witness :
  exists s, mac_format [0xde; 0xad; 0xbe; 0xef; 0x00; 0x11]%u8 = Done s /\
            mac_parse s = Done (Ok [0xde; 0xad; 0xbe; 0xef; 0x00; 0x11]%u8).
Proof. apply (mac_parse_format [0xde; 0xad; 0xbe; 0xef; 0x00; 0x11]%u8). reflexivity. Defined.

Lemma mac_octets_total parts i m :
  0 <= i -> i + len parts <= len m ->
  exists r, mac_octets i parts m = Done r /\ forall m', r = Ok m' -> len m' = len m.
Proof.
  revert i m. induction parts as [|p ps IH]; intros i m Hi Hl; simpl.
  - eexists. split; [done|]. by intros m' [= <-].
  - destruct (from_str_radix _ _ _) as [v|]; [|by eexists].
    rewrite set_at_in by llia.
    destruct (IH (i + 1) (<[Z.to_nat i := b8 v]> m)) as (r & -> & Hr); [lia|llia|].
    exists r. split; [done|]. intros m' ->. rewrite (Hr m') by done. apply len_insert.
Qed.

(** [parse] never panics, and what it accepts has six bytes. *)
Lemma mac_parse_total s :
  exists r, mac_parse s = Done r /\ forall m, r = Ok m -> len m = 6.
Proof.
  unfold mac_parse. destruct (len (split 58 s) =? 6) eqn:E; cbn [negb]; [|by eexists].
  destruct (mac_octets_total (split 58 s) 0 (zeros 6)) as (r & -> & Hr).
  - lia.
  - rewrite len_zeros; lia.
  - exists r. split; [done|]. intros m ->. by rewrite (Hr m).
Qed.
