(* ===== verification/Route.v ===== *)
(** * Validated QUIC-LB route entries

    Models [pesigitg-routing/src/route.rs]: the raw tables the TOML
    deserializer delivers, their validation into [RouteConfig], and the lookups
    on a validated entry.  AES-128 (crate [aes]) and the TOML deserializer are
    parameters; the text of a validation error is a constructor that carries
    the values the message interpolates. *)

From S2P Require Import Prelude Std Common.

(** ** The AES-128 block cipher

    The interface of crate [aes]: an expanded key ([Aes128]) and the in-place
    block functions, on blocks of sixteen bytes. *)

Class Aes128 := {
  cipher : Type;
  aes_new : list byte -> cipher;
  encrypt_block : cipher -> list byte -> list byte;
  decrypt_block : cipher -> list byte -> list byte;
}.

(** What the code relies on: both functions keep the block length, and
    decryption inverts encryption under the same key. *)
Class AesLaws `{Aes128} : Prop := {
  len_encrypt_block c b : len b = 16 -> len (encrypt_block c b) = 16;
  len_decrypt_block c b : len b = 16 -> len (decrypt_block c b) = 16;
  decrypt_encrypt_block c b : len b = 16 -> decrypt_block c (encrypt_block c b) = b;
}.

(** ** Data *)

Inductive Encryption `{Aes128} :=
| Plaintext
| SinglePass (key : list byte) (c : cipher)
| FourPass (key : list byte) (c : cipher).

Record Server := mkServer {
  s_id : list byte;
  s_address : IpAddr;
  s_mac : option mac;
  s_draining : bool;
  s_healthy : bool;
  s_transitions : Z;
  s_state_since : option Instant;
}.

Record RouteConfig `{Aes128} := mkRouteConfig {
  config_id : Z;
  first_octet_encodes_cid_length : bool;
  server_id_length : Z;
  nonce_length : Z;
  encryption : Encryption;
  servers : list Server;
  max_key_age_secs : option N;
}.
Arguments mkRouteConfig {_}.

Record RawServer := mkRawServer {
  raw_id : str;
  raw_address : str;
  raw_mac : option str;
  raw_draining : bool;
}.

(** The deserializer rejects integers that do not fit the field, so a [u8]
    field is a byte and a [u64] field a natural number. *)
Record RawConfig := mkRawConfig {
  raw_config_id : byte;
  raw_first_octet : bool;
  raw_server_id_length : byte;
  raw_nonce_length : byte;
  raw_key : option str;
  raw_servers : list RawServer;
  raw_max_key_age_secs : option N;
}.

Inductive validation_error :=
| ConfigIdRange (got : Z)
| ServerIdLengthRange (got : Z)
| NonceLengthRange (got : Z)
| LengthSum (sid nonce sum : Z)
| InvalidHexKey (e : hex_error)
| KeyLength (got : Z)
| ServerIdHexChars (id : str) (got expected : Z)
| InvalidHexServerId (id : str) (e : hex_error)
| ServerIdBytes (id : str) (got expected : Z)
| InvalidAddress (address : str)
| InvalidMac (m : str) (e : mac_error)
| MaxKeyAgeZero (config_id : Z)
| NoConfigs
| DuplicateConfigId (id : Z).

Inductive RouteConfigError (IoError TomlError : Type) :=
| RouteIo (e : IoError)
| RouteParse (e : TomlError)
| RouteValidation (e : validation_error).
Arguments RouteIo {_ _} e.
Arguments RouteParse {_ _} e.
Arguments RouteValidation {_ _} e.

(** [r.map_err(f)] *)
Definition map_err {A E F} (f : E -> F) (r : result A E) : result A F :=
  match r with Ok a => Ok a | Err e => Err (f e) end.

Definition rs_map_err {A E F} (f : E -> F) (m : rs (result A E)) : rs (result A F) :=
  let* r := m in Done (map_err f r).

Section route.
  Context `{Aes : Aes128}.

(** [impl Clone for Encryption]: the copy expands the key again. *)
Definition enc_clone (e : Encryption) : Encryption :=
  match e with
  | Plaintext => Plaintext
  | SinglePass key _ => SinglePass key (aes_new key)
  | FourPass key _ => FourPass key (aes_new key)
  end.

Definition same_key (self other : Encryption) : bool :=
  match self, other with
  | Plaintext, Plaintext => true
  | SinglePass a _, SinglePass b _ => bool_decide (a = b)
  | FourPass a _, FourPass b _ => bool_decide (a = b)
  | _, _ => false
  end.

Definition parse_hex_key (s : str) : rs (result (list byte) validation_error) :=
  let*+ bytes := rs_map_err InvalidHexKey (hex_decode s) in
  if negb (len bytes =? 16) then Done (Err (KeyLength (len bytes)))
  else
    let* key := copy_to (zeros 16) 0 16 bytes in
    Done (Ok key).

Definition parse_server (raw : RawServer) (expected_id_len : Z)
    : rs (result Server validation_error) :=
  let expected_hex_len := expected_id_len * 2 in
  if negb (str_len (trim (raw_id raw)) =? expected_hex_len) then
    Done (Err (ServerIdHexChars (raw_id raw) (str_len (trim (raw_id raw))) expected_hex_len))
  else
    let*+ id := rs_map_err (InvalidHexServerId (raw_id raw)) (hex_decode (raw_id raw)) in
    if negb (len id =? expected_id_len) then
      Done (Err (ServerIdBytes (raw_id raw) (len id) expected_id_len))
    else
      match parse_ip (raw_address raw) with
      | None => Done (Err (InvalidAddress (raw_address raw)))
      | Some address =>
          let*+ m :=
            match raw_mac raw with
            | None => Done (Ok None)
            | Some t => let*+ m := rs_map_err (InvalidMac t) (mac_parse t) in Done (Ok (Some m))
            end in
          Done (Ok (mkServer id address m (raw_draining raw) false 0 None))
      end.

(** [.iter().map(..).collect::<Result<Vec<_>, _>>()?] *)
Fixpoint parse_servers (l : list RawServer) (expected_id_len : Z)
    : rs (result (list Server) validation_error) :=
  match l with
  | [] => Done (Ok [])
  | s :: r =>
      let*+ v := parse_server s expected_id_len in
      let*+ vs := parse_servers r expected_id_len in
      Done (Ok (v :: vs))
  end.

Definition validate (raw : RawConfig) : rs (result RouteConfig validation_error) :=
  let id := u8 (raw_config_id raw) in
  let sid_len := u8 (raw_server_id_length raw) in
  let nonce_len := u8 (raw_nonce_length raw) in
  if 6 <? id then Done (Err (ConfigIdRange id))
  else if (sid_len =? 0) || (15 <? sid_len) then Done (Err (ServerIdLengthRange sid_len))
  else if (nonce_len <? 4) || (18 <? nonce_len) then Done (Err (NonceLengthRange nonce_len))
  else
    let sum := sid_len + nonce_len in
    if 19 <? sum then Done (Err (LengthSum sid_len nonce_len sum))
    else
      let*+ enc :=
        match raw_key raw with
        | None => Done (Ok Plaintext)
        | Some hex =>
            let*+ key := parse_hex_key hex in
            let c := aes_new key in
            Done (Ok (if sum =? 16 then SinglePass key c else FourPass key c))
        end in
      let*+ srvs := parse_servers (raw_servers raw) sid_len in
      match raw_max_key_age_secs raw with
      | Some 0%N => Done (Err (MaxKeyAgeZero id))
      | _ =>
          Done (Ok (mkRouteConfig id (raw_first_octet raw) sid_len nonce_len enc srvs
                      (raw_max_key_age_secs raw)))
      end.

(** [u8] addition: in the release profile it wraps. *)
Definition cid_payload_length (c : RouteConfig) : Z :=
  wrap8 (server_id_length c + nonce_length c).

Definition cid_length (c : RouteConfig) : Z := wrap8 (1 + cid_payload_length c).

(** [.iter().position(|s| s.id == id)] *)
Fixpoint position_id (l : list Server) (id : list byte) (i : nat) : option nat :=
  match l with
  | [] => None
  | s :: r => if bool_decide (s_id s = id) then Some i else position_id r id (S i)
  end.

Definition find_server_idx (c : RouteConfig) (id : list byte) : option nat :=
  position_id (servers c) id 0.

(** The loop of [parse_routes]: [seen] has a flag per config id. *)
Fixpoint parse_configs (raws : list RawConfig) (seen : list bool) (out : list RouteConfig)
    : rs (result (list RouteConfig) validation_error) :=
  match raws with
  | [] => Done (Ok out)
  | raw :: r =>
      let*+ config := validate raw in
      let id := config_id config in
      let* dup := idx seen id in
      if dup : bool then Done (Err (DuplicateConfigId id))
      else
        let* seen' := set_at seen id true in
        parse_configs r seen' (out ++ [config])
  end.

Section text.
  Context {IoError TomlError : Type}.
  (** [toml::from_str] at [RawRouteFile], whose only field is [configs]. *)
  Context (toml_from_str : str -> result (list RawConfig) TomlError).
  (** [std::fs::read_to_string] *)
  Context (read_to_string : str -> result str IoError).

Definition parse_routes (text : str)
    : rs (result (list RouteConfig) (RouteConfigError IoError TomlError)) :=
  match toml_from_str text with
  | Err e => Done (Err (RouteParse e))
  | Ok configs =>
      match configs with
      | [] => Done (Err (RouteValidation NoConfigs))
      | _ => rs_map_err RouteValidation (parse_configs configs (replicate 7 false) [])
      end
  end.

Definition parse_routes_file (path : str)
    : rs (result (list RouteConfig) (RouteConfigError IoError TomlError)) :=
  match read_to_string path with
  | Err e => Done (Err (RouteIo e))
  | Ok text => parse_routes text
  end.
End text.

(** ** The invariant of a validated entry *)

Definition enc_wf (sum : Z) (e : Encryption) : Prop :=
  match e with
  | Plaintext => True
  | SinglePass key c => len key = 16 /\ c = aes_new key /\ sum = 16
  | FourPass key c => len key = 16 /\ c = aes_new key /\ sum <> 16
  end.

Definition server_wf (sid_len : Z) (s : Server) : Prop :=
  len (s_id s) = sid_len /\ ip_wf (s_address s) /\
  (forall m, s_mac s = Some m -> len m = 6).

(** A server as validation leaves it: no probe has run. *)
Definition server_fresh (s : Server) : Prop :=
  s_healthy s = false /\ s_transitions s = 0 /\ s_state_since s = None.

Record config_wf (c : RouteConfig) : Prop := {
  wf_id : 0 <= config_id c <= 6;
  wf_sid : 1 <= server_id_length c <= 15;
  wf_nonce : 4 <= nonce_length c <= 18;
  wf_sum : server_id_length c + nonce_length c <= 19;
  wf_enc : enc_wf (server_id_length c + nonce_length c) (encryption c);
  wf_servers : Forall (server_wf (server_id_length c)) (servers c);
  wf_age : forall n, max_key_age_secs c = Some n -> (0 < n)%N;
}.

(** ** Lemmas *)

Lemma parse_hex_key_ok s k : parse_hex_key s = Done (Ok k) -> len k = 16.
Proof.
  unfold parse_hex_key, rs_map_err. destruct (hex_decode s) as [[b|e]|]; cbn [map_err]; try done.
  destruct (len b =? 16) eqn:E; cbn [negb]; [|done].
  rewrite copy_to_in by (rewrite ?len_zeros; lia). intros [= <-].
  rewrite len_splice; rewrite ?len_zeros; lia.
Qed.

Lemma parse_hex_key_value s k : parse_hex_key s = Done (Ok k) -> hex_decode s = Done (Ok k).
Proof.
  unfold parse_hex_key, rs_map_err. destruct (hex_decode s) as [[b|e]|]; cbn [map_err]; try done.
  destruct (len b =? 16) eqn:E; cbn [negb]; [|done].
  rewrite copy_to_in by (rewrite ?len_zeros; lia). intros [= <-].
  unfold splice. rewrite drop_ge; [by rewrite app_nil_r|].
  unfold zeros. rewrite length_replicate. lia.
Qed.

Lemma parse_server_ok raw n s :
  parse_server raw n = Done (Ok s) ->
  server_wf n s /\ server_fresh s /\ s_draining s = raw_draining raw /\
  hex_decode (raw_id raw) = Done (Ok (s_id s)) /\ parse_ip (raw_address raw) = Some (s_address s).
Proof.
  unfold parse_server, rs_map_err. case_goal; [done|].
  destruct (hex_decode (raw_id raw)) as [[id|e]|] eqn:Eh; simpl; try done.
  destruct (len id =? n) eqn:En; simpl; [|done].
  destruct (parse_ip (raw_address raw)) as [a|] eqn:Ea; [|done].
  destruct (raw_mac raw) as [t|] eqn:Em.
  - destruct (mac_parse_total t) as (r & Hr & Hm). rewrite Hr. simpl.
    destruct r as [m|e]; simpl; [|done]. intros [= <-].
    repeat split; simpl; [lia|by eapply parse_ip_wf|intros ? [= <-]; by apply Hm].
  - intros [= <-]. repeat split; simpl; [lia|by eapply parse_ip_wf|done].
Qed.

Lemma parse_servers_ok l n ss :
  parse_servers l n = Done (Ok ss) ->
  Forall (server_wf n) ss /\ Forall server_fresh ss /\ length ss = length l.
Proof.
  revert ss. induction l as [|r l IH]; intros ss; simpl; [intros [= <-]; auto|].
  destruct (parse_server r n) as [[s|e]|] eqn:Es; try done.
  destruct (parse_servers l n) as [[vs|e]|] eqn:El; try done.
  intros [= <-]. apply parse_server_ok in Es as (? & ? & _).
  destruct (IH vs) as (? & ? & ?); [done|]. repeat split; [by constructor..|simpl; lia].
Qed.

Lemma validate_ok raw c :
  validate raw = Done (Ok c) ->
  config_wf c /\ Forall server_fresh (servers c) /\
  config_id c = u8 (raw_config_id raw) /\ nonce_length c = u8 (raw_nonce_length raw) /\
  server_id_length c = u8 (raw_server_id_length raw) /\
  first_octet_encodes_cid_length c = raw_first_octet raw /\
  (encryption c = Plaintext <-> raw_key raw = None) /\
  length (servers c) = length (raw_servers raw).
Proof.
  unfold validate. do 4 (case_goal; [done|]).
  set (encr := match raw_key raw with None => _ | Some _ => _ end).
  assert (Henc : forall e, encr = Done (Ok e) ->
    enc_wf (u8 (raw_server_id_length raw) + u8 (raw_nonce_length raw)) e /\
    (e = Plaintext <-> raw_key raw = None)).
  { intros e. unfold encr. destruct (raw_key raw) as [k|]; [|by intros [= <-]].
    destruct (parse_hex_key k) as [[key|?]|] eqn:Ek; try done. intros [= <-].
    apply parse_hex_key_ok in Ek. split; case_goal; simpl; repeat split; try done; lia. }
  destruct encr as [[e|?]|]; try done. destruct (Henc e eq_refl) as [He Hp].
  destruct (parse_servers _ _) as [[ss|?]|] eqn:Ess; try done.
  apply parse_servers_ok in Ess as (Hs & Hf & Hl).
  destruct (raw_max_key_age_secs raw) as [[|n]|] eqn:Ea; try done; intros [= <-];
    (split; [constructor; simpl; try done; try lia; naive_solver lia|by repeat split; try apply Hp]).
Qed.

Lemma cid_lengths c :
  config_wf c ->
  cid_payload_length c = server_id_length c + nonce_length c /\
  cid_length c = 1 + server_id_length c + nonce_length c.
Proof.
  intros [_ ? ? ? _ _ _]. unfold cid_length, cid_payload_length, wrap8.
  rewrite !Z.mod_small; lia.
Qed.

Lemma enc_clone_id sum e : enc_wf sum e -> enc_clone e = e.
Proof. destruct e; simpl; intros; naive_solver. Qed.

(** *** Server lookup by id *)

Lemma position_id_Some l id i k :
  position_id l id i = Some k ->
  (i <= k)%nat /\ exists s, l !! (k - i)%nat = Some s /\ s_id s = id /\
  forall j s', (j < k - i)%nat -> l !! j = Some s' -> s_id s' <> id.
Proof.
  revert i. induction l as [|s l IH]; intros i; simpl; [done|].
  case_bool_decide as E.
  - intros [= <-]. split; [lia|]. rewrite Nat.sub_diag. exists s. repeat split; [done|].
    intros j s' Hj. lia.
  - intros (Hik & s0 & Hs0 & Hid & Hall)%IH. split; [lia|].
    replace (k - i)%nat with (S (k - S i)) by lia. exists s0. repeat split; [done..|].
    intros [|j] s' Hj Hl; simpl in Hl; [by injection Hl as ->|].
    apply (Hall j s'); [lia|done].
Qed.

Lemma position_id_None l id i : position_id l id i = None -> Forall (fun s => s_id s <> id) l.
Proof.
  revert i. induction l as [|s l IH]; intros i; simpl; [by constructor|].
  case_bool_decide; [done|]. constructor; eauto.
Qed.

(** Looking a listed id up returns the index of the first server that has it. *)
Lemma find_server_idx_first c id k :
  find_server_idx c id = Some k <->
  (exists s, servers c !! k = Some s /\ s_id s = id) /\
  (forall j s, (j < k)%nat -> servers c !! j = Some s -> s_id s <> id).
Proof.
  unfold find_server_idx. split.
  - intros (_ & s & Hs & Hid & Hall)%position_id_Some. rewrite Nat.sub_0_r in *. eauto.
  - intros ((s & Hs & Hid) & Hall). destruct (position_id (servers c) id 0) as [k'|] eqn:E.
    + apply position_id_Some in E as (_ & s' & Hs' & Hid' & Hall'). rewrite Nat.sub_0_r in *.
      f_equal. destruct (Nat.lt_trichotomy k k') as [?|[?|?]]; [|done|].
      * by destruct (Hall' k s).
      * by destruct (Hall k' s').
    + apply position_id_None in E. rewrite Forall_lookup in E. by destruct (E k s).
Qed.

(** *** Acceptance *)

(** A raw server entry that validation accepts for ids of [n] bytes. *)
Definition raw_server_ok (n : Z) (r : RawServer) : Prop :=
  (exists id, hex_decode (raw_id r) = Done (Ok id) /\ len id = n) /\
  (exists a, parse_ip (raw_address r) = Some a) /\
  (forall t, raw_mac r = Some t -> exists m, mac_parse t = Done (Ok m)).

Definition raw_config_ok (raw : RawConfig) : Prop :=
  u8 (raw_config_id raw) <= 6 /\
  1 <= u8 (raw_server_id_length raw) <= 15 /\
  4 <= u8 (raw_nonce_length raw) <= 18 /\
  u8 (raw_server_id_length raw) + u8 (raw_nonce_length raw) <= 19 /\
  (forall k, raw_key raw = Some k -> exists b, hex_decode k = Done (Ok b) /\ len b = 16) /\
  Forall (raw_server_ok (u8 (raw_server_id_length raw))) (raw_servers raw) /\
  raw_max_key_age_secs raw <> Some 0%N.

Lemma parse_server_iff r n :
  (exists s, parse_server r n = Done (Ok s)) <-> raw_server_ok n r.
Proof.
  split.
  - intros [s Hs]. pose proof (parse_server_ok _ _ _ Hs) as ((Hl & _) & _ & _ & Hh & Hip).
    split; [by eauto|]. split; [by eauto|]. intros t Ht.
    revert Hs. unfold parse_server. rewrite Hh, Hip, Ht. unfold rs_map_err. simpl.
    destruct (mac_parse t) as [[m|?]|]; eauto; simpl; repeat case_goal; try done.
  - intros ((id & Hh & Hl) & (a & Ha) & Hm). unfold parse_server.
    rewrite (hex_decode_length _ _ Hh), Hl.
    replace (2 * n =? n * 2) with true by lia. simpl. rewrite Hh. simpl. rewrite Hl, Z.eqb_refl.
    simpl. rewrite Ha. destruct (raw_mac r) as [t|]; [|by eauto].
    destruct (Hm t eq_refl) as [m ->]. simpl. eauto.
Qed.

Lemma parse_servers_iff l n :
  (exists ss, parse_servers l n = Done (Ok ss)) <-> Forall (raw_server_ok n) l.
Proof.
  induction l as [|r l IH]; simpl; [by split; eauto|].
  rewrite Forall_cons_iff, <- IH, <- parse_server_iff. split.
  - intros [ss Hss]. destruct (parse_server r n) as [[s|?]|]; try done.
    destruct (parse_servers l n) as [[vs|?]|]; try done. eauto.
  - intros [[s ->] [vs ->]]. eauto.
Qed.

Lemma parse_hex_key_iff k :
  (exists key, parse_hex_key k = Done (Ok key)) <->
  (exists b, hex_decode k = Done (Ok b) /\ len b = 16).
Proof.
  split.
  - intros [key H]. exists key. eauto using parse_hex_key_ok, parse_hex_key_value.
  - intros (b & Hb & Hl). unfold parse_hex_key. rewrite Hb. cbn [rs_map_err map_err].
    rewrite Hl. cbn [negb Z.eqb Pos.eqb]. rewrite copy_to_in by (rewrite ?len_zeros; lia). eauto.
Qed.

Lemma validate_complete raw : raw_config_ok raw -> exists c, validate raw = Done (Ok c).
Proof.
  intros (H1 & H2 & H3 & H4 & Hk & Hs & Ha). unfold validate.
  do 4 (case_goal; [lia|]).
  apply parse_servers_iff in Hs as [ss ->].
  destruct (raw_key raw) as [k|].
  - destruct (proj2 (parse_hex_key_iff k) (Hk k eq_refl)) as [key ->].
    destruct (raw_max_key_age_secs raw) as [[|n]|]; by eauto.
  - destruct (raw_max_key_age_secs raw) as [[|n]|]; by eauto.
Qed.

Lemma validate_accepts raw c : validate raw = Done (Ok c) -> raw_config_ok raw.
Proof.
  unfold validate, raw_config_ok. do 4 (case_goal; [done|]).
  destruct (raw_key raw) as [k|] eqn:Ek.
  - destruct (parse_hex_key k) as [[key|?]|] eqn:Ekk; try done.
    destruct (parse_servers _ _) as [[ss|?]|] eqn:Es; try done.
    destruct (raw_max_key_age_secs raw) as [[|n]|]; try done; intros _;
    (repeat split; try lia; [intros ? [= <-]; apply parse_hex_key_iff; by eauto
                            |apply parse_servers_iff; by eauto|done]).
  - destruct (parse_servers _ _) as [[ss|?]|] eqn:Es; try done.
    destruct (raw_max_key_age_secs raw) as [[|n]|]; try done; intros _;
    (repeat split; try lia; [done|apply parse_servers_iff; by eauto|done]).
Qed.

(** *** The route file *)

(** The flags record exactly the config ids accepted so far. *)
Definition seen_inv (seen : list bool) (out : list RouteConfig) : Prop :=
  length seen = 7%nat /\
  forall i : nat, seen !! i = Some true <-> Z.of_nat i ∈ map config_id out.

Lemma parse_configs_ok raws seen out cs :
  seen_inv seen out -> NoDup (map config_id out) ->
  parse_configs raws seen out = Done (Ok cs) ->
  NoDup (map config_id cs) /\
  exists new, cs = out ++ new /\ Forall2 (fun raw c => validate raw = Done (Ok c)) raws new.
Proof.
  revert seen out. induction raws as [|raw raws IH]; intros seen out [Hlen Hseen] Hnd; simpl.
  { intros [= <-]. split; [done|]. exists []. by rewrite app_nil_r. }
  destruct (validate raw) as [[c|?]|] eqn:Ev; try done.
  destruct (validate_ok _ _ Ev) as ([Hid _ _ _ _ _ _] & _).
  rewrite idx_in by (unfold len; lia). unfold elt.
  destruct (seen !!! Z.to_nat (config_id c)) eqn:Es; [done|].
  assert (Hlk : seen !! Z.to_nat (config_id c) = Some false).
  { rewrite <- Es. apply list_lookup_lookup_total_lt. lia. }
  rewrite set_at_in by (unfold len; lia). intros H. apply IH in H.
  - destruct H as (? & new & -> & ?). split; [done|]. exists (c :: new).
    by rewrite <- app_assoc; split; [|constructor].
  - split; [by rewrite length_insert|]. intros i. rewrite map_app, elem_of_app.
    cbn [map]. rewrite list_elem_of_singleton, <- Hseen, list_lookup_insert_Some.
    destruct (decide (i = Z.to_nat (config_id c))) as [->|Hne].
    + rewrite Z2Nat.id by lia. split; [by auto|]. intros _. left. repeat split; lia.
    + split; [naive_solver|]. intros [?|?]; [naive_solver lia|lia].
  - rewrite map_app. apply list.NoDup_app. repeat split; [done| |by apply NoDup_singleton].
    intros z Hz ->%list_elem_of_singleton. assert (seen !! Z.to_nat (config_id c) = Some true).
    { apply Hseen. by rewrite Z2Nat.id by lia. }
    congruence.
Qed.

Lemma seen_inv_init : seen_inv (replicate 7 false) [].
Proof.
  split; [done|]. intros i. split; [|by intros ?%not_elem_of_nil].
  intros ?%lookup_replicate. naive_solver.
Qed.

Lemma forall2_validated raws cs :
  Forall2 (fun raw c => validate raw = Done (Ok c)) raws cs ->
  Forall config_wf cs /\ Forall (fun c => Forall server_fresh (servers c)) cs.
Proof.
  induction 1 as [|raw c raws cs Hv _ [IH1 IH2]]; [done|].
  apply validate_ok in Hv as (? & ? & _). by split; constructor.
Qed.

Lemma parse_routes_facts {IoE TomlE} (toml : str -> result (list RawConfig) TomlE) text out :
  parse_routes (IoError := IoE) toml text = Done (Ok out) ->
  NoDup (map config_id out) /\ Forall config_wf out.
Proof.
  unfold parse_routes, rs_map_err. destruct (toml text) as [[|raw raws]|e]; try done.
  destruct (parse_configs (raw :: raws) _ []) as [[cs|?]|] eqn:E; try done. intros [= <-].
  apply parse_configs_ok in E as (Hnd & new & -> & H2); [|apply seen_inv_init|constructor].
  split; [done|]. by apply (forall2_validated _ _ H2).
Qed.

Lemma parse_routes_fresh {IoE TomlE} (toml : str -> result (list RawConfig) TomlE) text out :
  parse_routes (IoError := IoE) toml text = Done (Ok out) ->
  Forall (fun c => Forall server_fresh (servers c)) out.
Proof.
  unfold parse_routes, rs_map_err. destruct (toml text) as [[|raw raws]|e]; try done.
  destruct (parse_configs (raw :: raws) _ []) as [[cs|?]|] eqn:E; try done. intros [= <-].
  apply parse_configs_ok in E as (Hnd & new & -> & H2); [|apply seen_inv_init|constructor].
  by apply (forall2_validated _ _ H2).
Qed.

End route.

(** ** A concrete block cipher

    XOR with the key: it has the laws of [AesLaws] and evaluates, so the
    theorems that assume a cipher can be run on concrete inputs. *)

Fixpoint xor_with (k b : list byte) : list byte :=
  match k, b with
  | y :: k', x :: b' => bxor x y :: xor_with k' b'
  | _, _ => b
  end.

#[local] Instance xor_aes : Aes128 :=
  { cipher := list byte; aes_new := fun k => k;
    encrypt_block := xor_with; decrypt_block := xor_with }.

Lemma length_xor_with k b : length (xor_with k b) = length b.
Proof. revert b. induction k as [|y k IH]; intros [|x b]; simpl; auto. Qed.

Lemma xor_with_cancel k b : xor_with k (xor_with k b) = b.
Proof.
  revert b. induction k as [|y k IH]; intros [|x b]; simpl; [done..|].
  by rewrite bxor_cancel, IH.
Qed.

#[local] Instance xor_aes_laws : AesLaws.
Proof.
  split; simpl; intros c b Hb; [by unfold len in *; rewrite length_xor_with..|].
  apply xor_with_cancel.
Qed.

(** ** Properties *)

(** Validation accepts exactly the raw entries inside the documented
    limits (config id at most 6, server id of 1 to 15 bytes, nonce of 4 to 18
    bytes, both at most 19, a key of 16 bytes, well-formed servers, a nonzero
    rotation age), and on every other entry it returns an error or panics in
    the hex decoder. *)
Theorem validate_iff `{Aes128} (raw : RawConfig) :
  (exists c, validate raw = Done (Ok c)) <-> raw_config_ok raw.
Proof. split; [intros [c Hc]; by eapply validate_accepts|apply validate_complete]. Qed.

(** Every route file that parses yields, in declaration order, one
    validated entry per table: at least one, with pairwise distinct config ids,
    each satisfying the invariant of a validated entry, and with every server
    in its initial unhealthy state. *)
Theorem parse_routes_sound `{Aes128} {IoE TomlE} (toml : str -> result (list RawConfig) TomlE)
    (text : str) (out : list RouteConfig) :
  parse_routes (IoError := IoE) toml text = Done (Ok out) ->
  out <> [] /\ NoDup (map config_id out) /\ Forall config_wf out /\
  Forall (fun c => Forall server_fresh (servers c)) out /\
  exists raws, toml text = Ok raws /\
    Forall2 (fun raw c => validate raw = Done (Ok c)) raws out.
Proof.
  unfold parse_routes, rs_map_err. destruct (toml text) as [[|raw raws]|e]; try done.
  destruct (parse_configs (raw :: raws) _ []) as [[cs|?]|] eqn:E; try done. intros [= <-].
  apply parse_configs_ok in E as (Hnd & new & -> & H2); [|apply seen_inv_init|constructor].
  cbn [app] in *. destruct (forall2_validated _ _ H2). inversion H2; subst. by eauto 10.
Qed.


Definition example_raw : RawConfig :=
  mkRawConfig 2%u8 false 4%u8 12%u8 (Some (lit "000102030405060708090a0b0c0d0e0f"))
    [mkRawServer (lit "deadbeef") (lit "10.0.0.1") (Some (lit "de:ad:be:ef:00:11")) false]
    (Some 3600%N).

Definition example_routes : list RouteConfig :=
  match validate example_raw with Done (Ok c) => [c] | _ => [] end.

Lemma parse_routes_sound_witness :
  example_routes <> [] /\ NoDup (map config_id example_routes) /\
  Forall config_wf example_routes.
Proof.
  destruct (parse_routes_sound (IoE := unit) (fun _ => Ok (E := unit) [example_raw]) []
              example_routes) as (? & ? & ? & _); [vm_compute; reflexivity|auto].
Defined.
