(* ===== verification/Cid.v ===== *)
(** * Connection ID extraction and decryption

    Models [pesigitg-routing/src/cid.rs]: where the Connection IDs sit in a
    QUIC header, and the decryption of a CID payload in the three modes of
    QUIC-LB.  The Feistel rounds keep the source's sixteen-byte block, its index
    loops and its in-place buffer, so that every slice and index that can panic
    is one here. *)

From S2P Require Import Prelude Std Common Route.

(** ** Extraction *)

Definition first_cid_octet (quic : list byte) : rs (option byte) :=
  if len quic =? 0 then Done None
  else
    let* b0 := idx quic 0 in
    if has_bits b0 0x80 then
      if len quic <? 7 then Done None
      else
        let* b5 := idx quic 5 in
        if u8 b5 =? 0 then Done None
        else let* o := idx quic 6 in Done (Some o)
    else if len quic <? 2 then Done None
    else let* o := idx quic 1 in Done (Some o).

Definition extract_raw_dcid (quic : list byte) (cid_length : Z) : rs (option (list byte)) :=
  if len quic =? 0 then Done None
  else
    let* b0 := idx quic 0 in
    let*? dcid :=
      if has_bits b0 0x80 then
        if len quic <? 6 then Done None
        else
          let* b5 := idx quic 5 in
          let dcid_len := u8 b5 in
          let end_ := 6 + dcid_len in
          if len quic <? end_ then Done None
          else let* d := slice quic 6 end_ in Done (Some d)
      else
        let end_ := 1 + cid_length in
        if len quic <? end_ then Done None
        else let* d := slice quic 1 end_ in Done (Some d) in
    if len dcid =? 0 then Done None else Done (Some dcid).

Definition extract_scid (quic : list byte) : rs (option (list byte)) :=
  if len quic =? 0 then Done None
  else
    let* b0 := idx quic 0 in
    if negb (has_bits b0 0x80) then Done None
    else if len quic <? 6 then Done None
    else
      let* b5 := idx quic 5 in
      let dcid_len := u8 b5 in
      let scid_len_offset := 6 + dcid_len in
      if len quic <? scid_len_offset + 1 then Done None
      else
        let* l := idx quic scid_len_offset in
        let scid_len := u8 l in
        if scid_len =? 0 then Done None
        else
          let scid_start := scid_len_offset + 1 in
          let scid_end := scid_start + scid_len in
          if len quic <? scid_end then Done None
          else let* s := slice quic scid_start scid_end in Done (Some s).

(** ** Decryption *)

(** [block[0] ^= i] *)
Definition xor_first (block : list byte) (i : Z) : rs (list byte) :=
  let* b := idx block 0 in set_at block 0 (bxor b (b8 i)).

(** [for j in 0..n { buf[off + j] ^= ga[j]; }], from [j] on with [n] rounds left. *)
Fixpoint xor_loop (n : nat) (j off : Z) (ga buf : list byte) : rs (list byte) :=
  match n with
  | O => Done buf
  | S n' =>
      let* g := idx ga j in
      let* b := idx buf (off + j) in
      let* buf' := set_at buf (off + j) (bxor b g) in
      xor_loop n' (j + 1) off ga buf'
  end.

Section cid.
  Context `{Aes : Aes128}.

Definition decrypt_single_pass (buf : list byte) (c : cipher) : rs (list byte) :=
  let* block := slice buf 0 16 in
  copy_to buf 0 16 (decrypt_block c block).

(** One pass of the loop of [decrypt_four_pass]. *)
Definition decrypt_pass (i : Z) (buf : list byte) (sid_len nonce_len : Z) (c : cipher)
    : rs (list byte) :=
  if i mod 2 =? 1 then
    let* l := slice buf 0 sid_len in
    let* block := copy_to (zeros 16) 0 sid_len l in
    let* block := xor_first block i in
    xor_loop (Z.to_nat nonce_len) 0 sid_len (encrypt_block c block) buf
  else
    let* r := slice buf sid_len (sid_len + nonce_len) in
    let* block := copy_to (zeros 16) 0 nonce_len r in
    let* block := xor_first block i in
    xor_loop (Z.to_nat sid_len) 0 0 (encrypt_block c block) buf.

(** [for i in (0..4u8).rev()] *)
Definition decrypt_four_pass (buf : list byte) (sid_len nonce_len : Z) (c : cipher)
    : rs (list byte) :=
  let* buf := decrypt_pass 3 buf sid_len nonce_len c in
  let* buf := decrypt_pass 2 buf sid_len nonce_len c in
  let* buf := decrypt_pass 1 buf sid_len nonce_len c in
  decrypt_pass 0 buf sid_len nonce_len c.

Definition resolve_server_idx (dcid : list byte) (config : RouteConfig) : rs (option nat) :=
  let payload_len := cid_payload_length config in
  let sid_len := server_id_length config in
  if len dcid <? 1 + payload_len then Done None
  else
    let* payload := slice dcid 1 (1 + payload_len) in
    let* buf := copy_to (zeros 19) 0 payload_len payload in
    let* buf :=
      match encryption config with
      | Plaintext => Done buf
      | SinglePass _ c => decrypt_single_pass buf c
      | FourPass _ c => decrypt_four_pass buf sid_len (wsub64 payload_len sid_len) c
      end in
    let* id := slice buf 0 sid_len in
    Done (find_server_idx config id).

(** ** Extraction: lemmas *)

(** The position of the DCID in a header, as a specification: after the length
    octet of a long header, after the first octet of a short one. *)
Definition dcid_spec (quic : list byte) (cid_length : Z) : option (list byte) :=
  match quic with
  | [] => None
  | b0 :: rest =>
      let d :=
        if has_bits b0 0x80 then
          match drop 4 rest with
          | [] => None
          | n :: r => if u8 n <=? len r then Some (take (Z.to_nat (u8 n)) r) else None
          end
        else if cid_length <=? len rest then Some (take (Z.to_nat cid_length) rest) else None in
      match d with Some [] => None | _ => d end
  end.

Lemma drop_elt (l : list byte) (i : Z) :
  0 <= i < len l -> drop (Z.to_nat i) l = elt l i :: drop (Z.to_nat (i + 1)) l.
Proof.
  intros. rewrite (drop_S l (elt l i)).
  - f_equal. f_equal. lia.
  - rewrite lookup_elt by (unfold len in *; lia). by rewrite Z2Nat.id by lia.
Qed.

Lemma extract_raw_dcid_spec quic n :
  0 <= n -> extract_raw_dcid quic n = Done (dcid_spec quic n).
Proof.
  intros Hn. destruct quic as [|b0 rest]; [done|]. unfold extract_raw_dcid, dcid_spec.
  set (quic := b0 :: rest). assert (Hq : len quic = 1 + len rest) by apply len_cons. pose_len.
  destruct (len quic =? 0) eqn:E0; [lia|]. rewrite idx_in by lia.
  change (elt quic 0) with b0. destruct (has_bits b0 0x80).
  - change (drop 4 rest) with (drop (Z.to_nat 5) quic). destruct (len quic <? 6) eqn:E6.
    + rewrite drop_ge; [done|]. unfold len in *. lia.
    + rewrite idx_in by lia. rewrite (drop_elt quic 5) by lia.
      set (r := drop (Z.to_nat (5 + 1)) quic).
      assert (Hr : len r = len quic - 6) by (unfold r; rewrite len_drop; lia). rewrite Hr.
      destruct (len quic <? 6 + u8 (elt quic 5)) eqn:E.
      * replace (u8 (elt quic 5) <=? len quic - 6) with false by lia. done.
      * replace (u8 (elt quic 5) <=? len quic - 6) with true by lia. rewrite slice_in by lia.
        unfold sub. replace (6 + u8 (elt quic 5) - 6) with (u8 (elt quic 5)) by lia.
        fold r. change (Z.to_nat 6) with (Z.to_nat (5 + 1)). fold r.
        by destruct (take _ r).
  - destruct (len quic <? 1 + n) eqn:E.
    + by replace (n <=? len rest) with false by lia.
    + replace (n <=? len rest) with true by lia. rewrite slice_in by lia. unfold sub.
      replace (1 + n - 1) with n by lia. change (drop (Z.to_nat 1) quic) with rest.
      by destruct (take _ rest).
Qed.

Lemma first_cid_octet_returns quic : returns (first_cid_octet quic).
Proof. unfold first_cid_octet. pose_len. rs_run. Qed.

Lemma extract_scid_returns quic : returns (extract_scid quic).
Proof. unfold extract_scid. pose_len. rs_run. Qed.

(** ** The Feistel rounds

    A round keeps one half and XORs into the other the encryption of the kept
    half, padded to a block and tweaked by the round number. *)

Definition xorl (x k : list byte) : list byte := zip_with bxor x k.

Definition pad16 (x : list byte) : list byte := x ++ zeros (16 - len x).

Definition xor_head (x : list byte) (i : Z) : list byte :=
  match x with [] => [] | b :: r => bxor b (b8 i) :: r end.

Definition round_key (c : cipher) (i : Z) (x : list byte) : list byte :=
  encrypt_block c (xor_head (pad16 x) i).

Lemma len_xorl x k : len x <= len k -> len (xorl x k) = len x.
Proof. unfold len, xorl. rewrite length_zip_with. lia. Qed.

Lemma xorl_cancel x k : len x <= len k -> xorl (xorl x k) k = x.
Proof.
  revert k. induction x as [|a x IH]; intros [|b k]; autorewrite with len; intros.
  - done.
  - done.
  - pose_len. lia.
  - unfold xorl in *. simpl. rewrite bxor_cancel, IH; [done|lia].
Qed.

Lemma len_pad16 x : len x <= 16 -> len (pad16 x) = 16.
Proof. intros. unfold pad16. rewrite len_app, len_zeros; lia. Qed.

Lemma len_xor_head x i : len (xor_head x i) = len x.
Proof. by destruct x. Qed.

Lemma copy_zeros16 x : len x <= 16 -> copy_to (zeros 16) 0 (len x) x = Done (pad16 x).
Proof.
  intros. rewrite copy_to_in by (rewrite ?len_zeros; pose_len; lia). rewrite splice_0. unfold pad16, zeros. do 2 f_equal. rewrite drop_replicate. f_equal. unfold len. lia.
Qed.

Lemma xor_first_head x i : 0 < len x -> xor_first x i = Done (xor_head x i).
Proof.
  intros Hx. destruct x as [|b x]; [by unfold len in Hx; simpl in Hx|].
  unfold xor_first. rewrite idx_in by lia. rewrite set_at_in by lia. done.
Qed.

Lemma xor_loop_app pre x post gpre k gpost j off :
  len gpre = j -> len pre = off + j -> length x = length k ->
  xor_loop (length x) j off (gpre ++ k ++ gpost) (pre ++ x ++ post)
  = Done (pre ++ xorl x k ++ post).
Proof.
  revert pre gpre k j. induction x as [|b x IH]; intros pre gpre [|g k] j Hg Hp Hl; try done.
  cbn [xor_loop length]. pose_len.
  rewrite idx_in by (rewrite !len_app, len_cons; pose_len; lia).
  rewrite elt_app_r by lia. replace (j - len gpre) with 0 by lia.
  rewrite idx_in by (rewrite !len_app, len_cons; pose_len; lia).
  rewrite elt_app_r by lia. replace (off + j - len pre) with 0 by lia.
  rewrite set_at_in by (rewrite !len_app, len_cons; pose_len; lia).
  replace (Z.to_nat (off + j)) with (length pre + 0)%nat by (unfold len in *; lia).
  rewrite insert_app_r. cbn [app insert list_insert].
  change (elt (b :: x ++ post) 0) with b. change (elt (g :: k ++ gpost) 0) with g.
  specialize (IH (pre ++ [bxor b g]) (gpre ++ [g]) k (j + 1)).
  rewrite <- !app_assoc in IH. cbn [app] in IH. unfold xorl in *. cbn [zip_with app].
  apply IH; [llia|llia|by injection Hl].
Qed.

Lemma xor_loop_key pre x post ga off :
  len pre = off -> len x <= len ga ->
  xor_loop (length x) 0 off ga (pre ++ x ++ post) = Done (pre ++ xorl x ga ++ post).
Proof.
  intros Hp Hl.
  assert (Hk : length x = length (take (length x) ga)).
  { unfold len in *. rewrite length_take. lia. }
  pose proof (xor_loop_app pre x post [] (take (length x) ga) (drop (length x) ga) 0 off) as H.
  cbn [app] in H. rewrite take_drop in H. rewrite H by (done || lia).
  unfold xorl. by rewrite zip_with_take_r by lia.
Qed.

(** A round that needs more key bytes than the block has runs out of it. *)
Lemma xor_loop_short n j off ga buf :
  0 <= j <= len ga -> len ga < j + Z.of_nat n -> xor_loop n j off ga buf = Panic.
Proof.
  revert j buf. induction n as [|n IH]; intros j buf Hj Hn; cbn [xor_loop]; [lia|].
  destruct (idx ga j) eqn:E; [|done]. apply idx_Done_inv in E as [? _].
  destruct (idx buf (off + j)); [|done].
  destruct (set_at buf (off + j) _); [|done]. apply IH; lia.
Qed.

Context `{!AesLaws}.

Lemma len_round_key c i x : len x <= 16 -> len (round_key c i x) = 16.
Proof. intros. unfold round_key. apply len_encrypt_block. rewrite len_xor_head. by apply len_pad16. Qed.

Lemma decrypt_pass_odd c i l r t :
  i mod 2 = 1 -> 1 <= len l <= 16 -> len r <= 16 ->
  decrypt_pass i (l ++ r ++ t) (len l) (len r) c = Done (l ++ xorl r (round_key c i l) ++ t).
Proof.
  intros Hi Hl Hr. unfold decrypt_pass. replace (i mod 2 =? 1) with true by lia.
  rewrite slice_in by llia. rewrite sub_app_l, sub_full by lia.
  rewrite copy_zeros16 by lia. rewrite xor_first_head by (rewrite len_pad16; lia).
  unfold len at 1. rewrite Nat2Z.id. fold (round_key c i l).
  apply xor_loop_key; [done|]. rewrite len_round_key; lia.
Qed.

Lemma decrypt_pass_even c i l r t :
  i mod 2 = 0 -> len l <= 16 -> 1 <= len r <= 16 ->
  decrypt_pass i (l ++ r ++ t) (len l) (len r) c = Done (xorl l (round_key c i r) ++ r ++ t).
Proof.
  intros Hi Hl Hr. unfold decrypt_pass. replace (i mod 2 =? 1) with false by lia.
  rewrite slice_in by llia. rewrite sub_app_mid by lia.
  rewrite copy_zeros16 by lia. rewrite xor_first_head by (rewrite len_pad16; lia).
  unfold len at 1. rewrite Nat2Z.id. fold (round_key c i r).
  apply (xor_loop_key [] l (r ++ t)); [done|]. rewrite len_round_key; lia.
Qed.

(** The four rounds on the two halves. *)
Definition feistel_decrypt (c : cipher) (l r : list byte) : list byte * list byte :=
  let r := xorl r (round_key c 3 l) in
  let l := xorl l (round_key c 2 r) in
  let r := xorl r (round_key c 1 l) in
  let l := xorl l (round_key c 0 r) in
  (l, r).

Lemma len_feistel_decrypt c l r :
  len l <= 16 -> len r <= 16 ->
  len (feistel_decrypt c l r).1 = len l /\ len (feistel_decrypt c l r).2 = len r.
Proof.
  intros. unfold feistel_decrypt. simpl.
  repeat first [rewrite len_xorl | rewrite len_round_key | lia | split].
Qed.

Lemma decrypt_four_pass_spec c l r t :
  1 <= len l <= 16 -> 1 <= len r <= 16 ->
  decrypt_four_pass (l ++ r ++ t) (len l) (len r) c
  = Done ((feistel_decrypt c l r).1 ++ (feistel_decrypt c l r).2 ++ t).
Proof.
  intros Hl Hr. unfold decrypt_four_pass, feistel_decrypt. cbn [fst snd].
  rewrite decrypt_pass_odd by (done || lia).
  set (r1 := xorl r (round_key c 3 l)).
  assert (Hr1 : len r1 = len r) by (unfold r1; rewrite len_xorl; rewrite ?len_round_key; lia).
  rewrite <- Hr1. rewrite decrypt_pass_even by (done || lia).
  set (l1 := xorl l (round_key c 2 r1)).
  assert (Hl1 : len l1 = len l) by (unfold l1; rewrite len_xorl; rewrite ?len_round_key; lia).
  rewrite <- Hl1. rewrite decrypt_pass_odd by (done || lia).
  set (r2 := xorl r1 (round_key c 1 l1)).
  assert (Hr2 : len r2 = len r1) by (unfold r2; rewrite len_xorl; rewrite ?len_round_key; lia).
  rewrite <- Hr2. by rewrite decrypt_pass_even by (done || lia).
Qed.

(** Nonces of seventeen and eighteen bytes: the first round indexes the
    sixteen-byte block past its end. *)
Lemma decrypt_four_pass_long_nonce c buf sid_len nonce_len :
  16 < nonce_len -> 1 <= sid_len <= 16 -> len buf = 19 ->
  decrypt_four_pass buf sid_len nonce_len c = Panic.
Proof.
  intros Hn Hs Hb. unfold decrypt_four_pass.
  assert (decrypt_pass 3 buf sid_len nonce_len c = Panic) as ->; [|done].
  unfold decrypt_pass. cbn [Z.modulo Z.eqb]. change (3 mod 2 =? 1) with true. cbn iota.
  rewrite slice_in by lia. set (l := sub buf 0 sid_len).
  assert (Hl : len l = sid_len) by (unfold l; rewrite len_sub; lia).
  rewrite <- Hl. rewrite copy_zeros16 by lia. rewrite xor_first_head by (rewrite len_pad16; lia).
  fold (round_key c 3 l). apply xor_loop_short; rewrite len_round_key; lia.
Qed.

(** ** Resolution *)

(** The plaintext of a CID payload (server id, then nonce) in the mode of the
    configuration. *)
Definition plain_payload (config : RouteConfig) (payload : list byte) : list byte :=
  let sid := server_id_length config in
  let l := sub payload 0 sid in
  let r := sub payload sid (len payload) in
  match encryption config with
  | Plaintext => payload
  | SinglePass _ c => decrypt_block c payload
  | FourPass _ c => (feistel_decrypt c l r).1 ++ (feistel_decrypt c l r).2
  end.

(** The modes the block size supports: a four-pass nonce fits one block. *)
Definition nonce_fits (config : RouteConfig) : Prop :=
  match encryption config with FourPass _ _ => nonce_length config <= 16 | _ => True end.

Lemma copy_payload p : len p <= 19 -> copy_to (zeros 19) 0 (len p) p = Done (p ++ zeros (19 - len p)).
Proof.
  intros. rewrite copy_to_in by (rewrite ?len_zeros; pose_len; lia). rewrite splice_0. unfold zeros. do 2 f_equal. rewrite drop_replicate. f_equal. unfold len. lia.
Qed.

Lemma len_plain_payload config payload :
  config_wf config -> nonce_fits config -> len payload = cid_payload_length config ->
  len (plain_payload config payload) = len payload.
Proof.
  intros Hwf Hfit Hp. destruct (cid_lengths _ Hwf) as [Hpl _]. rewrite Hpl in Hp.
  destruct Hwf as [_ Hs Hn Hsum He _ _]. unfold plain_payload, nonce_fits in *.
  destruct (encryption config) as [|k c|k c]; simpl in He; [done|rewrite len_decrypt_block; lia|].
  rewrite len_app.
  match goal with |- context [feistel_decrypt c ?l ?r] =>
    destruct (len_feistel_decrypt c l r) as [-> ->] end; rewrite ?len_sub; lia.
Qed.

(** [resolve_server_idx] looks the first bytes of the plaintext up. *)
Lemma resolve_server_idx_spec config b payload rest :
  config_wf config -> nonce_fits config -> len payload = cid_payload_length config ->
  resolve_server_idx (b :: payload ++ rest) config
  = Done (find_server_idx config
            (sub (plain_payload config payload) 0 (server_id_length config))).
Proof.
  intros Hwf Hfit Hp. pose proof (len_plain_payload _ _ Hwf Hfit Hp) as Hplain.
  destruct (cid_lengths _ Hwf) as [Hpl _].
  destruct Hwf as [_ Hs Hn Hsum He _ _]. unfold resolve_server_idx. rewrite <- Hp in *.
  rewrite len_cons, len_app. case_goal; [pose_len; lia|].
  rewrite slice_in by llia.
  rewrite (sub_app_mid [b] payload rest) by (try done; change (len [b]) with 1; lia).
  rewrite copy_payload by lia. unfold plain_payload, nonce_fits in *.
  destruct (encryption config) as [|k c|k c]; simpl in He.
  - rewrite slice_in by llia. by rewrite sub_app_l by lia.
  - unfold decrypt_single_pass. rewrite slice_in by llia. rewrite sub_app_l, sub_full by lia.
    assert (Hd : len (decrypt_block c payload) = 16) by (apply len_decrypt_block; lia).
    assert (Hz : len (zeros (19 - len payload)) = 3) by (rewrite len_zeros; lia).
    rewrite copy_to_in by (rewrite ?len_app; lia).
    rewrite slice_in by (rewrite ?len_splice; rewrite ?len_app; lia).
    by rewrite splice_0, sub_app_l by lia.
  - set (l := sub payload 0 (server_id_length config)) in *.
    set (r := sub payload (server_id_length config) (len payload)) in *.
    assert (Hll : len l = server_id_length config) by (unfold l; rewrite len_sub; lia).
    assert (Hrl : len r = nonce_length config) by (unfold r; rewrite len_sub; lia).
    assert (payload = l ++ r) as Hlr.
    { unfold l, r. rewrite <- sub_split by lia. symmetry. by apply sub_full. }
    assert (wsub64 (len payload) (server_id_length config) = len r) as ->.
    { unfold wsub64, wrap64. rewrite Z.mod_small; lia. }
    rewrite <- Hll. rewrite Hlr at 1. rewrite <- app_assoc, decrypt_four_pass_spec by lia.
    rewrite app_assoc, slice_in by llia. by rewrite sub_app_l by lia.
Qed.

Lemma dcid_shape (dcid : list byte) n :
  0 <= n -> 1 + n <= len dcid ->
  exists b payload rest, dcid = b :: payload ++ rest /\ len payload = n.
Proof.
  intros. destruct dcid as [|b d]; [unfold len in *; simpl in *; lia|].
  exists b, (take (Z.to_nat n) d), (drop (Z.to_nat n) d).
  rewrite take_drop. split; [done|]. rewrite len_take. llia.
Qed.

End cid.

(** ** Properties *)

(** The extraction of a destination CID is total and finds it where the
    header format puts it: after the length octet of a long header, for the
    configured number of bytes of a short one; a truncated or empty CID is
    [None]. *)
Theorem extract_raw_dcid_correct (quic : list byte) (n : Z) :
  0 <= n -> extract_raw_dcid quic n = Done (dcid_spec quic n).
Proof. apply extract_raw_dcid_spec. Qed.

Lemma extract_raw_dcid_correct_witness :
  extract_raw_dcid [0xc0; 0; 0; 0; 1; 2; 0xaa; 0xbb; 0]%u8 8 = Done (Some [0xaa; 0xbb]%u8).
Proof.
  rewrite (extract_raw_dcid_correct [0xc0; 0; 0; 0; 1; 2; 0xaa; 0xbb; 0]%u8 8) by lia.
  reflexivity.
Defined.

(** For a validated configuration whose four-pass nonce fits an AES
    block, resolving a CID never panics: a CID shorter than the configured
    length resolves to nothing, and otherwise the result is the first server
    whose id is the leading part of the decrypted payload, if there is one. *)
Theorem resolve_server_idx_total `{AesLaws} (config : RouteConfig) (dcid : list byte) :
  config_wf config -> nonce_fits config ->
  exists r, resolve_server_idx dcid config = Done r /\
    (len dcid < cid_length config -> r = None) /\
    (cid_length config <= len dcid ->
       r = find_server_idx config
             (sub (plain_payload config (sub dcid 1 (cid_length config))) 0
                (server_id_length config))).
Proof.
  intros Hwf Hfit. destruct (cid_lengths _ Hwf) as [Hpl Hcl]. pose proof Hwf as [_ Hs Hn _ _ _ _].
  destruct (decide (len dcid < cid_length config)) as [Hlt|Hge].
  - exists None. split; [|split; [done|lia]]. unfold resolve_server_idx.
    case_goal; [done|lia].
  - destruct (dcid_shape dcid (cid_payload_length config)) as (b & p & rest & -> & Hp); [lia..|].
    eexists. split; [by apply resolve_server_idx_spec|]. split; [lia|]. intros _.
    rewrite (sub_app_mid [b] p rest); [done|done|]. change (len [b]) with 1. lia.
Qed.

(** Validation admits nonces of 17 and 18 bytes together with a key, but
    the four-pass decryption only has the sixteen bytes of one block to XOR
    into the nonce: any packet whose CID reaches such a configuration, at full
    length, ends the process. *)
Theorem resolve_long_nonce_panics `{AesLaws} (raw : RawConfig) (config : RouteConfig)
    (dcid : list byte) :
  validate raw = Done (Ok config) -> raw_key raw <> None -> 16 < u8 (raw_nonce_length raw) ->
  cid_length config <= len dcid ->
  resolve_server_idx dcid config = Panic.
Proof.
  intros (Hwf & _ & _ & Hn & Hs & _ & Hk & _)%validate_ok Hkey Hlong Hlen.
  destruct (cid_lengths _ Hwf) as [Hpl Hcl]. pose proof Hwf as [_ Hs' Hn' Hsum He _ _].
  unfold resolve_server_idx. case_goal; [lia|]. rewrite slice_in by lia.
  rewrite copy_to_in by (rewrite ?len_zeros, ?len_sub; lia).
  destruct (encryption config) as [|k c|k c]; simpl in He; [naive_solver|lia|].
  rewrite decrypt_four_pass_long_nonce; [done| | |].
  - unfold wsub64, wrap64. rewrite Z.mod_small; lia.
  - lia.
  - rewrite len_splice; rewrite ?len_zeros, ?len_sub; lia.
Qed.


(** One byte of server id, seventeen of nonce, with a key. *)
Definition long_nonce_raw : RawConfig :=
  mkRawConfig 0%u8 false 1%u8 17%u8 (Some (lit "000102030405060708090a0b0c0d0e0f")) [] None.

#[local] Existing Instance xor_aes.
#[local] Existing Instance xor_aes_laws.

Definition long_nonce_config : RouteConfig :=
  match validate long_nonce_raw with
  | Done (Ok c) => c
  | _ => mkRouteConfig 0 false 0 0 Plaintext [] None
  end.

Lemma resolve_long_nonce_panics_witness :
  validate long_nonce_raw = Done (Ok long_nonce_config) /\
  resolve_server_idx (zeros 19) long_nonce_config = Panic.
Proof.
  assert (Hv : validate long_nonce_raw = Done (Ok long_nonce_config)) by (vm_compute; reflexivity).
  split; [exact Hv|].
  apply (resolve_long_nonce_panics long_nonce_raw long_nonce_config (zeros 19) Hv);
    [discriminate|reflexivity|vm_compute; discriminate].
Defined.

(** A single-pass configuration with one server. *)
Definition short_config : RouteConfig :=
  match validate example_raw with
  | Done (Ok c) => c
  | _ => mkRouteConfig 0 false 0 0 Plaintext [] None
  end.

Lemma short_config_wf : config_wf short_config.
Proof. refine (proj1 (validate_ok example_raw short_config _)). vm_compute. reflexivity. Qed.

Lemma resolve_server_idx_total_witness :
  exists r, resolve_server_idx (zeros 17) short_config = Done r /\
    (len (zeros 17) < cid_length short_config -> r = None) /\
    (cid_length short_config <= len (zeros 17) ->
       r = find_server_idx short_config
             (sub (plain_payload short_config (sub (zeros 17) 1 (cid_length short_config))) 0
                (server_id_length short_config))).
Proof. apply (resolve_server_idx_total short_config (zeros 17) short_config_wf). exact I. Defined.
