(* ===== verification/LbCore.v ===== *)
(** * The server-side CID encoder

    Models [contrib/quic-lb-core/src/lib.rs], the crate a QUIC server uses to
    issue Connection IDs the load balancer can route, and proves that the load
    balancer's decoder ([Cid]) recovers the server id from what it issues.  The
    random bytes (crate [rand]) are arguments. *)

From S2P Require Import Prelude Std Common Route Cid.

Section lb.
  Context `{Aes : Aes128}.

Inductive LbEncryption :=
| LbPlaintext
| LbSinglePass (key : list byte) (c : cipher)
| LbFourPass (key : list byte) (c : cipher).

Definition lb_single_pass (key : list byte) : LbEncryption := LbSinglePass key (aes_new key).
Definition lb_four_pass (key : list byte) : LbEncryption := LbFourPass key (aes_new key).

Definition lb_clone (e : LbEncryption) : LbEncryption :=
  match e with
  | LbPlaintext => LbPlaintext
  | LbSinglePass key _ => lb_single_pass key
  | LbFourPass key _ => lb_four_pass key
  end.

Record QuicLbEncoder := mkEncoder {
  e_config_id : Z;
  e_server_id : list byte;
  e_nonce_length : Z;
  e_encryption : LbEncryption;
  e_encode_cid_length : bool;
}.

(** The four [assert!]s of the constructor are panics. *)
Definition encoder_new (config_id : byte) (server_id : list byte) (nonce_length : byte)
    (enc : LbEncryption) (encode_cid_length : bool) : rs QuicLbEncoder :=
  if negb (u8 config_id <=? 6) then Panic
  else if negb (negb (len server_id =? 0) && (len server_id <=? 15)) then Panic
  else if negb ((4 <=? u8 nonce_length) && (u8 nonce_length <=? 18)) then Panic
  else if negb (len server_id + u8 nonce_length <=? 19) then Panic
  else Done (mkEncoder (u8 config_id) server_id (u8 nonce_length) enc encode_cid_length).

Definition encoder_cid_length (e : QuicLbEncoder) : Z :=
  1 + len (e_server_id e) + e_nonce_length e.

(** [rnd] is the byte [rand::random] draws. *)
Definition first_octet (e : QuicLbEncoder) (rnd : byte) : byte :=
  let upper := wrap8 (Z.shiftl (e_config_id e) 5) in
  if e_encode_cid_length e then
    let len_bits := Z.land (Z.max 0 (wrap8 (encoder_cid_length e) - 1)) 0x1f in
    b8 (Z.lor upper len_bits)
  else b8 (Z.lor upper (Z.land (u8 rnd) 0x1f)).

Definition encrypt_single_pass (payload : list byte) (c : cipher) : rs (list byte) :=
  let* block := slice payload 0 (len payload) in
  copy_to payload 0 (len payload) (encrypt_block c block).

(** One pass of the loop of [encrypt_four_pass]. *)
Definition encrypt_pass (i : Z) (buf : list byte) (sid_len nonce_len : Z) (c : cipher)
    : rs (list byte) :=
  if i mod 2 =? 0 then
    let* r := slice buf sid_len (sid_len + nonce_len) in
    let* block := copy_to (zeros 16) 0 nonce_len r in
    let* block := xor_first block i in
    xor_loop (Z.to_nat sid_len) 0 0 (encrypt_block c block) buf
  else
    let* l := slice buf 0 sid_len in
    let* block := copy_to (zeros 16) 0 sid_len l in
    let* block := xor_first block i in
    xor_loop (Z.to_nat nonce_len) 0 sid_len (encrypt_block c block) buf.

Definition encrypt_four_pass (buf : list byte) (sid_len nonce_len : Z) (c : cipher)
    : rs (list byte) :=
  let* buf := encrypt_pass 0 buf sid_len nonce_len c in
  let* buf := encrypt_pass 1 buf sid_len nonce_len c in
  let* buf := encrypt_pass 2 buf sid_len nonce_len c in
  encrypt_pass 3 buf sid_len nonce_len c.

(** [nonce] is what [fill_bytes] writes, of the length of the slice it gets. *)
Definition encode_into (e : QuicLbEncoder) (nonce : list byte) (rnd : byte) (buf : list byte)
    : rs (list byte * Z) :=
  let cid_len := encoder_cid_length e in
  if negb (cid_len <=? len buf) then Panic
  else
    let sid_len := len (e_server_id e) in
    let nonce_len := e_nonce_length e in
    let payload_len := sid_len + nonce_len in
    let* payload := copy_to (zeros 19) 0 sid_len (e_server_id e) in
    let* payload := copy_to payload sid_len payload_len nonce in
    let* payload :=
      match e_encryption e with
      | LbPlaintext => Done payload
      | LbSinglePass _ c =>
          let* p := slice payload 0 payload_len in
          let* block := copy_to (zeros 16) 0 payload_len p in
          let* block := encrypt_single_pass block c in
          copy_to payload 0 16 block
      | LbFourPass _ c =>
          let* p := slice payload 0 payload_len in
          let* p := encrypt_four_pass p sid_len nonce_len c in
          copy_to payload 0 payload_len p
      end in
    let* buf := set_at buf 0 (first_octet e rnd) in
    let* p := slice payload 0 payload_len in
    let* buf := copy_to buf 1 cid_len p in
    Done (buf, cid_len).

Definition encode_to_vec (e : QuicLbEncoder) (nonce : list byte) (rnd : byte)
    : rs (list byte) :=
  let* (buf, _) := encode_into e nonce rnd (zeros (encoder_cid_length e)) in
  Done buf.

(** [QuicLbCidGenerator::validate] of [contrib/quic-lb-quinn]: a length check. *)
Definition generator_validate (e : QuicLbEncoder) (id : list byte) : bool :=
  len id =? encoder_cid_length e.

(** ** The encoder and the decoder run the same rounds *)

Lemma encrypt_pass_eq i buf sid nonce c :
  0 <= i -> encrypt_pass i buf sid nonce c = decrypt_pass i buf sid nonce c.
Proof.
  intros. unfold encrypt_pass, decrypt_pass.
  pose proof (Z.mod_pos_bound i 2 ltac:(lia)).
  destruct (i mod 2 =? 0) eqn:E0, (i mod 2 =? 1) eqn:E1; try done; lia.
Qed.

Definition feistel_encrypt (c : cipher) (l r : list byte) : list byte * list byte :=
  let l := xorl l (round_key c 0 r) in
  let r := xorl r (round_key c 1 l) in
  let l := xorl l (round_key c 2 r) in
  let r := xorl r (round_key c 3 l) in
  (l, r).

Context `{!AesLaws}.

Lemma len_feistel_encrypt c l r :
  len l <= 16 -> len r <= 16 ->
  len (feistel_encrypt c l r).1 = len l /\ len (feistel_encrypt c l r).2 = len r.
Proof.
  intros. unfold feistel_encrypt. simpl.
  repeat first [rewrite len_xorl | rewrite len_round_key | lia | split].
Qed.

Lemma encrypt_four_pass_spec c l r :
  1 <= len l <= 16 -> 1 <= len r <= 16 ->
  encrypt_four_pass (l ++ r) (len l) (len r) c
  = Done ((feistel_encrypt c l r).1 ++ (feistel_encrypt c l r).2).
Proof.
  intros Hl Hr. unfold encrypt_four_pass, feistel_encrypt. cbn [fst snd].
  rewrite encrypt_pass_eq, <- (app_nil_r (l ++ r)), <- app_assoc by lia.
  rewrite decrypt_pass_even by (done || lia).
  set (l1 := xorl l (round_key c 0 r)).
  assert (Hl1 : len l1 = len l) by (unfold l1; rewrite len_xorl; rewrite ?len_round_key; lia).
  rewrite <- Hl1. rewrite encrypt_pass_eq, decrypt_pass_odd by (done || lia).
  set (r1 := xorl r (round_key c 1 l1)).
  assert (Hr1 : len r1 = len r) by (unfold r1; rewrite len_xorl; rewrite ?len_round_key; lia).
  rewrite <- Hr1. rewrite encrypt_pass_eq, decrypt_pass_even by (done || lia).
  set (l2 := xorl l1 (round_key c 2 r1)).
  assert (Hl2 : len l2 = len l1) by (unfold l2; rewrite len_xorl; rewrite ?len_round_key; lia).
  rewrite <- Hl2. rewrite encrypt_pass_eq, decrypt_pass_odd by (done || lia).
  by rewrite app_nil_r.
Qed.

(** The four decryption rounds undo the four encryption rounds. *)
Lemma feistel_roundtrip c l r :
  len l <= 16 -> len r <= 16 ->
  feistel_decrypt c (feistel_encrypt c l r).1 (feistel_encrypt c l r).2 = (l, r).
Proof.
  intros Hl Hr. unfold feistel_encrypt, feistel_decrypt. cbn [fst snd].
  set (l1 := xorl l (round_key c 0 r)).
  assert (Hl1 : len l1 = len l) by (unfold l1; rewrite len_xorl; rewrite ?len_round_key; lia).
  set (r1 := xorl r (round_key c 1 l1)).
  assert (Hr1 : len r1 = len r) by (unfold r1; rewrite len_xorl; rewrite ?len_round_key; lia).
  set (l2 := xorl l1 (round_key c 2 r1)).
  assert (Hl2 : len l2 = len l1) by (unfold l2; rewrite len_xorl; rewrite ?len_round_key; lia).
  rewrite (xorl_cancel r1) by (rewrite len_round_key; lia).
  unfold l2. rewrite (xorl_cancel l1) by (rewrite len_round_key; lia).
  unfold r1. rewrite (xorl_cancel r) by (rewrite len_round_key; lia).
  unfold l1. by rewrite (xorl_cancel l) by (rewrite len_round_key; lia).
Qed.

(** ** Encoding *)

(** What the encoder needs so that the balancer can read its CIDs: the fields
    of the routing entry, and the mode the lengths call for. *)
Record encoder_matches (e : QuicLbEncoder) (config : RouteConfig) : Prop := {
  m_id : e_config_id e = config_id config;
  m_sid : len (e_server_id e) = server_id_length config;
  m_nonce : e_nonce_length e = nonce_length config;
  m_enc : match e_encryption e, encryption config with
          | LbPlaintext, Plaintext => True
          | LbSinglePass _ c, SinglePass _ c' => c = c'
          | LbFourPass _ c, FourPass _ c' => c = c'
          | _, _ => False
          end;
}.

Definition encrypt_payload (e : QuicLbEncoder) (nonce : list byte) : list byte :=
  match e_encryption e with
  | LbPlaintext => e_server_id e ++ nonce
  | LbSinglePass _ c => encrypt_block c (e_server_id e ++ nonce)
  | LbFourPass _ c =>
      (feistel_encrypt c (e_server_id e) nonce).1 ++ (feistel_encrypt c (e_server_id e) nonce).2
  end.

Lemma len_encrypt_payload e nonce :
  len (e_server_id e) <= 16 -> len nonce <= 16 \/ e_encryption e = LbPlaintext ->
  (forall k c, e_encryption e = LbSinglePass k c -> len (e_server_id e) + len nonce = 16) ->
  len (encrypt_payload e nonce) = len (e_server_id e) + len nonce.
Proof.
  intros Hs Hn H1. unfold encrypt_payload. destruct (e_encryption e) as [|k c|k c]; [llia| |].
  - pose proof (H1 k c eq_refl). rewrite len_encrypt_block; llia.
  - destruct Hn as [Hn|]; [|done]. rewrite len_app.
    destruct (len_feistel_encrypt c (e_server_id e) nonce) as [-> ->]; lia.
Qed.

(** The payload buffer before encryption: server id, nonce, zeros. *)
Lemma plain_buffer sid nonce :
  len sid + len nonce <= 19 ->
  copy_to (zeros 19) 0 (len sid) sid = Done (sid ++ zeros (19 - len sid)) /\
  copy_to (sid ++ zeros (19 - len sid)) (len sid) (len sid + len nonce) nonce
  = Done ((sid ++ nonce) ++ zeros (19 - len sid - len nonce)).
Proof.
  intros Hsum. pose_len. split; [apply copy_payload; lia|].
  rewrite copy_to_in by (rewrite ?len_app, ?len_zeros; lia).
  replace (zeros (19 - len sid)) with (zeros (len nonce) ++ zeros (19 - len sid - len nonce)).
  - rewrite splice_app_mid; [by rewrite app_assoc|done|].
    unfold zeros. rewrite length_replicate. unfold len. lia.
  - unfold zeros. rewrite <- replicate_add. f_equal. lia.
Qed.

Lemma encode_to_vec_spec e nonce rnd :
  1 <= len (e_server_id e) <= 15 -> e_nonce_length e = len nonce -> 4 <= len nonce ->
  len (e_server_id e) + len nonce <= 19 -> len nonce <= 16 \/ e_encryption e = LbPlaintext ->
  (forall k c, e_encryption e = LbSinglePass k c -> len (e_server_id e) + len nonce = 16) ->
  encode_to_vec e nonce rnd = Done (first_octet e rnd :: encrypt_payload e nonce).
Proof.
  intros Hs Hn Hn4 Hsum Hn16 H1.
  pose proof (len_encrypt_payload e nonce ltac:(lia) Hn16 H1) as Hp.
  unfold encode_to_vec, encode_into, encoder_cid_length. rewrite Hn.
  rewrite len_zeros by lia. rewrite Z.leb_refl. cbn [negb].
  set (sid := e_server_id e) in *.
  destruct (plain_buffer sid nonce Hsum) as [-> ->].
  set (z := zeros (19 - len sid - len nonce)).
  assert (Hz : len z = 19 - len sid - len nonce) by (unfold z; rewrite len_zeros; lia).
  match goal with |- context [match e_encryption e with LbPlaintext => _ | _ => _ end] =>
    set (m := match e_encryption e with LbPlaintext => _ | _ => _ end) end.
  assert (m = Done (encrypt_payload e nonce ++ z)) as ->.
  { unfold m, encrypt_payload in *. fold sid in Hp |- *.
    destruct (e_encryption e) as [|k c|k c] eqn:Ee; [done| |].
    - pose proof (H1 k c eq_refl). rewrite slice_in by llia.
      rewrite sub_app_l, sub_full by llia.
      replace (len sid + len nonce) with (len (sid ++ nonce)) by llia.
      rewrite copy_zeros16 by llia. unfold pad16. rewrite len_app.
      replace (16 - (len sid + len nonce)) with 0 by lia. change (zeros 0) with (@nil byte).
      rewrite app_nil_r. unfold encrypt_single_pass.
      rewrite slice_in by llia. rewrite sub_full by done.
      rewrite copy_to_in by llia. rewrite splice_0, drop_ge by (unfold len in *; rewrite ?length_app; lia).
      rewrite app_nil_r. rewrite copy_to_in by llia.
      apply f_equal. apply (splice_app_mid [] (sid ++ nonce) _ z 0); [done|].
      unfold len in *. rewrite length_app. lia.
    - destruct Hn16 as [Hn16|]; [|done]. rewrite slice_in by llia.
      rewrite sub_app_l, sub_full by llia.
      rewrite encrypt_four_pass_spec by lia. rewrite copy_to_in by llia.
      apply f_equal. apply (splice_app_mid [] (sid ++ nonce) _ z 0); [done|].
      unfold len in Hp. rewrite !length_app in *. lia. }
  rewrite set_at_in by (rewrite len_zeros; lia).
  rewrite slice_in by llia. rewrite sub_app_l, sub_full by lia.
  rewrite copy_to_in by (rewrite ?len_insert, ?len_zeros; lia). apply f_equal.
  replace (zeros (1 + len sid + len nonce)) with (Byte.x00 :: zeros (len sid + len nonce)).
  - change (<[_:=_]> (_ :: _)) with (first_octet e rnd :: zeros (len sid + len nonce)).
    rewrite <- (app_nil_r (zeros _)).
    rewrite (splice_app_mid [first_octet e rnd] (zeros (len sid + len nonce)) _ []); [|done|].
    + by rewrite app_nil_r.
    + unfold zeros. rewrite length_replicate. unfold len in *. lia.
  - unfold zeros. replace (Z.to_nat (1 + len sid + len nonce)) with
      (S (Z.to_nat (len sid + len nonce))) by lia. done.
Qed.

(** ** The first octet *)

Lemma octet_upper a low :
  0 <= a <= 7 -> Z.shiftr (u8 (b8 (Z.lor (wrap8 (Z.shiftl a 5)) (Z.land low 0x1f)))) 5 = a.
Proof.
  intros Ha. rewrite u8_b8. change 256 with (2 ^ 8). rewrite <- Z.land_ones by lia.
  unfold wrap8. rewrite Z.shiftl_mul_pow2 by lia. rewrite Z.mod_small by lia.
  rewrite Z.shiftr_land, Z.shiftr_lor, Z.shiftr_land.
  change (Z.shiftr 0x1f 5) with 0. rewrite Z.land_0_r, Z.lor_0_r.
  rewrite Z.shiftr_div_pow2, Z.div_mul by lia. change (Z.shiftr (Z.ones 8) 5) with (Z.ones 3).
  rewrite Z.land_ones by lia. apply Z.mod_small. lia.
Qed.

Lemma octet_lower a low :
  0 <= a <= 7 -> 0 <= low < 32 ->
  Z.land (u8 (b8 (Z.lor (wrap8 (Z.shiftl a 5)) (Z.land low 0x1f)))) 0x1f = low.
Proof.
  intros Ha Hl. rewrite u8_b8. change 256 with (2 ^ 8). rewrite <- Z.land_ones by lia.
  rewrite <- Z.land_assoc. change (Z.land (Z.ones 8) 0x1f) with (Z.ones 5).
  change 0x1f with (Z.ones 5). rewrite Z.land_lor_distr_l, <- Z.land_assoc, Z.land_diag.
  unfold wrap8. rewrite Z.shiftl_mul_pow2, (Z.mod_small (a * 2 ^ 5)) by lia.
  rewrite !Z.land_ones by lia. rewrite Z.mod_mul by lia. rewrite Z.lor_0_l.
  apply Z.mod_small. lia.
Qed.

Lemma first_octet_config e rnd :
  0 <= e_config_id e <= 6 -> Z.shiftr (u8 (first_octet e rnd)) 5 = e_config_id e.
Proof. intros. unfold first_octet. case_goal; apply octet_upper; lia. Qed.

(** ** Decoding what was encoded *)

Lemma plain_encrypt e config nonce :
  config_wf config -> nonce_fits config -> encoder_matches e config ->
  len nonce = nonce_length config ->
  plain_payload config (encrypt_payload e nonce) = e_server_id e ++ nonce.
Proof.
  intros Hwf Hfit [_ Hs Hn Hm] Hl. destruct Hwf as [_ Hs' Hn' Hsum He _ _].
  unfold plain_payload, encrypt_payload, nonce_fits in *.
  destruct (e_encryption e) as [|k c|k c], (encryption config) as [|k' c'|k' c']; try done.
  - subst c'. simpl in He. apply decrypt_encrypt_block. llia.
  - subst c'. set (l := e_server_id e) in *.
    destruct (len_feistel_encrypt c l nonce) as [Hl1 Hl2]; [lia..|].
    rewrite len_app, Hl1, Hl2, <- Hs. rewrite sub_app_l, sub_full by lia.
    rewrite sub_app_r by lia. replace (len l - _) with 0 by lia.
    rewrite sub_full by lia. by rewrite feistel_roundtrip by lia.
Qed.

Lemma cid_roundtrip_lemma e config nonce rnd :
  config_wf config -> nonce_fits config -> encoder_matches e config ->
  len nonce = nonce_length config ->
  exists cid, encode_to_vec e nonce rnd = Done cid /\
    len cid = cid_length config /\
    Z.shiftr (u8 (elt cid 0)) 5 = config_id config /\
    resolve_server_idx cid config = Done (find_server_idx config (e_server_id e)).
Proof.
  intros Hwf Hfit Hm Hl. pose proof Hm as [Hid Hs Hn Henc]. pose proof Hwf as [? ? ? ? He _ _].
  assert (Hn16 : len nonce <= 16 \/ e_encryption e = LbPlaintext).
  { unfold nonce_fits in Hfit. destruct (e_encryption e), (encryption config); simpl in He; auto; lia. }
  assert (H16 : forall k c, e_encryption e = LbSinglePass k c -> len (e_server_id e) + len nonce = 16).
  { intros k c Ek. rewrite Ek in Henc. destruct (encryption config); try done. simpl in He. lia. }
  eexists. split; [apply encode_to_vec_spec; (done || lia)|].
  destruct (cid_lengths _ Hwf) as [Hpl Hcl].
  pose proof (len_encrypt_payload e nonce ltac:(lia) Hn16 H16) as Hp.
  split; [|split].
  - rewrite len_cons. lia.
  - cbn [elt lookup_total list_lookup_total Z.to_nat]. rewrite <- Hid. apply first_octet_config. lia.
  - rewrite <- (app_nil_r (encrypt_payload e nonce)).
    rewrite resolve_server_idx_spec by (done || lia).
    rewrite plain_encrypt by done. by rewrite sub_app_l, sub_full by lia.
Qed.

End lb.

(** ** Properties *)

(** C1.  Round trip: whatever nonce and random octet the server draws, the CID
    it issues under a matching configuration has the configured length, carries
    the config id in its top three bits, and the load balancer resolves it to
    the server with the issuing server's id, in all three encryption modes. *)
Theorem cid_roundtrip `{AesLaws} (e : QuicLbEncoder) (config : RouteConfig)
    (nonce : list byte) (rnd : byte) :
  config_wf config -> nonce_fits config -> encoder_matches e config ->
  len nonce = nonce_length config ->
  exists cid, encode_to_vec e nonce rnd = Done cid /\
    len cid = cid_length config /\
    Z.shiftr (u8 (elt cid 0)) 5 = config_id config /\
    resolve_server_idx cid config = Done (find_server_idx config (e_server_id e)).
Proof. apply cid_roundtrip_lemma. Qed.


Definition four_pass_raw : RawConfig :=
  mkRawConfig 3%u8 true 5%u8 6%u8 (Some (lit "8f95f09245765f80256934e50c66207f"))
    [mkRawServer (lit "0000000001") (lit "10.0.0.1") None false;
     mkRawServer (lit "ed793a51d4") (lit "10.0.0.2") None false] None.

#[local] Existing Instance xor_aes.
#[local] Existing Instance xor_aes_laws.

Definition four_pass_config : RouteConfig :=
  match validate four_pass_raw with
  | Done (Ok c) => c
  | _ => mkRouteConfig 0 false 0 0 Plaintext [] None
  end.

Definition four_pass_encoder : QuicLbEncoder :=
  mkEncoder 3 [0xed; 0x79; 0x3a; 0x51; 0xd4]%u8 6
    (lb_four_pass [0x8f; 0x95; 0xf0; 0x92; 0x45; 0x76; 0x5f; 0x80;
                   0x25; 0x69; 0x34; 0xe5; 0x0c; 0x66; 0x20; 0x7f]%u8) true.

Lemma four_pass_config_wf : config_wf four_pass_config.
Proof. refine (proj1 (validate_ok four_pass_raw four_pass_config _)). vm_compute. reflexivity. Qed.

Lemma cid_roundtrip_witness :
  exists cid, encode_to_vec four_pass_encoder [1; 2; 3; 4; 5; 6]%u8 0%u8 = Done cid /\
    resolve_server_idx cid four_pass_config = Done (Some 1%nat).
Proof.
  destruct (cid_roundtrip four_pass_encoder four_pass_config [1; 2; 3; 4; 5; 6]%u8 0%u8)
    as (cid & Hc & _ & _ & Hr).
  - exact four_pass_config_wf.
  - vm_compute. discriminate.
  - split; vm_compute; reflexivity.
  - vm_compute. reflexivity.
  - exists cid. split; [exact Hc|]. rewrite Hr. vm_compute. reflexivity.
Defined.
