(* ===== verification/Provision.v ===== *)
(** * Test backends configured from the balancer's file

    Models how the two backends of [contrib] find their parameters in the load
    balancer's route file ([contrib/welman/src/main.rs] and
    [contrib/quic-echo/src/server.rs]) and the generator they hand to crate [quinn]
    ([contrib/quic-lb-quinn/src/lib.rs]).  The TOML deserializer is a parameter, as
    for the balancer itself; the QUIC and HTTP stacks are not modelled. *)

From S2P Require Import Prelude Std Common Route Cid LbCore.

(** ** The file *)

(** An entry as the backends deserialize it; a server is its id. *)
Record BackendConfig := mkBackend {
  bc_config_id : byte;
  bc_first_octet : bool;
  bc_server_id_length : byte;
  bc_nonce_length : byte;
  bc_key : option str;
  bc_servers : list str;
}.

(** [ConfigFile] of welman: the entries, and the fields of a flat layout. *)
Record WelmanFile := mkWelmanFile {
  wf_configs : list BackendConfig;
  wf_config_id : option byte;
  wf_first_octet : option bool;
  wf_server_id_length : option byte;
  wf_nonce_length : option byte;
  wf_key : option str;
  wf_flat_servers : list str;
}.

Inductive backend_error (IoError TomlError : Type) :=
| BackendIo (e : IoError)
| BackendToml (e : TomlError)
| BadServerId (e : hex_error)
| BadKey (e : hex_error)
| BadKeyLength (got : Z)
| ServerNotFound.
Arguments BackendIo {_ _} e.
Arguments BackendToml {_ _} e.
Arguments BadServerId {_ _} e.
Arguments BadKey {_ _} e.
Arguments BadKeyLength {_ _} got.
Arguments ServerNotFound {_ _}.

Section backend.
  Context `{Aes : Aes128} {IoError TomlError : Type}.
  Context (read_to_string : str -> result str IoError).

Notation err := (backend_error IoError TomlError).

Record CidGenParams := mkParams {
  p_config_id : byte;
  p_server_id : list byte;
  p_nonce_length : byte;
  p_encryption : LbEncryption;
  p_encode_cid_length : bool;
}.

Definition make_encryption (key_hex : option str) (sid_len nonce_len : byte) : rs (result LbEncryption err) :=
  match key_hex with
  | None => Done (Ok LbPlaintext)
  | Some key_hex =>
      let*+ key_bytes := rs_map_err BadKey (hex_decode key_hex) in
      if negb (len key_bytes =? 16) then Done (Err (BadKeyLength (len key_bytes)))
      else
        let* key := copy_to (zeros 16) 0 16 key_bytes in
        Done (Ok (if u8 sid_len + u8 nonce_len =? 16 then lb_single_pass key else lb_four_pass key))
  end.

(** [servers.iter().any(|s| hex::decode(&s.id).is_ok_and(|id| id == server_id))] *)
Fixpoint has_server (servers : list str) (server_id : list byte) : rs bool :=
  match servers with
  | [] => Done false
  | s :: r =>
      let* d := hex_decode s in
      match d with
      | Ok id => if bool_decide (id = server_id) then Done true else has_server r server_id
      | Err _ => has_server r server_id
      end
  end.

Definition entry_params (server_id : list byte) (raw : BackendConfig) : rs (result CidGenParams err) :=
  let*+ enc := make_encryption (bc_key raw) (bc_server_id_length raw) (bc_nonce_length raw) in
  Done (Ok (mkParams (bc_config_id raw) server_id (bc_nonce_length raw) enc (bc_first_octet raw))).

(** The loop over the entries: [None] when no entry has the server. *)
Fixpoint resolve_nested (server_id : list byte) (configs : list BackendConfig)
    : rs (option (result CidGenParams err)) :=
  match configs with
  | [] => Done None
  | raw :: r =>
      if negb (u8 (bc_server_id_length raw) =? len server_id) then resolve_nested server_id r
      else
        let* found := has_server (bc_servers raw) server_id in
        if found : bool then let* p := entry_params server_id raw in Done (Some p)
        else resolve_nested server_id r
  end.

(** [resolve_config] of quic-echo. *)
Definition echo_resolve_config (toml : str -> result (list BackendConfig) TomlError) (path server_id_hex : str)
    : rs (result CidGenParams err) :=
  match read_to_string path with
  | Err e => Done (Err (BackendIo e))
  | Ok text =>
      match toml text with
      | Err e => Done (Err (BackendToml e))
      | Ok configs =>
          let*+ server_id := rs_map_err BadServerId (hex_decode server_id_hex) in
          let* r := resolve_nested server_id configs in
          Done (match r with Some p => p | None => Err ServerNotFound end)
      end
  end.

(** [resolve_config] of welman: the entries, then the flat layout. *)
Definition welman_resolve_config (toml : str -> result WelmanFile TomlError) (path server_id_hex : str)
    : rs (result CidGenParams err) :=
  match read_to_string path with
  | Err e => Done (Err (BackendIo e))
  | Ok text =>
      match toml text with
      | Err e => Done (Err (BackendToml e))
      | Ok file =>
          let*+ server_id := rs_map_err BadServerId (hex_decode server_id_hex) in
          let* r := resolve_nested server_id (wf_configs file) in
          match r with
          | Some p => Done p
          | None =>
              match wf_config_id file, wf_server_id_length file, wf_nonce_length file with
              | Some config_id, Some sid_len, Some nonce_len =>
                  if u8 sid_len =? len server_id then
                    let* found := has_server (wf_flat_servers file) server_id in
                    if found : bool then
                      entry_params server_id
                        (mkBackend config_id (match wf_first_octet file with Some b => b | None => false end)
                           sid_len nonce_len (wf_key file) (wf_flat_servers file))
                    else Done (Err ServerNotFound)
                  else Done (Err ServerNotFound)
              | _, _, _ => Done (Err ServerNotFound)
              end
          end
      end
  end.

(** ** The generator *)

(** [QuicLbCidGenerator::new] on the parameters. *)
Definition generator_new (p : CidGenParams) : rs QuicLbEncoder :=
  encoder_new (p_config_id p) (p_server_id p) (p_nonce_length p) (p_encryption p) (p_encode_cid_length p).

Definition cid_len (e : QuicLbEncoder) : Z := encoder_cid_length e.

Definition generate_cid (e : QuicLbEncoder) (nonce : list byte) (rnd : byte) : rs (list byte) :=
  encode_to_vec e nonce rnd.

(** Connection ids do not expire. *)
Definition cid_lifetime (e : QuicLbEncoder) : option Duration := None.

End backend.

(** ** Lemmas *)

(** The entry a backend sees of one the balancer reads. *)
Definition seen_by_backend (raw : RawConfig) : BackendConfig :=
  mkBackend (raw_config_id raw) (raw_first_octet raw) (raw_server_id_length raw) (raw_nonce_length raw) (raw_key raw)
    (map raw_id (raw_servers raw)).

Section lemmas.
  Context `{Aes : Aes128} {IoError TomlError : Type}.

Lemma parse_servers_ids l n ss :
  parse_servers l n = Done (Ok ss) -> Forall2 (fun r s => hex_decode (raw_id r) = Done (Ok (s_id s))) l ss.
Proof.
  revert ss. induction l as [|r l IH]; intros ss; cbn [parse_servers]; [by intros [= <-]|].
  destruct (parse_server r n) as [[s|e]|] eqn:Es; try done.
  destruct (parse_servers l n) as [[vs|e]|] eqn:El; try done.
  intros [= <-]. apply parse_server_ok in Es as (_ & _ & _ & Hh & _). constructor; auto.
Qed.

(** The keys and ids of a validated entry. *)
Lemma validate_source raw c :
  validate raw = Done (Ok c) ->
  Forall2 (fun r s => hex_decode (raw_id r) = Done (Ok (s_id s))) (raw_servers raw) (servers c) /\
  match raw_key raw with
  | None => encryption c = Plaintext
  | Some k => exists key, hex_decode k = Done (Ok key) /\ len key = 16 /\
      encryption c = if u8 (raw_server_id_length raw) + u8 (raw_nonce_length raw) =? 16
                     then SinglePass key (aes_new key) else FourPass key (aes_new key)
  end.
Proof.
  unfold validate. do 4 (case_goal; [done|]). destruct (raw_key raw) as [k|].
  - destruct (parse_hex_key k) as [[key|?]|] eqn:Ek; try done.
    destruct (parse_servers _ _) as [[ss|?]|] eqn:Es; try done. apply parse_servers_ids in Es.
    pose proof (parse_hex_key_ok _ _ Ek). apply parse_hex_key_value in Ek.
    destruct (raw_max_key_age_secs raw) as [[|n]|]; try done; intros [= <-]; (split; [done|]; by exists key).
  - destruct (parse_servers _ _) as [[ss|?]|] eqn:Es; try done. apply parse_servers_ids in Es.
    destruct (raw_max_key_age_secs raw) as [[|n]|]; try done; intros [= <-]; done.
Qed.


Definition has_id (sid : list byte) (s : Server) : bool := bool_decide (s_id s = sid).

Lemma has_server_spec l ss sid :
  Forall2 (fun r s => hex_decode r = Done (Ok (s_id s))) l ss -> has_server l sid = Done (existsb (has_id sid) ss).
Proof.
  induction 1 as [|r s l ss Hh _ IH]; [done|]. cbn [has_server existsb]. rewrite Hh. unfold has_id at 1.
  case_bool_decide; [done|exact IH].
Qed.

Lemma has_id_exists sid ss : existsb (has_id sid) ss = true <-> exists s, s ∈ ss /\ s_id s = sid.
Proof.
  rewrite existsb_exists. unfold has_id. split.
  - intros (s & Hin & Hs%bool_decide_eq_true). exists s. by rewrite list_elem_of_In.
  - intros (s & Hin & Hs). exists s. rewrite list_elem_of_In in Hin. by rewrite bool_decide_eq_true.
Qed.

(** The parameters of an entry fit the balancer's view of it. *)
Lemma entry_params_ok raw c sid :
  validate raw = Done (Ok c) -> len sid = u8 (raw_server_id_length raw) ->
  exists p e, entry_params (IoError := IoError) (TomlError := TomlError) sid (seen_by_backend raw) = Done (Ok p) /\
    generator_new p = Done e /\ encoder_matches e c /\ e_server_id e = sid /\
    e_encode_cid_length e = first_octet_encodes_cid_length c.
Proof.
  intros Hv Hl. destruct (validate_ok _ _ Hv) as (Hw & _ & Hid & Hn & Hs & Hfo & _ & _).
  destruct (validate_source _ _ Hv) as [_ Henc].
  assert (exists enc, make_encryption (IoError := IoError) (TomlError := TomlError) (raw_key raw)
      (raw_server_id_length raw) (raw_nonce_length raw) = Done (Ok enc) /\
    match enc, encryption c with
    | LbPlaintext, Plaintext => True
    | LbSinglePass _ k, SinglePass _ k' => k = k'
    | LbFourPass _ k, FourPass _ k' => k = k'
    | _, _ => False end) as (enc & He & Hm).
  { unfold make_encryption. destruct (raw_key raw) as [k|]; [|rewrite Henc; by eexists].
    destruct Henc as (key & -> & Hk & ->). cbn [rs_map_err map_err]. rewrite Hk. cbn [negb Z.eqb Pos.eqb].
    rewrite copy_to_in by (rewrite ?len_zeros; lia). eexists. split; [done|].
    replace (splice (zeros 16) 0 key) with key; [by destruct (_ =? 16)|].
    rewrite splice_0, drop_ge; [by rewrite app_nil_r|]. unfold zeros. rewrite length_replicate. unfold len in Hk. lia. }
  unfold entry_params. cbn [seen_by_backend bc_key bc_server_id_length bc_nonce_length bc_config_id bc_first_octet].
  rewrite He. eexists _, _. split; [done|]. unfold generator_new, encoder_new.
  cbn [p_config_id p_server_id p_nonce_length p_encryption p_encode_cid_length].
  pose proof (wf_id _ Hw). pose proof (wf_sid _ Hw). pose proof (wf_nonce _ Hw). pose proof (wf_sum _ Hw).
  replace (u8 (raw_config_id raw) <=? 6) with true by lia. replace (len sid =? 0) with false by lia.
  replace (len sid <=? 15) with true by lia. replace (4 <=? u8 (raw_nonce_length raw)) with true by lia.
  replace (u8 (raw_nonce_length raw) <=? 18) with true by lia.
  replace (len sid + u8 (raw_nonce_length raw) <=? 19) with true by lia.
  split; [done|]. split; [constructor; cbn; try done; lia|]. done.
Qed.

(** The first entry with the server decides; none without it. *)
Lemma resolve_nested_spec sid raws cfgs :
  Forall2 (fun raw c => validate raw = Done (Ok c)) raws cfgs ->
  match find (fun c => existsb (has_id sid) (servers c)) cfgs with
  | Some c => exists p e, resolve_nested (IoError := IoError) (TomlError := TomlError) sid (map seen_by_backend raws)
        = Done (Some (Ok p)) /\
      generator_new p = Done e /\ encoder_matches e c /\ e_server_id e = sid /\
      e_encode_cid_length e = first_octet_encodes_cid_length c
  | None => resolve_nested (IoError := IoError) (TomlError := TomlError) sid (map seen_by_backend raws) = Done None
  end.
Proof.
  induction 1 as [|raw c raws cfgs Hv _ IH]; [done|]. cbn [map resolve_nested find].
  destruct (validate_ok _ _ Hv) as (Hw & _ & _ & _ & Hs & _). destruct (validate_source _ _ Hv) as [Hids _].
  cbn [seen_by_backend bc_server_id_length bc_servers].
  assert (has_server (map raw_id (raw_servers raw)) sid = Done (existsb (has_id sid) (servers c))) as Hhas.
  { apply has_server_spec. by apply Forall2_fmap_l. }
  destruct (existsb (has_id sid) (servers c)) eqn:E.
  - apply has_id_exists in E as (s & Hin & Hsid). pose proof (wf_servers _ Hw) as Hall.
    rewrite list.Forall_forall in Hall. destruct (Hall s Hin) as [Hlen _]. rewrite Hsid in Hlen.
    replace (u8 (raw_server_id_length raw) =? len sid) with true by lia. cbn [negb]. rewrite Hhas.
    destruct (entry_params_ok raw c sid Hv) as (p & e & Hp & Hrest); [lia|]. rewrite Hp. by exists p, e.
  - destruct (u8 (raw_server_id_length raw) =? len sid); cbn [negb]; [rewrite Hhas|]; exact IH.
Qed.

Lemma parse_routes_validated (toml : str -> result (list RawConfig) TomlError) text cfgs raws :
  parse_routes (IoError := IoError) toml text = Done (Ok cfgs) -> toml text = Ok raws ->
  Forall2 (fun raw c => validate raw = Done (Ok c)) raws cfgs.
Proof.
  unfold parse_routes, rs_map_err. intros H Ht. rewrite Ht in H. destruct raws as [|raw raws]; [done|].
  destruct (parse_configs (raw :: raws) _ []) as [[cs|?]|] eqn:E; try done. injection H as <-.
  apply parse_configs_ok in E as (_ & new & -> & H2); [done|apply seen_inv_init|constructor].
Qed.

End lemmas.

(** ** Properties *)

(** A backend and a balancer configured from one route file understand each other.
    Whenever the balancer accepts the file, both backends find the entry of their server
    id - the first that has it - exactly when some entry has it; their generator is
    constructed without a panic; and every connection id it issues, whatever the nonce
    and the random octet, has the announced length and is resolved by the balancer's
    entry to a server with that id. *)
Theorem backends_share_the_file `{AesLaws} {IoError TomlError} (lb_toml : str -> result (list RawConfig) TomlError)
    (read : str -> result str IoError) (echo_toml : str -> result (list BackendConfig) TomlError)
    (welman_toml : str -> result WelmanFile TomlError) (path text hex : str) (raws : list RawConfig)
    (cfgs : list RouteConfig) (file : WelmanFile) (sid : list byte) :
  read path = Ok text -> lb_toml text = Ok raws -> parse_routes (IoError := IoError) lb_toml text = Done (Ok cfgs) ->
  echo_toml text = Ok (map seen_by_backend raws) ->
  welman_toml text = Ok file -> wf_configs file = map seen_by_backend raws ->
  hex_decode hex = Done (Ok sid) ->
  match find (fun c => existsb (has_id sid) (servers c)) cfgs with
  | Some c => exists p e,
      echo_resolve_config read echo_toml path hex = Done (Ok p) /\
      welman_resolve_config read welman_toml path hex = Done (Ok p) /\ generator_new p = Done e /\
      (nonce_fits c -> forall nonce rnd, len nonce = nonce_length c ->
         exists cid i s, generate_cid e nonce rnd = Done cid /\ len cid = cid_len e /\
           resolve_server_idx cid c = Done (Some i) /\ servers c !! i = Some s /\ s_id s = sid)
  | None => echo_resolve_config read echo_toml path hex = Done (Err ServerNotFound)
  end.
Proof.
  intros Hread Hraws Hparse Hecho Hwel Hfile Hhex. pose proof (parse_routes_validated _ _ _ _ Hparse Hraws) as H2.
  pose proof (resolve_nested_spec (IoError := IoError) (TomlError := TomlError) sid raws cfgs H2) as Hres.
  unfold echo_resolve_config, welman_resolve_config. rewrite Hread, Hecho, Hwel, Hfile, Hhex. cbn [rs_map_err map_err].
  destruct (find _ cfgs) as [c|] eqn:Ef; [|by rewrite Hres].
  destruct Hres as (p & e & -> & Hgen & Hm & Hsid & _). exists p, e. split; [done|]. split; [done|]. split; [done|].
  intros Hfit nonce rnd Hn. apply find_some in Ef as [Hc (s & Hin & Hs)%has_id_exists].
  assert (config_wf c) as Hw.
  { apply list_elem_of_In, list_elem_of_lookup in Hc as [i Hi]. eapply Forall2_lookup_r in H2 as (raw & _ & Hv); [|exact Hi].
    by apply validate_ok in Hv as [? _]. }
  destruct (cid_roundtrip_lemma e c nonce rnd Hw Hfit Hm Hn) as (cid & He & Hlen & _ & Hr). rewrite Hsid in Hr.
  destruct (cid_lengths _ Hw) as [_ Hcl]. unfold find_server_idx in Hr.
  destruct (position_id (servers c) sid 0) as [i|] eqn:Ei.
  - apply position_id_Some in Ei as (_ & s' & Hs' & Hid & _). rewrite Nat.sub_0_r in Hs'. exists cid, i, s'.
    split; [done|]. split; [|done]. unfold cid_len, encoder_cid_length. rewrite Hsid.
    pose proof (m_sid _ _ Hm) as Hms. rewrite Hsid in Hms. rewrite (m_nonce _ _ Hm). lia.
  - apply position_id_None in Ei. rewrite list.Forall_forall in Ei. by destruct (Ei s Hin).
Qed.

(** ** Instances of the properties *)

#[local] Existing Instance xor_aes.
#[local] Existing Instance xor_aes_laws.

Definition example_raws : list RawConfig := [example_raw; four_pass_raw].

Definition example_cfgs : list RouteConfig :=
  match parse_routes (IoError := unit) (fun _ => Ok (E := unit) example_raws) [] with Done (Ok cs) => cs | _ => [] end.

Lemma backends_share_the_file_witness :
  exists p e, echo_resolve_config (IoError := unit) (TomlError := unit) (fun _ => Ok [])
      (fun _ => Ok (map seen_by_backend example_raws)) [] (lit " ED793A51D4 ") = Done (Ok p) /\ generator_new p = Done e.
Proof.
  pose proof (backends_share_the_file (IoError := unit) (TomlError := unit) (fun _ => Ok example_raws) (fun _ => Ok [])
    (fun _ => Ok (map seen_by_backend example_raws))
    (fun _ => Ok (mkWelmanFile (map seen_by_backend example_raws) None None None None None []))
    [] [] (lit " ED793A51D4 ") example_raws example_cfgs
    (mkWelmanFile (map seen_by_backend example_raws) None None None None None []) [0xed; 0x79; 0x3a; 0x51; 0xd4]%u8
    eq_refl eq_refl ltac:(vm_compute; reflexivity) eq_refl eq_refl eq_refl ltac:(vm_compute; reflexivity)) as Hp.
  assert (exists c, find (fun c => existsb (has_id [0xed; 0x79; 0x3a; 0x51; 0xd4]%u8) (servers c)) example_cfgs = Some c)
    as [c Hc] by (vm_compute; eexists; reflexivity).
  rewrite Hc in Hp. destruct Hp as (p & e & Hecho & _ & Hgen & _). exists p, e. split; [exact Hecho|exact Hgen].
Defined.
