(* ===== verification/ConnTable.v ===== *)
(** * The per-worker connection table

    Models [pesigitg-daemon/src/conntable.rs]: the two hash maps (by 4-tuple
    and by raw DCID) with their expiry times and the periodic sweep, and proves
    the table refines a log of the routing decisions in which the latest
    decision of the last five seconds wins. *)

From stdpp Require Import gmap.
From S2P Require Import Prelude Std Common.

Definition ENTRY_TTL : Duration := from_secs 5.
Definition SWEEP_INTERVAL : Duration := from_secs 5.

Record FlowKey := mkFlowKey {
  src_addr : IpAddr;
  dst_addr : IpAddr;
  src_port : Z;
  dst_port : Z;
}.

#[global] Instance FlowKey_eq_dec : EqDecision FlowKey.
Proof. solve_decision. Defined.

#[global] Instance FlowKey_countable : Countable FlowKey.
Proof.
  refine (inj_countable' (fun k => (src_addr k, dst_addr k, src_port k, dst_port k))
            (fun '(a, b, c, d) => mkFlowKey a b c d) _).
  by intros [].
Defined.

(** The length of the CID (at most 20) and its bytes, padded with zeros. *)
Record DcidKey := mkDcidKey {
  dk_len : Z;
  dk_bytes : list byte;
}.

#[global] Instance DcidKey_eq_dec : EqDecision DcidKey.
Proof. solve_decision. Defined.

#[global] Instance DcidKey_countable : Countable DcidKey.
Proof.
  refine (inj_countable' (fun k => (dk_len k, dk_bytes k)) (fun '(a, b) => mkDcidKey a b) _).
  by intros [].
Defined.

Definition dcid_key (dcid : list byte) : rs DcidKey :=
  let n := Z.min (len dcid) 20 in
  let* d := slice dcid 0 n in
  let* bytes := copy_to (zeros 20) 0 n d in
  Done (mkDcidKey n bytes).

Record Entry := mkEntry {
  entry_mac : mac;
  expires : Instant;
}.

Definition entry_new (m : mac) (now : Instant) : Entry := mkEntry m (now + ENTRY_TTL).

Definition is_expired (e : Entry) (now : Instant) : bool := expires e <=? now.

Record ConnectionTable := mkConnTable {
  by_flow : gmap FlowKey Entry;
  by_dcid : gmap DcidKey Entry;
  last_sweep : Instant;
}.

Definition conn_new (now : Instant) : ConnectionTable := mkConnTable ∅ ∅ now.

(** [if let Some(e) = map.get(k) && !e.is_expired(now)] *)
Definition live_entry `{Countable K} (m : gmap K Entry) (k : K) (now : Instant) : option mac :=
  match m !! k with
  | Some e => if is_expired e now then None else Some (entry_mac e)
  | None => None
  end.

Definition conn_lookup (t : ConnectionTable) (flow : FlowKey) (dcid : option DcidKey)
    (now : Instant) : option mac :=
  match live_entry (by_flow t) flow now with
  | Some m => Some m
  | None =>
      match dcid with
      | Some key => live_entry (by_dcid t) key now
      | None => None
      end
  end.

Definition conn_insert (t : ConnectionTable) (flow : FlowKey) (dcid : option DcidKey) (m : mac)
    (now : Instant) : ConnectionTable :=
  mkConnTable (<[flow := entry_new m now]> (by_flow t))
    (match dcid with
     | Some key => <[key := entry_new m now]> (by_dcid t)
     | None => by_dcid t
     end)
    (last_sweep t).

Definition record_dcid (t : ConnectionTable) (dcid : DcidKey) (m : mac) (now : Instant)
    : ConnectionTable :=
  mkConnTable (by_flow t) (<[dcid := entry_new m now]> (by_dcid t)) (last_sweep t).

(** [map.retain(|_, e| !e.is_expired(now))] *)
Definition retain_live `{Countable K} (m : gmap K Entry) (now : Instant) : gmap K Entry :=
  filter (fun kv => is_expired kv.2 now = false) m.

Definition maybe_sweep (t : ConnectionTable) (now : Instant) : ConnectionTable :=
  if duration_since now (last_sweep t) <? SWEEP_INTERVAL then t
  else mkConnTable (retain_live (by_flow t) now) (retain_live (by_dcid t) now) now.

(** ** The abstract table: a log of decisions *)

Inductive conn_op :=
| OpInsert (flow : FlowKey) (dcid : option DcidKey) (m : mac) (now : Instant)
| OpRecordDcid (dcid : DcidKey) (m : mac) (now : Instant)
| OpSweep (now : Instant).

Definition op_time (o : conn_op) : Instant :=
  match o with OpInsert _ _ _ t | OpRecordDcid _ _ t | OpSweep t => t end.

Definition conn_apply (t : ConnectionTable) (o : conn_op) : ConnectionTable :=
  match o with
  | OpInsert f d m now => conn_insert t f d m now
  | OpRecordDcid d m now => record_dcid t d m now
  | OpSweep now => maybe_sweep t now
  end.

(** The latest decision of the log (newest first) for a flow, for a DCID. *)
Fixpoint last_flow (log : list conn_op) (flow : FlowKey) : option (mac * Instant) :=
  match log with
  | [] => None
  | OpInsert f _ m t :: log' => if decide (f = flow) then Some (m, t) else last_flow log' flow
  | _ :: log' => last_flow log' flow
  end.

Fixpoint last_dcid (log : list conn_op) (key : DcidKey) : option (mac * Instant) :=
  match log with
  | [] => None
  | OpInsert _ (Some d) m t :: log' | OpRecordDcid d m t :: log' =>
      if decide (d = key) then Some (m, t) else last_dcid log' key
  | _ :: log' => last_dcid log' key
  end.

Definition fresh (d : option (mac * Instant)) (now : Instant) : option mac :=
  match d with
  | Some (m, t) => if now <? t + ENTRY_TTL then Some m else None
  | None => None
  end.

(** What the table promises: the latest decision for the flow if it is less
    than five seconds old, otherwise that for the DCID. *)
Definition log_lookup (log : list conn_op) (flow : FlowKey) (dcid : option DcidKey)
    (now : Instant) : option mac :=
  match fresh (last_flow log flow) now with
  | Some m => Some m
  | None => match dcid with Some key => fresh (last_dcid log key) now | None => None end
  end.

(** Times in a log do not decrease, and none is after [now]. *)
Fixpoint log_ok (log : list conn_op) (now : Instant) : Prop :=
  match log with
  | [] => True
  | o :: log' => op_time o <= now /\ log_ok log' (op_time o)
  end.

Definition conn_run (t0 : Instant) (log : list conn_op) : ConnectionTable :=
  foldr (fun o t => conn_apply t o) (conn_new t0) log.

(** ** The simulation *)

(** An index agrees with the latest decisions, up to expired ones that a sweep
    removed. *)
Definition index_inv `{Countable K} (m : gmap K Entry) (last : K -> option (mac * Instant))
    (now : Instant) : Prop :=
  forall k,
    match last k with
    | None => m !! k = None
    | Some (mc, t) =>
        m !! k = Some (entry_new mc t) \/ (m !! k = None /\ t + ENTRY_TTL <= now)
    end.

Lemma index_inv_later `{Countable K} (m : gmap K Entry) last now now' :
  index_inv m last now -> now <= now' -> index_inv m last now'.
Proof.
  intros Hi Hle k. specialize (Hi k). destruct (last k) as [[mc t]|]; [|done].
  destruct Hi as [?|[? ?]]; [by left|right; split; [done|lia]].
Qed.

Lemma index_inv_insert `{Countable K} (m : gmap K Entry) last now key mc :
  index_inv m last now ->
  index_inv (<[key := entry_new mc now]> m)
    (fun k => if decide (key = k) then Some (mc, now) else last k) now.
Proof.
  intros Hi k. destruct (decide (key = k)) as [->|Hne].
  - left. apply lookup_insert_eq.
  - rewrite lookup_insert_ne by done. apply Hi.
Qed.

Lemma index_inv_retain `{Countable K} (m : gmap K Entry) last now :
  index_inv m last now -> index_inv (retain_live m now) last now.
Proof.
  intros Hi k. specialize (Hi k). unfold retain_live. destruct (last k) as [[mc t]|].
  - destruct Hi as [Hk|[Hk Ht]].
    + destruct (is_expired (entry_new mc t) now) eqn:E.
      * right. split; [|unfold is_expired in E; simpl in E; lia].
        apply map_lookup_filter_None. right. intros e He. simpl. congruence.
      * left. by apply map_lookup_filter_Some.
    + right. split; [|done]. apply map_lookup_filter_None. by left.
  - apply map_lookup_filter_None. by left.
Qed.

Lemma live_entry_fresh `{Countable K} (m : gmap K Entry) last now k :
  index_inv m last now -> live_entry m k now = fresh (last k) now.
Proof.
  intros Hi. specialize (Hi k). unfold live_entry, fresh, is_expired.
  destruct (last k) as [[mc t]|]; [|by rewrite Hi].
  destruct Hi as [->|[-> Ht]]; simpl.
  - destruct (t + ENTRY_TTL <=? now) eqn:E, (now <? t + ENTRY_TTL) eqn:E'; (done || lia).
  - destruct (now <? t + ENTRY_TTL) eqn:E; [lia|done].
Qed.

(** The simulation relation holds after every sequence of operations. *)
Lemma conn_run_inv t0 log now :
  log_ok log now ->
  index_inv (by_flow (conn_run t0 log)) (last_flow log) now /\
  index_inv (by_dcid (conn_run t0 log)) (last_dcid log) now.
Proof.
  revert now. induction log as [|o log IH]; intros now; cbn [log_ok].
  { intros _. split; intros k; apply lookup_empty. }
  intros [Ho Hlog]. destruct (IH _ Hlog) as [Hf Hd].
  change (conn_run t0 (o :: log)) with (conn_apply (conn_run t0 log) o).
  split; (eapply index_inv_later; [|exact Ho]); destruct o as [f [d|] m t|d m t|t]; simpl in *;
    unfold maybe_sweep; try case_goal; simpl;
    first [done | by apply index_inv_insert | by apply index_inv_retain].
Qed.

(** ** Properties *)

(** C2.  Refinement: after any sequence of inserts, DCID records and sweeps at
    nondecreasing times, a lookup answers as the log of decisions does.  In
    particular the sweep is invisible, a decision is honoured for five seconds
    and no longer, a later decision replaces an earlier one, and the 4-tuple
    has precedence over the DCID. *)
Theorem conn_table_refines_log (t0 now : Instant) (log : list conn_op) (flow : FlowKey)
    (dcid : option DcidKey) :
  log_ok log now ->
  conn_lookup (conn_run t0 log) flow dcid now = log_lookup log flow dcid now.
Proof.
  intros [Hf Hd]%(conn_run_inv t0). unfold conn_lookup, log_lookup.
  rewrite (live_entry_fresh _ _ _ _ Hf). destruct (fresh _ now); [done|].
  destruct dcid; [|done]. by rewrite (live_entry_fresh _ _ _ _ Hd).
Qed.

Definition example_flow (port : Z) : FlowKey :=
  mkFlowKey (V4 [10; 0; 0; 1]%u8) (V4 [10; 0; 1; 10]%u8) port 443.

(** An insert, a sweep and a lookup from another port with the same DCID. *)
Lemma conn_table_refines_log_witness :
  let key := mkDcidKey 2 (zeros 20) in
  let log := [OpSweep (from_secs 7);
              OpInsert (example_flow 1000) (Some key) [1; 2; 3; 4; 5; 6]%u8 (from_secs 4)] in
  conn_lookup (conn_run 0 log) (example_flow 2000) (Some key) (from_secs 8)
  = Some [1; 2; 3; 4; 5; 6]%u8.
Proof.
  intros key log.
  rewrite (conn_table_refines_log 0 (from_secs 8) log (example_flow 2000) (Some key)).
  - vm_compute. reflexivity.
  - vm_compute. repeat split; discriminate.
Defined.

Lemma length_zeros n : length (zeros n) = Z.to_nat n.
Proof. unfold zeros. apply length_replicate. Qed.

Lemma dcid_key_spec (d : list byte) :
  dcid_key d = Done (mkDcidKey (Z.min (len d) 20)
                       (take 20 d ++ zeros (20 - Z.min (len d) 20))).
Proof.
  pose_len. unfold dcid_key. rewrite slice_in by lia.
  assert (Hs : sub d 0 (Z.min (len d) 20) = take 20 d).
  { unfold sub. cbn [Z.to_nat drop]. rewrite Z.sub_0_r. rewrite drop_0.
    destruct (decide (len d <= 20)); [|by replace (Z.min _ 20) with 20 by lia].
    rewrite !take_ge; unfold len in *; [done|lia|lia]. }
  rewrite copy_to_in by (rewrite ?len_sub, ?len_zeros; lia).
  rewrite Hs, splice_0. do 3 f_equal. unfold zeros. rewrite drop_replicate. f_equal.
  rewrite length_take. unfold len. lia.
Qed.

(** Building a DCID key never panics, and two CIDs of legal length (at
    most 20 bytes) share a key only when they are equal, so the padding does
    not merge a CID with a longer one. *)
Theorem dcid_key_injective (d1 d2 : list byte) :
  (exists k1, dcid_key d1 = Done k1) /\
  (len d1 <= 20 -> len d2 <= 20 -> dcid_key d1 = dcid_key d2 -> d1 = d2).
Proof.
  rewrite !dcid_key_spec. split; [by eexists|]. intros H1 H2 [= Hl Hb].
  assert (length d1 = length d2) as Hlen by (unfold len in *; lia).
  rewrite !take_ge in Hb by (unfold len in *; lia).
  by apply app_inj_1 in Hb as [-> _].
Qed.

Lemma dcid_key_injective_witness :
  dcid_key [1; 2]%u8 <> dcid_key [1; 2; 0]%u8.
Proof.
  intros E. destruct (dcid_key_injective [1; 2]%u8 [1; 2; 0]%u8) as [_ Hinj].
  specialize (Hinj ltac:(vm_compute; discriminate) ltac:(vm_compute; discriminate) E).
  discriminate Hinj.
Defined.
