(* ===== verification/Initial.v ===== *)
(** * The Initial packet parser

    Models [pesigitg-daemon/src/quic/initial.rs]: the variable-length integers
    and the strict parser of QUIC v1 and v2 Initial headers, and proves that the
    parser never panics and accepts exactly the packets of the wire format, with
    the fields they were built from. *)

From S2P Require Import Prelude Std.

Definition QUIC_V1 : Z := 0x00000001.
Definition QUIC_V2 : Z := 0x6b3343cf.
Definition MAX_CID_LEN : Z := 20.

Record Initial := mkInitial {
  first_byte : byte;
  version : Z;
  dcid : list byte;
  scid : list byte;
  token : list byte;
  length_field : Z;
  pn_offset : Z;
}.

Inductive ParseError :=
| Truncated
| NotLongHeader
| FixedBitUnset
| NotInitial
| UnsupportedVersion (v : Z)
| DcidLengthInvalid
| ScidLengthInvalid
| TokenLengthInvalid
| LengthInvalid
| LengthOverrun.

(** [value = (value << 8) | byte] over the bytes, on [u64]. *)
Definition varint_fold (value : Z) (bytes : list byte) : Z :=
  foldl (fun v b => Z.lor (wrap64 (Z.shiftl v 8)) (u8 b)) value bytes.

Definition read_varint (buf : list byte) : rs (option (Z * Z)) :=
  match buf with
  | [] => Done None
  | first :: _ =>
      let size := Z.shiftl 1 (Z.shiftr (u8 first) 6) in
      if len buf <? size then Done None
      else
        let* rest := slice buf 1 size in
        Done (Some (varint_fold (Z.land (u8 first) 0x3f) rest, size))
  end.

(** [a.checked_add(b)] on [usize]. *)
Definition checked_add (a b : Z) : option Z := if a + b <? 2 ^ 64 then Some (a + b) else None.

(** The part of [parse_strict] after the CIDs: token length, token, length. *)
Definition parse_token_length (packet : list byte) (first : byte) (v : Z) (dcid scid : list byte)
    (scid_end : Z) : rs (result Initial ParseError) :=
  let* rest := slice_from packet scid_end in
  let* tl := read_varint rest in
  match tl with
  | None => Done (Err TokenLengthInvalid)
  | Some (token_len, tl_size) =>
      let token_start := scid_end + tl_size in
      match checked_add token_start token_len with
      | None => Done (Err TokenLengthInvalid)
      | Some token_end =>
          if len packet <? token_end then Done (Err TokenLengthInvalid)
          else
            let* token := slice packet token_start token_end in
            let* rest := slice_from packet token_end in
            let* l := read_varint rest in
            match l with
            | None => Done (Err LengthInvalid)
            | Some (length, len_size) =>
                let pn_offset := token_end + len_size in
                match checked_add pn_offset length with
                | None => Done (Err LengthOverrun)
                | Some declared_end =>
                    if len packet <? declared_end then Done (Err LengthOverrun)
                    else Done (Ok (mkInitial first v dcid scid token length pn_offset))
                end
            end
      end
  end.

Definition parse_strict (packet : list byte) : rs (result Initial ParseError) :=
  if len packet <? 9 then Done (Err Truncated)
  else
    let* first := idx packet 0 in
    if negb (has_bits first 0x80) then Done (Err NotLongHeader)
    else if negb (has_bits first 0x40) then Done (Err FixedBitUnset)
    else
      let* p1 := idx packet 1 in let* p2 := idx packet 2 in
      let* p3 := idx packet 3 in let* p4 := idx packet 4 in
      let v := be32 p1 p2 p3 p4 in
      let ptype := Z.land (Z.shiftr (u8 first) 4) 3 in
      if (v =? QUIC_V1) && negb (ptype =? 0) then Done (Err NotInitial)
      else if (v =? QUIC_V2) && negb (ptype =? 1) then Done (Err NotInitial)
      else if negb ((v =? QUIC_V1) || (v =? QUIC_V2)) then Done (Err (UnsupportedVersion v))
      else
        let* p5 := idx packet 5 in
        let dcid_len := u8 p5 in
        if MAX_CID_LEN <? dcid_len then Done (Err DcidLengthInvalid)
        else
          let dcid_end := 6 + dcid_len in
          if len packet <? dcid_end + 1 then Done (Err DcidLengthInvalid)
          else
            let* dcid := slice packet 6 dcid_end in
            let* sl := idx packet dcid_end in
            let scid_len := u8 sl in
            if MAX_CID_LEN <? scid_len then Done (Err ScidLengthInvalid)
            else
              let scid_start := dcid_end + 1 in
              let scid_end := scid_start + scid_len in
              if len packet <? scid_end then Done (Err ScidLengthInvalid)
              else
                let* scid := slice packet scid_start scid_end in
                parse_token_length packet first v dcid scid scid_end.

(** ** Variable-length integers *)

(** The encoding of [v] in [2^k] bytes: the size class in the top two bits. *)
Definition varint_enc (k : nat) (v : Z) : list byte :=
  be_bytes (2 ^ k) (Z.of_nat k * 2 ^ (8 * 2 ^ Z.of_nat k - 2) + v).

(** The smallest encoding, as the parser's tests write it. *)
Definition write_varint (v : Z) : list byte :=
  if v <? 2 ^ 6 then varint_enc 0 v
  else if v <? 2 ^ 14 then varint_enc 1 v
  else if v <? 2 ^ 30 then varint_enc 2 v
  else varint_enc 3 v.

Definition varint_fits (k : nat) (v : Z) : Prop :=
  (k <= 3)%nat /\ 0 <= v < 2 ^ (8 * 2 ^ Z.of_nat k - 2).

Lemma varint_fold_val value bytes :
  0 <= value -> (value + 1) * 256 ^ len bytes <= 2 ^ 64 ->
  varint_fold value bytes = value * 256 ^ len bytes + be_val bytes.
Proof.
  revert value. unfold varint_fold. induction bytes as [|b bytes IH]; intros value Hv Hb.
  { change (be_val []) with 0. change (len []) with 0. cbn [foldl]. lia. }
  cbn [foldl]. rewrite len_cons in Hb. rewrite be_val_cons, len_cons. pose_len.
  rewrite (Z.pow_add_r 256 1 (len bytes)) in Hb |- * by lia. change (256 ^ 1) with 256 in *.
  assert (Hpos : 0 < 256 ^ len bytes) by (apply Z.pow_pos_nonneg; lia).
  assert (Hlor : Z.lor (wrap64 (Z.shiftl value 8)) (u8 b) = value * 256 + u8 b).
  { rewrite Z.shiftl_mul_pow2 by lia. change (2 ^ 8) with 256.
    unfold wrap64. rewrite Z.mod_small by nia.
    rewrite <- Z.add_lor_land. replace (Z.land (value * 256) (u8 b)) with 0; [lia|].
    apply Z.bits_inj'. intros i Hi. rewrite Z.land_spec, Z.bits_0.
    change 256 with (2 ^ 8). rewrite <- Z.shiftl_mul_pow2 by lia.
    destruct (decide (i < 8)).
    - by rewrite Z.shiftl_spec_low by lia.
    - rewrite (Z.bits_above_log2 (u8 b) i); [by rewrite andb_false_r|lia|].
      destruct (decide (u8 b = 0)) as [->|]; [simpl; lia|].
      apply Z.log2_lt_pow2; [lia|]. apply Z.lt_le_trans with (2 ^ 8); [lia|].
      apply Z.pow_le_mono_r; lia. }
  rewrite Hlor, IH; nia.
Qed.

(** The first byte splits into the size class and the high bits. *)
Lemma varint_first (b : byte) :
  Z.shiftr (u8 b) 6 = u8 b / 64 /\ Z.land (u8 b) 0x3f = u8 b mod 64 /\ 0 <= u8 b / 64 <= 3.
Proof.
  split; [by rewrite Z.shiftr_div_pow2|]. split; [by apply (Z.land_ones (u8 b) 6)|].
  split; [apply Z.div_pos; lia|]. apply Z.lt_succ_r, Z.div_lt_upper_bound; lia.
Qed.

(** The decoder on a first byte of class [k] followed by the other bytes of the
    integer. *)
Lemma read_varint_eval b tl rest (k : nat) :
  (k <= 3)%nat -> u8 b / 64 = Z.of_nat k -> length tl = (2 ^ k - 1)%nat ->
  read_varint ((b :: tl) ++ rest) = Done (Some (be_val (b8 (u8 b mod 64) :: tl), 2 ^ Z.of_nat k)).
Proof.
  intros Hk Hb Hl. unfold read_varint. cbn [app]. destruct (varint_first b) as (-> & -> & _).
  rewrite Hb, Z.shiftl_1_l. pose proof (Z.mod_pos_bound (u8 b) 64 ltac:(lia)).
  assert (Hlen : len tl = 2 ^ Z.of_nat k - 1).
  { unfold len. rewrite Hl. do 4 (destruct k as [|k]; [reflexivity|]). lia. }
  assert (1 <= 2 ^ Z.of_nat k <= 8) by (do 4 (destruct k as [|k]; [simpl; lia|]); lia).
  rewrite len_cons, len_app. case_goal; [pose_len; lia|].
  rewrite (slice_app_mid [b] tl rest) by (change (len [b]) with 1; lia).
  rewrite varint_fold_val, be_val_cons, u8_b8_small; [done|lia|lia|].
  assert (256 ^ len tl <= 256 ^ 7) by (apply Z.pow_le_mono_r; lia).
  apply Z.le_trans with (64 * 256 ^ 7); [|done]. nia.
Qed.

Lemma varint_enc_shape k v :
  varint_fits k v ->
  exists b tl, varint_enc k v = b :: tl /\ length tl = (2 ^ k - 1)%nat /\
    u8 b / 64 = Z.of_nat k /\ be_val (b8 (u8 b mod 64) :: tl) = v.
Proof.
  intros [Hk Hv]. unfold varint_enc.
  assert (H1 : (1 <= 2 ^ k)%nat) by (clear; induction k; simpl; lia).
  pose proof (be_val_be_bytes (2 ^ k) (Z.of_nat k * 2 ^ (8 * 2 ^ Z.of_nat k - 2) + v)) as Hval.
  pose proof (length_be_bytes (2 ^ k) (Z.of_nat k * 2 ^ (8 * 2 ^ Z.of_nat k - 2) + v)) as Hlen.
  destruct (be_bytes (2 ^ k) _) as [|b tl]; [simpl in Hlen; lia|]. exists b, tl.
  simpl in Hlen. assert (Hl : length tl = (2 ^ k - 1)%nat) by lia. split; [done|]. split; [done|].
  rewrite be_val_cons in Hval. rewrite be_val_cons, u8_b8_small
    by (pose proof (Z.mod_pos_bound (u8 b) 64 ltac:(lia)); lia).
  pose proof (be_val_range tl) as Htl. unfold len in *. rewrite Hl in *.
  pose proof (Z.div_mod (u8 b) 64 ltac:(lia)). pose proof (Z.mod_pos_bound (u8 b) 64 ltac:(lia)).
  pose proof (u8_range b).
  set (q := u8 b / 64) in *. set (m := u8 b mod 64) in *. clearbody q m.
  destruct k as [|[|[|[|k]]]]; [| | | |lia]; simpl Nat.sub in *; cbn -[Z.mul Z.add Z.modulo u8 be_val] in *;
    (rewrite Z.mod_small in Hval by lia; split; lia).
Qed.

Lemma read_varint_enc k v rest :
  varint_fits k v -> read_varint (varint_enc k v ++ rest) = Done (Some (v, 2 ^ Z.of_nat k)).
Proof.
  intros Hf. destruct (varint_enc_shape k v Hf) as (b & tl & -> & Hl & Hb & Hv).
  rewrite (read_varint_eval b tl rest k); [by rewrite Hv|by destruct Hf|done|done].
Qed.

Lemma varint_enc_unshape b tl (k : nat) :
  (k <= 3)%nat -> u8 b / 64 = Z.of_nat k -> length tl = (2 ^ k - 1)%nat ->
  let v := be_val (b8 (u8 b mod 64) :: tl) in varint_fits k v /\ varint_enc k v = b :: tl.
Proof.
  intros Hk Hb Hl v. pose proof (Z.mod_pos_bound (u8 b) 64 ltac:(lia)) as Hm.
  pose proof (Z.div_mod (u8 b) 64 ltac:(lia)) as Hdm.
  assert (Hv : v = u8 b mod 64 * 256 ^ Z.of_nat (2 ^ k - 1) + be_val tl).
  { unfold v. rewrite be_val_cons, u8_b8_small by lia. unfold len. by rewrite Hl. }
  pose proof (be_val_range tl) as Htl. unfold len in Htl. rewrite Hl in Htl.
  assert (Hs : Z.of_nat k * 2 ^ (8 * 2 ^ Z.of_nat k - 2) + v = be_val (b :: tl)).
  { rewrite be_val_cons, Hv. unfold len. rewrite Hl.
    destruct k as [|[|[|[|k]]]]; [| | | |lia];
      cbn -[Z.mul Z.add Z.modulo Z.div u8 be_val] in *; lia. }
  split.
  - split; [done|]. rewrite Hv.
    destruct k as [|[|[|[|k]]]]; [| | | |lia];
      cbn -[Z.mul Z.add Z.modulo Z.div u8 be_val] in *; lia.
  - unfold varint_enc. rewrite Hs. replace (2 ^ k)%nat with (length (b :: tl)).
    + apply be_bytes_be_val.
    + simpl. rewrite Hl. assert (1 <= 2 ^ k)%nat by (clear; induction k; simpl; lia). lia.
Qed.

(** Whatever [read_varint] returns was encoded in the bytes it consumed. *)
Lemma read_varint_inv buf r :
  read_varint buf = Done (Some r) ->
  exists k rest, varint_fits k r.1 /\ r.2 = 2 ^ Z.of_nat k /\ buf = varint_enc k r.1 ++ rest.
Proof.
  destruct buf as [|b buf]; [done|]. intros H. pose proof H as H'. unfold read_varint in H'.
  destruct (varint_first b) as (Hb & _ & Hk). rewrite Hb, Z.shiftl_1_l in H'.
  destruct (len (b :: buf) <? 2 ^ (u8 b / 64)) eqn:El; [done|]. clear H'.
  set (k := Z.to_nat (u8 b / 64)).
  assert (Hkz : u8 b / 64 = Z.of_nat k) by lia.
  rewrite Hkz, len_cons in El.
  assert (Hpow : 2 ^ Z.of_nat k = Z.of_nat (2 ^ k)) by (rewrite Nat2Z.inj_pow; done).
  assert (Ht : length (take (2 ^ k - 1) buf) = (2 ^ k - 1)%nat).
  { rewrite length_take. unfold len in El. lia. }
  rewrite <- (take_drop (2 ^ k - 1) buf) in H.
  change (b :: take _ buf ++ drop _ buf) with ((b :: take (2 ^ k - 1) buf) ++ drop (2 ^ k - 1) buf) in H.
  rewrite (read_varint_eval _ _ _ k) in H by (done || lia). injection H as <-.
  destruct (varint_enc_unshape b (take (2 ^ k - 1) buf) k) as [Hf He]; [lia|done|done|].
  exists k, (drop (2 ^ k - 1) buf). simpl. split; [done|]. split; [done|].
  rewrite He. cbn [app]. by rewrite take_drop.
Qed.

Lemma read_varint_returns buf : returns (read_varint buf).
Proof.
  destruct buf as [|b buf]; [eauto with pesi|]. unfold read_varint.
  destruct (varint_first b) as (-> & _ & Hk). rewrite Z.shiftl_1_l.
  assert (1 <= 2 ^ (u8 b / 64)) by (apply (Z.pow_le_mono_r 2 0); lia). rs_run.
Qed.

Lemma write_varint_fits v :
  0 <= v < 2 ^ 62 -> exists k, varint_fits k v /\ write_varint v = varint_enc k v.
Proof.
  intros. unfold write_varint, varint_fits.
  repeat case_goal; eexists; (split; [|reflexivity]); split; simpl; lia.
Qed.

(** ** The wire format *)

(** An Initial header with its fields, the two integers in [2^k1] and [2^k2]
    bytes, followed by the protected part of the packet. *)
Definition initial_wire (k1 k2 : nat) (i : Initial) (payload : list byte) : list byte :=
  (first_byte i :: be_bytes 4 (version i) ++ [b8 (len (dcid i))]) ++ dcid i ++
  b8 (len (scid i)) :: scid i ++ varint_enc k1 (len (token i)) ++ token i ++
  varint_enc k2 (length_field i) ++ payload.

Record initial_wf (k1 k2 : nat) (i : Initial) (payload : list byte) : Prop := {
  iw_long : has_bits (first_byte i) 0x80 = true;
  iw_fixed : has_bits (first_byte i) 0x40 = true;
  iw_type : (version i = QUIC_V1 /\ Z.land (Z.shiftr (u8 (first_byte i)) 4) 3 = 0) \/
            (version i = QUIC_V2 /\ Z.land (Z.shiftr (u8 (first_byte i)) 4) 3 = 1);
  iw_dcid : len (dcid i) <= MAX_CID_LEN;
  iw_scid : len (scid i) <= MAX_CID_LEN;
  iw_token : varint_fits k1 (len (token i));
  iw_length : varint_fits k2 (length_field i);
  iw_payload : length_field i <= len payload;
  iw_pn : pn_offset i = len (initial_wire k1 k2 i payload) - len payload;
}.

Lemma len_varint_enc k v : len (varint_enc k v) = 2 ^ Z.of_nat k.
Proof. unfold varint_enc. rewrite len_be_bytes. rewrite Nat2Z.inj_pow. done. Qed.

Lemma len_initial_wire k1 k2 i payload :
  len (initial_wire k1 k2 i payload)
  = 7 + len (dcid i) + len (scid i) + 2 ^ Z.of_nat k1 + len (token i) + 2 ^ Z.of_nat k2
    + len payload.
Proof. unfold initial_wire. autorewrite with len. rewrite !len_varint_enc. lia. Qed.

Lemma pow2_pos (k : nat) : 1 <= 2 ^ Z.of_nat k.
Proof. apply (Z.pow_le_mono_r 2 0); lia. Qed.

(** The packet up to the end of the source CID. *)
Definition wire_head (i : Initial) : list byte :=
  (first_byte i :: be_bytes 4 (version i) ++ [b8 (len (dcid i))]) ++ dcid i ++
  b8 (len (scid i)) :: scid i.

Definition wire_tail (k1 k2 : nat) (i : Initial) (payload : list byte) : list byte :=
  varint_enc k1 (len (token i)) ++ token i ++ varint_enc k2 (length_field i) ++ payload.

Lemma wire_split k1 k2 i payload :
  initial_wire k1 k2 i payload = wire_head i ++ wire_tail k1 k2 i payload.
Proof. unfold initial_wire, wire_head, wire_tail. by rewrite <- !app_assoc. Qed.

Lemma len_wire_head i : len (wire_head i) = 7 + len (dcid i) + len (scid i).
Proof. unfold wire_head. autorewrite with len. lia. Qed.

Lemma parse_token_length_complete head k1 k2 i payload first v d s :
  varint_fits k1 (len (token i)) -> varint_fits k2 (length_field i) ->
  length_field i <= len payload -> len (head ++ wire_tail k1 k2 i payload) < 2 ^ 63 ->
  parse_token_length (head ++ wire_tail k1 k2 i payload) first v d s (len head)
  = Done (Ok (mkInitial first v d s (token i) (length_field i)
      (len head + 2 ^ Z.of_nat k1 + len (token i) + 2 ^ Z.of_nat k2))).
Proof.
  intros Ht Hl Hp Hmax. pose proof (pow2_pos k1). pose proof (pow2_pos k2).
  unfold wire_tail in *. set (t := token i) in *. set (lf := length_field i) in *.
  rewrite !len_app, !len_varint_enc in Hmax. pose_len.
  unfold parse_token_length. rewrite slice_from_app by done.
  rewrite (read_varint_enc k1 (len t)) by done. unfold checked_add.
  case_goal; [|lia].
  rewrite !len_app, !len_varint_enc. case_goal; [lia|].
  rewrite (app_assoc head). rewrite slice_app_mid by (rewrite len_app, len_varint_enc; lia).
  rewrite (app_assoc _ t). rewrite slice_from_app by (rewrite !len_app, len_varint_enc; lia).
  rewrite (read_varint_enc k2 lf) by done.
  case_goal; [|lia]. case_goal; [lia|done].
Qed.

(** The tests on the version and the packet type pass. *)
Lemma type_checks v ptype :
  (v = QUIC_V1 /\ ptype = 0) \/ (v = QUIC_V2 /\ ptype = 1) <->
  (v =? QUIC_V1) && negb (ptype =? 0) = false /\
  (v =? QUIC_V2) && negb (ptype =? 1) = false /\
  negb ((v =? QUIC_V1) || (v =? QUIC_V2)) = false.
Proof. unfold QUIC_V1, QUIC_V2. lia. Qed.

Lemma parse_strict_complete k1 k2 i payload :
  initial_wf k1 k2 i payload -> len (initial_wire k1 k2 i payload) < 2 ^ 63 ->
  parse_strict (initial_wire k1 k2 i payload) = Done (Ok i).
Proof.
  intros [H80 H40 Hty Hd Hs Ht Hl Hp Hpn] Hmax. rewrite len_initial_wire in Hpn.
  pose proof (pow2_pos k1). pose proof (pow2_pos k2). rewrite wire_split in *.
  set (w := wire_tail k1 k2 i payload) in *.
  assert (Hw : len w = 2 ^ Z.of_nat k1 + len (token i) + 2 ^ Z.of_nat k2 + len payload).
  { unfold w, wire_tail. rewrite !len_app, !len_varint_enc. lia. }
  pose proof (len_wire_head i) as Hh. unfold MAX_CID_LEN in *. pose_len.
  assert (Hv : 0 <= version i < 256 ^ 4) by (unfold QUIC_V1, QUIC_V2 in Hty; lia).
  pose proof (be_val_be_bytes 4 (version i)) as Hvb. rewrite Z.mod_small in Hvb by done.
  pose proof (length_be_bytes 4 (version i)) as Hvl.
  unfold parse_strict. rewrite len_app. case_goal; [lia|].
  pose proof (parse_token_length_complete (wire_head i) k1 k2 i payload (first_byte i) (version i)
    (dcid i) (scid i) Ht Hl Hp Hmax) as Htail. fold w in Htail. rewrite Hh in Htail.
  unfold wire_head in *.
  destruct (be_bytes 4 (version i)) as [|v1 [|v2 [|v3 [|v4 [|]]]]]; try done.
  set (hd := first_byte i :: [v1; v2; v3; v4] ++ [b8 (len (dcid i))]) in *.
  set (p := (hd ++ dcid i ++ _) ++ w) in *.
  assert (Hidx : idx p 0 = Done (first_byte i) /\ idx p 1 = Done v1 /\ idx p 2 = Done v2 /\
    idx p 3 = Done v3 /\ idx p 4 = Done v4 /\ idx p 5 = Done (b8 (len (dcid i)))) by done.
  destruct Hidx as (-> & -> & -> & -> & -> & ->). rewrite H80, H40. cbn [negb].
  unfold be32. rewrite Hvb. apply type_checks in Hty as (-> & -> & ->).
  rewrite u8_b8_small by lia. unfold MAX_CID_LEN. case_goal; [lia|].
  rewrite Hh. case_goal; [lia|].
  assert (Ep : p = hd ++ dcid i ++ b8 (len (scid i)) :: scid i ++ w)
    by (unfold p; by rewrite <- !app_assoc).
  replace (slice p 6 (6 + len (dcid i))) with (Done (dcid i))
    by (symmetry; rewrite Ep; apply slice_app_mid; done).
  rewrite app_assoc in Ep.
  replace (idx p (6 + len (dcid i))) with (Done (b8 (len (scid i))))
    by (symmetry; rewrite Ep; apply idx_app_mid; rewrite len_app; done).
  rewrite u8_b8_small by lia. case_goal; [lia|].
  case_goal; [lia|].
  replace (slice p (6 + len (dcid i) + 1) (6 + len (dcid i) + 1 + len (scid i)))
    with (Done (scid i)).
  - replace (6 + len (dcid i) + 1 + len (scid i)) with (7 + len (dcid i) + len (scid i)) by lia.
    rewrite Htail. destruct i; simpl in *. do 2 f_equal. f_equal. lia.
  - symmetry. rewrite Ep.
    change (b8 (len (scid i)) :: scid i ++ w) with ([b8 (len (scid i))] ++ scid i ++ w).
    rewrite (app_assoc (hd ++ dcid i)).
    apply slice_app_mid; rewrite !len_app; done.
Qed.

Lemma read_varint_bounds buf v n :
  read_varint buf = Done (Some (v, n)) -> 0 <= v /\ 1 <= n <= len buf.
Proof.
  intros (k & rest & [Hk Hv] & Hn & ->)%read_varint_inv. cbn [fst snd] in *.
  rewrite len_app, len_varint_enc, Hn. pose proof (pow2_pos k). pose_len. lia.
Qed.

Lemma parse_token_length_returns p first v d s e :
  0 <= e <= len p -> returns (parse_token_length p first v d s e).
Proof.
  intros He. unfold parse_token_length, checked_add. rewrite slice_from_in by lia.
  destruct (read_varint_returns (sub p e (len p))) as [[[tl n]|] Hr]; rewrite Hr; [|eauto with pesi].
  apply read_varint_bounds in Hr. rewrite len_sub in Hr by lia.
  case_goal; [|eauto with pesi]. case_goal; [eauto with pesi|].
  rewrite slice_in, slice_from_in by lia.
  destruct (read_varint_returns (sub p (e + n + tl) (len p))) as [[[l m]|] Hr']; rewrite Hr';
    [|eauto with pesi].
  rs_run.
Qed.

Lemma parse_strict_returns p : returns (parse_strict p).
Proof.
  unfold parse_strict. case_goal; [eauto with pesi|]. rewrite !idx_in by lia.
  do 6 (case_goal; [eauto with pesi|]). case_goal; [eauto with pesi|].
  rewrite slice_in, idx_in by lia. do 2 (case_goal; [eauto with pesi|]).
  rewrite slice_in by lia. apply parse_token_length_returns. lia.
Qed.

Lemma parse_token_length_sound p first v d s e i :
  0 <= e <= len p -> parse_token_length p first v d s e = Done (Ok i) ->
  exists k1 k2 payload,
    varint_fits k1 (len (token i)) /\ varint_fits k2 (length_field i) /\
    length_field i <= len payload /\ pn_offset i = len p - len payload /\
    first_byte i = first /\ version i = v /\ dcid i = d /\ scid i = s /\
    sub p e (len p) = wire_tail k1 k2 i payload.
Proof.
  intros He. unfold parse_token_length, checked_add. rewrite slice_from_in by lia.
  destruct (read_varint (sub p e (len p))) as [[[tl n]|]|] eqn:Hr; try done.
  pose proof (read_varint_bounds _ _ _ Hr) as Hb. rewrite len_sub in Hb by lia.
  case_goal; [|done]. case_goal; [done|]. rewrite slice_in, slice_from_in by lia.
  destruct (read_varint (sub p (e + n + tl) (len p))) as [[[l m]|]|] eqn:Hr'; try done.
  pose proof (read_varint_bounds _ _ _ Hr') as Hb'. rewrite len_sub in Hb' by lia.
  case_goal; [|done]. case_goal; [done|]. intros [= <-].
  apply read_varint_inv in Hr as (k1 & r1 & Hf1 & Hn1 & Hs1).
  apply read_varint_inv in Hr' as (k2 & r2 & Hf2 & Hn2 & Hs2). cbn [fst snd] in *.
  assert (Ht : len (sub p (e + n) (e + n + tl)) = tl) by (rewrite len_sub; lia).
  assert (Hr2 : len r2 = len p - (e + n + tl + m)).
  { apply (f_equal len) in Hs2. rewrite len_app, len_varint_enc, len_sub in Hs2; lia. }
  exists k1, k2, r2. cbn [token length_field pn_offset first_byte version dcid scid]. rewrite Ht.
  repeat split; try done; try apply Hf1; try apply Hf2; try lia.
  unfold wire_tail. cbn [token length_field]. rewrite Ht, <- Hs2, <- sub_split by lia.
  rewrite (sub_split p e (e + n) (len p)) by lia. f_equal.
  rewrite (sub_split p e (e + n) (len p)) in Hs1 by lia.
  apply app_inj_1 in Hs1 as [? _]; [done|].
  pose proof (len_sub p e (e + n) ltac:(lia) ltac:(lia)) as Hls.
  pose proof (len_varint_enc k1 tl) as Hlv. unfold len in *. lia.
Qed.

Lemma be_bytes_idx4 p :
  5 <= len p ->
  be_bytes 4 (be32 (elt p 1) (elt p 2) (elt p 3) (elt p 4)) = [elt p 1; elt p 2; elt p 3; elt p 4].
Proof. intros. unfold be32. apply (be_bytes_be_val [_; _; _; _]). Qed.

Lemma wire_head_sub (p : list byte) :
  6 <= len p ->
  sub p 0 6 = elt p 0 :: [elt p 1; elt p 2; elt p 3; elt p 4] ++ [elt p 5].
Proof. intros. rewrite !sub_succ by lia. rewrite sub_nil. done. Qed.

Lemma parse_strict_sound p i :
  parse_strict p = Done (Ok i) ->
  exists k1 k2 payload, initial_wf k1 k2 i payload /\ p = initial_wire k1 k2 i payload.
Proof.
  unfold parse_strict, MAX_CID_LEN. case_goal; [done|]. rewrite !idx_in by lia.
  case_goal; [done|]. case_goal; [done|]. do 3 (case_goal; [done|]).
  case_goal; [done|]. case_goal; [done|].
  rewrite slice_in, idx_in by lia. do 2 (case_goal; [done|]).
  rewrite slice_in by lia. set (dl := u8 (elt p 5)) in *.
  set (sl := u8 (elt p (6 + dl))) in *.
  intros (k1 & k2 & payload & Hf1 & Hf2 & Hlen & Hpn & Hf & Hv & Hd & Hs & Htail)
    %parse_token_length_sound; [|lia].
  assert (Hdl : len (dcid i) = dl) by (rewrite Hd, len_sub; lia).
  assert (Hsl : len (scid i) = sl) by (rewrite Hs, len_sub; lia).
  assert (Hp : p = initial_wire k1 k2 i payload).
  { rewrite wire_split, <- Htail. unfold wire_head. rewrite Hdl, Hsl, Hf, Hv, Hd, Hs.
    rewrite be_bytes_idx4 by lia. unfold dl at 1, sl at 1. rewrite !b8_u8.
    rewrite <- wire_head_sub by lia.
    replace (6 + dl + 1) with (6 + dl + 1 + 0) by lia. rewrite Z.add_0_r.
    rewrite <- !app_assoc. cbn [app]. rewrite <- sub_split by lia.
    rewrite <- sub_succ by lia. rewrite <- !sub_split by lia. symmetry. by apply sub_full. }
  exists k1, k2, payload. split; [|done]. constructor; rewrite ?Hf, ?Hv, ?Hdl, ?Hsl;
    unfold MAX_CID_LEN; try done; try lia; bools; try done.
  rewrite <- Hp. lia.
Qed.

(** ** Properties *)

(** C4.  The strict parser never panics, and it accepts exactly the wire
    format: it returns [i] on a packet if and only if the packet is an Initial
    of version 1 or 2 built from the fields of [i] (with either integer in any
    of its four encodings) followed by at least [length] bytes. *)
Theorem parse_strict_exact (p : list byte) (i : Initial) :
  len p < 2 ^ 63 ->
  returns (parse_strict p) /\
  (parse_strict p = Done (Ok i) <->
   exists k1 k2 payload, initial_wf k1 k2 i payload /\ p = initial_wire k1 k2 i payload).
Proof.
  intros Hmax. split; [apply parse_strict_returns|]. split; [apply parse_strict_sound|].
  intros (k1 & k2 & payload & Hwf & ->). by apply parse_strict_complete.
Qed.

Lemma parse_strict_exact_witness :
  parse_strict [0xc3; 0; 0; 0; 1; 4; 1; 2; 3; 4; 0; 0x40; 0; 2; 0xaa; 0xbb]%u8
  = Done (Ok (mkInitial 0xc3%u8 1 [1; 2; 3; 4]%u8 [] [] 2 14)).
Proof.
  apply (parse_strict_exact [0xc3; 0; 0; 0; 1; 4; 1; 2; 3; 4; 0; 0x40; 0; 2; 0xaa; 0xbb]%u8
    (mkInitial 0xc3%u8 1 [1; 2; 3; 4]%u8 [] [] 2 14)); [vm_compute; reflexivity|].
  exists 1%nat, 0%nat, [0xaa; 0xbb]%u8. split; [|vm_compute; reflexivity].
  constructor; try (left; split); vm_compute; try reflexivity; try discriminate;
    repeat split; try discriminate; repeat constructor.
Defined.

(** Every integer below [2^62] survives a write and a read, whatever
    follows it, and the reader consumes exactly what was written. *)
Theorem varint_roundtrip (v : Z) (rest : list byte) :
  0 <= v < 2 ^ 62 ->
  read_varint (write_varint v ++ rest) = Done (Some (v, len (write_varint v))).
Proof.
  intros (k & Hf & ->)%write_varint_fits. rewrite read_varint_enc by done.
  by rewrite len_varint_enc.
Qed.

Lemma varint_roundtrip_witness :
  read_varint (write_varint 15293 ++ [0xff]%u8) = Done (Some (15293, 2)).
Proof. apply (varint_roundtrip 15293 [0xff]%u8). lia. Defined.
