(* ===== verification/Token.v ===== *)
(** * Retry tokens

    Models [pesigitg-daemon/src/retry/token.rs]: minting and verifying the
    stateless address-validation tokens.  HMAC-SHA-256 (crates [hmac] and
    [sha2]) is a parameter; the tokens verification accepts are shown to be
    exactly the ones minting issues for the same client and ODCID within the
    lifetime. *)

From S2P Require Import Prelude Std.

(** The one-shot MAC: key and message; successive [update] calls append to the
    message. *)
Class Hmac := hmac_sha256 : list byte -> list byte -> list byte.

(** A SHA-256 digest has 32 bytes. *)
Class HmacLaws `{Hmac} : Prop :=
  len_hmac : forall key msg, len (hmac_sha256 key msg) = 32.

Definition TS_LEN : Z := 8.
Definition MAC_LEN : Z := 16.
Definition TOKEN_LEN : Z := TS_LEN + MAC_LEN.
Definition MAX_ODCID : Z := 20.

Inductive MintError := OdcidTooLong.

Inductive VerifyError :=
| Invalid
| Expired.

Record TokenKey := mkTokenKey { token_key : list byte }.

#[global] Instance TokenKey_eq_dec : EqDecision TokenKey.
Proof. solve_decision. Defined.

Definition token_key_from_bytes (key : list byte) : TokenKey := mkTokenKey key.

Definition token_same_key (a b : TokenKey) : bool := bool_decide (token_key a = token_key b).

(** The message [feed] gives the MAC: family, address, timestamp, ODCID with its
    length. *)
Definition feed (client : IpAddr) (ts odcid : list byte) : list byte :=
  (match client with
   | V4 o => 4%u8 :: o
   | V6 o => 6%u8 :: o
   end) ++ ts ++ [b8 (len odcid)] ++ odcid.

Section token.
  Context `{H : Hmac}.

Definition mint (k : TokenKey) (client : IpAddr) (odcid : list byte) (now_ms : Z)
    : rs (result (list byte) MintError) :=
  if MAX_ODCID <? len odcid then Done (Err OdcidTooLong)
  else
    let ts := be_bytes 8 now_ms in
    let* out := copy_to (zeros TOKEN_LEN) 0 TS_LEN ts in
    let full := hmac_sha256 (token_key k) (feed client ts odcid) in
    let* tag := slice full 0 MAC_LEN in
    let* out := copy_to out TS_LEN (len out) tag in
    Done (Ok out).

(** [verify_truncated_left]: the tag is a nonempty prefix of the MAC. *)
Definition verify_truncated_left (full tag : list byte) : bool :=
  negb (len tag =? 0) && (len tag <=? len full) &&
  bool_decide (take (length tag) full = tag).

Definition verify (k : TokenKey) (tok : list byte) (client : IpAddr) (odcid : list byte)
    (now_ms lifetime_ms : Z) : rs (result unit VerifyError) :=
  if negb (len tok =? TOKEN_LEN) || (MAX_ODCID <? len odcid) then Done (Err Invalid)
  else
    let* t := slice tok 0 TS_LEN in
    let* ts_bytes := copy_to (zeros TS_LEN) 0 TS_LEN t in
    let ts_ms := be_val ts_bytes in
    let full := hmac_sha256 (token_key k) (feed client ts_bytes odcid) in
    let* tag := slice_from tok TS_LEN in
    if negb (verify_truncated_left full tag) then Done (Err Invalid)
    else if now_ms <? ts_ms then Done (Err Invalid)
    else if lifetime_ms <? now_ms - ts_ms then Done (Err Expired)
    else Done (Ok tt).

(** ** Lemmas *)

(** The token of a timestamp: the timestamp and the truncated MAC. *)
Definition token_of (k : TokenKey) (client : IpAddr) (odcid ts : list byte) : list byte :=
  ts ++ take 16 (hmac_sha256 (token_key k) (feed client ts odcid)).

Context `{!HmacLaws}.

Lemma copy_all (l src : list byte) n : len l = n -> len src = n -> copy_to l 0 n src = Done src.
Proof.
  intros Hl Hs. rewrite copy_to_in by (pose_len; lia).
  rewrite splice_0, drop_ge by (unfold len in *; lia). by rewrite app_nil_r.
Qed.

Lemma mint_spec k client odcid now :
  len odcid <= 20 -> mint k client odcid now = Done (Ok (token_of k client odcid (be_bytes 8 now))).
Proof.
  intros Ho. unfold mint, token_of, MAX_ODCID, TOKEN_LEN, TS_LEN, MAC_LEN.
  case_goal; [lia|]. set (ts := be_bytes 8 now).
  assert (Ht : len ts = 8) by apply len_be_bytes.
  pose proof (len_hmac (token_key k) (feed client ts odcid)) as Hm.
  rewrite copy_to_in by (rewrite ?len_zeros; lia).
  assert (Hz : splice (zeros (8 + 16)) 0 ts = ts ++ zeros 16).
  { by rewrite splice_0. }
  rewrite Hz, slice_in by lia. unfold sub. cbn [Z.sub Z.to_nat]. rewrite drop_0.
  change (Pos.to_nat 16) with 16%nat.
  rewrite len_app, len_zeros, Ht by lia.
  rewrite copy_to_in by (rewrite ?len_app, ?len_zeros, ?len_take; lia).
  rewrite <- (app_nil_r (zeros 16)), splice_app_mid, app_nil_r; [done|lia|].
  unfold zeros. rewrite length_replicate, length_take. unfold len in Hm. lia.
Qed.

Lemma verify_spec k tok client odcid now life :
  verify k tok client odcid now life =
  Done (if negb (len tok =? 24) || (20 <? len odcid) then Err Invalid
        else
          let ts := sub tok 0 8 in
          if bool_decide (tok = token_of k client odcid ts) then
            if now <? be_val ts then Err Invalid
            else if life <? now - be_val ts then Err Expired else Ok tt
          else Err Invalid).
Proof.
  unfold verify, TOKEN_LEN, TS_LEN, MAC_LEN, MAX_ODCID. change (8 + 16) with 24.
  case_goal; [done|]. rewrite slice_in by lia.
  assert (Ht : len (sub tok 0 8) = 8) by (rewrite len_sub; lia).
  rewrite copy_all by (rewrite ?len_zeros; (done || lia)).
  rewrite slice_from_in by lia. set (ts := sub tok 0 8) in *.
  pose proof (len_hmac (token_key k) (feed client ts odcid)) as Hm.
  assert (Htag : len (sub tok 8 (len tok)) = 16) by (rewrite len_sub; lia).
  assert (Htok : tok = ts ++ sub tok 8 (len tok)) by (apply sub_head_tail; lia).
  unfold verify_truncated_left. rewrite Htag, Hm. cbn [Z.eqb Z.leb Z.compare Pos.compare negb andb].
  replace (length (sub tok 8 (len tok))) with 16%nat by (unfold len in Htag at 1; lia).
  change (negb (16 =? 0) && (16 <=? 32)) with true. cbn [andb].
  destruct (bool_decide (take 16 _ = _)) eqn:E1; bools.
  - rewrite bool_decide_eq_true_2; [by repeat case_goal|]. unfold token_of. by rewrite E1.
  - rewrite bool_decide_eq_false_2; [done|]. unfold token_of. intros Heq. apply E1.
    rewrite Htok in Heq at 1. by apply app_inv_head in Heq.
Qed.

Lemma token_of_ts k client odcid ts : len ts = 8 -> sub (token_of k client odcid ts) 0 8 = ts.
Proof. intros. unfold token_of. by rewrite sub_app_l, sub_full by lia. Qed.

Lemma len_token_of k client odcid ts : len ts = 8 -> len (token_of k client odcid ts) = 24.
Proof.
  intros. unfold token_of. rewrite len_app, len_take, (len_hmac (token_key k)). lia.
Qed.

(** The accepted tokens are the ones [mint] issues inside the lifetime. *)
Lemma verify_minted k tok client odcid now life :
  verify k tok client odcid now life = Done (Ok tt) <->
  exists ts, 0 <= ts < 2 ^ 64 /\ now - life <= ts <= now /\
    mint k client odcid ts = Done (Ok tok).
Proof.
  rewrite verify_spec. split.
  - case_goal; [done|]. cbv zeta. case_goal; [|done]. bools. repeat case_goal; try done. intros _.
    exists (be_val (sub tok 0 8)). pose proof (be_val_range (sub tok 0 8)) as Hr.
    assert (Hl : len (sub tok 0 8) = 8) by (rewrite len_sub; lia). rewrite Hl in Hr.
    split; [done|]. split; [lia|]. rewrite mint_spec by lia.
    assert (be_bytes 8 (be_val (sub tok 0 8)) = sub tok 0 8) as ->; [|by do 2 f_equal].
    replace 8%nat with (length (sub tok 0 8)) by (unfold len in Hl; lia). apply be_bytes_be_val.
  - intros (ts & Hts & Hw & Hm). destruct (decide (len odcid <= 20)) as [Ho|Ho].
    + rewrite mint_spec in Hm by done.
      assert (tok = token_of k client odcid (be_bytes 8 ts)) as -> by congruence. clear Hm.
      assert (Hl : len (be_bytes 8 ts) = 8) by apply len_be_bytes.
      rewrite len_token_of by done. cbv zeta. rewrite token_of_ts by done.
      case_goal; [lia|]. rewrite bool_decide_eq_true_2 by done.
      rewrite be_val_be_bytes, Z.mod_small by done. by repeat case_goal; try lia.
    + revert Hm. unfold mint, MAX_ODCID. by case_goal; [|lia].
Qed.

End token.

(** ** Properties *)

(** C3.  Verification accepts exactly the tokens minted for the same client
    address and ODCID, under the same key, at a time inside the lifetime: a
    timestamp from [now - lifetime] to [now]. *)
Theorem verify_iff_minted `{HmacLaws} (k : TokenKey) (tok : list byte) (client : IpAddr)
    (odcid : list byte) (now life : Z) :
  verify k tok client odcid now life = Done (Ok tt) <->
  exists ts, 0 <= ts < 2 ^ 64 /\ now - life <= ts <= now /\
    mint k client odcid ts = Done (Ok tok).
Proof. apply verify_minted. Qed.

(** The life of a minted token: accepted from the instant it was minted
    to the end of the lifetime, then expired, and invalid before. *)
Theorem token_lifetime `{HmacLaws} (k : TokenKey) (client : IpAddr) (odcid : list byte)
    (ts now life : Z) :
  len odcid <= 20 -> 0 <= ts < 2 ^ 64 ->
  exists tok, mint k client odcid ts = Done (Ok tok) /\ len tok = TOKEN_LEN /\
    verify k tok client odcid now life =
    Done (if now <? ts then Err Invalid else if life <? now - ts then Err Expired else Ok tt).
Proof.
  intros Ho Hts. eexists. split; [by apply mint_spec|].
  assert (Hl : len (be_bytes 8 ts) = 8) by apply len_be_bytes.
  split; [by rewrite len_token_of|]. rewrite verify_spec, len_token_of by done. cbv zeta.
  rewrite token_of_ts by done. case_goal; [lia|]. rewrite bool_decide_eq_true_2 by done.
  by rewrite be_val_be_bytes, Z.mod_small by done.
Qed.


(** A keyed checksum with the length of a digest. *)
#[local] Instance sum_hmac : Hmac := fun key msg => be_bytes 32 (be_val (key ++ msg) * 2 ^ 128 + be_val msg).

#[local] Instance sum_hmac_laws : HmacLaws.
Proof. intros key msg. apply len_be_bytes. Qed.

Definition example_token : list byte :=
  match mint (mkTokenKey (zeros 32)) (V4 [192; 0; 2; 1]%u8) [1; 2; 3]%u8 1000 with
  | Done (Ok t) => t
  | _ => []
  end.

Lemma token_lifetime_witness :
  exists tok, mint (mkTokenKey (zeros 32)) (V4 [192; 0; 2; 1]%u8) [1; 2; 3]%u8 1000 = Done (Ok tok) /\
    verify (mkTokenKey (zeros 32)) tok (V4 [192; 0; 2; 1]%u8) [1; 2; 3]%u8 7000 5000
    = Done (Err Expired).
Proof.
  destruct (token_lifetime (mkTokenKey (zeros 32)) (V4 [192; 0; 2; 1]%u8) [1; 2; 3]%u8 1000 7000 5000)
    as (tok & Hm & _ & Hv); [vm_compute; discriminate|lia|].
  exists tok. split; [exact Hm|exact Hv].
Defined.

Lemma verify_iff_minted_witness :
  verify (mkTokenKey (zeros 32)) example_token (V4 [192; 0; 2; 1]%u8) [1; 2; 3]%u8 3000 5000
  = Done (Ok tt).
Proof.
  apply (verify_iff_minted (mkTokenKey (zeros 32)) example_token (V4 [192; 0; 2; 1]%u8)
           [1; 2; 3]%u8 3000 5000).
  exists 1000. split; [lia|]. split; [lia|]. vm_compute. reflexivity.
Defined.

(** What the MAC covers is unambiguous: the message determines the address
    family, the address, the timestamp and the ODCID, so a token for one client
    and connection is a token for another only if the MAC collides. *)
Theorem feed_injective (c1 c2 : IpAddr) (ts1 ts2 o1 o2 : list byte) :
  ip_wf c1 -> ip_wf c2 -> len ts1 = 8 -> len ts2 = 8 -> len o1 <= 20 -> len o2 <= 20 ->
  feed c1 ts1 o1 = feed c2 ts2 o2 -> c1 = c2 /\ ts1 = ts2 /\ o1 = o2.
Proof.
  intros Hc1 Hc2 H1 H2 Hl1 Hl2 Heq. unfold feed in Heq.
  assert (Hts : length ts1 = length ts2) by (unfold len in *; lia).
  destruct c1 as [a1|a1], c2 as [a2|a2]; simpl in Hc1, Hc2; try discriminate;
    apply (app_inj_1 (_ :: a1) (_ :: a2)) in Heq as [[= ->] Heq]; try (simpl; congruence);
    apply app_inj_1 in Heq as [-> [= _ ->]]; done.
Qed.

Lemma feed_injective_witness :
  feed (V4 [1; 2; 3; 4]%u8) (zeros 8) [5]%u8 <> feed (V4 [1; 2; 3; 4]%u8) (zeros 8) [5; 6]%u8.
Proof.
  intros E. destruct (feed_injective (V4 [1; 2; 3; 4]%u8) (V4 [1; 2; 3; 4]%u8) (zeros 8) (zeros 8)
    [5]%u8 [5; 6]%u8) as (_ & _ & Ho);
    [reflexivity..|vm_compute; discriminate|vm_compute; discriminate|exact E|discriminate Ho].
Defined.
