(* ===== verification/LoadRate.v ===== *)
(** * The Initial-rate tracker

    Models [pesigitg-daemon/src/retry/load.rs].  The tracker is shared by the
    workers without a lock, so [record_batch] is modelled twice: as a function,
    and as the sequence of its atomic operations interleaved with those of other
    workers (one step per operation, in any order between threads).  The
    function is what one worker running alone does; the interleavings neither
    lose nor double-count an Initial, and rotate a window once. *)

From stdpp Require Import relations.
From S2P Require Import Prelude Std.

Record LoadRateTracker := mkTracker {
  window_sec : Z;
  window_count : Z;
  last_rate : Z;
}.

Definition tracker_new : LoadRateTracker := mkTracker 0 0 0.

Definition rate (t : LoadRateTracker) : Z := last_rate t.

(** [record_batch] by a worker that is not interrupted. *)
Definition record_batch (t : LoadRateTracker) (count now_ms : Z) : LoadRateTracker :=
  let now_sec := now_ms / 1000 in
  let t := if negb (now_sec =? window_sec t)
           then mkTracker now_sec 0 (window_count t) else t in
  if 0 <? count
  then mkTracker (window_sec t) (wrap64 (window_count t + count)) (last_rate t) else t.

(** ** Interleaved execution *)

(** Where a worker is inside [record_batch]. *)
Inductive pc :=
| LoadSec               (* about to load [window_sec] *)
| Cas (cur : Z)         (* about to compare and exchange it *)
| Swap                  (* won: about to take the window count *)
| Publish (prev : Z)    (* about to store it as the last rate *)
| Add                   (* about to add the batch's count *)
| Finished.

Record thread := mkThread {
  th_count : Z;
  th_sec : Z;
  th_pc : pc;
}.

(** What a step did to [window_count]. *)
Inductive label :=
| Tau
| Took (v : Z)
| Added (v : Z).

Definition goto (th : thread) (p : pc) : thread := mkThread (th_count th) (th_sec th) p.

Inductive tstep : LoadRateTracker -> thread -> label -> LoadRateTracker -> thread -> Prop :=
| step_load_same t th :
    th_pc th = LoadSec -> th_sec th = window_sec t -> tstep t th Tau t (goto th Add)
| step_load_new t th :
    th_pc th = LoadSec -> th_sec th <> window_sec t -> tstep t th Tau t (goto th (Cas (window_sec t)))
| step_cas_ok t th cur :
    th_pc th = Cas cur -> window_sec t = cur ->
    tstep t th Tau (mkTracker (th_sec th) (window_count t) (last_rate t)) (goto th Swap)
| step_cas_fail t th cur :
    th_pc th = Cas cur -> window_sec t <> cur -> tstep t th Tau t (goto th Add)
| step_swap t th :
    th_pc th = Swap ->
    tstep t th (Took (window_count t)) (mkTracker (window_sec t) 0 (last_rate t))
      (goto th (Publish (window_count t)))
| step_publish t th prev :
    th_pc th = Publish prev ->
    tstep t th Tau (mkTracker (window_sec t) (window_count t) prev) (goto th Add)
| step_add t th :
    th_pc th = Add -> 0 < th_count th ->
    tstep t th (Added (th_count th))
      (mkTracker (window_sec t) (wrap64 (window_count t + th_count th)) (last_rate t))
      (goto th Finished)
| step_add_none t th :
    th_pc th = Add -> th_count th <= 0 -> tstep t th Tau t (goto th Finished).

(** Any thread may take the next step. *)
Inductive steps : LoadRateTracker -> list thread -> list label -> LoadRateTracker -> list thread -> Prop :=
| steps_nil t ths : steps t ths [] t ths
| steps_snoc t ths tr t1 ths1 i th l t2 th2 :
    steps t ths tr t1 ths1 -> ths1 !! i = Some th -> tstep t1 th l t2 th2 ->
    steps t ths (tr ++ [l]) t2 (<[i := th2]> ths1).

Definition added (l : label) : Z := match l with Added v => v | _ => 0 end.
Definition took (l : label) : Z := match l with Took v => v | _ => 0 end.
Definition is_took (l : label) : Z := match l with Took _ => 1 | _ => 0 end.

(** ** Lemmas *)

Lemma wrap64_add_l a b : wrap64 (wrap64 a + b) = wrap64 (a + b).
Proof. unfold wrap64. apply Zplus_mod_idemp_l. Qed.

(** Conservation along a trace: what was added is in the window or was taken. *)
Lemma steps_conserve t ths tr t' ths' :
  steps t ths tr t' ths' ->
  wrap64 (window_count t + zsum added tr) = wrap64 (window_count t' + zsum took tr).
Proof.
  induction 1 as [|t ths tr t1 ths1 i th l t2 th2 Hs IH Hi Hstep]; [done|].
  rewrite !zsum_app. inversion Hstep; subst; simpl; rewrite ?Z.add_0_r, ?Z.add_0_l; try done.
  - rewrite IH. f_equal. lia.
  - rewrite Z.add_assoc, <- wrap64_add_l, IH, wrap64_add_l, wrap64_add_l. f_equal. lia.
Qed.

(** A thread's own contribution: nothing before its last step. *)
Definition done_count (th : thread) : Z :=
  match th_pc th with Finished => Z.max 0 (th_count th) | _ => 0 end.

Lemma tstep_done t th l t2 th2 :
  tstep t th l t2 th2 -> done_count th2 = done_count th + added l.
Proof.
  intros Hstep.
  inversion Hstep as [? ? Hp|? ? Hp|? ? ? Hp|? ? ? Hp|? ? Hp|? ? ? Hp|? ? Hp|? ? Hp]; subst;
    unfold done_count, goto; simpl; rewrite Hp; simpl in *; lia.
Qed.

Lemma steps_added t ths tr t' ths' :
  steps t ths tr t' ths' -> zsum done_count ths + zsum added tr = zsum done_count ths'.
Proof.
  induction 1 as [|t ths tr t1 ths1 i th l t2 th2 Hs IH Hi Hstep]; [apply Z.add_0_r|].
  rewrite zsum_app, (zsum_insert _ _ _ _ _ Hi), (tstep_done _ _ _ _ _ Hstep).
  change (zsum added [l]) with (added l + 0). lia.
Qed.

Lemma steps_counts t ths tr t' ths' :
  steps t ths tr t' ths' -> map th_count ths' = map th_count ths.
Proof.
  induction 1 as [|t ths tr t1 ths1 i th l t2 th2 Hs IH Hi Hstep]; [done|].
  rewrite <- IH, list_fmap_insert. apply list_insert_id.
  rewrite list_lookup_fmap, Hi. simpl. by inversion Hstep.
Qed.

(** *** One rotation per second *)

Definition winner (th : thread) : Z := match th_pc th with Swap => 1 | _ => 0 end.

(** All workers see second [n]; the window is still [c] or already [n], and it is
    [n] once a worker is past the exchange. *)
Definition past_exchange (p : pc) : bool := match p with LoadSec | Cas _ => false | _ => true end.

Definition rotation_ok (c n sec : Z) (th : thread) : Prop :=
  th_sec th = n /\ (forall cur, th_pc th = Cas cur -> cur = c) /\
  (past_exchange (th_pc th) = true -> sec = n).

Definition rotation_inv (c n : Z) (t : LoadRateTracker) (ths : list thread) (tr : list label) : Prop :=
  Forall (rotation_ok c n (window_sec t)) ths /\
  ((window_sec t = c /\ zsum winner ths + zsum is_took tr = 0) \/
   (window_sec t = n /\ zsum winner ths + zsum is_took tr = 1)).

Lemma rotation_ok_step c n t th l t2 th2 :
  rotation_ok c n (window_sec t) th -> window_sec t = c \/ window_sec t = n ->
  tstep t th l t2 th2 ->
  rotation_ok c n (window_sec t2) th2 /\ (window_sec t2 = window_sec t \/ window_sec t2 = n).
Proof.
  intros (Hs & Hcas & Hpast) Hw Hstep. unfold rotation_ok.
  inversion Hstep as [? ? Hp|? ? Hp|? ? cur Hp|? ? cur Hp|? ? Hp|? ? ? Hp|? ? Hp|? ? Hp]; subst;
    rewrite Hp in *; cbn [goto th_sec th_pc window_sec past_exchange] in *;
    (split; [split; [done|split]|by auto]); try (intros ? [= <-]); try done; try by auto.
  - destruct Hw as [?|?]; [done|]. congruence.
  - intros _. rewrite (Hcas cur) in * by done. destruct Hw; [done|congruence].
Qed.

Lemma rotation_step c n t ths tr i th l t2 th2 :
  c <> n -> rotation_inv c n t ths tr -> ths !! i = Some th -> tstep t th l t2 th2 ->
  rotation_inv c n t2 (<[i := th2]> ths) (tr ++ [l]).
Proof.
  intros Hcn [Hall Hw] Hi Hstep. pose proof Hall as Hall'. rewrite Forall_lookup in Hall'.
  pose proof (Hall' _ _ Hi) as Hok.
  destruct (rotation_ok_step c n t th l t2 th2 Hok) as [H2 Hsec]; [by destruct Hw as [[]|[]]; auto|done|].
  split.
  - apply Forall_insert; [|done]. rewrite Forall_lookup. intros j th' (? & ? & Hpast)%Hall'.
    split; [done|split; [done|]]. intros Hp%Hpast. destruct Hsec; congruence.
  - destruct Hok as (Hs & Hcas & _). rewrite zsum_app, (zsum_insert _ _ _ _ _ Hi).
    change (zsum is_took [l]) with (is_took l + 0).
    assert (winner th = match th_pc th with Swap => 1 | _ => 0 end) as -> by done.
    inversion Hstep as [? ? Hp|? ? Hp|? ? cur Hp|? ? ? Hp|? ? Hp|? ? ? Hp|? ? Hp|? ? Hp]; subst;
      rewrite Hp in *; try (specialize (Hcas _ eq_refl); subst);
      cbn [goto winner th_pc is_took window_sec] in *;
      destruct Hw as [[? ?]|[? ?]]; first [lia | left; lia | right; lia].
Qed.

Lemma steps_rotation c n t ths tr t' ths' :
  c <> n -> rotation_inv c n t ths [] -> steps t ths tr t' ths' -> rotation_inv c n t' ths' tr.
Proof.
  intros Hcn Hinit Hs. induction Hs; [done|]. eapply rotation_step; eauto.
Qed.

Lemma zsum_is_took_nonneg tr : 0 <= zsum is_took tr.
Proof. apply zsum_nonneg. by intros []. Qed.

Lemma zsum_winner_nonneg ths : 0 <= zsum winner ths.
Proof. apply zsum_nonneg. intros [? ? []]; unfold winner; simpl; lia. Qed.

(** What was taken is being published or has been. *)
Definition publish_inv (t : LoadRateTracker) (ths : list thread) (tr : list label) : Prop :=
  (zsum is_took tr = 0 -> zsum took tr = 0 /\
     Forall (fun th => forall prev, th_pc th <> Publish prev) ths) /\
  (zsum is_took tr = 1 ->
     Forall (fun th => forall prev, th_pc th = Publish prev -> prev = zsum took tr) ths /\
     ((exists i th, ths !! i = Some th /\ th_pc th = Publish (zsum took tr)) \/
      last_rate t = zsum took tr)).

Lemma publish_step t ths tr i th l t2 th2 :
  zsum is_took (tr ++ [l]) <= 1 -> publish_inv t ths tr -> ths !! i = Some th ->
  tstep t th l t2 th2 -> publish_inv t2 (<[i := th2]> ths) (tr ++ [l]).
Proof.
  intros Hle [H0 H1] Hi Hstep. pose proof (zsum_is_took_nonneg tr).
  assert (Hlt : (i < length ths)%nat) by by eapply lookup_lt_Some.
  unfold publish_inv. rewrite !zsum_app in *.
  change (zsum is_took [l]) with (is_took l + 0) in *. change (zsum took [l]) with (took l + 0) in *.
  destruct l as [|v|v]; cbn [is_took took] in *; rewrite ?Z.add_0_r in *.
  - split.
    + intros [Ht Hf]%H0. split; [done|]. apply Forall_insert; [done|].
      inversion Hstep; subst; simpl; done.
    + intros [Hf Hex]%H1. split.
      * apply Forall_insert; [done|]. inversion Hstep; subst; simpl; done.
      * destruct Hex as [(j & th' & Hj & Hp)|Hr].
        -- destruct (decide (i = j)) as [->|Hne].
           ++ rewrite Hi in Hj. injection Hj as ->. right.
              inversion Hstep; subst; simpl; congruence.
           ++ left. exists j, th'. by rewrite list_lookup_insert_ne.
        -- right. rewrite Forall_lookup in Hf. specialize (Hf _ _ Hi).
           inversion Hstep; subst; simpl; eauto.
  - assert (Hz : zsum is_took tr = 0) by lia. destruct (H0 Hz) as [Ht Hf]. split; [lia|].
    intros _. rewrite Ht, Z.add_0_l. inversion Hstep; subst. split.
    + apply Forall_insert; [|simpl; by intros ? [= <-]].
      rewrite Forall_lookup in Hf |- *. intros j th' Hj prev Hp. by destruct (Hf _ _ Hj prev).
    + left. exists i, (goto th (Publish (window_count t))). by rewrite list_lookup_insert_eq.
  - inversion Hstep; subst. split.
    + intros [Ht Hf]%H0. split; [done|]. by apply Forall_insert.
    + intros [Hf Hex]%H1. split; [by apply Forall_insert|]. destruct Hex as [(j & th' & Hj & Hp)|Hr].
      * left. exists j, th'. split; [|done]. rewrite list_lookup_insert_ne; [done|].
        intros ->. congruence.
      * by right.
Qed.

Lemma steps_publish c n t ths tr t' ths' :
  c <> n -> rotation_inv c n t ths [] -> Forall (fun th => th_pc th = LoadSec) ths ->
  steps t ths tr t' ths' -> publish_inv t' ths' tr.
Proof.
  intros Hcn Hinit H0 Hs. induction Hs as [|t ths tr t1 ths1 i th l t2 th2 Hs IH Hi Hstep].
  - split; [|done]. intros _. split; [done|]. eapply List.Forall_impl; [|exact H0].
    intros th Hp. by rewrite Hp.
  - eapply publish_step; eauto.
    assert (Hr : rotation_inv c n t2 (<[i := th2]> ths1) (tr ++ [l])).
    { eapply steps_rotation; [done|done|]. by econstructor. }
    destruct Hr as [_ Hw]. pose proof (zsum_winner_nonneg (<[i := th2]> ths1)). lia.
Qed.

(** *** One worker alone *)

(** The tracker after a worker at its point of the program has finished. *)
Definition finish_add (t : LoadRateTracker) (c : Z) : LoadRateTracker :=
  if 0 <? c then mkTracker (window_sec t) (wrap64 (window_count t + c)) (last_rate t) else t.

Definition finish (t : LoadRateTracker) (th : thread) : LoadRateTracker :=
  let c := th_count th in
  match th_pc th with
  | LoadSec =>
      finish_add (if th_sec th =? window_sec t then t
                  else mkTracker (th_sec th) 0 (window_count t)) c
  | Cas cur =>
      finish_add (if window_sec t =? cur then mkTracker (th_sec th) 0 (window_count t) else t) c
  | Swap => finish_add (mkTracker (window_sec t) 0 (window_count t)) c
  | Publish prev => finish_add (mkTracker (window_sec t) (window_count t) prev) c
  | Add => finish_add t c
  | Finished => t
  end.

Lemma finish_step t th l t2 th2 : tstep t th l t2 th2 -> finish t2 th2 = finish t th.
Proof.
  destruct 1 as [? ? Hp|? ? Hp|? ? ? Hp|? ? ? Hp|? ? Hp|? ? ? Hp|? ? Hp|? ? Hp];
    unfold finish, finish_add; rewrite Hp; simpl; subst; repeat case_goal; try done; try lia.
Qed.

Lemma alone_finish t th tr t' ths' :
  steps t [th] tr t' ths' -> exists th', ths' = [th'] /\ finish t' th' = finish t th.
Proof.
  remember [th] as ths eqn:Eths.
  induction 1 as [|t ths tr t1 ths1 i th1 l t2 th2 Hs IH Hi Hstep]; subst; [eauto|].
  destruct IH as (th' & -> & Hf); [done|].
  destruct i as [|i]; [|done]. injection Hi as ->. exists th2. split; [done|].
  by rewrite (finish_step _ _ _ _ _ Hstep).
Qed.

(** *** Progress *)

Definition pc_left (p : pc) : Z :=
  match p with LoadSec => 5 | Cas _ => 4 | Swap => 3 | Publish _ => 2 | Add => 1 | Finished => 0 end.

Definition steps_left (th : thread) : Z := pc_left (th_pc th).

Lemma steps_left_bound t ths tr t' ths' :
  steps t ths tr t' ths' -> len tr + zsum steps_left ths' <= zsum steps_left ths.
Proof.
  induction 1 as [|t ths tr t1 ths1 i th l t2 th2 Hs IH Hi Hstep]; [rewrite len_nil; lia|].
  rewrite len_app, (zsum_insert _ _ _ _ _ Hi). change (len [l]) with 1.
  assert (steps_left th2 + 1 <= steps_left th).
  { unfold steps_left. inversion Hstep as [? ? Hp|? ? Hp|? ? ? Hp|? ? ? Hp|? ? Hp|? ? ? Hp|? ? Hp|? ? Hp];
      subst; rewrite Hp; simpl; lia. }
  lia.
Qed.

Lemma tstep_progress t th : th_pc th <> Finished -> exists l t2 th2, tstep t th l t2 th2.
Proof.
  intros Hp. destruct (th_pc th) as [|cur| |prev| |] eqn:E; [..|done].
  - destruct (decide (th_sec th = window_sec t)); eauto using tstep.
  - destruct (decide (window_sec t = cur)); eauto using tstep.
  - eauto using tstep.
  - eauto using tstep.
  - destruct (decide (0 < th_count th)); [eauto using tstep|].
    do 3 eexists. apply step_add_none; [done|lia].
Qed.

Lemma Forall_same_map {A B} (f : A -> B) (P : B -> Prop) l k :
  map f k = map f l -> Forall (fun x => P (f x)) l -> Forall (fun x => P (f x)) k.
Proof.
  revert k. induction l as [|x l IH]; intros [|y k]; try done. intros [= Hy Hk] Hl.
  inversion Hl; subst. constructor; [by rewrite Hy|]. by apply IH.
Qed.

(** ** Properties *)

Definition all_at (p : pc) (ths : list thread) : Prop := Forall (fun th => th_pc th = p) ths.

(** C32.  No Initial is lost or counted twice: when all the workers that entered
    [record_batch] have left it, in whatever order their atomic operations
    were interleaved, the counts they brought plus the old window equal the
    current window plus all the windows that were taken out. *)
Theorem load_no_loss (t t' : LoadRateTracker) (ths ths' : list thread) (tr : list label) :
  Forall (fun th => 0 <= th_count th) ths -> all_at LoadSec ths -> all_at Finished ths' ->
  steps t ths tr t' ths' ->
  wrap64 (window_count t + zsum th_count ths) = wrap64 (window_count t' + zsum took tr).
Proof.
  intros Hpos H0 H1 Hs. rewrite <- (steps_conserve _ _ _ _ _ Hs). do 2 f_equal.
  pose proof (steps_added _ _ _ _ _ Hs) as Ha.
  rewrite zsum_const0 in Ha
    by (eapply List.Forall_impl; [|exact H0]; intros th Hp; unfold done_count; by rewrite Hp).
  rewrite Z.add_0_l in Ha. rewrite Ha. pose proof (steps_counts _ _ _ _ _ Hs) as Hc.
  assert (Hsum : forall l : list thread, zsum th_count l = zsum (fun z => z) (map th_count l)).
  { intros l. unfold zsum. induction l as [|x l IH]; simpl; [done|by rewrite IH]. }
  rewrite Hsum, <- Hc, <- Hsum. apply zsum_ext.
  pose proof (Forall_same_map th_count (Z.le 0) ths ths' Hc Hpos) as Hpos'.
  rewrite Forall_lookup in *. intros i th Hth. specialize (Hpos' _ _ Hth).
  unfold all_at in H1. rewrite Forall_lookup in H1. unfold done_count. rewrite (H1 _ _ Hth). lia.
Qed.

(** Rotation: when the workers that see a new second have all left
    [record_batch], exactly one of them has taken the old window, the tracker
    is at the new second, and the count it took is the published rate. *)
Theorem load_single_rotation (n : Z) (t t' : LoadRateTracker) (ths ths' : list thread)
    (tr : list label) :
  ths <> [] -> window_sec t <> n -> Forall (fun th => th_sec th = n) ths ->
  all_at LoadSec ths -> all_at Finished ths' -> steps t ths tr t' ths' ->
  window_sec t' = n /\ zsum is_took tr = 1 /\ last_rate t' = zsum took tr.
Proof.
  intros Hne Hsec Hn H0 H1 Hs.
  assert (Hinit : rotation_inv (window_sec t) n t ths []).
  { unfold all_at in H0. rewrite Forall_lookup in *. split.
    - rewrite Forall_lookup. intros i th Hi. split; [by eapply Hn|]. by rewrite (H0 _ _ Hi).
    - left. split; [done|]. rewrite zsum_const0; [done|]. rewrite Forall_lookup. intros i th Hi.
      unfold winner. by rewrite (H0 _ _ Hi). }
  assert (Hrot : rotation_inv (window_sec t) n t' ths' tr) by by eapply steps_rotation.
  assert (Hpub : publish_inv t' ths' tr) by by eapply steps_publish.
  assert (Hfin : window_sec t' = n).
  { destruct ths' as [|th ths']; [apply steps_counts in Hs; by destruct ths|].
    destruct Hrot as [Hall _]. inversion Hall as [|? ? (_ & _ & Hpast)]; subst.
    inversion H1 as [|? ? Hp]; subst. apply Hpast. by rewrite Hp. }
  assert (Hw0 : zsum winner ths' = 0).
  { apply zsum_const0. eapply List.Forall_impl; [|exact H1]. intros th Hp. unfold winner.
    by rewrite Hp. }
  destruct Hrot as [_ [[? ?]|[_ Hc]]]; [congruence|]. rewrite Hw0 in Hc.
  split; [done|]. split; [lia|]. destruct Hpub as [_ Hpub].
  destruct Hpub as [_ [(i & th & Hi & Hp)|?]]; [lia| |done].
  unfold all_at in H1. rewrite Forall_lookup in H1. rewrite (H1 _ _ Hi) in Hp. done.
Qed.
(** A worker that runs alone performs [record_batch], whatever steps it
    takes: it can always take one until it has finished, it finishes within five
    steps, and the tracker it leaves is the one the function computes. *)
Theorem record_batch_alone (t : LoadRateTracker) (count now_ms : Z) (tr : list label)
    (t' : LoadRateTracker) (ths' : list thread) :
  steps t [mkThread count (now_ms / 1000) LoadSec] tr t' ths' ->
  len tr <= 5 /\ exists th', ths' = [th'] /\
    (th_pc th' = Finished -> t' = record_batch t count now_ms) /\
    (th_pc th' <> Finished -> exists l t2 th2, tstep t' th' l t2 th2).
Proof.
  intros Hs. split.
  - pose proof (steps_left_bound _ _ _ _ _ Hs) as Hb. change (zsum steps_left [_]) with 5 in Hb.
    assert (0 <= zsum steps_left ths') by (apply zsum_nonneg; intros [? ? []]; unfold steps_left; simpl; lia).
    lia.
  - destruct (alone_finish _ _ _ _ _ Hs) as (th' & -> & Hf). exists th'. split; [done|].
    split; [|apply tstep_progress]. intros Hp. unfold finish in Hf. rewrite Hp in Hf. simpl in Hf.
    rewrite Hf. unfold record_batch, finish_add. by destruct (now_ms / 1000 =? window_sec t).
Qed.


(** Two workers see second 7 while the tracker is at second 6: the second one
    loads before the first one's exchange and loses. *)
Definition two_workers : list thread := [mkThread 3 7 LoadSec; mkThread 4 7 LoadSec].

Definition two_trace : list label := [Tau; Tau; Tau; Took 10; Tau; Tau; Added 4; Added 3].

Lemma two_workers_run :
  steps (mkTracker 6 10 1) two_workers two_trace (mkTracker 7 7 10)
    [mkThread 3 7 Finished; mkThread 4 7 Finished].
Proof.
  change two_trace with
    (((((((([] ++ [Tau]) ++ [Tau]) ++ [Tau]) ++ [Took 10]) ++ [Tau]) ++ [Tau]) ++ [Added 4]) ++ [Added 3]).
  eapply (steps_snoc _ _ _ (mkTracker 7 4 10) [mkThread 3 7 Add; mkThread 4 7 Finished] 0);
    [|reflexivity|by apply step_add].
  eapply (steps_snoc _ _ _ (mkTracker 7 0 10) [mkThread 3 7 Add; mkThread 4 7 Add] 1);
    [|reflexivity|by apply step_add].
  eapply (steps_snoc _ _ _ (mkTracker 7 0 1) [mkThread 3 7 (Publish 10); mkThread 4 7 Add] 0);
    [|reflexivity|by apply step_publish].
  eapply (steps_snoc _ _ _ (mkTracker 7 0 1) [mkThread 3 7 (Publish 10); mkThread 4 7 (Cas 6)] 1);
    [|reflexivity|by eapply step_cas_fail].
  eapply (steps_snoc _ _ _ (mkTracker 7 10 1) [mkThread 3 7 Swap; mkThread 4 7 (Cas 6)] 0);
    [|reflexivity|by apply step_swap].
  eapply (steps_snoc _ _ _ (mkTracker 6 10 1) [mkThread 3 7 (Cas 6); mkThread 4 7 (Cas 6)] 0);
    [|reflexivity|by eapply step_cas_ok].
  eapply (steps_snoc _ _ _ (mkTracker 6 10 1) [mkThread 3 7 (Cas 6); mkThread 4 7 LoadSec] 1);
    [|reflexivity|by apply step_load_new].
  eapply (steps_snoc _ _ _ (mkTracker 6 10 1) two_workers 0);
    [constructor|reflexivity|by apply step_load_new].
Qed.

Lemma load_no_loss_witness : wrap64 (10 + 7) = wrap64 (7 + zsum took two_trace).
Proof.
  apply (load_no_loss (mkTracker 6 10 1) (mkTracker 7 7 10) two_workers
           [mkThread 3 7 Finished; mkThread 4 7 Finished] two_trace).
  - repeat constructor; discriminate.
  - repeat constructor.
  - repeat constructor.
  - exact two_workers_run.
Defined.

Lemma load_single_rotation_witness :
  7 = 7 /\ zsum is_took two_trace = 1 /\ 10 = zsum took two_trace.
Proof.
  apply (load_single_rotation 7 (mkTracker 6 10 1) (mkTracker 7 7 10) two_workers
           [mkThread 3 7 Finished; mkThread 4 7 Finished] two_trace).
  - discriminate.
  - discriminate.
  - repeat constructor.
  - repeat constructor.
  - repeat constructor.
  - exact two_workers_run.
Defined.

Lemma record_batch_alone_witness : len [Tau] <= 5.
Proof.
  apply (record_batch_alone (mkTracker 7 0 0) 3 7500 [Tau] (mkTracker 7 0 0) [mkThread 3 7 Add]).
  apply (steps_snoc _ _ [] (mkTracker 7 0 0) [mkThread 3 (7500 / 1000) LoadSec] 0
           (mkThread 3 7 LoadSec) Tau (mkTracker 7 0 0) (mkThread 3 7 Add));
    [constructor|reflexivity|by apply step_load_same].
Defined.

(** The published rate can be arbitrarily old.  The window only rotates
    when a batch is recorded, and the worker loop records none while it
    receives nothing: after [c] Initials in one second and silence of any
    length, the next batch publishes [c] as the current rate. *)
Theorem rate_survives_silence (t : LoadRateTracker) (c sec gap : Z) :
  0 < c < 2 ^ 64 -> 0 <= sec -> sec <> window_sec t -> 0 < gap ->
  rate (record_batch (record_batch t c (1000 * sec)) 0 (1000 * (sec + gap))) = c.
Proof.
  intros Hc Hs Hw Hg. unfold record_batch, rate.
  rewrite !(Z.mul_comm 1000), !Z.div_mul by lia.
  destruct (sec =? window_sec t) eqn:E; [lia|]. destruct (0 <? c) eqn:E'; [|lia]. simpl.
  destruct (sec + gap =? sec) eqn:E''; [lia|]. simpl. unfold wrap64. apply Z.mod_small. lia.
Qed.

Lemma rate_survives_silence_witness :
  rate (record_batch (record_batch tracker_new 50000 1000) 0 3601000) = 50000.
Proof. apply (rate_survives_silence tracker_new 50000 1 3600); [lia|lia|discriminate|lia]. Defined.

