(* ===== verification/RetryPacket.v ===== *)
(** * Retry packets

    Models [pesigitg-daemon/src/retry/packet.rs]: assembling a Retry packet and
    its integrity tag.  AES-128-GCM (crate [aes_gcm]) on an empty plaintext is a
    parameter.  An output slice is passed and returned, since an error can leave
    it partly written. *)

From S2P Require Import Prelude Std Initial.

(** The GCM tag of an empty plaintext: key, nonce, associated data. *)
Class AesGcm := gcm_tag : list byte -> list byte -> list byte -> list byte.

(** A GCM tag has 16 bytes. *)
Class AesGcmLaws `{AesGcm} : Prop :=
  len_gcm_tag : forall key nonce aad, len (gcm_tag key nonce aad) = 16.

Definition RETRY_KEY_V1 : list byte :=
  [0xbe; 0x0c; 0x69; 0x0b; 0x9f; 0x66; 0x57; 0x5a; 0x1d; 0x76; 0x6b; 0x54; 0xe3; 0x68; 0xc8; 0x4e]%u8.
Definition RETRY_NONCE_V1 : list byte :=
  [0x46; 0x15; 0x99; 0xd3; 0x5d; 0x63; 0x2b; 0xf2; 0x23; 0x98; 0x25; 0xbb]%u8.
Definition RETRY_KEY_V2 : list byte :=
  [0x8f; 0xb4; 0xb0; 0x1b; 0x56; 0xac; 0x48; 0xe2; 0x60; 0xfb; 0xcb; 0xce; 0xad; 0x7c; 0xcc; 0x92]%u8.
Definition RETRY_NONCE_V2 : list byte :=
  [0xd8; 0x69; 0x69; 0xbc; 0x2d; 0x7c; 0x6d; 0x99; 0x90; 0xef; 0xb0; 0x4a]%u8.

Definition INTEGRITY_TAG_LEN : Z := 16.
Definition PSEUDO_MAX : Z := 1024.

Inductive BuildError :=
| OutputTooSmall
| CidTooLong
| PseudoTooLong
| BuildUnsupportedVersion.

Section retry.
  Context `{G : AesGcm}.

Definition compute_integrity_tag (version : Z) (odcid retry_without_tag : list byte)
    : rs (result (list byte) BuildError) :=
  if MAX_CID_LEN <? len odcid then Done (Err CidTooLong)
  else
    let keys :=
      if version =? QUIC_V1 then Some (RETRY_KEY_V1, RETRY_NONCE_V1)
      else if version =? QUIC_V2 then Some (RETRY_KEY_V2, RETRY_NONCE_V2)
      else None in
    match keys with
    | None => Done (Err BuildUnsupportedVersion)
    | Some (key, iv) =>
        let pseudo_len := 1 + len odcid + len retry_without_tag in
        if PSEUDO_MAX <? pseudo_len then Done (Err PseudoTooLong)
        else
          let* pseudo := set_at (zeros PSEUDO_MAX) 0 (b8 (len odcid)) in
          let* pseudo := copy_to pseudo 1 (1 + len odcid) odcid in
          let* pseudo := copy_to pseudo (1 + len odcid) pseudo_len retry_without_tag in
          let* aad := slice pseudo 0 pseudo_len in
          let tag := gcm_tag key iv aad in
          let* out := copy_to (zeros INTEGRITY_TAG_LEN) 0 INTEGRITY_TAG_LEN tag in
          Done (Ok out)
    end.

Definition build_retry (out : list byte) (version : Z) (odcid dcid scid token : list byte)
    : rs (list byte * result Z BuildError) :=
  if (MAX_CID_LEN <? len odcid) || (MAX_CID_LEN <? len dcid) || (MAX_CID_LEN <? len scid)
  then Done (out, Err CidTooLong)
  else
    let first_byte :=
      if version =? QUIC_V1 then Some 0xf0%u8
      else if version =? QUIC_V2 then Some 0xc0%u8 else None in
    match first_byte with
    | None => Done (out, Err BuildUnsupportedVersion)
    | Some first_byte =>
        let body_len := 1 + 4 + 1 + len dcid + 1 + len scid + len token in
        let total := body_len + INTEGRITY_TAG_LEN in
        if len out <? total then Done (out, Err OutputTooSmall)
        else
          let* out := set_at out 0 first_byte in
          let* out := copy_to out 1 5 (be_bytes 4 version) in
          let off := 5 in
          let* out := set_at out off (b8 (len dcid)) in
          let off := off + 1 in
          let* out := copy_to out off (off + len dcid) dcid in
          let off := off + len dcid in
          let* out := set_at out off (b8 (len scid)) in
          let off := off + 1 in
          let* out := copy_to out off (off + len scid) scid in
          let off := off + len scid in
          let* out := copy_to out off (off + len token) token in
          let* body := slice out 0 body_len in
          let* tag := compute_integrity_tag version odcid body in
          match tag with
          | Err e => Done (out, Err e)
          | Ok tag =>
              let* out := copy_to out body_len total tag in
              Done (out, Ok total)
          end
    end.

(** ** The wire format *)

Definition retry_body (version : Z) (dcid scid token : list byte) : list byte :=
  (if version =? QUIC_V1 then 0xf0%u8 else 0xc0%u8) :: be_bytes 4 version ++
  b8 (len dcid) :: dcid ++ b8 (len scid) :: scid ++ token.

Definition retry_tag (version : Z) (odcid body : list byte) : list byte :=
  let aad := b8 (len odcid) :: odcid ++ body in
  if version =? QUIC_V1 then gcm_tag RETRY_KEY_V1 RETRY_NONCE_V1 aad
  else gcm_tag RETRY_KEY_V2 RETRY_NONCE_V2 aad.

Definition retry_packet (version : Z) (odcid dcid scid token : list byte) : list byte :=
  let body := retry_body version dcid scid token in body ++ retry_tag version odcid body.

Lemma len_retry_body v d s t : len (retry_body v d s t) = 7 + len d + len s + len t.
Proof. unfold retry_body. autorewrite with len. lia. Qed.

(** Writing into a buffer whose front is already written: a byte, a slice. *)
Lemma set_at_front (pre : list byte) x rest b :
  set_at (pre ++ x :: rest) (len pre) b = Done ((pre ++ [b]) ++ rest).
Proof.
  rewrite set_at_in by llia. unfold len. rewrite Nat2Z.id.
  replace (length pre) with (length pre + 0)%nat by lia. rewrite insert_app_r. simpl.
  by rewrite <- app_assoc.
Qed.

Lemma set_at_0 (x : byte) rest b : set_at (x :: rest) 0 b = Done ([b] ++ rest).
Proof. by rewrite set_at_in by llia. Qed.

Lemma copy_to_front (pre old rest src : list byte) a b :
  len old = len src -> a = len pre -> b = len pre + len src ->
  copy_to (pre ++ old ++ rest) a b src = Done ((pre ++ src) ++ rest).
Proof.
  intros Hl -> ->. rewrite copy_to_in by llia.
  rewrite splice_app_mid; [by rewrite <- app_assoc|done|]. unfold len in Hl. lia.
Qed.

Context `{!AesGcmLaws}.

Lemma compute_integrity_tag_ok version odcid body :
  len odcid <= 20 -> version = QUIC_V1 \/ version = QUIC_V2 ->
  1 + len odcid + len body <= 1024 ->
  compute_integrity_tag version odcid body = Done (Ok (retry_tag version odcid body)).
Proof.
  intros Ho Hv Hl. unfold compute_integrity_tag, MAX_CID_LEN, PSEUDO_MAX, INTEGRITY_TAG_LEN.
  case_goal; [lia|]. set (keys := if version =? QUIC_V1 then _ else _).
  assert (exists key iv, keys = Some (key, iv) /\ forall aad, gcm_tag key iv aad =
    if version =? QUIC_V1 then gcm_tag RETRY_KEY_V1 RETRY_NONCE_V1 aad
    else gcm_tag RETRY_KEY_V2 RETRY_NONCE_V2 aad) as (key & iv & -> & Htag).
  { unfold keys. destruct Hv as [->| ->]; simpl; eauto. }
  case_goal; [lia|]. pose_len.
  assert (Hz : zeros 1024 = [] ++ Byte.x00 :: zeros (len odcid) ++ zeros (len body)
                              ++ zeros (1023 - len odcid - len body)).
  { unfold zeros. cbn [app]. rewrite <- !replicate_add, <- replicate_S. f_equal. lia. }
  rewrite Hz. cbn [app]. rewrite set_at_0.
  rewrite copy_to_front by (rewrite ?len_zeros; (done || lia)).
  rewrite copy_to_front by (autorewrite with len; rewrite ?len_zeros; lia).
  set (aad := ([b8 (len odcid)] ++ odcid) ++ body).
  assert (Ha : len aad = 1 + len odcid + len body) by (unfold aad; autorewrite with len; lia).
  rewrite slice_in by (rewrite ?len_app; pose_len; lia). rewrite sub_app_l, sub_full by lia.
  pose proof (len_gcm_tag key iv aad) as Hgl.
  rewrite copy_to_in by (rewrite ?len_zeros; lia). rewrite splice_0, drop_ge, app_nil_r.
  - unfold retry_tag. rewrite <- Htag. unfold aad. by rewrite <- !app_assoc.
  - unfold zeros. rewrite length_replicate. unfold len in Hgl. lia.
Qed.

Lemma split_at (l : list byte) n :
  0 <= n <= len l -> exists a b, l = a ++ b /\ len a = n.
Proof.
  intros. exists (take (Z.to_nat n) l), (drop (Z.to_nat n) l). rewrite take_drop. split; [done|].
  rewrite len_take. lia.
Qed.

(** The output buffer cut at the field boundaries. *)
Lemma out_shape (out : list byte) d s t :
  0 <= d -> 0 <= s -> 0 <= t -> 7 + d + s + t <= len out ->
  exists x0 v x1 od x2 os ot,
    out = (x0 :: v ++ x1 :: od ++ x2 :: os ++ ot) ++ drop (Z.to_nat (7 + d + s + t)) out /\
    len v = 4 /\ len od = d /\ len os = s /\ len ot = t.
Proof.
  intros Hd Hs Ht Hl. destruct out as [|x0 out]; [unfold len in Hl; simpl in Hl; lia|].
  rewrite len_cons in Hl.
  destruct (split_at out 4) as (v & r & -> & Hv); [lia|]. rewrite len_app in Hl.
  destruct r as [|x1 r]; [rewrite len_nil in Hl; lia|]. rewrite len_cons in Hl.
  destruct (split_at r d) as (od & r1 & -> & Hod); [lia|]. rewrite len_app in Hl.
  destruct r1 as [|x2 r1]; [rewrite len_nil in Hl; lia|]. rewrite len_cons in Hl.
  destruct (split_at r1 s) as (os & r2 & -> & Hos); [lia|]. rewrite len_app in Hl.
  destruct (split_at r2 t) as (ot & rest & -> & Hot); [lia|].
  exists x0, v, x1, od, x2, os, ot. split; [|done].
  assert (x0 :: v ++ x1 :: od ++ x2 :: os ++ ot ++ rest
    = (x0 :: v ++ x1 :: od ++ x2 :: os ++ ot) ++ rest) as ->
    by (repeat (rewrite <- ?app_assoc; cbn [app]); done).
  f_equal. symmetry. apply drop_app_length'.
  rewrite <- Hod, <- Hos, <- Hot. unfold len in *. simpl. repeat (rewrite length_app; simpl). lia.
Qed.

(** With room for the packet, [build_retry] writes the body and asks for the tag. *)
Lemma build_retry_body out version odcid dcid scid token :
  len odcid <= 20 -> len dcid <= 20 -> len scid <= 20 ->
  version = QUIC_V1 \/ version = QUIC_V2 ->
  7 + len dcid + len scid + len token + 16 <= len out ->
  build_retry out version odcid dcid scid token =
  let body := retry_body version dcid scid token in
  let out' := body ++ drop (Z.to_nat (len body)) out in
  let* tag := compute_integrity_tag version odcid body in
  match tag with
  | Err e => Done (out', Err e)
  | Ok tag =>
      let* out := copy_to out' (len body) (len body + 16) tag in
      Done (out, Ok (len body + 16))
  end.
Proof.
  intros Ho Hd Hs Hv Hout. pose_len.
  pose proof (len_retry_body version dcid scid token) as Hbl.
  destruct (out_shape out (len dcid) (len scid) (len token))
    as (x0 & v & x1 & od & x2 & os & ot & Hsh & Hv4 & Hod & Hos & Hot); [lia..|].
  cbv zeta. rewrite Hbl. set (rest := drop _ out) in *. unfold build_retry, MAX_CID_LEN, INTEGRITY_TAG_LEN.
  case_goal; [lia|]. set (fb := if version =? QUIC_V1 then Some _ else _).
  assert (fb = Some (if version =? QUIC_V1 then 0xf0%u8 else 0xc0%u8)) as ->.
  { unfold fb. by destruct Hv as [->| ->]. }
  case_goal; [lia|]. rewrite Hsh at 1. repeat (rewrite <- ?app_assoc; cbn [app]).
  rewrite set_at_0. rewrite copy_to_front by (autorewrite with len; lia).
  replace 5 with (len ([if version =? QUIC_V1 then 0xf0%u8 else 0xc0%u8] ++ be_bytes 4 version))
    by (autorewrite with len; lia).
  rewrite set_at_front. rewrite copy_to_front by (autorewrite with len; lia).
  match goal with |- context [set_at (?pre ++ x2 :: _) ?n] => replace n with (len pre)
    by (autorewrite with len; lia) end.
  rewrite set_at_front. rewrite copy_to_front by (autorewrite with len; lia).
  rewrite copy_to_front by (autorewrite with len; lia).
  match goal with |- context [slice (?b ++ rest)] =>
    assert (b = retry_body version dcid scid token) as -> end.
  { unfold retry_body. repeat (rewrite <- ?app_assoc; cbn [app]); done. }
  rewrite slice_in by (rewrite ?len_app; pose_len; lia). rewrite sub_app_l, sub_full by lia.
  by replace (1 + 4 + 1 + len dcid + 1 + len scid + len token)
    with (7 + len dcid + len scid + len token) by lia.
Qed.

Lemma compute_integrity_tag_long version odcid body :
  len odcid <= 20 -> version = QUIC_V1 \/ version = QUIC_V2 ->
  1024 < 1 + len odcid + len body ->
  compute_integrity_tag version odcid body = Done (Err PseudoTooLong).
Proof.
  intros Ho Hv Hl. unfold compute_integrity_tag, MAX_CID_LEN, PSEUDO_MAX.
  case_goal; [lia|]. destruct Hv as [->| ->]; cbn [Z.eqb QUIC_V1 QUIC_V2 Pos.eqb];
    (case_goal; [done|lia]).
Qed.

(** The outcome of [build_retry], error by error. *)
Definition build_outcome (out : list byte) (version : Z) (odcid dcid scid token : list byte)
    : result Z BuildError :=
  if (20 <? len odcid) || (20 <? len dcid) || (20 <? len scid) then Err CidTooLong
  else if negb ((version =? QUIC_V1) || (version =? QUIC_V2)) then Err BuildUnsupportedVersion
  else if len out <? 7 + len dcid + len scid + len token + 16 then Err OutputTooSmall
  else if 1024 <? 8 + len odcid + len dcid + len scid + len token then Err PseudoTooLong
  else Ok (7 + len dcid + len scid + len token + 16).

Lemma build_retry_outcome out version odcid dcid scid token :
  exists out', build_retry out version odcid dcid scid token
    = Done (out', build_outcome out version odcid dcid scid token) /\
  forall n, build_outcome out version odcid dcid scid token = Ok n ->
    out' = retry_packet version odcid dcid scid token ++ drop (Z.to_nat n) out.
Proof.
  unfold build_outcome. case_goal.
  { exists out. unfold build_retry, MAX_CID_LEN. by rewrite E. }
  case_goal.
  { exists out. split; [|done]. unfold build_retry, MAX_CID_LEN. rewrite E.
    apply negb_true_iff, orb_false_iff in E0 as [-> ->]. done. }
  assert (Hv : version = QUIC_V1 \/ version = QUIC_V2) by (bools; lia).
  case_goal.
  { exists out. split; [|done]. unfold build_retry, MAX_CID_LEN, INTEGRITY_TAG_LEN. rewrite E.
    destruct Hv as [->| ->]; cbn [Z.eqb QUIC_V1 QUIC_V2 Pos.eqb]; (case_goal; [done|lia]). }
  rewrite build_retry_body by (done || lia). cbv zeta.
  pose proof (len_retry_body version dcid scid token) as Hbl.
  set (body := retry_body version dcid scid token) in *. case_goal.
  - rewrite compute_integrity_tag_long by (done || lia). eexists. split; [done|done].
  - rewrite compute_integrity_tag_ok by (done || lia).
    assert (Htl : len (retry_tag version odcid body) = 16).
    { unfold retry_tag. case_goal; apply len_gcm_tag. }
    destruct (split_at (drop (Z.to_nat (len body)) out) 16) as (old & rest & Hold & Hol).
    { rewrite len_drop. pose_len. lia. }
    rewrite Hold, copy_to_front by lia. eexists. rewrite Hbl. split; [done|].
    intros n [= <-]. unfold retry_packet. fold body. f_equal.
    replace (Z.to_nat (7 + len dcid + len scid + len token + 16))
      with (Z.to_nat (len body) + 16)%nat by (pose_len; lia).
    rewrite <- drop_drop, Hold. symmetry. apply drop_app_length'. unfold len in Hol. lia.
Qed.

End retry.

(** ** Properties *)

(** C23.  Building a Retry packet never panics.  The error is decided by the CID
    lengths, the version, the room in the output slice and the size of the
    pseudo-packet, in this order; on success the output starts with the Retry
    packet of the wire format, whose tag authenticates the original DCID and
    everything before it, and the rest of the slice is untouched. *)
Theorem build_retry_exact `{AesGcmLaws} (out : list byte) (version : Z)
    (odcid dcid scid token : list byte) :
  exists out', build_retry out version odcid dcid scid token
    = Done (out', build_outcome out version odcid dcid scid token) /\
  forall n, build_outcome out version odcid dcid scid token = Ok n ->
    out' = retry_packet version odcid dcid scid token ++ drop (Z.to_nat n) out.
Proof. apply build_retry_outcome. Qed.


(** A checksum with the length of a tag. *)
#[local] Instance sum_gcm : AesGcm := fun key nonce aad => be_bytes 16 (be_val (key ++ nonce ++ aad)).

#[local] Instance sum_gcm_laws : AesGcmLaws.
Proof. intros key nonce aad. apply len_be_bytes. Qed.

Lemma build_retry_exact_witness :
  exists out', build_retry (zeros 64) QUIC_V2 [1; 2]%u8 [3]%u8 [4; 5]%u8 [6; 7; 8]%u8
    = Done (out', Ok 29).
Proof.
  destruct (build_retry_exact (zeros 64) QUIC_V2 [1; 2]%u8 [3]%u8 [4; 5]%u8 [6; 7; 8]%u8)
    as (out' & Hb & _).
  exists out'. exact Hb.
Defined.
