(* ===== verification/RetryConfig.v ===== *)
(** * Settings of the Retry service

    Models [pesigitg-daemon/src/config/retry.rs]: the raw [[retry]] table and
    its validation.  The load tracker sits behind an [Arc] shared by the workers
    and by every clone of the configuration, so a configuration holds a
    reference to it; validation allocates a fresh one. *)

From stdpp Require Import sorting.
From S2P Require Import Prelude Std Common Route Token.

Inductive RetryMode := Observe | Always | LoadMode.

#[global] Instance RetryMode_eq_dec : EqDecision RetryMode.
Proof. solve_decision. Defined.

(** A reference to a [LoadRateTracker] shared through an [Arc]. *)
Definition tracker_ref := positive.

Record RetryConfig := mkRetryConfig {
  r_enabled : bool;
  r_token_key : TokenKey;
  token_lifetime_ms : Z;
  r_mode : RetryMode;
  r_ports : list Z;
  load_trigger_rate : option Z;
  load_tracker : option tracker_ref;
  r_loaded_at : Instant;
  r_max_key_age_secs : option N;
}.

Definition inherit_age_from (self prev : RetryConfig) : RetryConfig :=
  if token_same_key (r_token_key self) (r_token_key prev)
  then mkRetryConfig (r_enabled self) (r_token_key self) (token_lifetime_ms self) (r_mode self)
         (r_ports self) (load_trigger_rate self) (load_tracker self) (r_loaded_at prev)
         (r_max_key_age_secs self)
  else self.

(** [u64] fields are natural numbers; the defaults are the deserializer's. *)
Record RawRetry := mkRawRetry {
  raw_enabled : bool;
  raw_token_key : option str;
  raw_token_lifetime_secs : N;
  raw_mode : str;
  raw_ports : list Z;
  raw_load : option N;
  raw_retry_max_key_age_secs : option N;
}.

Definition default_token_lifetime_secs : N := 10.
Definition default_retry_mode : str := lit "observe".

Inductive retry_error :=
| UnknownMode (got : str)
| LifetimeRange (got : N)
| TokenKeyRequired
| InvalidHexTokenKey (e : hex_error)
| TokenKeyLength (got : Z)
| LoadSectionRequired
| TriggerRateZero
| LoadSectionUnexpected (mode : RetryMode)
| RetryMaxKeyAgeZero.

Definition parse_hex_retry_key (s : str) : rs (result (list byte) retry_error) :=
  let*+ bytes := rs_map_err InvalidHexTokenKey (hex_decode s) in
  if negb (len bytes =? 32) then Done (Err (TokenKeyLength (len bytes)))
  else
    let* key := copy_to (zeros 32) 0 32 bytes in
    Done (Ok key).

Definition parse_mode (s : str) : option RetryMode :=
  if bool_decide (s = lit "observe") then Some Observe
  else if bool_decide (s = lit "always") then Some Always
  else if bool_decide (s = lit "load") then Some LoadMode
  else None.

(** [Vec::dedup]: of a run of equal elements the first is kept. *)
Fixpoint dedup (l : list Z) : list Z :=
  match l with
  | x :: ((y :: _) as r) => if x =? y then dedup r else x :: dedup r
  | _ => l
  end.

(** [ports.sort_unstable(); ports.dedup();] *)
Definition normalize_ports (l : list Z) : list Z := dedup (merge_sort Z.le l).

(** The token key: given, or all zeros when the service is disabled. *)
Definition retry_key (raw : RawRetry) : rs (result TokenKey retry_error) :=
  match raw_token_key raw with
  | Some hex =>
      let*+ k := parse_hex_retry_key hex in
      Done (Ok (token_key_from_bytes k))
  | None =>
      if raw_enabled raw then Done (Err TokenKeyRequired)
      else Done (Ok (token_key_from_bytes (zeros 32)))
  end.

Definition retry_trigger (mode : RetryMode) (load : option N) : result (option Z) retry_error :=
  match mode with
  | LoadMode =>
      match load with
      | None => Err LoadSectionRequired
      | Some 0%N => Err TriggerRateZero
      | Some n => Ok (Some (Z.of_N n))
      end
  | _ => match load with Some _ => Err (LoadSectionUnexpected mode) | None => Ok None end
  end.

(** [tracker] is the allocation of a fresh [LoadRateTracker], [now] the clock. *)
Definition retry_validate (tracker : tracker_ref) (now : Instant) (raw : RawRetry)
    : rs (result RetryConfig retry_error) :=
  match parse_mode (raw_mode raw) with
  | None => Done (Err (UnknownMode (raw_mode raw)))
  | Some mode =>
      if (raw_token_lifetime_secs raw =? 0)%N || (86400 <? raw_token_lifetime_secs raw)%N
      then Done (Err (LifetimeRange (raw_token_lifetime_secs raw)))
      else
        let lifetime_ms := Z.of_N (raw_token_lifetime_secs raw) * 1000 in
        let*+ key := retry_key raw in
        match retry_trigger mode (raw_load raw) with
        | Err e => Done (Err e)
        | Ok trigger =>
            let ports := normalize_ports (raw_ports raw) in
            let tracker := match mode with LoadMode => Some tracker | _ => None end in
            match raw_retry_max_key_age_secs raw with
            | Some 0%N => Done (Err RetryMaxKeyAgeZero)
            | _ =>
                Done (Ok (mkRetryConfig (raw_enabled raw) key lifetime_ms mode ports trigger tracker
                            now (raw_retry_max_key_age_secs raw)))
            end
        end
  end.

(** ** The invariant of validated settings *)

Record retry_wf (r : RetryConfig) : Prop := {
  rw_key : len (token_key (r_token_key r)) = 32;
  rw_lifetime : 1000 <= token_lifetime_ms r <= 86400000;
  rw_ports : StronglySorted Z.lt (r_ports r);
  rw_load : r_mode r = LoadMode <->
            exists n t, load_trigger_rate r = Some n /\ 0 < n /\ load_tracker r = Some t;
  rw_idle : r_mode r <> LoadMode -> load_trigger_rate r = None /\ load_tracker r = None;
  rw_age : forall n, r_max_key_age_secs r = Some n -> (0 < n)%N;
}.

(** *** Port lists *)

Lemma dedup_cons x y r : dedup (x :: y :: r) = if x =? y then dedup (y :: r) else x :: dedup (y :: r).
Proof. done. Qed.

Lemma elem_of_dedup l x : x ∈ dedup l <-> x ∈ l.
Proof.
  induction l as [|a [|b r] IH]; [done..|]. rewrite dedup_cons. case_goal.
  - assert (a = b) as -> by lia. rewrite IH, !elem_of_cons. naive_solver.
  - rewrite elem_of_cons, IH. by rewrite (elem_of_cons (b :: r)).
Qed.

Lemma dedup_sorted l : StronglySorted Z.le l -> StronglySorted Z.lt (dedup l).
Proof.
  induction l as [|a [|b r] IH]; [by constructor|by repeat constructor|].
  intros Hs. inversion Hs as [|? ? Hs' Hall]; subst. rewrite dedup_cons.
  case_goal; [by apply IH|]. constructor; [by apply IH|].
  rewrite list.Forall_forall in *. intros x Hx. rewrite elem_of_dedup in Hx.
  pose proof (Hall b ltac:(left)) as Hb.
  inversion Hs' as [|? ? _ Hall']; subst. apply elem_of_cons in Hx as [->|Hx]; [lia|].
  rewrite list.Forall_forall in Hall'. specialize (Hall' x Hx). lia.
Qed.

Lemma normalize_ports_spec l :
  StronglySorted Z.lt (normalize_ports l) /\ forall x, x ∈ normalize_ports l <-> x ∈ l.
Proof.
  unfold normalize_ports. split.
  - apply dedup_sorted. apply StronglySorted_merge_sort; [apply _|]. intros x y. lia.
  - intros x. rewrite elem_of_dedup. by rewrite merge_sort_Permutation.
Qed.

Lemma parse_hex_retry_key_ok s k : parse_hex_retry_key s = Done (Ok k) -> len k = 32.
Proof.
  unfold parse_hex_retry_key, rs_map_err. destruct (hex_decode s) as [[b|e]|]; cbn [map_err]; try done.
  destruct (len b =? 32) eqn:E; cbn [negb]; [|done].
  rewrite copy_to_in by (rewrite ?len_zeros; lia). intros [= <-].
  rewrite len_splice; rewrite ?len_zeros; lia.
Qed.

Lemma retry_key_ok raw k : retry_key raw = Done (Ok k) -> len (token_key k) = 32.
Proof.
  unfold retry_key. destruct (raw_token_key raw) as [h|].
  - destruct (parse_hex_retry_key h) as [[b|e]|] eqn:E; try done. intros [= <-].
    by apply parse_hex_retry_key_ok in E.
  - destruct (raw_enabled raw); [done|]. by intros [= <-].
Qed.

Lemma retry_validate_ok tracker now raw r :
  retry_validate tracker now raw = Done (Ok r) ->
  exists mode key trig,
    parse_mode (raw_mode raw) = Some mode /\ retry_key raw = Done (Ok key) /\
    retry_trigger mode (raw_load raw) = Ok trig /\
    (1 <= raw_token_lifetime_secs raw <= 86400)%N /\
    raw_retry_max_key_age_secs raw <> Some 0%N /\
    r = mkRetryConfig (raw_enabled raw) key (Z.of_N (raw_token_lifetime_secs raw) * 1000)
          mode (normalize_ports (raw_ports raw)) trig
          (match mode with LoadMode => Some tracker | _ => None end) now
          (raw_retry_max_key_age_secs raw).
Proof.
  unfold retry_validate. destruct (parse_mode (raw_mode raw)) as [mode|] eqn:Em; [|done].
  case_goal; [done|]. destruct (retry_key raw) as [[key|?]|] eqn:Ek; try done.
  destruct (retry_trigger mode (raw_load raw)) as [trig|?] eqn:Et; [|done].
  apply orb_false_iff in E as [?%N.eqb_neq ?%N.ltb_ge].
  intros Hr. exists mode, key, trig. split; [done|]. split; [done|]. split; [done|].
  split; [lia|]. destruct (raw_retry_max_key_age_secs raw) as [[|n]|]; [done|..]; split; congruence.
Qed.

Lemma retry_validate_wf tracker now raw r :
  retry_validate tracker now raw = Done (Ok r) -> retry_wf r.
Proof.
  intros (mode & key & trig & _ & Ek & Et & Hlife & Hage & ->)%retry_validate_ok.
  destruct (normalize_ports_spec (raw_ports raw)) as [Hs _].
  unfold retry_trigger in Et. constructor; simpl; try done.
  - by eapply retry_key_ok.
  - lia.
  - destruct mode, (raw_load raw) as [[|n]|]; simplify_eq; (split; [|naive_solver]); try done.
    intros _. do 2 eexists. split; [done|]. split; [lia|done].
  - destruct mode, (raw_load raw) as [[|n]|]; naive_solver.
  - intros n Hn. destruct n; [congruence|lia].
Qed.

(** ** Properties *)

(** Validated Retry settings are consistent: a 32-byte key, a lifetime of
    one second to one day, a strictly increasing port list with the elements
    that were given, a positive trigger and a tracker in load mode and neither
    in the other modes, and a nonzero rotation age. *)
Theorem retry_validate_sound (tracker : tracker_ref) (now : Instant) (raw : RawRetry)
    (r : RetryConfig) :
  retry_validate tracker now raw = Done (Ok r) ->
  retry_wf r /\ (forall p, p ∈ r_ports r <-> p ∈ raw_ports raw) /\
  r_enabled r = raw_enabled raw /\ (r_enabled r = true -> raw_token_key raw <> None) /\
  r_loaded_at r = now.
Proof.
  intros Hv. split; [by eapply retry_validate_wf|].
  apply retry_validate_ok in Hv as (mode & key & trig & _ & Ek & _ & _ & _ & ->). simpl.
  split; [apply normalize_ports_spec|]. split; [done|]. split; [|done].
  intros Hen. unfold retry_key in Ek. rewrite Hen in Ek. by destruct (raw_token_key raw).
Qed.


Definition example_raw_retry : RawRetry :=
  mkRawRetry true
    (Some (lit "000102030405060708090a0b0c0d0e0f101112131415161718191a1b1c1d1e1f"))
    default_token_lifetime_secs (lit "load") [8443; 443; 443] (Some 10000%N) None.

Definition example_retry : RetryConfig :=
  match retry_validate 1%positive 0 example_raw_retry with
  | Done (Ok r) => r
  | _ => mkRetryConfig false (mkTokenKey []) 0 Observe [] None None 0 None
  end.

Lemma retry_validate_sound_witness :
  retry_wf example_retry /\ r_ports example_retry = [443; 8443] /\ r_loaded_at example_retry = 0.
Proof.
  destruct (retry_validate_sound 1%positive 0 example_raw_retry example_retry)
    as (Hwf & _ & _ & _ & Hl); [vm_compute; reflexivity|].
  split; [exact Hwf|]. split; [vm_compute; reflexivity|exact Hl].
Defined.
