(* ===== verification/ConfigTable.v ===== *)
(** * The daemon's configuration table

    Models [pesigitg-daemon/src/config/route.rs] (the seven slots, key ages and
    the fallback pool), [pesigitg-daemon/src/cid.rs] (selecting the slot for a
    packet) and [pesigitg-daemon/src/config/key_age.rs] (rotation warnings). *)

From S2P Require Import Prelude Std Common Route Cid LbCore Token RetryConfig.

Section table.
  Context `{Aes : Aes128}.

Record ConfigTable := mkTable {
  path : str;
  slots : list (option RouteConfig);
  slot_loaded_at : list (option Instant);
  fallback_servers : list Server;
  retry : option RetryConfig;
}.

Inductive table_error (IoError TomlError : Type) :=
| TableRoute (e : RouteConfigError IoError TomlError)
| TableRetry (e : retry_error).
Arguments TableRoute {_ _} e.
Arguments TableRetry {_ _} e.

(** [for config in configs { slots[id] = ..; loaded_at[id] = ..; }] *)
Fixpoint fill_slots (configs : list RouteConfig) (now : Instant)
    (slots : list (option RouteConfig)) (loaded : list (option Instant))
    : rs (list (option RouteConfig) * list (option Instant)) :=
  match configs with
  | [] => Done (slots, loaded)
  | c :: cs =>
      let id := config_id c in
      let* slots := set_at slots id (Some c) in
      let* loaded := set_at loaded id (Some now) in
      fill_slots cs now slots loaded
  end.

Section text.
  Context {IoError TomlError : Type}.
  Context (toml_routes : str -> result (list RawConfig) TomlError).
  (** [toml::from_str] at [RawRetryWrapper], whose only field is [retry]. *)
  Context (toml_retry : str -> result (option RawRetry) TomlError).
  Context (read_to_string : str -> result str IoError).

(** [now] is the clock, [tracker] the allocation of a load tracker. *)
Definition table_from_str (now : Instant) (tracker : tracker_ref) (text : str)
    : rs (result ConfigTable (table_error IoError TomlError)) :=
  let*+ configs := rs_map_err TableRoute (parse_routes toml_routes text) in
  let* (slots, loaded) := fill_slots configs now (replicate 7 None) (replicate 7 None) in
  match toml_retry text with
  | Err e => Done (Err (TableRoute (RouteParse e)))
  | Ok wrapper =>
      let*+ retry :=
        match wrapper with
        | None => Done (Ok None)
        | Some raw =>
            let*+ r := rs_map_err TableRetry (retry_validate tracker now raw) in
            Done (Ok (Some r))
        end in
      Done (Ok (mkTable [] slots loaded [] retry))
  end.

Definition table_from_file (now : Instant) (tracker : tracker_ref) (p : str)
    : rs (result ConfigTable (table_error IoError TomlError)) :=
  match read_to_string p with
  | Err e => Done (Err (TableRoute (RouteIo e)))
  | Ok text =>
      let*+ t := table_from_str now tracker text in
      Done (Ok (mkTable p (slots t) (slot_loaded_at t) (fallback_servers t) (retry t)))
  end.
End text.

(** ** Queries *)

Definition slot_get (l : list (option RouteConfig)) (i : nat) : option RouteConfig :=
  match l !! i with Some s => s | None => None end.

Definition table_get (t : ConfigTable) (config_id : Z) : option RouteConfig :=
  slot_get (slots t) (Z.to_nat config_id).

Definition loaded_at (t : ConfigTable) (config_id : Z) : option Instant :=
  match slot_loaded_at t !! Z.to_nat config_id with Some s => s | None => None end.

(** [slots.iter().flatten()] *)
Definition configs (t : ConfigTable) : list RouteConfig := omap id (slots t).

Definition fallback_cid_length (t : ConfigTable) : option Z :=
  match configs t with c :: _ => Some (cid_length c) | [] => None end.

Definition has_draining_servers (t : ConfigTable) : bool :=
  existsb (fun c => existsb s_draining (servers c)) (configs t).

Definition has_unresolved_macs (t : ConfigTable) : bool :=
  existsb (fun c => existsb (fun s => bool_decide (s_mac s = None)) (servers c)) (configs t).

Definition unresolved_macs_count (t : ConfigTable) : Z :=
  len (List.filter (fun s => bool_decide (s_mac s = None)) (concat (map servers (configs t)))).

(** ** Key ages across a reload *)

Fixpoint inherit_slots (new old : list (option RouteConfig)) (new_at old_at : list (option Instant))
    : list (option Instant) :=
  match new, old, new_at, old_at with
  | n :: new', o :: old', na :: new_at', oa :: old_at' =>
      (match n, o with
       | Some nc, Some oc => if same_key (encryption nc) (encryption oc) then oa else na
       | _, _ => na
       end) :: inherit_slots new' old' new_at' old_at'
  | _, _, _, _ => new_at
  end.

Definition inherit_ages_from (self prev : ConfigTable) : ConfigTable :=
  mkTable (path self) (slots self)
    (inherit_slots (slots self) (slots prev) (slot_loaded_at self) (slot_loaded_at prev))
    (fallback_servers self)
    (match retry self, retry prev with
     | Some n, Some o => Some (inherit_age_from n o)
     | r, _ => r
     end).

(** ** The fallback pool *)

Definition fallback_add (pool : list Server) (s : Server) : list Server :=
  if s_healthy s && bool_decide (s_mac s <> None) && negb (s_draining s)
     && negb (existsb (fun s' => bool_decide (s_address s' = s_address s)) pool)
  then pool ++ [s] else pool.

Definition rebuild_fallback_servers (t : ConfigTable) : ConfigTable :=
  mkTable (path t) (slots t) (slot_loaded_at t)
    (foldl (fun pool c => foldl fallback_add pool (servers c)) [] (configs t)) (retry t).

(** ** Selecting the configuration of a packet ([cid.rs]) *)

Definition lookup_config (quic : list byte) (table : ConfigTable)
    : rs (option (list byte * RouteConfig)) :=
  let*? first_octet := first_cid_octet quic in
  let id := Z.shiftr (u8 first_octet) 5 in
  if id =? 7 then Done None
  else
    match table_get table id with
    | None => Done None
    | Some config =>
        let*? dcid := extract_raw_dcid quic (cid_length config) in
        Done (Some (dcid, config))
    end.

(** ** Rotation warnings ([key_age.rs]) *)

Record KeyAgeWarner := mkWarner {
  qlb_warned_for : list (option Instant);
  retry_warned_for : option Instant;
}.

Definition warner_new : KeyAgeWarner := mkWarner (replicate 7 None) None.

(** The log lines [check_at] emits. *)
Inductive warning :=
| QlbKeyOld (config_id age max : Z)
| RetryKeyOld (age max : Z).

Definition key_age (now loaded : Instant) : Z := as_secs (duration_since now loaded).

(** One iteration of the loop over the configurations. *)
Definition check_config (t : ConfigTable) (now : Instant) (c : RouteConfig)
    (st : list (option Instant) * list warning) : rs (list (option Instant) * list warning) :=
  let '(warned, log) := st in
  match max_key_age_secs c with
  | None => Done st
  | Some max =>
      match loaded_at t (config_id c) with
      | None => Done st
      | Some loaded =>
          let age := key_age now loaded in
          if age <=? Z.of_N max then Done st
          else
            let* w := idx warned (config_id c) in
            if bool_decide (w = Some loaded) then Done st
            else
              let log' := log ++ [QlbKeyOld (config_id c) age (Z.of_N max)] in
              let* warned' := set_at warned (config_id c) (Some loaded) in
              Done (warned', log')
      end
  end.

Fixpoint check_configs (t : ConfigTable) (now : Instant) (cs : list RouteConfig)
    (st : list (option Instant) * list warning) : rs (list (option Instant) * list warning) :=
  match cs with
  | [] => Done st
  | c :: cs' =>
      let* st' := check_config t now c st in
      check_configs t now cs' st'
  end.

Definition check_at (w : KeyAgeWarner) (t : ConfigTable) (now : Instant)
    : rs (KeyAgeWarner * list warning) :=
  let* (warned, log) := check_configs t now (configs t) (qlb_warned_for w, []) in
  match retry t with
  | Some r =>
      match r_max_key_age_secs r with
      | Some max =>
          let age := key_age now (r_loaded_at r) in
          if (Z.of_N max <? age) && negb (bool_decide (retry_warned_for w = Some (r_loaded_at r)))
          then Done (mkWarner warned (Some (r_loaded_at r)), log ++ [RetryKeyOld age (Z.of_N max)])
          else Done (mkWarner warned (retry_warned_for w), log)
      | None => Done (mkWarner warned (retry_warned_for w), log)
      end
  | None => Done (mkWarner warned (retry_warned_for w), log)
  end.

(** ** The invariant of a table *)

(** Slot [i] holds a validated configuration with config id [i], and has a load
    time exactly when it is occupied. *)
Record table_wf (t : ConfigTable) : Prop := {
  tw_slots : length (slots t) = 7%nat;
  tw_loaded : length (slot_loaded_at t) = 7%nat;
  tw_config : forall i c, slots t !! i = Some (Some c) ->
              config_wf c /\ config_id c = Z.of_nat i;
  tw_age : forall i, slots t !! i = Some None <-> slot_loaded_at t !! i = Some None;
  tw_retry : forall r, retry t = Some r -> retry_wf r;
}.

Lemma elem_of_configs t c : c ∈ configs t <-> exists i, slots t !! i = Some (Some c).
Proof.
  unfold configs. rewrite list_elem_of_omap. split.
  - intros (s & Hs & Hid). simpl in Hid. subst s. by apply list_elem_of_lookup.
  - intros [i Hi]. exists (Some c). split; [|done]. by eapply list_elem_of_lookup_2.
Qed.

(** ** Building a table *)

Lemma set_at_lookup {A} (l l' : list A) i v :
  set_at l i v = Done l' ->
  0 <= i < len l /\ length l' = length l /\ l' !! Z.to_nat i = Some v /\
  forall j, j <> Z.to_nat i -> l' !! j = l !! j.
Proof.
  unfold set_at. case_goal; [|done]. intros [= <-]. split; [lia|].
  split; [apply length_insert|]. unfold len in *. split.
  - apply list_lookup_insert_eq. lia.
  - intros j Hj. by apply list_lookup_insert_ne.
Qed.

(** Filling keeps slot, id and load time in step. *)
Definition filled (now : Instant) (ss : list (option RouteConfig)) (ats : list (option Instant)) : Prop :=
  length ss = 7%nat /\ length ats = 7%nat /\
  (forall i c, ss !! i = Some (Some c) -> config_wf c /\ config_id c = Z.of_nat i /\
     ats !! i = Some (Some now)) /\
  (forall i, ss !! i = Some None <-> ats !! i = Some None).

Lemma fill_slots_ok cs now ss ats :
  Forall config_wf cs -> filled now ss ats ->
  exists ss' ats', fill_slots cs now ss ats = Done (ss', ats') /\ filled now ss' ats' /\
    (NoDup (map config_id cs) ->
     forall c, c ∈ cs -> ss' !! Z.to_nat (config_id c) = Some (Some c)) /\
    (forall i, Z.of_nat i ∉ map config_id cs -> ss' !! i = ss !! i).
Proof.
  revert ss ats. induction cs as [|c cs IH]; intros ss ats Hwf (Hs & Ha & Hc & Hn).
  { exists ss, ats. split; [done|]. split; [done|]. split; [|done].
    intros _ c Hin. by apply not_elem_of_nil in Hin. }
  inversion Hwf as [|? ? Hwfc Hwfcs]; subst. pose proof (wf_id _ Hwfc) as Hid.
  cbn [fill_slots]. rewrite !set_at_in by (unfold len; lia).
  set (i := Z.to_nat (config_id c)).
  destruct (IH (<[i := Some c]> ss) (<[i := Some now]> ats) Hwfcs)
    as (ss' & ats' & Hf & Hfilled & Hin & Hout).
  { split; [by rewrite length_insert|]. split; [by rewrite length_insert|]. split.
    - intros j c' Hj. destruct (decide (i = j)) as [<-|Hne].
      + rewrite list_lookup_insert_eq in Hj by lia. injection Hj as <-.
        rewrite list_lookup_insert_eq by lia. split; [done|]. split; [lia|done].
      + rewrite list_lookup_insert_ne in Hj by done. rewrite list_lookup_insert_ne by done. auto.
    - intros j. destruct (decide (i = j)) as [<-|Hne].
      + rewrite !list_lookup_insert_eq by lia. naive_solver.
      + rewrite !list_lookup_insert_ne by done. auto. }
  exists ss', ats'. split; [done|]. split; [done|]. split.
  - cbn [map]. intros Hnd. apply NoDup_cons in Hnd as [Hnotin Hnd].
    intros c' Hc'. apply elem_of_cons in Hc' as [->|Hc']; [|by apply Hin].
    rewrite Hout; [apply list_lookup_insert_eq; lia|]. by rewrite Z2Nat.id by lia.
  - intros j Hj. cbn [map] in Hj. apply not_elem_of_cons in Hj as [Hj1 Hj2].
    rewrite Hout by done. apply list_lookup_insert_ne. intros <-. apply Hj1. lia.
Qed.

Lemma filled_empty now : filled now (replicate 7 None) (replicate 7 None).
Proof.
  split; [done|]. split; [done|]. split.
  - intros i c Hi. apply lookup_replicate in Hi as [? _]. done.
  - intros i. rewrite !lookup_replicate. naive_solver.
Qed.

(** ** Key ages *)

Lemma length_inherit_slots new old new_at old_at :
  length (inherit_slots new old new_at old_at) = length new_at.
Proof.
  revert old new_at old_at.
  induction new as [|n new IH]; intros [|o old] [|na new_at] [|oa old_at]; simpl; auto.
Qed.

Lemma inherit_slots_lookup new old new_at old_at i :
  length new = 7%nat -> length old = 7%nat -> length new_at = 7%nat -> length old_at = 7%nat ->
  inherit_slots new old new_at old_at !! i =
  match slot_get new i, slot_get old i with
  | Some nc, Some oc => if same_key (encryption nc) (encryption oc) then old_at !! i else new_at !! i
  | _, _ => new_at !! i
  end.
Proof.
  intros H1 H2 H3 H4.
  assert (Hlen : length new = length old /\ length new = length new_at /\ length new = length old_at)
    by lia. clear H1 H2 H3 H4. unfold slot_get.
  revert old new_at old_at i Hlen.
  induction new as [|n new IH]; intros [|o old] [|na new_at] [|oa old_at] i; simpl; intros (? & ? & ?);
    try discriminate; [done|].
  destruct i as [|i]; simpl.
  - destruct n, o; try done. by case_goal.
  - apply IH. lia.
Qed.

(** ** The fallback pool *)

Definition eligible (s : Server) : Prop :=
  s_healthy s = true /\ s_mac s <> None /\ s_draining s = false.

(** The pool after some servers were offered. *)
Definition pool_inv (offered pool : list Server) : Prop :=
  NoDup (map s_address pool) /\
  Forall (fun s => eligible s /\ s ∈ offered) pool /\
  (forall s, s ∈ offered -> eligible s -> s_address s ∈ map s_address pool).

Lemma existsb_address pool (a : IpAddr) :
  existsb (fun s' => bool_decide (s_address s' = a)) pool = true <-> a ∈ map s_address pool.
Proof.
  rewrite existsb_exists, list_elem_of_fmap. setoid_rewrite bool_decide_eq_true.
  setoid_rewrite <- list_elem_of_In. naive_solver.
Qed.

Lemma fallback_add_inv offered pool s :
  pool_inv offered pool -> pool_inv (offered ++ [s]) (fallback_add pool s).
Proof.
  intros (Hnd & Hall & Hcov). unfold fallback_add.
  destruct (s_healthy s && bool_decide (s_mac s <> None) && negb (s_draining s)) eqn:Ee; cbn [andb].
  2:{ split; [done|]. split.
      - eapply List.Forall_impl; [|exact Hall]. intros s' [? ?]. rewrite elem_of_app. auto.
      - intros s' Hs' (H1 & H2 & H3). apply elem_of_app in Hs' as [?| ->%list_elem_of_singleton]; [by apply Hcov|].
        rewrite H1, H3, bool_decide_eq_true_2 in Ee by done. done. }
  assert (He : eligible s) by (bools; done).
  destruct (existsb _ pool) eqn:Ex; cbn [negb].
  - apply existsb_address in Ex. split; [done|]. split.
    + eapply List.Forall_impl; [|exact Hall]. intros s' [? ?]. rewrite elem_of_app. auto.
    + intros s' Hs' Hel. apply elem_of_app in Hs' as [?| ->%list_elem_of_singleton]; [by apply Hcov|done].
  - assert (Hnot : s_address s ∉ map s_address pool) by (rewrite <- existsb_address; congruence).
    split; [|split].
    + rewrite map_app. apply list.NoDup_app. split; [done|]. split; [|apply NoDup_singleton].
      intros a Ha ->%list_elem_of_singleton. done.
    + apply Forall_app. split.
      * eapply List.Forall_impl; [|exact Hall]. intros s' [? ?]. rewrite elem_of_app. auto.
      * constructor; [|constructor]. split; [done|]. rewrite elem_of_app, list_elem_of_singleton. auto.
    + intros s' Hs' Hel. rewrite map_app, elem_of_app.
      apply elem_of_app in Hs' as [?| ->%list_elem_of_singleton]; [left; by apply Hcov|right; by left].
Qed.

Lemma foldl_fallback_inv l offered pool :
  pool_inv offered pool -> pool_inv (offered ++ l) (foldl fallback_add pool l).
Proof.
  revert offered pool. induction l as [|s l IH]; intros offered pool Hi; simpl.
  - by rewrite app_nil_r.
  - replace (offered ++ s :: l) with ((offered ++ [s]) ++ l) by by rewrite <- app_assoc.
    apply IH. by apply fallback_add_inv.
Qed.

Lemma rebuild_pool_inv t :
  pool_inv (concat (map servers (configs t))) (fallback_servers (rebuild_fallback_servers t)).
Proof.
  unfold rebuild_fallback_servers. simpl.
  assert (Hgen : forall cs offered pool, pool_inv offered pool ->
    pool_inv (offered ++ concat (map servers cs))
      (foldl (fun pool c => foldl fallback_add pool (servers c)) pool cs)).
  { induction cs as [|c cs IH]; intros offered pool Hi; simpl; [by rewrite app_nil_r|].
    rewrite app_assoc. apply IH. by apply foldl_fallback_inv. }
  apply (Hgen _ [] []). split; [constructor|]. split; [constructor|].
  intros s Hs. by apply not_elem_of_nil in Hs.
Qed.

(** ** Rotation warnings *)

(** The load time of a key that is past its maximum age. *)
Definition config_due (t : ConfigTable) (now : Instant) (c : RouteConfig) : option Instant :=
  match max_key_age_secs c, loaded_at t (config_id c) with
  | Some max, Some loaded => if key_age now loaded <=? Z.of_N max then None else Some loaded
  | _, _ => None
  end.

Definition due_warning (t : ConfigTable) (now : Instant) (warned : list (option Instant))
    (c : RouteConfig) : option warning :=
  match config_due t now c with
  | Some loaded =>
      if bool_decide (warned !! Z.to_nat (config_id c) = Some (Some loaded)) then None
      else Some (QlbKeyOld (config_id c) (key_age now loaded)
                   (Z.of_N (default 0%N (max_key_age_secs c))))
  | None => None
  end.

Definition mark_due (t : ConfigTable) (now : Instant) (warned : list (option Instant))
    (c : RouteConfig) : list (option Instant) :=
  match config_due t now c with
  | Some loaded => <[Z.to_nat (config_id c) := Some loaded]> warned
  | None => warned
  end.

Lemma length_mark_due t now warned c : length (mark_due t now warned c) = length warned.
Proof. unfold mark_due. case_goal; [apply length_insert|done]. Qed.

Lemma check_config_spec t now c warned log :
  length warned = 7%nat -> 0 <= config_id c <= 6 ->
  check_config t now c (warned, log) =
  Done (mark_due t now warned c,
        log ++ match due_warning t now warned c with Some w => [w] | None => [] end).
Proof.
  intros Hl Hid. unfold check_config, mark_due, due_warning, config_due.
  destruct (max_key_age_secs c) as [max|]; [|by rewrite app_nil_r].
  destruct (loaded_at t (config_id c)) as [loaded|]; [|by rewrite app_nil_r].
  destruct (key_age now loaded <=? Z.of_N max); [by rewrite app_nil_r|].
  rewrite idx_in by (unfold len; lia). unfold elt.
  destruct (lookup_lt_is_Some_2 warned (Z.to_nat (config_id c))) as [w Hw]; [lia|].
  rewrite (list_lookup_total_correct _ _ _ Hw), Hw.
  destruct (decide (w = Some loaded)) as [->|Hne].
  - rewrite !bool_decide_eq_true_2 by done. by rewrite list_insert_id, app_nil_r.
  - rewrite !bool_decide_eq_false_2 by congruence. by rewrite set_at_in by (unfold len; lia).
Qed.

Lemma mark_due_other t now warned c i :
  0 <= config_id c -> Z.of_nat i <> config_id c -> mark_due t now warned c !! i = warned !! i.
Proof.
  intros Hc Hi. unfold mark_due. case_goal; [|done]. apply list_lookup_insert_ne. lia.
Qed.

Lemma check_configs_spec t now cs warned log :
  length warned = 7%nat -> Forall (fun c => 0 <= config_id c <= 6) cs ->
  NoDup (map config_id cs) ->
  check_configs t now cs (warned, log) =
  Done (foldl (mark_due t now) warned cs, log ++ omap (due_warning t now warned) cs).
Proof.
  revert warned log. induction cs as [|c cs IH]; intros warned log Hl Hids Hnd.
  { simpl. by rewrite app_nil_r. }
  inversion Hids as [|? ? Hid Hids']; subst. cbn [map] in Hnd.
  apply NoDup_cons in Hnd as [Hnot Hnd]. cbn [check_configs].
  rewrite check_config_spec by done. rewrite IH by (try rewrite length_mark_due; done).
  cbn [foldl]. do 2 f_equal. rewrite <- app_assoc. f_equal.
  assert (omap (due_warning t now (mark_due t now warned c)) cs = omap (due_warning t now warned) cs) as ->.
  { apply list_omap_ext. clear -Hnot Hid Hids'. induction cs as [|c' cs IH]; [constructor|].
    inversion Hids'; subst. cbn [map] in Hnot. apply not_elem_of_cons in Hnot as [Hne Hnot].
    constructor; [|by apply IH]. unfold due_warning.
    rewrite mark_due_other; [done|lia|]. rewrite Z2Nat.id by lia. congruence. }
  simpl. by destruct (due_warning t now warned c).
Qed.

Lemma foldl_mark_due_lookup t now cs warned c loaded :
  length warned = 7%nat -> Forall (fun c => 0 <= config_id c <= 6) cs ->
  NoDup (map config_id cs) -> c ∈ cs -> config_due t now c = Some loaded ->
  foldl (mark_due t now) warned cs !! Z.to_nat (config_id c) = Some (Some loaded).
Proof.
  revert warned. induction cs as [|c' cs IH]; intros warned Hl Hids Hnd Hin Hdue.
  { by apply not_elem_of_nil in Hin. }
  inversion Hids as [|? ? Hid Hids']; subst. cbn [map] in Hnd.
  apply NoDup_cons in Hnd as [Hnot Hnd]. cbn [foldl].
  apply elem_of_cons in Hin as [->|Hin]; [|apply IH; by rewrite ?length_mark_due].
  assert (Hkeep : forall w, foldl (mark_due t now) w cs !! Z.to_nat (config_id c')
    = w !! Z.to_nat (config_id c')).
  { clear -Hnot Hid Hids'. induction cs as [|d cs IH]; intros w; [done|]. simpl.
    inversion Hids'; subst. cbn [map] in Hnot. apply not_elem_of_cons in Hnot as [Hne Hnot].
    rewrite IH by done. apply mark_due_other; [lia|]. rewrite Z2Nat.id by lia. congruence. }
  rewrite Hkeep. unfold mark_due. rewrite Hdue. apply list_lookup_insert_eq. lia.
Qed.

Lemma foldl_mark_due_id t now cs warned :
  (forall c loaded, c ∈ cs -> config_due t now c = Some loaded ->
     warned !! Z.to_nat (config_id c) = Some (Some loaded)) ->
  foldl (mark_due t now) warned cs = warned /\ omap (due_warning t now warned) cs = [].
Proof.
  induction cs as [|c cs IH]; intros Hw; [done|]. cbn [foldl].
  destruct IH as [IH1 IH2]; [intros; apply Hw; [by right|done]|].
  assert (Ho : omap (due_warning t now warned) (c :: cs) =
    match due_warning t now warned c with Some w => w :: omap (due_warning t now warned) cs
    | None => omap (due_warning t now warned) cs end) by done.
  rewrite Ho, IH2. unfold mark_due at 2, due_warning.
  destruct (config_due t now c) as [loaded|] eqn:E; [|done].
  pose proof (Hw c loaded ltac:(left) E) as Hc.
  by rewrite list_insert_id, bool_decide_eq_true_2 by done.
Qed.

Lemma configs_ids t :
  table_wf t -> Forall (fun c => 0 <= config_id c <= 6) (configs t) /\ NoDup (map config_id (configs t)).
Proof.
  intros [Hl _ Hc _ _]. split.
  - rewrite list.Forall_forall. intros c [i Hi]%elem_of_configs.
    by apply Hc in Hi as [[? _ _ _ _ _ _] _].
  - assert (Hgen : forall (l : list (option RouteConfig)) k,
      (forall i c, l !! i = Some (Some c) -> config_id c = Z.of_nat (k + i)) ->
      NoDup (map config_id (omap id l)) /\ Forall (fun z => Z.of_nat k <= z) (map config_id (omap id l))).
    { induction l as [|o l IH]; intros k Hk; [split; constructor|].
      destruct (IH (S k)) as [Hnd Hge].
      { intros i c Hi. rewrite (Hk (S i) c Hi). lia. }
      assert (Hge' : Forall (fun z => Z.of_nat k <= z) (map config_id (omap id l))).
      { eapply List.Forall_impl; [|exact Hge]. simpl. lia. }
      destruct o as [c|]; simpl; [|done]. pose proof (Hk 0%nat c eq_refl) as Hid. split.
      - constructor; [|done]. intros Hin. rewrite list.Forall_forall in Hge.
        specialize (Hge _ Hin). simpl in Hge. lia.
      - constructor; [lia|done]. }
    apply (Hgen (slots t) 0%nat). intros i c Hi. by apply Hc in Hi as [_ ->].
Qed.

Lemma configs_id_inj t c c' :
  table_wf t -> c ∈ configs t -> c' ∈ configs t -> config_id c = config_id c' -> c = c'.
Proof.
  intros [_ _ Hc _ _] [i Hi]%elem_of_configs [j Hj]%elem_of_configs Hid.
  destruct (Hc _ _ Hi) as [_ Hci], (Hc _ _ Hj) as [_ Hcj].
  assert (i = j) as -> by lia. congruence.
Qed.

(** The part of [check_at] about the Retry key: the mark and the log after it. *)
Definition check_retry (t : ConfigTable) (now : Instant) (mark : option Instant)
    (log : list warning) : option Instant * list warning :=
  match retry t with
  | Some r =>
      match r_max_key_age_secs r with
      | Some max =>
          let age := key_age now (r_loaded_at r) in
          if (Z.of_N max <? age) && negb (bool_decide (mark = Some (r_loaded_at r)))
          then (Some (r_loaded_at r), log ++ [RetryKeyOld age (Z.of_N max)])
          else (mark, log)
      | None => (mark, log)
      end
  | None => (mark, log)
  end.

Lemma check_retry_log t now mark log id age max :
  QlbKeyOld id age max ∈ (check_retry t now mark log).2 <-> QlbKeyOld id age max ∈ log.
Proof.
  unfold check_retry. repeat case_goal; try done. simpl.
  rewrite elem_of_app, list_elem_of_singleton. naive_solver.
Qed.

(** ** Packets that carry a CID *)

Definition short_packet (b0 : byte) (cid rest : list byte) : list byte := b0 :: cid ++ rest.

Definition long_packet (b0 : byte) (version cid rest : list byte) : list byte :=
  b0 :: version ++ b8 (len cid) :: cid ++ rest.

(** The packet forms a CID can arrive in as destination. *)
Inductive carries (cid : list byte) : list byte -> Prop :=
| carries_short b0 rest : has_bits b0 0x80 = false -> carries cid (short_packet b0 cid rest)
| carries_long b0 v rest :
    has_bits b0 0x80 = true -> len v = 4 -> len cid <= 255 ->
    carries cid (long_packet b0 v cid rest).

Lemma carries_octet cid quic :
  carries cid quic -> 1 <= len cid -> first_cid_octet quic = Done (Some (elt cid 0)).
Proof.
  intros Hc Hl. destruct cid as [|o cid]; [by rewrite len_nil in Hl|].
  destruct Hc as [b0 rest Hb|b0 v rest Hb Hv Hmax]; unfold first_cid_octet.
  - set (q := short_packet b0 (o :: cid) rest).
    assert (Hq : len q = 2 + len (cid ++ rest)) by (unfold q, short_packet; llia). pose_len.
    assert (idx q 0 = Done b0 /\ idx q 1 = Done o) as [-> ->] by done.
    rewrite Hb. case_goal; [lia|]. by case_goal; [lia|].
  - unfold len in Hv. destruct v as [|v1 [|v2 [|v3 [|v4 [|]]]]]; try (simpl in Hv; lia).
    set (q := long_packet b0 [v1; v2; v3; v4] (o :: cid) rest).
    assert (Hq : len q = 7 + len (cid ++ rest)) by (unfold q, long_packet; llia). pose_len.
    assert (idx q 0 = Done b0 /\ idx q 5 = Done (b8 (len (o :: cid))) /\ idx q 6 = Done o)
      as (-> & -> & ->) by done.
    rewrite Hb, u8_b8_small by lia. case_goal; [lia|]. case_goal; [lia|]. by case_goal; [lia|].
Qed.

Lemma carries_dcid cid quic n :
  carries cid quic -> 1 <= len cid -> len cid = n -> extract_raw_dcid quic n = Done (Some cid).
Proof.
  intros Hc Hl Hn. rewrite extract_raw_dcid_spec by lia.
  destruct Hc as [b0 rest Hb|b0 v rest Hb Hv Hmax]; unfold dcid_spec.
  - unfold short_packet. rewrite Hb. rewrite len_app.
    destruct (n <=? len cid + len rest) eqn:E; [|llia].
    rewrite take_app_length' by (unfold len in *; lia). by destruct cid.
  - unfold len in Hv. destruct v as [|v1 [|v2 [|v3 [|v4 [|]]]]]; try (simpl in Hv; lia).
    unfold long_packet. cbn [app drop]. rewrite Hb. rewrite u8_b8_small by llia.
    rewrite len_app. case_goal; [|llia].
    rewrite take_app_length' by (unfold len in *; lia). by destruct cid.
Qed.

Lemma lookup_config_carries t config cid quic :
  config_wf config -> table_get t (config_id config) = Some config ->
  len cid = cid_length config -> Z.shiftr (u8 (elt cid 0)) 5 = config_id config ->
  carries cid quic -> lookup_config quic t = Done (Some (cid, config)).
Proof.
  intros Hwf Hget Hl Hid Hc. destruct (cid_lengths _ Hwf) as [_ Hcl].
  pose proof Hwf as [? ? ? _ _ _ _]. unfold lookup_config.
  rewrite (carries_octet cid quic) by (done || lia). rewrite Hid.
  case_goal; [lia|]. rewrite Hget. by rewrite (carries_dcid cid) by (done || lia).
Qed.

Lemma lookup_config_returns quic t : table_wf t -> returns (lookup_config quic t).
Proof.
  intros [_ _ Hc _ _]. unfold lookup_config.
  destruct (first_cid_octet_returns quic) as [[o|] ->]; [|eauto with pesi].
  case_goal; [eauto with pesi|]. destruct (table_get t _) as [c|] eqn:Eg; [|eauto with pesi].
  assert (Hwf : config_wf c).
  { unfold table_get, slot_get in Eg. destruct (slots t !! _) as [s|] eqn:Es; [|done]. subst s.
    by apply Hc in Es as []. }
  destruct (cid_lengths _ Hwf) as [_ Hl]. destruct Hwf as [_ ? ? _ _ _ _].
  rewrite extract_raw_dcid_spec by lia. destruct (dcid_spec _ _); eauto with pesi.
Qed.

End table.
Arguments TableRoute {_ _} e.
Arguments TableRetry {_ _} e.

Lemma table_from_str_ok `{Aes128} {IoE TomlE}
    (toml_routes : str -> result (list RawConfig) TomlE)
    (toml_retry : str -> result (option RawRetry) TomlE)
    (now : Instant) (tracker : tracker_ref) (text : str) (t : ConfigTable) :
  table_from_str (IoError := IoE) toml_routes toml_retry now tracker text = Done (Ok t) ->
  table_wf t /\ fallback_servers t = [] /\
  exists cs, parse_routes (IoError := IoE) toml_routes text = Done (Ok cs) /\
    (forall c, c ∈ cs -> table_get t (config_id c) = Some c /\ loaded_at t (config_id c) = Some now) /\
    (forall i, i ∉ map config_id cs -> 0 <= i -> table_get t i = None).
Proof.
  unfold table_from_str, rs_map_err.
  destruct (parse_routes toml_routes text) as [[cs|?]|] eqn:Ep; cbn [map_err]; try done.
  pose proof (parse_routes_facts toml_routes text cs Ep) as [Hnd Hwf].
  destruct (fill_slots_ok cs now _ _ Hwf (filled_empty now)) as (ss & ats & -> & Hf & Hin & Hout).
  destruct (toml_retry text) as [wrapper|?]; [|done].
  set (rt := match wrapper with None => _ | Some _ => _ end).
  assert (Hrt : forall r, rt = Done (Ok r) -> forall rc, r = Some rc -> retry_wf rc).
  { intros r Hr rc ->. unfold rt in Hr. destruct wrapper as [raw|]; [|done].
    destruct (retry_validate tracker now raw) as [[r|?]|] eqn:Er; simpl in Hr; try done.
    injection Hr as <-. by apply retry_validate_wf in Er. }
  destruct rt as [[r|?]|]; try done. intros [= <-].
  destruct Hf as (Hs & Ha & Hc & Hn). split; [|split; [done|]].
  - constructor; simpl; try done; [|by apply (Hrt r)]. intros i c Hi. by apply Hc in Hi as (? & ? & ?).
  - exists cs. split; [done|]. split.
    + intros c Hc'. pose proof (Hin Hnd c Hc') as Hi. destruct (Hc _ _ Hi) as (_ & _ & Hat).
      unfold table_get, slot_get, loaded_at. simpl. by rewrite Hi, Hat.
    + intros i Hi Hpos. unfold table_get, slot_get. simpl.
      rewrite Hout by (by rewrite Z2Nat.id by lia). destruct (replicate 7 None !! _) eqn:E; [|done].
      by apply lookup_replicate in E as [-> _].
Qed.

(** ** Properties *)

(** End to end: a CID issued by a server is routed by the balancer.  With
    the server's configuration in its slot, a packet carrying an issued CID as
    destination, with a short or a long header, selects that configuration and
    resolves to the entry with the issuing server's id. *)
Theorem issued_cid_selects_server `{AesLaws} (t : ConfigTable) (config : RouteConfig)
    (e : QuicLbEncoder) (nonce : list byte) (rnd : byte) :
  config_wf config -> nonce_fits config -> encoder_matches e config ->
  len nonce = nonce_length config -> table_get t (config_id config) = Some config ->
  exists cid, encode_to_vec e nonce rnd = Done cid /\
    forall quic, carries cid quic ->
      lookup_config quic t = Done (Some (cid, config)) /\
      resolve_server_idx cid config = Done (find_server_idx config (e_server_id e)).
Proof.
  intros Hwf Hfit Hm Hn Hget.
  destruct (cid_roundtrip_lemma e config nonce rnd Hwf Hfit Hm Hn) as (cid & He & Hl & Hid & Hr).
  exists cid. split; [done|]. intros quic Hc. split; [|done]. by apply lookup_config_carries.
Qed.

(** C38.  A table read from a file is well formed: every configuration of the
    file sits, validated, in the slot of its config id with the load time
    stamped, the other slots are empty, the Retry settings are consistent, and
    the fallback pool is empty until the first health check. *)
Theorem table_from_str_sound `{Aes128} {IoE TomlE}
    (toml_routes : str -> result (list RawConfig) TomlE)
    (toml_retry : str -> result (option RawRetry) TomlE)
    (now : Instant) (tracker : tracker_ref) (text : str) (t : ConfigTable) :
  table_from_str (IoError := IoE) toml_routes toml_retry now tracker text = Done (Ok t) ->
  table_wf t /\ fallback_servers t = [] /\
  exists cs, parse_routes (IoError := IoE) toml_routes text = Done (Ok cs) /\
    (forall c, c ∈ cs -> table_get t (config_id c) = Some c /\ loaded_at t (config_id c) = Some now) /\
    (forall i, i ∉ map config_id cs -> 0 <= i -> table_get t i = None).
Proof. apply table_from_str_ok. Qed.

(** The fallback pool after a rebuild: every member is a configured server
    that is healthy, has a MAC and is not draining; no address occurs twice; and
    the address of every such server is in the pool. *)
Theorem rebuild_fallback_exact `{Aes128} (t : ConfigTable) :
  let pool := fallback_servers (rebuild_fallback_servers t) in
  let all := concat (map servers (configs t)) in
  NoDup (map s_address pool) /\
  Forall (fun s => eligible s /\ s ∈ all) pool /\
  (forall s, s ∈ all -> eligible s -> s_address s ∈ map s_address pool).
Proof. apply rebuild_pool_inv. Qed.

(** A reload moves the age of a key only when the key changes: a slot keeps
    the load time of the previous table exactly when both tables have a
    configuration there with the same mode and key, and the Retry key keeps its
    load time exactly when its bytes are the same; nothing else is touched. *)
Theorem inherit_ages_exact `{Aes128} (self prev : ConfigTable) (i : Z) :
  table_wf self -> table_wf prev -> 0 <= i ->
  let t := inherit_ages_from self prev in
  loaded_at t i =
    (match table_get self i, table_get prev i with
     | Some n, Some o => if same_key (encryption n) (encryption o) then loaded_at prev i
                         else loaded_at self i
     | _, _ => loaded_at self i
     end) /\
  (forall n o, retry self = Some n -> retry prev = Some o ->
     exists r, retry t = Some r /\
       r_loaded_at r = (if bool_decide (r_token_key n = r_token_key o) then r_loaded_at o
                        else r_loaded_at n)) /\
  slots t = slots self /\ fallback_servers t = fallback_servers self /\ path t = path self.
Proof.
  intros [Hs1 Ha1 _ _ _] [Hs2 Ha2 _ _ _] Hi t. split; [|split; [|done]].
  - unfold t, loaded_at, table_get. simpl. rewrite inherit_slots_lookup by done.
    by repeat case_goal.
  - intros n o Hn Ho. unfold t. simpl. rewrite Hn, Ho. eexists. split; [done|].
    unfold inherit_age_from, token_same_key. destruct (r_token_key n) as [kn], (r_token_key o) as [ko].
    simpl. destruct (decide (kn = ko)) as [->|Hne].
    + by rewrite !bool_decide_eq_true_2.
    + by rewrite !bool_decide_eq_false_2 by congruence.
Qed.

(** One warning per key generation: a check of a well-formed table never
    panics; it warns about the key of a slot exactly when the key is past its
    maximum age and this load of it has not been warned about; and a second
    check at the same time warns about nothing. *)
Theorem key_age_warns_once `{Aes128} (w : KeyAgeWarner) (t : ConfigTable) (now : Instant) :
  table_wf t -> length (qlb_warned_for w) = 7%nat ->
  exists w' log, check_at w t now = Done (w', log) /\
    (forall c age max, c ∈ configs t ->
       QlbKeyOld (config_id c) age max ∈ log ->
       exists l, config_due t now c = Some l /\
         qlb_warned_for w !! Z.to_nat (config_id c) <> Some (Some l)) /\
    (forall c l, c ∈ configs t -> config_due t now c = Some l ->
       qlb_warned_for w' !! Z.to_nat (config_id c) = Some (Some l) /\
       (qlb_warned_for w !! Z.to_nat (config_id c) <> Some (Some l) ->
        exists age max, QlbKeyOld (config_id c) age max ∈ log)) /\
    check_at w' t now = Done (w', []).
Proof.
  intros Hwf Hl. destruct (configs_ids t Hwf) as [Hids Hnd]. unfold check_at at 1.
  rewrite check_configs_spec by done. rewrite app_nil_l.
  set (warned := foldl (mark_due t now) (qlb_warned_for w) (configs t)).
  set (log := omap (due_warning t now (qlb_warned_for w)) (configs t)).
  assert (Hmark : forall c l, c ∈ configs t -> config_due t now c = Some l ->
    warned !! Z.to_nat (config_id c) = Some (Some l)).
  { intros c l Hc Hdue. by apply foldl_mark_due_lookup. }
  destruct (foldl_mark_due_id t now (configs t) warned Hmark) as [Hid Hnone].
  assert (Hlw : length warned = 7%nat).
  { unfold warned. clear -Hl. revert Hl. generalize (qlb_warned_for w).
    induction (configs t) as [|c cs IH]; intros l Hl; [done|]. simpl. apply IH. by rewrite length_mark_due. }
  set (r := check_retry t now (retry_warned_for w) log).
  exists (mkWarner warned r.1), r.2. split; [|split; [|split]].
  - unfold r, check_retry. by repeat case_goal.
  - intros c age max Hc Hin. apply check_retry_log in Hin. unfold log in Hin.
    apply list_elem_of_omap in Hin as (c' & Hc' & Hw). unfold due_warning in Hw.
    destruct (config_due t now c') as [l|] eqn:Ed; [|done]. case_bool_decide; [done|].
    assert (c' = c) as -> by (eapply configs_id_inj; [done..|]; congruence). eauto.
  - intros c l Hc Hdue. split; [by apply Hmark|]. intros Hnw. do 2 eexists.
    apply check_retry_log. apply list_elem_of_omap. exists c. split; [done|].
    unfold due_warning. rewrite Hdue. by rewrite bool_decide_eq_false_2.
  - unfold check_at. cbn [qlb_warned_for retry_warned_for].
    rewrite check_configs_spec by done. rewrite Hid, Hnone, app_nil_r.
    unfold r, check_retry. destruct (retry t) as [rc|]; [|done].
    destruct (r_max_key_age_secs rc) as [m|]; [|done].
    destruct (Z.of_N m <? key_age now (r_loaded_at rc)); simpl; [|done].
    destruct (bool_decide (retry_warned_for w = _)) eqn:Eb; simpl; bools.
    + by rewrite bool_decide_eq_true_2.
    + by rewrite bool_decide_eq_true_2.
Qed.


#[local] Existing Instance xor_aes.
#[local] Existing Instance xor_aes_laws.

Definition example_read (now : Instant) : rs (result ConfigTable (table_error unit unit)) :=
  table_from_str (fun _ => Ok [four_pass_raw; example_raw]) (fun _ => Ok (Some example_raw_retry))
    now 1%positive [].

Definition example_table (now : Instant) : ConfigTable :=
  match example_read now with
  | Done (Ok t) => t
  | _ => mkTable [] [] [] [] None
  end.

Lemma table_from_str_sound_witness :
  table_wf (example_table 5) /\ fallback_servers (example_table 5) = [].
Proof.
  destruct (table_from_str_sound (IoE := unit) (TomlE := unit) (fun _ => Ok [four_pass_raw; example_raw])
    (fun _ => Ok (Some example_raw_retry)) 5 1%positive [] (example_table 5)) as (Hwf & Hf & _).
  - vm_compute. reflexivity.
  - split; [exact Hwf|exact Hf].
Defined.

Lemma example_read_ok (now : Instant) : example_read now = Done (Ok (example_table now)).
Proof. vm_compute. reflexivity. Qed.

Lemma example_table_wf (now : Instant) : table_wf (example_table now).
Proof. exact (proj1 (table_from_str_ok _ _ _ _ _ _ (example_read_ok now))). Qed.

Lemma issued_cid_selects_server_witness :
  exists cid, encode_to_vec four_pass_encoder [1; 2; 3; 4; 5; 6]%u8 0%u8 = Done cid /\
    lookup_config (0x40%u8 :: cid ++ [9]%u8) (example_table 0) = Done (Some (cid, four_pass_config)) /\
    resolve_server_idx cid four_pass_config = Done (Some 1%nat).
Proof.
  destruct (issued_cid_selects_server (example_table 0) four_pass_config four_pass_encoder
    [1; 2; 3; 4; 5; 6]%u8 0%u8) as (cid & He & Hc).
  - exact four_pass_config_wf.
  - vm_compute. discriminate.
  - split; vm_compute; reflexivity.
  - vm_compute. reflexivity.
  - vm_compute. reflexivity.
  - exists cid. split; [exact He|].
    destruct (Hc (short_packet 0x40%u8 cid [9]%u8)) as [Hl Hr]; [apply carries_short; reflexivity|].
    split; [exact Hl|]. rewrite Hr. vm_compute. reflexivity.
Defined.

Lemma inherit_ages_exact_witness :
  loaded_at (inherit_ages_from (example_table 9) (example_table 5)) 3 = Some 5.
Proof.
  destruct (inherit_ages_exact (example_table 9) (example_table 5) 3
    (example_table_wf 9) (example_table_wf 5)) as [Hl _]; [discriminate|].
  rewrite Hl. vm_compute. reflexivity.
Defined.

(** The single-pass key of slot 2 has a maximum age of an hour. *)
Lemma key_age_warns_once_witness :
  exists w' log, check_at warner_new (example_table 0) (from_secs 3601) = Done (w', log) /\
    check_at w' (example_table 0) (from_secs 3601) = Done (w', []).
Proof.
  destruct (key_age_warns_once warner_new (example_table 0) (from_secs 3601) (example_table_wf 0))
    as (w' & log & Hc & _ & _ & Hagain); [reflexivity|].
  exists w', log. split; [exact Hc|exact Hagain].
Defined.
