(* ===== verification/Frame.v ===== *)
(** * Frame parsing

    Models the parsing half of [pesigitg-daemon/src/packet.rs]: Ethernet, IPv4
    and IPv6 (with extension headers), UDP, and ICMP errors that echo a UDP
    packet.  Every index and slice is the panicking one; the theorems show that
    none of them fails and that the offsets handed on are inside the frame, up
    to the one place where they need not be. *)

From S2P Require Import Prelude Std Common ConnTable.

Inductive IpFamily := Ipv4 | Ipv6.

Inductive L4 :=
| Udp (udp_offset quic_offset src_port dst_port : Z)
| Icmp (inner_quic_offset : Z) (reversed_flow : FlowKey).

Record ParsedFrame := mkParsed {
  family : IpFamily;
  ip_hdr_len : Z;
  src_mac : mac;
  pf_src_addr : IpAddr;
  pf_dst_addr : IpAddr;
  l4 : L4;
}.

(** [u16::from_be_bytes([frame[i], frame[i + 1]])] *)
Definition read_u16 (frame : list byte) (i : Z) : rs Z :=
  let* a := idx frame i in let* b := idx frame (i + 1) in Done (be16 a b).

(** [Ipv4Addr::new(frame[i], .., frame[i + 3])] *)
Definition read_ipv4 (frame : list byte) (i : Z) : rs IpAddr :=
  let* a := idx frame i in let* b := idx frame (i + 1) in
  let* c := idx frame (i + 2) in let* d := idx frame (i + 3) in
  Done (V4 [a; b; c; d]).

(** Sixteen octets copied into an array, as an address. *)
Definition read_ipv6 (frame : list byte) (i : Z) : rs IpAddr :=
  let* s := slice frame i (i + 16) in
  let* o := copy_to (zeros 16) 0 16 s in
  Done (V6 o).

Definition parse_frame_icmp_ipv4 (frame : list byte) (src_mac : mac) (outer_ihl : Z)
    (src_addr dst_addr : IpAddr) : rs (option ParsedFrame) :=
  let icmp_offset := ETH_HDR_LEN + outer_ihl in
  if len frame <? icmp_offset + ICMP_HDR_LEN then Done None
  else
    let* ty := idx frame icmp_offset in
    if negb (u8 ty =? ICMP_DEST_UNREACH) && negb (u8 ty =? ICMP_TIME_EXCEEDED) then Done None
    else
      let inner_ip_offset := icmp_offset + ICMP_HDR_LEN in
      if len frame <? inner_ip_offset + IPV4_MIN_HDR_LEN then Done None
      else
        let* b := idx frame inner_ip_offset in
        let inner_ihl := Z.land (u8 b) 0x0F * 4 in
        if inner_ihl <? IPV4_MIN_HDR_LEN then Done None
        else
          let* proto := idx frame (inner_ip_offset + 9) in
          if negb (u8 proto =? IPPROTO_UDP) then Done None
          else
            let inner_udp_offset := inner_ip_offset + inner_ihl in
            let inner_quic_offset := inner_udp_offset + UDP_HDR_LEN in
            if len frame <? inner_udp_offset + 4 then Done None
            else
              let* inner_src := read_ipv4 frame (inner_ip_offset + 12) in
              let* inner_dst := read_ipv4 frame (inner_ip_offset + 16) in
              let* inner_src_port := read_u16 frame inner_udp_offset in
              let* inner_dst_port := read_u16 frame (inner_udp_offset + 2) in
              Done (Some (mkParsed Ipv4 outer_ihl src_mac src_addr dst_addr
                (Icmp inner_quic_offset
                   (mkFlowKey inner_dst inner_src inner_dst_port inner_src_port)))).

(** The UDP case shared by both families: the header has to fit the frame. *)
Definition parse_udp (frame : list byte) (fam : IpFamily) (hdr_len : Z) (src_mac : mac)
    (src_addr dst_addr : IpAddr) (udp_offset : Z) : rs (option ParsedFrame) :=
  let quic_offset := udp_offset + UDP_HDR_LEN in
  if len frame <? quic_offset then Done None
  else
    let* src_port := read_u16 frame udp_offset in
    let* dst_port := read_u16 frame (udp_offset + 2) in
    Done (Some (mkParsed fam hdr_len src_mac src_addr dst_addr
                  (Udp udp_offset quic_offset src_port dst_port))).

Definition parse_frame_ipv4 (frame : list byte) (src_mac : mac) : rs (option ParsedFrame) :=
  if len frame <? ETH_HDR_LEN + IPV4_MIN_HDR_LEN then Done None
  else
    let* b := idx frame ETH_HDR_LEN in
    let ihl := Z.land (u8 b) 0x0F * 4 in
    if ihl <? IPV4_MIN_HDR_LEN then Done None
    else
      let* protocol := idx frame (ETH_HDR_LEN + 9) in
      let* src_addr := read_ipv4 frame (ETH_HDR_LEN + 12) in
      let* dst_addr := read_ipv4 frame (ETH_HDR_LEN + 16) in
      if u8 protocol =? IPPROTO_UDP then
        parse_udp frame Ipv4 ihl src_mac src_addr dst_addr (ETH_HDR_LEN + ihl)
      else if u8 protocol =? IPPROTO_ICMP then
        parse_frame_icmp_ipv4 frame src_mac ihl src_addr dst_addr
      else Done None.

(** The loop over extension headers, [n] iterations left; it breaks at a
    protocol for which [stop] holds, and falls out of the loop after the last
    iteration with whatever header is next. *)
Fixpoint walk_ext (n : nat) (stop : Z -> bool) (frame : list byte) (next_hdr offset : Z)
    : rs (option (Z * Z)) :=
  match n with
  | O => Done (Some (next_hdr, offset))
  | S n' =>
      if stop next_hdr then Done (Some (next_hdr, offset))
      else if next_hdr =? IPPROTO_FRAGMENT then
        if len frame <=? offset then Done None
        else
          let* nh := idx frame offset in
          walk_ext n' stop frame (u8 nh) (offset + 8)
      else if (next_hdr =? IPPROTO_HOPOPTS) || (next_hdr =? IPPROTO_ROUTING)
              || (next_hdr =? IPPROTO_DSTOPTS) then
        if len frame <=? offset + 1 then Done None
        else
          let* nh := idx frame offset in
          let* l := idx frame (offset + 1) in
          walk_ext n' stop frame (u8 nh) (offset + (u8 l + 1) * 8)
      else Done None
  end.

Definition outer_stop (nh : Z) : bool := (nh =? IPPROTO_UDP) || (nh =? IPPROTO_ICMPV6).
Definition inner_stop (nh : Z) : bool := nh =? IPPROTO_UDP.

Definition parse_frame_icmpv6 (frame : list byte) (src_mac : mac) (ip_hdr_len : Z)
    (src_addr dst_addr : IpAddr) (icmp_offset : Z) : rs (option ParsedFrame) :=
  if len frame <? icmp_offset + ICMP_HDR_LEN then Done None
  else
    let* ty := idx frame icmp_offset in
    if negb (u8 ty =? ICMPV6_DEST_UNREACH) && negb (u8 ty =? ICMPV6_PACKET_TOO_BIG)
       && negb (u8 ty =? ICMPV6_TIME_EXCEEDED) then Done None
    else
      let inner_ip_offset := icmp_offset + ICMP_HDR_LEN in
      if len frame <? inner_ip_offset + IPV6_HDR_LEN then Done None
      else
        let* inner_src := read_ipv6 frame (inner_ip_offset + 8) in
        let* inner_dst := read_ipv6 frame (inner_ip_offset + 24) in
        let* nh := idx frame (inner_ip_offset + 6) in
        let*? (inner_next_hdr, inner_offset) :=
          walk_ext MAX_IPV6_EXT_HDRS inner_stop frame (u8 nh) (inner_ip_offset + IPV6_HDR_LEN) in
        if negb (inner_next_hdr =? IPPROTO_UDP) then Done None
        else if len frame <? inner_offset + 4 then Done None
        else
          let* inner_src_port := read_u16 frame inner_offset in
          let* inner_dst_port := read_u16 frame (inner_offset + 2) in
          let inner_quic_offset := inner_offset + UDP_HDR_LEN in
          Done (Some (mkParsed Ipv6 ip_hdr_len src_mac src_addr dst_addr
            (Icmp inner_quic_offset
               (mkFlowKey inner_dst inner_src inner_dst_port inner_src_port)))).

Definition parse_frame_ipv6 (frame : list byte) (src_mac : mac) : rs (option ParsedFrame) :=
  if len frame <? ETH_HDR_LEN + IPV6_HDR_LEN then Done None
  else
    let* src_addr := read_ipv6 frame (ETH_HDR_LEN + 8) in
    let* dst_addr := read_ipv6 frame (ETH_HDR_LEN + 24) in
    let* nh := idx frame (ETH_HDR_LEN + 6) in
    let*? (next_hdr, offset) :=
      walk_ext MAX_IPV6_EXT_HDRS outer_stop frame (u8 nh) (ETH_HDR_LEN + IPV6_HDR_LEN) in
    let ip_hdr_len := offset - ETH_HDR_LEN in
    if next_hdr =? IPPROTO_UDP then
      parse_udp frame Ipv6 ip_hdr_len src_mac src_addr dst_addr offset
    else if next_hdr =? IPPROTO_ICMPV6 then
      parse_frame_icmpv6 frame src_mac ip_hdr_len src_addr dst_addr offset
    else Done None.

Definition parse_frame (frame : list byte) : rs (option ParsedFrame) :=
  if len frame <? ETH_HDR_LEN then Done None
  else
    let* m := slice frame 6 12 in
    let* src_mac := copy_to (zeros 6) 0 6 m in
    let* ethertype := read_u16 frame 12 in
    if ethertype =? ETH_P_IP then parse_frame_ipv4 frame src_mac
    else if ethertype =? ETH_P_IPV6 then parse_frame_ipv6 frame src_mac
    else Done None.

(** ** Reads inside the frame *)

Lemma read_u16_in frame i :
  0 <= i -> i + 2 <= len frame -> read_u16 frame i = Done (be16 (elt frame i) (elt frame (i + 1))).
Proof. intros. unfold read_u16. by rewrite !idx_in by lia. Qed.

Lemma read_ipv4_in frame i :
  0 <= i -> i + 4 <= len frame -> read_ipv4 frame i = Done (V4 (sub frame i (i + 4))).
Proof.
  intros. unfold read_ipv4. rewrite !idx_in by lia. do 2 f_equal.
  rewrite !sub_succ by lia. rewrite <- !Z.add_assoc. simpl. by rewrite sub_nil.
Qed.

Lemma copy_whole (l src : list byte) n : len l = n -> len src = n -> copy_to l 0 n src = Done src.
Proof.
  intros Hl Hs. rewrite copy_to_in by (pose_len; lia).
  rewrite splice_0, drop_ge by (unfold len in *; lia). by rewrite app_nil_r.
Qed.

Lemma read_ipv6_in frame i :
  0 <= i -> i + 16 <= len frame -> read_ipv6 frame i = Done (V6 (sub frame i (i + 16))).
Proof.
  intros. unfold read_ipv6. rewrite slice_in by lia.
  by rewrite copy_whole by (rewrite ?len_zeros, ?len_sub; lia).
Qed.

Lemma ihl_range b : 0 <= Z.land (u8 b) 0x0F * 4 <= 60.
Proof.
  change 0x0F with (Z.ones 4). rewrite Z.land_ones by lia.
  pose proof (Z.mod_pos_bound (u8 b) (2 ^ 4) ltac:(lia)). lia.
Qed.

(** ** Where a parsed frame's fields lie *)

Definition flow_wf (f : FlowKey) : Prop :=
  ip_wf (src_addr f) /\ ip_wf (dst_addr f) /\ 0 <= src_port f < 65536 /\ 0 <= dst_port f < 65536.

Definition l4_wf (frame : list byte) (p : ParsedFrame) : Prop :=
  match l4 p with
  | Udp u q sp dp => u = 14 + ip_hdr_len p /\ q = u + 8 /\ q <= len frame /\
      be16 (elt frame u) (elt frame (u + 1)) = sp /\
      be16 (elt frame (u + 2)) (elt frame (u + 3)) = dp
  | Icmp q f => 14 + ip_hdr_len p + 8 < q - 4 /\ q - 4 <= len frame /\ flow_wf f
  end.

Definition parsed_wf (frame : list byte) (p : ParsedFrame) : Prop :=
  14 <= len frame /\ src_mac p = sub frame 6 12 /\
  (match family p with
   | Ipv4 => 20 <= ip_hdr_len p <= 60 /\
       pf_src_addr p = V4 (sub frame 26 30) /\ pf_dst_addr p = V4 (sub frame 30 34)
   | Ipv6 => 40 <= ip_hdr_len p /\
       pf_src_addr p = V6 (sub frame 22 38) /\ pf_dst_addr p = V6 (sub frame 38 54)
   end) /\ l4_wf frame p.

(** Every parser step returns, and what it returns satisfies the invariant. *)
Definition parses (frame : list byte) (P : ParsedFrame -> Prop) (m : rs (option ParsedFrame)) : Prop :=
  m = Done None \/ exists p, m = Done (Some p) /\ P p.

Lemma parses_None frame P : parses frame P (Done None).
Proof. by left. Qed.

#[local] Hint Resolve parses_None : core.

Ltac frame_consts :=
  unfold ETH_HDR_LEN, ICMP_HDR_LEN, IPV4_MIN_HDR_LEN, IPV6_HDR_LEN, UDP_HDR_LEN in *.

Lemma parse_udp_wf frame fam hdr sm sa da off :
  off = 14 + hdr -> 0 <= hdr ->
  parses frame (fun p => p = mkParsed fam hdr sm sa da (l4 p) /\ l4_wf frame p)
    (parse_udp frame fam hdr sm sa da off).
Proof.
  intros -> Hh. unfold parse_udp. frame_consts. case_goal; [done|].
  rewrite !read_u16_in by lia. right. eexists. split; [done|]. split; [done|].
  unfold l4_wf. simpl. repeat split; try lia. do 2 f_equal. lia.
Qed.

Lemma flow_wf_v4 frame a b c d :
  0 <= a -> a + 4 <= len frame -> 0 <= b -> b + 4 <= len frame ->
  0 <= c < 65536 -> 0 <= d < 65536 ->
  flow_wf (mkFlowKey (V4 (sub frame a (a + 4))) (V4 (sub frame b (b + 4))) c d).
Proof.
  intros. unfold flow_wf. simpl.
  pose proof (len_sub frame a (a + 4) ltac:(lia) ltac:(lia)).
  pose proof (len_sub frame b (b + 4) ltac:(lia) ltac:(lia)). unfold len in *. lia.
Qed.

Lemma flow_wf_v6 frame a b c d :
  0 <= a -> a + 16 <= len frame -> 0 <= b -> b + 16 <= len frame ->
  0 <= c < 65536 -> 0 <= d < 65536 ->
  flow_wf (mkFlowKey (V6 (sub frame a (a + 16))) (V6 (sub frame b (b + 16))) c d).
Proof.
  intros. unfold flow_wf. simpl.
  pose proof (len_sub frame a (a + 16) ltac:(lia) ltac:(lia)).
  pose proof (len_sub frame b (b + 16) ltac:(lia) ltac:(lia)). unfold len in *. lia.
Qed.

Lemma parse_icmp_ipv4_wf frame sm ihl sa da :
  0 <= ihl ->
  parses frame (fun p => p = mkParsed Ipv4 ihl sm sa da (l4 p) /\ l4_wf frame p)
    (parse_frame_icmp_ipv4 frame sm ihl sa da).
Proof.
  intros Hi. unfold parse_frame_icmp_ipv4. frame_consts. case_goal; [done|].
  rewrite idx_in by lia. case_goal; [done|]. case_goal; [done|].
  rewrite !idx_in by lia. pose proof (ihl_range (elt frame (14 + ihl + 8))).
  case_goal; [done|]. case_goal; [done|]. case_goal; [done|].
  rewrite !read_ipv4_in, !read_u16_in by lia. right. eexists. split; [done|]. split; [done|].
  unfold l4_wf. simpl. split; [lia|]. split; [lia|].
  apply flow_wf_v4; try lia; apply be16_range.
Qed.

Lemma walk_ext_wf n stop frame nh off :
  0 <= off -> 
  walk_ext n stop frame nh off = Done None \/
  exists nh' off', walk_ext n stop frame nh off = Done (Some (nh', off')) /\ off <= off'.
Proof.
  revert nh off. induction n as [|n IH]; intros nh off Ho; simpl.
  { right. exists nh, off. split; [done|lia]. }
  case_goal; [right; exists nh, off; split; [done|lia]|].
  case_goal; [|case_goal; [|by left]].
  - case_goal; [by left|]. rewrite idx_in by lia.
    destruct (IH (u8 (elt frame off)) (off + 8)) as [->|(nh' & off' & -> & ?)]; [lia|by left|].
    right. exists nh', off'. split; [done|lia].
  - case_goal; [by left|]. rewrite !idx_in by lia.
    destruct (IH (u8 (elt frame off)) (off + (u8 (elt frame (off + 1)) + 1) * 8))
      as [->|(nh' & off' & -> & ?)]; [lia|by left|].
    right. exists nh', off'. split; [done|lia].
Qed.

Lemma parse_icmpv6_wf frame sm hdr sa da off :
  off = 14 + hdr -> 0 <= hdr ->
  parses frame (fun p => p = mkParsed Ipv6 hdr sm sa da (l4 p) /\ l4_wf frame p)
    (parse_frame_icmpv6 frame sm hdr sa da off).
Proof.
  intros -> Hh. unfold parse_frame_icmpv6. frame_consts. case_goal; [done|].
  rewrite idx_in by lia. case_goal; [done|]. case_goal; [done|].
  rewrite !read_ipv6_in, idx_in by lia.
  destruct (walk_ext_wf MAX_IPV6_EXT_HDRS inner_stop frame (u8 (elt frame (14 + hdr + 8 + 6)))
    (14 + hdr + 8 + 40)) as [->|(nh & off & -> & Hoff)]; [lia|done|].
  case_goal; [done|]. case_goal; [done|]. rewrite !read_u16_in by lia.
  right. eexists. split; [done|]. split; [done|]. unfold l4_wf. simpl. split; [lia|]. split; [lia|].
  apply flow_wf_v6; try lia; apply be16_range.
Qed.

Lemma parses_impl frame (P Q : ParsedFrame -> Prop) m :
  (forall p, P p -> Q p) -> parses frame P m -> parses frame Q m.
Proof. intros Himp [->|(p & -> & Hp)]; [by left|right; eauto]. Qed.

Lemma parse_frame_parses frame : parses frame (parsed_wf frame) (parse_frame frame).
Proof.
  unfold parse_frame. frame_consts. case_goal; [done|]. rewrite slice_in by lia.
  rewrite copy_whole by (rewrite ?len_zeros, ?len_sub; lia). rewrite read_u16_in by lia.
  case_goal; [|case_goal; [|done]].
  - unfold parse_frame_ipv4. frame_consts. case_goal; [done|]. rewrite !idx_in by lia.
    pose proof (ihl_range (elt frame 14)). case_goal; [done|]. rewrite !read_ipv4_in by lia.
    case_goal; [|case_goal; [|done]].
    + eapply parses_impl; [|apply parse_udp_wf; lia]. intros p [-> Hw]. unfold parsed_wf. simpl in *.
      split; [lia|]. split; [done|]. split; [|done]. split; [lia|done].
    + eapply parses_impl; [|apply parse_icmp_ipv4_wf; lia]. intros p [-> Hw]. unfold parsed_wf. simpl in *.
      split; [lia|]. split; [done|]. split; [|done]. split; [lia|done].
  - unfold parse_frame_ipv6. frame_consts. case_goal; [done|]. rewrite !read_ipv6_in, idx_in by lia.
    destruct (walk_ext_wf MAX_IPV6_EXT_HDRS outer_stop frame (u8 (elt frame (14 + 6))) (14 + 40))
      as [->|(nh & off & -> & Hoff)]; [lia|done|].
    case_goal; [|case_goal; [|done]].
    + eapply parses_impl; [|apply parse_udp_wf; lia]. intros p [-> Hw]. unfold parsed_wf. simpl in *.
      split; [lia|]. split; [done|]. split; [|done]. split; [lia|done].
    + eapply parses_impl; [|apply parse_icmpv6_wf; lia]. intros p [-> Hw]. unfold parsed_wf. simpl in *.
      split; [lia|]. split; [done|]. split; [|done]. split; [lia|done].
Qed.

Lemma parse_frame_wf frame p : parse_frame frame = Done (Some p) -> parsed_wf frame p.
Proof. destruct (parse_frame_parses frame) as [->|(q & -> & Hq)]; [done|]. by intros [= <-]. Qed.
