(* ===== verification/Ebpf.v ===== *)
(** * The XDP program

    Models [pesigitg-ebpf/src/main.rs]: the kernel-side parser that decides, by
    port, which frames are redirected to the daemon's AF_XDP sockets.  The BPF
    maps and the redirect helper are parameters.  The theorems relate its parser
    to the daemon's own ([Frame]). *)

From S2P Require Import Prelude Std Common ConnTable Frame.

Inductive xdp_action := XDP_ABORTED | XDP_PASS | XDP_REDIRECT.

(** [ptr_at::<u8>] and [ptr_at::<u16>] dereferenced: an error outside the packet. *)
Definition ptr_u8 (ctx : list byte) (offset : Z) : result Z unit :=
  if len ctx <? offset + 1 then Err tt else Ok (u8 (elt ctx offset)).

Definition ptr_u16 (ctx : list byte) (offset : Z) : result Z unit :=
  if len ctx <? offset + 2 then Err tt else Ok (be16 (elt ctx offset) (elt ctx (offset + 1))).

Definition ebpf_parse_ipv4 (ctx : list byte) : result (option Z) unit :=
  let+ iph_byte0 := ptr_u8 ctx ETH_HDR_LEN in
  let ihl := Z.land iph_byte0 0x0F * 4 in
  if ihl <? IPV4_MIN_HDR_LEN then Err tt
  else
    let+ protocol := ptr_u8 ctx (ETH_HDR_LEN + 9) in
    if protocol =? IPPROTO_UDP then
      let udp_offset := ETH_HDR_LEN + ihl in
      let+ dst_port := ptr_u16 ctx (udp_offset + 2) in
      Ok (Some dst_port)
    else if protocol =? IPPROTO_ICMP then
      let icmp_offset := ETH_HDR_LEN + ihl in
      let+ icmp_type := ptr_u8 ctx icmp_offset in
      if negb (icmp_type =? ICMP_DEST_UNREACH) && negb (icmp_type =? ICMP_TIME_EXCEEDED) then Ok None
      else
        let inner_ip_offset := icmp_offset + ICMP_HDR_LEN in
        let+ inner_byte0 := ptr_u8 ctx inner_ip_offset in
        let inner_ihl := Z.land inner_byte0 0x0F * 4 in
        if inner_ihl <? IPV4_MIN_HDR_LEN then Ok None
        else
          let+ inner_proto := ptr_u8 ctx (inner_ip_offset + 9) in
          if negb (inner_proto =? IPPROTO_UDP) then Ok None
          else
            let inner_udp_offset := inner_ip_offset + inner_ihl in
            let+ src_port := ptr_u16 ctx inner_udp_offset in
            Ok (Some src_port)
    else Ok None.

(** The [while] loops over extension headers; the length field is masked with
    [0x1F].  [Ok None] is the early return for an unknown header. *)
Fixpoint ebpf_walk (n : nat) (stop : Z -> bool) (ctx : list byte) (next_hdr offset : Z)
    : result (option (Z * Z)) unit :=
  match n with
  | O => Ok (Some (next_hdr, offset))
  | S n' =>
      if stop next_hdr then Ok (Some (next_hdr, offset))
      else if next_hdr =? IPPROTO_FRAGMENT then
        let+ nh := ptr_u8 ctx offset in
        ebpf_walk n' stop ctx nh (offset + 8)
      else if (next_hdr =? IPPROTO_HOPOPTS) || (next_hdr =? IPPROTO_ROUTING)
              || (next_hdr =? IPPROTO_DSTOPTS) then
        let+ nh := ptr_u8 ctx offset in
        let+ l := ptr_u8 ctx (offset + 1) in
        let ext_len := Z.land l 0x1F in
        ebpf_walk n' stop ctx nh (offset + (ext_len + 1) * 8)
      else Ok None
  end.

Definition ebpf_parse_ipv6 (ctx : list byte) : result (option Z) unit :=
  let+ nh := ptr_u8 ctx (ETH_HDR_LEN + 6) in
  let+ w := ebpf_walk MAX_IPV6_EXT_HDRS outer_stop ctx nh (ETH_HDR_LEN + IPV6_HDR_LEN) in
  match w with
  | None => Ok None
  | Some (next_hdr, offset) =>
      if next_hdr =? IPPROTO_UDP then
        let+ dst_port := ptr_u16 ctx (offset + 2) in
        Ok (Some dst_port)
      else if next_hdr =? IPPROTO_ICMPV6 then
        let+ icmp_type := ptr_u8 ctx offset in
        if negb (icmp_type =? ICMPV6_DEST_UNREACH) && negb (icmp_type =? ICMPV6_PACKET_TOO_BIG)
           && negb (icmp_type =? ICMPV6_TIME_EXCEEDED) then Ok None
        else
          let inner_ip_offset := offset + ICMP_HDR_LEN in
          let+ inh := ptr_u8 ctx (inner_ip_offset + 6) in
          let+ w := ebpf_walk MAX_IPV6_EXT_HDRS inner_stop ctx inh (inner_ip_offset + IPV6_HDR_LEN) in
          match w with
          | None => Ok None
          | Some (inner_next_hdr, inner_offset) =>
              if negb (inner_next_hdr =? IPPROTO_UDP) then Ok None
              else
                let+ src_port := ptr_u16 ctx inner_offset in
                Ok (Some src_port)
          end
      else Ok None
  end.

(** The port a frame is looked up under; [Ok None] passes the frame. *)
Definition ebpf_port (ctx : list byte) : result (option Z) unit :=
  let+ eth_proto := ptr_u16 ctx 12 in
  if eth_proto =? ETH_P_IP then ebpf_parse_ipv4 ctx
  else if eth_proto =? ETH_P_IPV6 then ebpf_parse_ipv6 ctx
  else Ok None.

(** [ports] is the PORTS map, [redirect] the XSKS redirect for the frame's queue. *)
Definition try_pesigitg (ports : Z -> bool) (redirect : result xdp_action unit) (ctx : list byte)
    : result xdp_action unit :=
  let+ port := ebpf_port ctx in
  match port with
  | None => Ok XDP_PASS
  | Some dst_port => if negb (ports dst_port) then Ok XDP_PASS else redirect
  end.

Definition pesigitg (ports : Z -> bool) (redirect : result xdp_action unit) (ctx : list byte)
    : xdp_action :=
  match try_pesigitg ports redirect ctx with
  | Ok action => action
  | Err _ => XDP_ABORTED
  end.

(** ** Agreement with the daemon's parser *)

Lemma ptr_u8_in ctx i : i + 1 <= len ctx -> ptr_u8 ctx i = Ok (u8 (elt ctx i)).
Proof. intros. unfold ptr_u8. case_goal; [lia|done]. Qed.

Lemma ptr_u16_in ctx i :
  i + 2 <= len ctx -> ptr_u16 ctx i = Ok (be16 (elt ctx i) (elt ctx (i + 1))).
Proof. intros. unfold ptr_u16. case_goal; [lia|done]. Qed.

(** The walk only meets extension headers shorter than 32 units. *)
Fixpoint walk_small (n : nat) (stop : Z -> bool) (frame : list byte) (next_hdr offset : Z) : bool :=
  match n with
  | O => true
  | S n' =>
      if stop next_hdr then true
      else if next_hdr =? IPPROTO_FRAGMENT then
        walk_small n' stop frame (u8 (elt frame offset)) (offset + 8)
      else if (next_hdr =? IPPROTO_HOPOPTS) || (next_hdr =? IPPROTO_ROUTING)
              || (next_hdr =? IPPROTO_DSTOPTS) then
        let l := u8 (elt frame (offset + 1)) in
        (l <? 32) && walk_small n' stop frame (u8 (elt frame offset)) (offset + (l + 1) * 8)
      else true
  end.

Lemma walks_agree n stop frame nh off r :
  0 <= off -> walk_small n stop frame nh off = true ->
  walk_ext n stop frame nh off = Done (Some r) -> ebpf_walk n stop frame nh off = Ok (Some r).
Proof.
  revert nh off. induction n as [|n IH]; intros nh off Ho; simpl; [by intros _ [= <-]|].
  case_goal; [by intros _ [= <-]|]. case_goal; [|case_goal; [|done]].
  - intros Hs. case_goal; [done|]. rewrite idx_in, ptr_u8_in by lia. apply IH; [lia|done].
  - intros Hs. apply andb_true_iff in Hs as [Hl Hs]. case_goal; [done|].
    rewrite !idx_in, !ptr_u8_in by lia. set (l := u8 (elt frame (off + 1))) in *.
    assert (Z.land l 0x1F = l) as ->.
    { change 0x1F with (Z.ones 5). rewrite Z.land_ones by lia. apply Z.mod_small. lia. }
    apply IH; [lia|done].
Qed.

(** Neither walk of the frame meets a longer header. *)
Definition small_ext (frame : list byte) : bool :=
  if be16 (elt frame 12) (elt frame 13) =? ETH_P_IPV6 then
    walk_small MAX_IPV6_EXT_HDRS outer_stop frame (u8 (elt frame 20)) 54 &&
    match walk_ext MAX_IPV6_EXT_HDRS outer_stop frame (u8 (elt frame 20)) 54 with
    | Done (Some (_, off)) =>
        walk_small MAX_IPV6_EXT_HDRS inner_stop frame (u8 (elt frame (off + 14))) (off + 48)
    | _ => true
    end
  else true.

(** The port the daemon sees: the UDP destination, or the source port of the
    echoed packet. *)
Definition daemon_port (p : ParsedFrame) : Z :=
  match l4 p with Udp _ _ _ dp => dp | Icmp _ f => dst_port f end.

Lemma ipv4_ports_agree frame sm p :
  parse_frame_ipv4 frame sm = Done (Some p) -> ebpf_parse_ipv4 frame = Ok (Some (daemon_port p)).
Proof.
  unfold parse_frame_ipv4, ebpf_parse_ipv4. frame_consts. case_goal; [done|].
  rewrite !idx_in by lia. rewrite (ptr_u8_in frame 14), (ptr_u8_in frame (14 + 9)) by lia.
  pose proof (ihl_range (elt frame 14)).
  set (ihl := Z.land (u8 (elt frame 14)) 0x0F * 4) in *. case_goal; [done|].
  rewrite !read_ipv4_in by lia. case_goal; [|case_goal; [|done]].
  - unfold parse_udp. frame_consts. case_goal; [done|]. rewrite !read_u16_in, ptr_u16_in by lia.
    by intros [= <-].
  - unfold parse_frame_icmp_ipv4. frame_consts. case_goal; [done|]. rewrite idx_in, ptr_u8_in by lia.
    case_goal; [done|]. case_goal; [done|]. rewrite !idx_in by lia.
    rewrite (ptr_u8_in frame (14 + ihl + 8)), (ptr_u8_in frame (14 + ihl + 8 + 9)) by lia.
    pose proof (ihl_range (elt frame (14 + ihl + 8))). case_goal; [done|]. case_goal; [done|].
    case_goal; [done|]. rewrite !read_ipv4_in, !read_u16_in, ptr_u16_in by lia. by intros [= <-].
Qed.

Lemma ipv6_ports_agree frame sm p :
  be16 (elt frame 12) (elt frame 13) = ETH_P_IPV6 -> small_ext frame = true ->
  parse_frame_ipv6 frame sm = Done (Some p) -> ebpf_parse_ipv6 frame = Ok (Some (daemon_port p)).
Proof.
  intros Hty. unfold small_ext. rewrite Hty. change (ETH_P_IPV6 =? ETH_P_IPV6) with true. cbn iota.
  intros Hs. apply andb_true_iff in Hs as [Hs1 Hs2].
  unfold parse_frame_ipv6, ebpf_parse_ipv6. frame_consts. case_goal; [done|].
  rewrite !read_ipv6_in, idx_in, ptr_u8_in by lia.
  change (14 + 6) with 20 in *. change (14 + 40) with 54 in *.
  destruct (walk_ext_wf MAX_IPV6_EXT_HDRS outer_stop frame (u8 (elt frame 20)) 54)
    as [Hw|(nh & off & Hw & Hoff)]; [lia|by rewrite Hw|].
  rewrite (walks_agree _ _ _ _ _ (nh, off)) by (done || lia). rewrite Hw in *.
  case_goal; [|case_goal; [|done]].
  - unfold parse_udp. frame_consts. case_goal; [done|]. rewrite !read_u16_in, ptr_u16_in by lia.
    by intros [= <-].
  - unfold parse_frame_icmpv6. frame_consts. case_goal; [done|]. rewrite idx_in, ptr_u8_in by lia.
    case_goal; [done|]. case_goal; [done|]. rewrite !read_ipv6_in, idx_in, ptr_u8_in by lia.
    replace (off + 8 + 6) with (off + 14) by lia. replace (off + 8 + 40) with (off + 48) by lia.
    destruct (walk_ext_wf MAX_IPV6_EXT_HDRS inner_stop frame (u8 (elt frame (off + 14))) (off + 48))
      as [Hw'|(nh' & off' & Hw' & Hoff')]; [lia|by rewrite Hw'|].
    rewrite (walks_agree _ _ _ _ _ (nh', off')) by (done || lia). rewrite Hw'.
    case_goal; [done|]. case_goal; [done|]. rewrite !read_u16_in, ptr_u16_in by lia. by intros [= <-].
Qed.

(** ** Properties *)



(** An IPv4 frame with a UDP packet to port 443. *)
Definition udp4_frame : list byte :=
  zeros 12 ++ [0x08; 0x00; 0x45]%u8 ++ zeros 8 ++ [17]%u8 ++ zeros 2 ++
  [10; 0; 0; 1; 10; 0; 0; 2; 0x30; 0x39; 0x01; 0xbb]%u8 ++ zeros 8.

Definition udp4_parsed : ParsedFrame :=
  match parse_frame udp4_frame with
  | Done (Some p) => p
  | _ => mkParsed Ipv4 0 [] (V4 []) (V4 []) (Udp 0 0 0 0)
  end.


(** An IPv6 frame with a destination-options header of 33 units before a UDP
    header to port 443; one unit in, where the masked walk lands, there is
    something else. *)
Definition long_ext_frame : list byte :=
  zeros 12 ++ [0x86; 0xdd]%u8 ++ zeros 6 ++ [60]%u8 ++ zeros 33 ++
  [17; 32]%u8 ++ zeros 6 ++ zeros 256 ++ [0x30; 0x39; 0x01; 0xbb]%u8 ++ zeros 4.

(** With an extension header of 32 units or more the parsers disagree: the
    XDP program masks the length to five bits, the daemon does not.  This frame
    is a UDP packet to port 443 for the daemon and one to port 0 for the
    kernel, so it is not redirected. *)
Theorem ebpf_long_ext_disagrees :
  (exists p, parse_frame long_ext_frame = Done (Some p) /\ daemon_port p = 443) /\
  ebpf_port long_ext_frame = Ok (Some 0).
Proof. split; [eexists; split; vm_compute; reflexivity|vm_compute; reflexivity]. Qed.
