(* ===== verification/Packet.v ===== *)
(** * Packet processing

    Models the routing half of [pesigitg-daemon/src/packet.rs]: CID routing, the
    fallback through the connection table and consistent hashing, ICMP errors,
    and the rewriting of the Ethernet addresses.  The hash of the 4-tuple (crate
    [rustc_hash]) is a parameter. *)

From stdpp Require Import gmap.
From S2P Require Import Prelude Std Common Route Cid LbCore ConnTable ConfigTable Frame Ebpf.

Inductive Verdict :=
| CidForward (config_id : Z)
| CidForwardDraining (config_id : Z)
| FallbackForward
| IcmpForward
| CidUnroutableNoServer
| CidUnroutableBadServerId
| Pass.

(** [FxHasher] over a [FlowKey]: a [u64]. *)
Class FxHash := flow_hash : FlowKey -> N.

(** [frame[..6].copy_from_slice(&mac); frame[6..12].copy_from_slice(local_mac);] *)
Definition rewrite_macs (frame : list byte) (m local_mac : mac) : rs (list byte) :=
  let* frame := copy_to frame 0 6 m in
  copy_to frame 6 12 local_mac.

Section packet.
  Context `{Aes : Aes128} `{Fx : FxHash}.

Definition fallback_mac (flow : FlowKey) (servers : list Server) : rs (option mac) :=
  if len servers =? 0 then Done None
  else
    let target := Z.of_N (flow_hash flow) mod len servers in
    let* s := idx servers target in
    Done (s_mac s).

(** The state a packet is processed in: the frame and the worker's table. *)
Definition outcome : Type := list byte * ConnectionTable * Verdict.

(** The fallback path of [process_udp]. *)
Definition udp_fallback (frame quic : list byte) (table : ConfigTable) (conn : ConnectionTable)
    (flow : FlowKey) (local_mac : mac) (now : Instant) : rs outcome :=
  let* raw_dcid :=
    match fallback_cid_length table with
    | Some n => extract_raw_dcid quic n
    | None => Done None
    end in
  let* key :=
    match raw_dcid with
    | Some d => let* k := dcid_key d in Done (Some k)
    | None => Done None
    end in
  match conn_lookup conn flow key now with
  | Some m =>
      let* frame := rewrite_macs frame m local_mac in
      Done (frame, conn, FallbackForward)
  | None =>
      let* m := fallback_mac flow (fallback_servers table) in
      match m with
      | Some m =>
          let conn := conn_insert conn flow key m now in
          let* frame := rewrite_macs frame m local_mac in
          Done (frame, conn, FallbackForward)
      | None => Done (frame, conn, Pass)
      end
  end.

Definition process_udp (frame : list byte) (table : ConfigTable) (conn : ConnectionTable)
    (quic_offset : Z) (flow : FlowKey) (local_mac : mac) (now : Instant) : rs outcome :=
  let* quic := slice_from frame quic_offset in
  let* found := lookup_config quic table in
  match found with
  | Some (dcid, config) =>
      let* server_idx := resolve_server_idx dcid config in
      let* fast :=
        match server_idx with
        | Some i =>
            let* server := idx (servers config) (Z.of_nat i) in
            match s_mac server with
            | Some m => Done (if s_healthy server then Some (server, m) else None)
            | None => Done None
            end
        | None => Done None
        end in
      match fast with
      | Some (server, m) =>
          let* k := dcid_key dcid in
          let conn := record_dcid conn k m now in
          let* frame := rewrite_macs frame m local_mac in
          Done (frame, conn, if s_draining server then CidForwardDraining (config_id config)
                             else CidForward (config_id config))
      | None =>
          if cid_payload_length config <? len dcid then
            Done (frame, conn, match server_idx with
                               | Some _ => CidUnroutableNoServer
                               | None => CidUnroutableBadServerId
                               end)
          else udp_fallback frame quic table conn flow local_mac now
      end
  | None => udp_fallback frame quic table conn flow local_mac now
  end.

(** Strategy 1 of [process_icmp]: the backend of the echoed source CID. *)
Definition icmp_scid_mac (inner_quic : list byte) (table : ConfigTable) : rs (option mac) :=
  let*? scid := extract_scid inner_quic in
  if len scid =? 0 then Done None
  else
    let* o := idx scid 0 in
    let id := Z.shiftr (u8 o) 5 in
    if id =? 7 then Done None
    else
      match table_get table id with
      | None => Done None
      | Some config =>
          let*? i := resolve_server_idx scid config in
          let* server := idx (servers config) (Z.of_nat i) in
          Done (s_mac server)
      end.

Definition process_icmp (frame : list byte) (table : ConfigTable) (conn : ConnectionTable)
    (inner_quic_offset : Z) (reversed_flow : FlowKey) (local_mac : mac) (now : Instant)
    : rs outcome :=
  let* inner_quic := slice_from frame inner_quic_offset in
  let* by_scid := icmp_scid_mac inner_quic table in
  match by_scid with
  | Some m =>
      let* frame := rewrite_macs frame m local_mac in
      Done (frame, conn, IcmpForward)
  | None =>
      match conn_lookup conn reversed_flow None now with
      | Some m =>
          let* frame := rewrite_macs frame m local_mac in
          Done (frame, conn, IcmpForward)
      | None => Done (frame, conn, Pass)
      end
  end.

Definition process_packet_parsed (frame : list byte) (parsed : ParsedFrame) (table : ConfigTable)
    (conn : ConnectionTable) (local_mac : mac) (now : Instant) : rs outcome :=
  match l4 parsed with
  | Udp _ quic_offset src_port dst_port =>
      process_udp frame table conn quic_offset
        (mkFlowKey (pf_src_addr parsed) (pf_dst_addr parsed) src_port dst_port) local_mac now
  | Icmp inner_quic_offset reversed_flow =>
      process_icmp frame table conn inner_quic_offset reversed_flow local_mac now
  end.

Definition process_packet (frame : list byte) (table : ConfigTable) (conn : ConnectionTable)
    (local_mac : mac) (now : Instant) : rs outcome :=
  let* parsed := parse_frame frame in
  match parsed with
  | Some p => process_packet_parsed frame p table conn local_mac now
  | None => Done (frame, conn, Pass)
  end.

(** ** Invariants *)

(** Every MAC in the connection table has six bytes. *)
Definition conn_wf (c : ConnectionTable) : Prop :=
  map_Forall (fun _ e => len (entry_mac e) = 6) (by_flow c) /\
  map_Forall (fun _ e => len (entry_mac e) = 6) (by_dcid c).

(** A table in use: well formed, decodable, and with resolved MACs in its pool. *)
Record table_live (t : ConfigTable) : Prop := {
  tl_wf : table_wf t;
  tl_fits : forall c, c ∈ configs t -> nonce_fits c;
  tl_pool : Forall (fun s => exists m, s_mac s = Some m /\ len m = 6) (fallback_servers t);
}.

(** The rewritten frame: new destination, local source, the rest as it was. *)
Definition sent_to (m local_mac : mac) (frame frame' : list byte) : Prop :=
  frame' = m ++ local_mac ++ drop 12 frame.

Definition forwards (v : Verdict) : bool :=
  match v with CidForward _ | CidForwardDraining _ | FallbackForward | IcmpForward => true | _ => false end.

(** Where a forwarding MAC may come from. *)
Definition mac_source (t : ConfigTable) (c : ConnectionTable) (now : Instant) (v : Verdict) (m : mac) : Prop :=
  (exists config s, config ∈ configs t /\ s ∈ servers config /\ s_mac s = Some m /\
     (v = IcmpForward \/ (s_healthy s = true /\
        v = if s_draining s then CidForwardDraining (config_id config)
            else CidForward (config_id config)))) \/
  (exists flow key, conn_lookup c flow key now = Some m /\ (v = FallbackForward \/ v = IcmpForward)) \/
  (exists s, s ∈ fallback_servers t /\ s_mac s = Some m /\ v = FallbackForward).

(** What processing a packet may do: forward to a known MAC, or leave the frame
    and the table alone. *)
Definition outcome_ok (t : ConfigTable) (c : ConnectionTable) (frame : list byte)
    (local_mac : mac) (now : Instant) (o : outcome) : Prop :=
  let '(frame', c', v) := o in
  conn_wf c' /\
  if forwards v then exists m, len m = 6 /\ sent_to m local_mac frame frame' /\ mac_source t c now v m
  else frame' = frame /\ c' = c.

Lemma rewrite_macs_ok frame m local :
  len m = 6 -> len local = 6 -> 12 <= len frame ->
  rewrite_macs frame m local = Done (m ++ local ++ drop 12 frame).
Proof.
  intros Hm Hl Hf. unfold rewrite_macs.
  assert (exists a b rest, frame = a ++ b ++ rest /\ length a = 6%nat /\ length b = 6%nat)
    as (a & b & rest & -> & Ha & Hb).
  { exists (take 6 frame), (take 6 (drop 6 frame)), (drop 6 (drop 6 frame)).
    rewrite !take_drop, !length_take, !length_drop. unfold len in *. split; [done|lia]. }
  rewrite copy_to_in by (rewrite ?len_app; unfold len in *; lia).
  rewrite splice_0, drop_app_length' by (unfold len in *; lia).
  rewrite copy_to_in by (rewrite ?len_app in *; unfold len in *; lia).
  rewrite (splice_app_mid m b) by (try lia; unfold len in *; lia).
  do 3 f_equal. rewrite app_assoc. symmetry. apply drop_app_length'. rewrite length_app. lia.
Qed.

Lemma live_entry_mac `{Countable K} (m : gmap K Entry) k now x :
  map_Forall (fun _ e => len (entry_mac e) = 6) m -> live_entry m k now = Some x -> len x = 6.
Proof.
  intros Hm. unfold live_entry. destruct (m !! k) as [e|] eqn:E; [|done].
  case_goal; [done|]. intros [= <-]. by apply (Hm k).
Qed.

Lemma conn_lookup_mac c flow key now m : conn_wf c -> conn_lookup c flow key now = Some m -> len m = 6.
Proof.
  intros [Hf Hd]. unfold conn_lookup.
  destruct (live_entry (by_flow c) flow now) eqn:E.
  - intros [= <-]. exact (live_entry_mac _ _ _ _ Hf E).
  - destruct key; [|done]. intros Hk. exact (live_entry_mac _ _ _ _ Hd Hk).
Qed.

Lemma conn_insert_wf c flow key m now :
  conn_wf c -> len m = 6 -> conn_wf (conn_insert c flow key m now).
Proof.
  intros [Hf Hd] Hm. split; simpl.
  - by apply map_Forall_insert_2.
  - destruct key; [by apply map_Forall_insert_2|done].
Qed.

Lemma record_dcid_wf c key m now : conn_wf c -> len m = 6 -> conn_wf (record_dcid c key m now).
Proof. intros [Hf Hd] Hm. split; simpl; [done|]. by apply map_Forall_insert_2. Qed.

Lemma fallback_mac_ok flow pool :
  Forall (fun s => exists m, s_mac s = Some m /\ len m = 6) pool ->
  (pool = [] /\ fallback_mac flow pool = Done None) \/
  exists s m, s ∈ pool /\ s_mac s = Some m /\ len m = 6 /\ fallback_mac flow pool = Done (Some m).
Proof.
  intros Hp. unfold fallback_mac. case_goal; [left; split; [apply len_0_nil; lia|done]|]. right.
  pose proof (Z.mod_pos_bound (Z.of_N (flow_hash flow)) (len pool) ltac:(pose_len; lia)) as Hb.
  destruct (lookup_lt_is_Some_2 pool (Z.to_nat (Z.of_N (flow_hash flow) mod len pool))) as [s Hs].
  { unfold len in *. lia. }
  rewrite <- (Z2Nat.id (Z.of_N (flow_hash flow) mod len pool)) by lia.
  rewrite (idx_lookup _ _ _ Hs). rewrite Forall_lookup in Hp. destruct (Hp _ _ Hs) as (m & Hm & Hl).
  exists s, m. rewrite Hm. split; [by eapply list_elem_of_lookup_2|done].
Qed.

Lemma configs_wf t c : table_wf t -> c ∈ configs t -> config_wf c.
Proof. intros [_ _ Hc _ _] [i Hi]%elem_of_configs. by apply Hc in Hi as []. Qed.

Lemma fallback_cid_length_nonneg t n : table_wf t -> fallback_cid_length t = Some n -> 0 <= n.
Proof.
  intros Hwf. unfold fallback_cid_length. destruct (configs t) as [|c cs] eqn:E; [done|].
  intros [= <-]. assert (Hc : config_wf c) by (apply (configs_wf t); [done|rewrite E; by left]).
  destruct (cid_lengths _ Hc) as [_ ->]. destruct Hc as [_ ? ? _ _ _ _]. lia.
Qed.

(** The key the fallback path looks up: total. *)
Lemma fallback_key_ok table quic :
  table_wf table ->
  exists key,
    (let* raw_dcid :=
       match fallback_cid_length table with
       | Some n => extract_raw_dcid quic n
       | None => Done None
       end in
     match raw_dcid with
     | Some d => let* k := dcid_key d in Done (Some k)
     | None => Done None
     end) = Done key.
Proof.
  intros Hwf. destruct (fallback_cid_length table) as [n|] eqn:E; [|by eexists].
  rewrite extract_raw_dcid_spec by by eapply fallback_cid_length_nonneg.
  destruct (dcid_spec quic n) as [d|]; [|by eexists]. rewrite dcid_key_spec. by eexists.
Qed.

Lemma bind_assoc {A B C} (m : rs A) (f : A -> rs B) (g : B -> rs C) :
  (let* y := (let* x := m in f x) in g y) = (let* x := m in let* y := f x in g y).
Proof. by destruct m. Qed.

Lemma udp_fallback_ok frame quic table conn flow local now :
  table_live table -> conn_wf conn -> len local = 6 -> 12 <= len frame ->
  exists o, udp_fallback frame quic table conn flow local now = Done o /\
    outcome_ok table conn frame local now o.
Proof.
  intros [Hwf _ Hpool] Hc Hl Hf. unfold udp_fallback.
  destruct (fallback_key_ok table quic Hwf) as [key Hkey]. rewrite <- bind_assoc, Hkey.
  destruct (conn_lookup conn flow key now) as [m|] eqn:Elk.
  - pose proof (conn_lookup_mac _ _ _ _ _ Hc Elk) as Hm. rewrite rewrite_macs_ok by done.
    eexists. split; [done|]. split; [done|]. exists m. split; [done|]. split; [done|].
    right. left. by eauto.
  - destruct (fallback_mac_ok flow _ Hpool) as [[_ ->]|(s & m & Hs & Hm & Hl6 & ->)].
    + eexists. split; [done|]. by split.
    + rewrite rewrite_macs_ok by done. eexists. split; [done|].
      split; [by apply conn_insert_wf|]. exists m. split; [done|]. split; [done|].
      right. right. by eauto.
Qed.

Lemma table_get_configs t i c : table_get t i = Some c -> c ∈ configs t.
Proof.
  unfold table_get, slot_get. destruct (slots t !! Z.to_nat i) as [s|] eqn:E; [|done].
  intros ->. apply elem_of_configs. by eauto.
Qed.

Lemma lookup_config_configs quic t d c : lookup_config quic t = Done (Some (d, c)) -> c ∈ configs t.
Proof.
  unfold lookup_config. destruct (first_cid_octet quic) as [[o|]|]; try done.
  case_goal; [done|]. destruct (table_get t _) as [c'|] eqn:Eg; [|done].
  destruct (extract_raw_dcid quic _) as [[d'|]|]; try done. intros [= <- <-].
  by eapply table_get_configs.
Qed.

Lemma find_server_idx_lookup c id i :
  find_server_idx c id = Some i -> exists s, servers c !! i = Some s /\ s_id s = id.
Proof. intros [[s ?] _]%find_server_idx_first. eauto. Qed.

Context `{!AesLaws}.

(** Resolution against a live table: total, and a hit is a configured server. *)
Lemma resolve_live t c dcid :
  table_live t -> c ∈ configs t ->
  exists r, resolve_server_idx dcid c = Done r /\
    forall i, r = Some i -> exists s, servers c !! i = Some s /\ s ∈ servers c /\
      (forall m, s_mac s = Some m -> len m = 6).
Proof.
  intros [Hwf Hfit _] Hc. pose proof (configs_wf _ _ Hwf Hc) as Hcw.
  assert (Hhit : forall id i, find_server_idx c id = Some i -> exists s, servers c !! i = Some s /\
    s ∈ servers c /\ (forall m, s_mac s = Some m -> len m = 6)).
  { intros id i (s & Hs & _)%find_server_idx_lookup. exists s. split; [done|].
    split; [by eapply list_elem_of_lookup_2|]. pose proof (wf_servers _ Hcw) as Hsw.
    rewrite Forall_lookup in Hsw. by destruct (Hsw _ _ Hs) as (_ & _ & ?). }
  destruct (decide (len dcid < 1 + cid_payload_length c)) as [Hlt|Hge].
  - exists None. split; [|done]. unfold resolve_server_idx. case_goal; [done|lia].
  - destruct (cid_lengths _ Hcw) as [Hpl _]. pose proof Hcw as [_ ? ? _ _ _ _].
    destruct (dcid_shape dcid (cid_payload_length c)) as (b & p & rest & -> & Hp); [lia..|].
    rewrite resolve_server_idx_spec by auto. eexists. split; [done|]. apply Hhit.
Qed.

Lemma process_udp_ok frame table conn off flow local now :
  table_live table -> conn_wf conn -> len local = 6 -> 12 <= len frame -> 0 <= off <= len frame ->
  exists o, process_udp frame table conn off flow local now = Done o /\
    outcome_ok table conn frame local now o.
Proof.
  intros Ht Hc Hl Hf Ho. unfold process_udp. rewrite slice_from_in by lia.
  set (quic := sub frame off (len frame)).
  destruct (lookup_config_returns quic table (tl_wf _ Ht)) as [[[dcid c]|] Elk]; rewrite Elk;
    [|by apply udp_fallback_ok].
  pose proof (lookup_config_configs _ _ _ _ Elk) as Hcc.
  destruct (resolve_live table c dcid Ht Hcc) as (r & -> & Hr). destruct r as [i|].
  - destruct (Hr i eq_refl) as (s & Hs & Hin & Hm). rewrite (idx_lookup _ _ _ Hs).
    destruct (s_mac s) as [m|] eqn:Em.
    + destruct (s_healthy s) eqn:Eh.
      * rewrite dcid_key_spec, rewrite_macs_ok by auto. eexists. split; [done|].
        split; [apply record_dcid_wf; auto|].
        assert (forwards (if s_draining s then CidForwardDraining (config_id c) else CidForward (config_id c))
          = true) as -> by by destruct (s_draining s).
        exists m. split; [auto|]. split; [done|]. left. exists c, s. by eauto 10.
      * case_goal; [|by apply udp_fallback_ok]. eexists. split; [done|]. by split.
    + case_goal; [|by apply udp_fallback_ok]. eexists. split; [done|]. by split.
  - case_goal; [|by apply udp_fallback_ok]. eexists. split; [done|]. by split.
Qed.

Lemma icmp_scid_mac_ok inner table :
  table_live table ->
  exists r, icmp_scid_mac inner table = Done r /\
    forall m, r = Some m -> len m = 6 /\ exists c s, c ∈ configs table /\ s ∈ servers c /\ s_mac s = Some m.
Proof.
  intros Ht. unfold icmp_scid_mac. destruct (extract_scid_returns inner) as [[scid|] ->]; [|by eexists].
  case_goal; [by eexists|]. rewrite idx_in by (pose_len; lia). case_goal; [by eexists|].
  destruct (table_get table _) as [c|] eqn:Eg; [|by eexists].
  pose proof (table_get_configs _ _ _ Eg) as Hcc.
  destruct (resolve_live table c scid Ht Hcc) as (r & -> & Hr). destruct r as [i|]; [|by eexists].
  destruct (Hr i eq_refl) as (s & Hs & Hin & Hm). rewrite (idx_lookup _ _ _ Hs).
  eexists. split; [done|]. intros m Em. split; [auto|]. by eauto.
Qed.

Lemma process_icmp_ok frame table conn off flow local now :
  table_live table -> conn_wf conn -> len local = 6 -> 12 <= len frame -> 0 <= off <= len frame ->
  exists o, process_icmp frame table conn off flow local now = Done o /\
    outcome_ok table conn frame local now o.
Proof.
  intros Ht Hc Hl Hf Ho. unfold process_icmp. rewrite slice_from_in by lia.
  destruct (icmp_scid_mac_ok (sub frame off (len frame)) table Ht) as (r & -> & Hr).
  destruct r as [m|].
  - destruct (Hr m eq_refl) as (Hm & c & s & Hcc & Hs & Hsm). rewrite rewrite_macs_ok by done.
    eexists. split; [done|]. split; [done|]. exists m. split; [done|]. split; [done|].
    left. exists c, s. by eauto 10.
  - destruct (conn_lookup conn flow None now) as [m|] eqn:Elk.
    + pose proof (conn_lookup_mac _ _ _ _ _ Hc Elk) as Hm. rewrite rewrite_macs_ok by done.
      eexists. split; [done|]. split; [done|]. exists m. split; [done|]. split; [done|].
      right. left. by eauto.
    + eexists. split; [done|]. by split.
Qed.

(** The frame the parser described, unless it is an ICMP error whose echoed UDP
    header is cut off. *)
Lemma process_parsed_ok frame p table conn local now :
  table_live table -> conn_wf conn -> len local = 6 -> parsed_wf frame p ->
  (forall q f, l4 p = Icmp q f -> q <= len frame) ->
  exists o, process_packet_parsed frame p table conn local now = Done o /\
    outcome_ok table conn frame local now o.
Proof.
  intros Ht Hc Hl (Hlen & _ & Hip & Hw) Hcut. unfold process_packet_parsed, l4_wf in *.
  assert (0 <= ip_hdr_len p) by (destruct (family p); lia).
  destruct (l4 p) as [u q sp dp|q f].
  - destruct Hw as (-> & -> & ? & _). apply process_udp_ok; (done || lia).
  - destruct Hw as (? & ? & _). specialize (Hcut q f eq_refl). apply process_icmp_ok; (done || lia).
Qed.

End packet.

(** ** Properties *)

(** C5.  What the daemon does with an arbitrary frame.  Against a live table it
    either leaves the frame and the connection table untouched, or forwards it:
    the destination becomes the MAC of a configured server, of a live
    connection-table entry or of the fallback pool, the source becomes the local
    MAC, and nothing after the addresses changes.  It panics in exactly one
    case: an ICMP error whose echoed UDP header is cut off. *)
Theorem process_packet_total `{AesLaws} `{FxHash} (frame : list byte) (table : ConfigTable)
    (conn : ConnectionTable) (local : mac) (now : Instant) :
  table_live table -> conn_wf conn -> len local = 6 ->
  match parse_frame frame with
  | Panic => False
  | Done None => process_packet frame table conn local now = Done (frame, conn, Pass)
  | Done (Some p) =>
      let ok := exists o, process_packet frame table conn local now = Done o /\
                  outcome_ok table conn frame local now o in
      match l4 p with
      | Udp _ _ _ _ => ok
      | Icmp q _ => if len frame <? q then process_packet frame table conn local now = Panic else ok
      end
  end.
Proof.
  intros Ht Hc Hl. unfold process_packet, process_packet_parsed.
  destruct (parse_frame_parses frame) as [->|(p & -> & (Hlen & _ & Hip & Hw))]; [done|].
  assert (0 <= ip_hdr_len p) by (destruct (family p); lia).
  unfold l4_wf in Hw. destruct (l4 p) as [u q sp dp|q f].
  - destruct Hw as (-> & -> & ? & _). apply process_udp_ok; (done || lia).
  - destruct Hw as (? & ? & _). case_goal.
    + unfold process_icmp, slice_from. by rewrite slice_Panic by lia.
    + apply process_icmp_ok; (done || lia).
Qed.

(** The destination of a packet with an issued CID, whatever the connection table. *)
Lemma process_udp_issued `{AesLaws} `{FxHash} (frame : list byte) (table : ConfigTable)
    (conn : ConnectionTable) (off : Z) (flow : FlowKey) (local : mac) (now : Instant)
    (config : RouteConfig) (e : QuicLbEncoder) (nonce : list byte) (rnd : byte)
    (cid : list byte) (i : nat) (s : Server) (m : mac) :
  table_live table -> table_get table (config_id config) = Some config ->
  encoder_matches e config -> len nonce = nonce_length config ->
  encode_to_vec e nonce rnd = Done cid ->
  find_server_idx config (e_server_id e) = Some i -> servers config !! i = Some s ->
  s_healthy s = true -> s_mac s = Some m ->
  len local = 6 -> 12 <= len frame -> 0 <= off <= len frame ->
  carries cid (sub frame off (len frame)) ->
  exists k, dcid_key cid = Done k /\
    process_udp frame table conn off flow local now =
    Done (m ++ local ++ drop 12 frame, record_dcid conn k m now,
          if s_draining s then CidForwardDraining (config_id config)
          else CidForward (config_id config)).
Proof.
  intros Ht Hget He Hn Hcid Hfind Hs Hh Hm Hl Hf Ho Hc. pose proof Ht as [Hwf Hfit _].
  pose proof (table_get_configs _ _ _ Hget) as Hcc. pose proof (configs_wf _ _ Hwf Hcc) as Hcw.
  destruct (cid_roundtrip_lemma e config nonce rnd Hcw (Hfit _ Hcc) He Hn)
    as (cid' & Hcid' & Hlen & Hid & Hr).
  assert (cid' = cid) as -> by congruence. rewrite Hfind in Hr.
  assert (Hm6 : len m = 6).
  { pose proof (wf_servers _ Hcw) as Hsw. rewrite Forall_lookup in Hsw.
    destruct (Hsw _ _ Hs) as (_ & _ & Hmac). by apply Hmac. }
  eexists. split; [apply dcid_key_spec|]. unfold process_udp. rewrite slice_from_in by lia.
  rewrite (lookup_config_carries table config cid) by done. rewrite Hr, (idx_lookup _ _ _ Hs), Hm, Hh.
  by rewrite dcid_key_spec, rewrite_macs_ok by done.
Qed.

(** End to end on the wire: a packet whose destination CID was issued by a
    server, in a frame of any flow, is sent to that server.  With the server's
    configuration in the table and the server healthy and resolved, the frame
    gets the server's MAC as destination, the DCID is remembered for the
    server, and the verdict names the configuration. *)
Theorem issued_cid_forwarded `{AesLaws} `{FxHash} (frame : list byte) (table : ConfigTable)
    (conn : ConnectionTable) (off : Z) (flow : FlowKey) (local : mac) (now : Instant)
    (config : RouteConfig) (e : QuicLbEncoder) (nonce : list byte) (rnd : byte)
    (cid : list byte) (i : nat) (s : Server) (m : mac) :
  table_live table -> table_get table (config_id config) = Some config ->
  encoder_matches e config -> len nonce = nonce_length config ->
  encode_to_vec e nonce rnd = Done cid ->
  find_server_idx config (e_server_id e) = Some i -> servers config !! i = Some s ->
  s_healthy s = true -> s_mac s = Some m ->
  len local = 6 -> 12 <= len frame -> 0 <= off <= len frame ->
  carries cid (sub frame off (len frame)) ->
  exists k, dcid_key cid = Done k /\
    process_udp frame table conn off flow local now =
    Done (m ++ local ++ drop 12 frame, record_dcid conn k m now,
          if s_draining s then CidForwardDraining (config_id config)
          else CidForward (config_id config)).
Proof. exact (process_udp_issued frame table conn off flow local now config e nonce rnd cid i s m). Qed.

(** A sweep keeps an entry that is still alive. *)
Lemma sweep_keeps_live c flow e ts :
  by_flow c !! flow = Some e -> is_expired e ts = false -> by_flow (maybe_sweep c ts) !! flow = Some e.
Proof.
  intros He Hx. unfold maybe_sweep. case_goal; [done|]. simpl. unfold retain_live.
  by apply map_lookup_filter_Some.
Qed.



#[local] Instance sum_hash : FxHash := fun f => Z.to_N (src_port f + dst_port f).

(** The example table with both four-pass servers up. *)
Definition up (m : mac) (s : Server) : Server :=
  mkServer (s_id s) (s_address s) (Some m) (s_draining s) true 0 None.

#[local] Existing Instance xor_aes.
#[local] Existing Instance xor_aes_laws.

Definition up_config (c : RouteConfig) : RouteConfig :=
  mkRouteConfig (config_id c) (first_octet_encodes_cid_length c) (server_id_length c)
    (nonce_length c) (encryption c)
    (imap (fun i s => up [2; 0; 0; 0; 0; b8 (Z.of_nat i)]%u8 s) (servers c)) (max_key_age_secs c).

Definition up_of (t : ConfigTable) : ConfigTable :=
  rebuild_fallback_servers
    (mkTable (path t) (map (option_map up_config) (slots t)) (slot_loaded_at t) [] (retry t)).

Definition up_table : ConfigTable := up_of (example_table 0).

Lemma up_config_wf c : config_wf c -> config_wf (up_config c).
Proof.
  intros [? ? ? ? ? Hs ?]. constructor; try done. simpl.
  rewrite Forall_lookup in *. intros i s' Hi. rewrite list_lookup_imap in Hi.
  destruct (servers c !! i) as [s|] eqn:E; [|done]. injection Hi as <-.
  destruct (Hs _ _ E) as (? & ? & _). split; [done|]. split; [done|]. by intros m [= <-].
Qed.

Lemma up_of_wf t : table_wf t -> table_wf (up_of t).
Proof.
  intros [Hs Ha Hc Hn Hr]. constructor; simpl; [by rewrite length_map|done| | |done].
  - intros i c Hi. apply list_lookup_fmap_Some in Hi as ([c'|] & Heq & Hi); [|done].
    injection Heq as ->. destruct (Hc _ _ Hi) as [Hwf Hid]. split; [by apply up_config_wf|done].
  - intros i. rewrite list_lookup_fmap, <- Hn.
    destruct (slots t !! i) as [[c|]|]; simpl; split; congruence.
Qed.

Lemma up_table_live : table_live up_table.
Proof.
  constructor.
  - apply up_of_wf, example_table_wf.
  - intros c Hin. assert (Hall : Forall nonce_fits (configs up_table)).
    { vm_compute. repeat constructor; discriminate. }
    rewrite list.Forall_forall in Hall. by apply Hall.
  - vm_compute. repeat (constructor; [eexists; split; reflexivity|]). constructor.
Qed.

Definition no_conn : ConnectionTable := conn_new 0.

Lemma no_conn_wf : conn_wf no_conn.
Proof. split; apply map_Forall_empty. Qed.

Definition issued_cid : list byte :=
  match encode_to_vec four_pass_encoder [1; 2; 3; 4; 5; 6]%u8 0%u8 with Done c => c | Panic => [] end.

(** A UDP frame with a short-header packet to the issued CID. *)
Definition issued_frame : list byte := take 42 udp4_frame ++ short_packet 0x40%u8 issued_cid [9]%u8.

Lemma process_packet_total_witness :
  exists o, process_packet udp4_frame up_table no_conn (zeros 6) 0 = Done o /\
    outcome_ok up_table no_conn udp4_frame (zeros 6) 0 o.
Proof.
  exact (process_packet_total udp4_frame up_table no_conn (zeros 6) 0 up_table_live no_conn_wf eq_refl).
Defined.

Lemma issued_cid_forwarded_witness :
  exists k, dcid_key issued_cid = Done k /\
    process_udp issued_frame up_table no_conn 42 (example_flow 12345) (zeros 6) 0
    = Done ([2; 0; 0; 0; 0; 1]%u8 ++ zeros 6 ++ drop 12 issued_frame,
            record_dcid no_conn k [2; 0; 0; 0; 0; 1]%u8 0, CidForward 3).
Proof.
  apply (issued_cid_forwarded issued_frame up_table no_conn 42 (example_flow 12345) (zeros 6) 0
    (up_config four_pass_config) four_pass_encoder [1; 2; 3; 4; 5; 6]%u8 0%u8 issued_cid 1
    (up [2; 0; 0; 0; 0; 1]%u8 (mkServer [0xed; 0x79; 0x3a; 0x51; 0xd4]%u8 (V4 [10; 0; 0; 2]%u8) None
       false false 0 None)) [2; 0; 0; 0; 0; 1]%u8 up_table_live).
  1, 3, 4, 5, 6, 7, 8, 9: vm_compute; reflexivity.
  - split; vm_compute; reflexivity.
  - vm_compute. discriminate.
  - split; vm_compute; discriminate.
  - exact (carries_short issued_cid 0x40%u8 [9]%u8 eq_refl).
Defined.

(** The outcome of placing a new flow. *)
Definition placed : list byte * ConnectionTable :=
  match udp_fallback udp4_frame [] up_table no_conn (example_flow 1) (zeros 6) 0 with
  | Done (f, c, _) => (f, c)
  | Panic => ([], no_conn)
  end.


(** An ICMP destination-unreachable error that echoes an IPv4 header and the
    first four bytes of a UDP header from port 443. *)
Definition cut_icmp_frame : list byte :=
  zeros 12 ++ [0x08; 0x00; 0x45]%u8 ++ zeros 8 ++ [1]%u8 ++ zeros 10 ++
  [3]%u8 ++ zeros 7 ++ [0x45]%u8 ++ zeros 8 ++ [17]%u8 ++ zeros 10 ++ [0x01; 0xbb; 0x30; 0x39]%u8.

(** Such a frame is handed to the daemon and stops it: the XDP program
    only needs the two port bytes and redirects the frame to the worker, the
    daemon's parser only checks for four bytes of the echoed header, and the
    slice behind the full eight-byte header panics, whatever the tables hold. *)
Theorem cut_icmp_panics `{Aes128} `{FxHash} :
  try_pesigitg (Z.eqb 443) (Ok XDP_REDIRECT) cut_icmp_frame = Ok XDP_REDIRECT /\
  forall (table : ConfigTable) (conn : ConnectionTable) (local : mac) (now : Instant),
    process_packet cut_icmp_frame table conn local now = Panic.
Proof.
  split; [vm_compute; reflexivity|]. intros table conn local now. unfold process_packet.
  destruct (parse_frame cut_icmp_frame) as [[p|]|] eqn:E; [|vm_compute in E; discriminate E|done].
  unfold process_packet_parsed.
  assert (exists f, l4 p = Icmp 70 f) as [f ->]
    by (vm_compute in E; injection E as <-; eexists; reflexivity).
  unfold process_icmp, slice_from. by rewrite slice_Panic by (vm_compute; auto).
Qed.
