(* ===== verification/RetryDatapath.v ===== *)
(** * The Retry datapath

    Models [pesigitg-daemon/src/retry/datapath.rs] and the frame view of
    [pesigitg-daemon/src/frame.rs]: the policy that decides whether an Initial
    is answered with a Retry, and the in-place rewriting of the frame into the
    answer, checksums included. *)

From S2P Require Import Prelude Std Common Route ConnTable Initial Token LoadRate.
From S2P Require Import RetryPacket RetryConfig ConfigTable Frame.

(** A frame in its UMEM chunk: the whole chunk and the descriptor's length. *)
Record FrameView := mkView {
  fv_chunk : list byte;
  fv_len : Z;
}.

Definition contents (v : FrameView) : list byte := sub (fv_chunk v) 0 (fv_len v).
Definition capacity (v : FrameView) : Z := len (fv_chunk v).

Definition resize (v : FrameView) (new_len : Z) : option FrameView :=
  if capacity v <? new_len then None else Some (mkView (fv_chunk v) new_len).

(** Write the frame's bytes back: [frame] has the view's length. *)
Definition put_contents (v : FrameView) (frame : list byte) : FrameView :=
  mkView (splice (fv_chunk v) 0 frame) (fv_len v).

Inductive Outcome := OSkip | OForward | OEmitted.

Inductive Detail :=
| DNone
| DParseError
| DTokenValid
| DTokenInvalid
| DTokenExpired
| DIssued
| DObserved.

Record FrameLayout := mkLayout {
  is_ipv4 : bool;
  ip_offset : Z;
  fl_ip_hdr_len : Z;
  udp_offset : Z;
  quic_offset : Z;
  fl_src_mac : mac;
  src_ip : IpAddr;
  dst_ip : IpAddr;
  fl_src_port : Z;
  fl_dst_port : Z;
}.

Definition from_parsed (p : ParsedFrame) : option FrameLayout :=
  match l4 p with
  | Icmp _ _ => None
  | Udp u q sp dp =>
      let mk v4 := mkLayout v4 ETH_HDR_LEN (ip_hdr_len p) u q (src_mac p) (pf_src_addr p)
                     (pf_dst_addr p) sp dp in
      match family p with
      | Ipv4 => Some (mk true)
      | Ipv6 => if IPV6_HDR_LEN <? ip_hdr_len p then None else Some (mk false)
      end
  end.

Inductive Decision := DSkip | DForward | DEmit.

(** ** Checksums *)

(** [fold_slice]: the big-endian words, a last odd byte as the high half. *)
Fixpoint fold_slice (acc : Z) (bytes : list byte) : Z :=
  match bytes with
  | a :: b :: r => fold_slice (wrap32 (acc + be16 a b)) r
  | [a] => wrap32 (acc + Z.shiftl (u8 a) 8)
  | [] => acc
  end.

(** [while acc > 0xffff { acc = (acc & 0xffff) + (acc >> 16); }], with fuel. *)
Fixpoint fold_carry (fuel : nat) (acc : Z) : Z :=
  match fuel with
  | O => acc
  | S f => if 0xffff <? acc then fold_carry f (Z.land acc 0xffff + Z.shiftr acc 16) else acc
  end.

(** Three rounds end the loop for every 32-bit accumulator ([fold_carry_done]). *)
Definition CARRY_FUEL : nat := 3.

Definition ones_complement_sum (bytes : list byte) : Z :=
  0xffff - Z.land (fold_carry CARRY_FUEL (fold_slice 0 bytes)) 0xffff.

Definition write_ipv4_checksum (frame : list byte) (ip_offset ip_hdr_len : Z) : rs (list byte) :=
  let* frame := set_at frame (ip_offset + 10) 0%u8 in
  let* frame := set_at frame (ip_offset + 11) 0%u8 in
  let* hdr := slice frame ip_offset (ip_offset + ip_hdr_len) in
  copy_to frame (ip_offset + 10) (ip_offset + 12) (be_bytes 2 (ones_complement_sum hdr)).

Definition write_ipv6_udp_checksum (frame : list byte) (l : FrameLayout) : rs (list byte) :=
  let* a := idx frame (udp_offset l + 4) in
  let* b := idx frame (udp_offset l + 5) in
  let udp_len := be16 a b in
  let* frame := set_at frame (udp_offset l + 6) 0%u8 in
  let* frame := set_at frame (udp_offset l + 7) 0%u8 in
  let* addrs := slice frame (ip_offset l + 8) (ip_offset l + 40) in
  let acc := fold_slice 0 addrs in
  let acc := wrap32 (acc + 0) in
  let acc := wrap32 (acc + udp_len) in
  let acc := wrap32 (acc + IPPROTO_UDP) in
  let udp_end := udp_offset l + udp_len in
  let* seg := slice frame (udp_offset l) udp_end in
  let acc := fold_carry CARRY_FUEL (fold_slice acc seg) in
  let sum := 0xffff - Z.land acc 0xffff in
  let sum := if sum =? 0 then 0xffff else sum in
  copy_to frame (udp_offset l + 6) (udp_offset l + 8) (be_bytes 2 sum).

(** ** The reflected headers *)

Definition reflected_v4_addrs (l : FrameLayout) : rs (list byte * list byte) :=
  match src_ip l, dst_ip l with
  | V4 s, V4 d => Done (d, s)
  | _, _ => Panic
  end.

Definition reflected_v6_addrs (l : FrameLayout) : rs (list byte * list byte) :=
  match src_ip l, dst_ip l with
  | V6 s, V6 d => Done (d, s)
  | _, _ => Panic
  end.

Definition build_reflected_headers (out : list byte) (l : FrameLayout) (local_mac : mac)
    (payload_len : Z) : rs (list byte * Z) :=
  let* out := copy_to out 0 6 (fl_src_mac l) in
  let* out := copy_to out 6 12 local_mac in
  if is_ipv4 l then
    let* out := copy_to out 12 14 (be_bytes 2 ETH_P_IP) in
    let ip_off := ETH_HDR_LEN in
    let* out := set_at out ip_off 0x45%u8 in
    let* out := set_at out (ip_off + 1) 0x00%u8 in
    let total_len := wrap16 (IPV4_MIN_HDR_LEN + UDP_HDR_LEN + payload_len) in
    let* out := copy_to out (ip_off + 2) (ip_off + 4) (be_bytes 2 total_len) in
    let* out := copy_to out (ip_off + 4) (ip_off + 6) [0; 0]%u8 in
    let* out := copy_to out (ip_off + 6) (ip_off + 8) (be_bytes 2 0x4000) in
    let* out := set_at out (ip_off + 8) 64%u8 in
    let* out := set_at out (ip_off + 9) (b8 IPPROTO_UDP) in
    let* out := copy_to out (ip_off + 10) (ip_off + 12) [0; 0]%u8 in
    let* (src, dst) := reflected_v4_addrs l in
    let* out := copy_to out (ip_off + 12) (ip_off + 16) src in
    let* out := copy_to out (ip_off + 16) (ip_off + 20) dst in
    let udp_off := ip_off + IPV4_MIN_HDR_LEN in
    let* out := copy_to out udp_off (udp_off + 2) (be_bytes 2 (fl_dst_port l)) in
    let* out := copy_to out (udp_off + 2) (udp_off + 4) (be_bytes 2 (fl_src_port l)) in
    let udp_len := wrap16 (UDP_HDR_LEN + payload_len) in
    let* out := copy_to out (udp_off + 4) (udp_off + 6) (be_bytes 2 udp_len) in
    let* out := copy_to out (udp_off + 6) (udp_off + 8) [0; 0]%u8 in
    Done (out, ETH_HDR_LEN + IPV4_MIN_HDR_LEN + UDP_HDR_LEN)
  else
    let* out := copy_to out 12 14 (be_bytes 2 ETH_P_IPV6) in
    let ip_off := ETH_HDR_LEN in
    let* out := set_at out ip_off 0x60%u8 in
    let* out := set_at out (ip_off + 1) 0x00%u8 in
    let* out := set_at out (ip_off + 2) 0x00%u8 in
    let* out := set_at out (ip_off + 3) 0x00%u8 in
    let payload := wrap16 (UDP_HDR_LEN + payload_len) in
    let* out := copy_to out (ip_off + 4) (ip_off + 6) (be_bytes 2 payload) in
    let* out := set_at out (ip_off + 6) (b8 IPPROTO_UDP) in
    let* out := set_at out (ip_off + 7) 64%u8 in
    let* (src, dst) := reflected_v6_addrs l in
    let* out := copy_to out (ip_off + 8) (ip_off + 24) src in
    let* out := copy_to out (ip_off + 24) (ip_off + 40) dst in
    let udp_off := ip_off + IPV6_HDR_LEN in
    let* out := copy_to out udp_off (udp_off + 2) (be_bytes 2 (fl_dst_port l)) in
    let* out := copy_to out (udp_off + 2) (udp_off + 4) (be_bytes 2 (fl_src_port l)) in
    let udp_len := wrap16 (UDP_HDR_LEN + payload_len) in
    let* out := copy_to out (udp_off + 4) (udp_off + 6) (be_bytes 2 udp_len) in
    let* out := copy_to out (udp_off + 6) (udp_off + 8) [0; 0]%u8 in
    Done (out, ETH_HDR_LEN + IPV6_HDR_LEN + UDP_HDR_LEN).

Section datapath.
  Context `{Aes : Aes128} `{H : Hmac} `{G : AesGcm}.
  (** The load trackers behind the references in the configurations. *)
  Context (trackers : tracker_ref -> LoadRateTracker).

(** ** Policy *)

(** The decision and the worker's tally of Initials; both [expect]s can panic. *)
Definition load_over_trigger (r : RetryConfig) (pending : Z) : rs (bool * Z) :=
  match load_tracker r with
  | None => Panic
  | Some t =>
      match load_trigger_rate r with
      | None => Panic
      | Some trigger => Done (trigger <=? rate (trackers t), wrap64 (pending + 1))
      end
  end.

Definition load_gated_decision (r : RetryConfig) (pending : Z) : rs (Decision * Z) :=
  match r_mode r with
  | Always => Done (DEmit, pending)
  | Observe => Done (DSkip, pending)
  | LoadMode =>
      let* (over, pending) := load_over_trigger r pending in
      Done (if over : bool then DEmit else DSkip, pending)
  end.

Definition classify (i : Initial) (src : IpAddr) (r : RetryConfig) (now_ms pending : Z)
    : rs (Decision * Detail * Z) :=
  let policy :=
    match r_mode r with
    | Always => Done (DEmit, DIssued, pending)
    | Observe => Done (DSkip, DObserved, pending)
    | LoadMode =>
        let* (over, pending) := load_over_trigger r pending in
        Done (if over : bool then (DEmit, DIssued, pending) else (DSkip, DObserved, pending))
    end in
  if len (token i) =? TOKEN_LEN then
    let* v := verify (r_token_key r) (token i) src (dcid i) now_ms (token_lifetime_ms r) in
    match v with
    | Ok _ => Done (DForward, DTokenValid, pending)
    | Err Invalid =>
        let* (d, pending) := load_gated_decision r pending in Done (d, DTokenInvalid, pending)
    | Err Expired =>
        let* (d, pending) := load_gated_decision r pending in Done (d, DTokenExpired, pending)
    end
  else policy.

(** ** Emission *)

Definition emit (data : FrameView) (l : FrameLayout) (version : Z) (odcid client_scid : list byte)
    (r : RetryConfig) (local_mac : mac) (now_ms : Z) : rs (FrameView * Outcome) :=
  let* minted := mint (r_token_key r) (src_ip l) odcid now_ms in
  match minted with
  | Err _ => Done (data, OSkip)
  | Ok tok =>
      let* (retry_buf, built) := build_retry (zeros 128) version odcid client_scid odcid tok in
      match built with
      | Err _ => Done (data, OSkip)
      | Ok n =>
          let* retry_bytes := slice retry_buf 0 n in
          let* (hdr_buf, hdr_len) := build_reflected_headers (zeros 64) l local_mac (len retry_bytes) in
          let total_len := hdr_len + len retry_bytes in
          match resize data total_len with
          | None => Done (data, OSkip)
          | Some data =>
              let frame := contents data in
              let* hdr := slice hdr_buf 0 hdr_len in
              let* frame := copy_to frame 0 hdr_len hdr in
              let* frame := copy_to frame hdr_len total_len retry_bytes in
              let* frame :=
                if is_ipv4 l then write_ipv4_checksum frame (ip_offset l) (fl_ip_hdr_len l)
                else write_ipv6_udp_checksum frame l in
              Done (put_contents data frame, OEmitted)
          end
      end
  end.

Definition try_handle (data : FrameView) (parsed : ParsedFrame) (table : ConfigTable)
    (local_mac : mac) (now_ms pending : Z) : rs (FrameView * Outcome * Detail * Z) :=
  let skip := Done (data, OSkip, DNone, pending) in
  match retry table with
  | None => skip
  | Some r =>
      if negb (r_enabled r) then skip
      else
        match from_parsed parsed with
        | None => skip
        | Some l =>
            if negb (bool_decide (r_ports r = [])) && negb (existsb (Z.eqb (fl_dst_port l)) (r_ports r))
            then skip
            else
              let* quic := slice_from (contents data) (quic_offset l) in
              let* parsed_initial := parse_strict quic in
              match parsed_initial with
              | Err NotLongHeader | Err NotInitial | Err FixedBitUnset
              | Err (UnsupportedVersion _) | Err Truncated => skip
              | Err _ => Done (data, OSkip, DParseError, pending)
              | Ok i =>
                  let* dcid_buf := copy_to (zeros 20) 0 (len (dcid i)) (dcid i) in
                  let* scid_buf := copy_to (zeros 20) 0 (len (scid i)) (scid i) in
                  let* (decision, detail, pending) :=
                    classify i (src_ip l) r now_ms pending in
                  match decision with
                  | DForward => Done (data, OForward, detail, pending)
                  | DSkip => Done (data, OSkip, detail, pending)
                  | DEmit =>
                      let* d := slice dcid_buf 0 (len (dcid i)) in
                      let* s := slice scid_buf 0 (len (scid i)) in
                      let* (data, outcome) := emit data l (version i) d s r local_mac now_ms in
                      Done (data, outcome, detail, pending)
                  end
              end
        end
  end.

End datapath.

(** ** Checksum arithmetic *)

(** The sum of the big-endian words, without wrap-around. *)
Fixpoint word_sum (bytes : list byte) : Z :=
  match bytes with
  | a :: b :: r => be16 a b + word_sum r
  | [a] => Z.shiftl (u8 a) 8
  | [] => 0
  end.

Lemma list_ind2 {A} (P : list A -> Prop) :
  P [] -> (forall a, P [a]) -> (forall a b r, P r -> P (a :: b :: r)) -> forall l, P l.
Proof.
  intros H0 H1 H2 l. enough (P l /\ forall a, P (a :: l)) by tauto.
  induction l as [|x l [IH1 IH2]]; split; auto.
Qed.

Lemma word_sum_range l : 0 <= word_sum l <= 65535 * len l.
Proof.
  induction l as [|a|a b r IH] using list_ind2; cbn [word_sum]; autorewrite with len; [lia| |].
  - rewrite Z.shiftl_mul_pow2 by lia. pose proof (u8_range a). lia.
  - pose proof (be16_range a b). lia.
Qed.

Lemma word_sum_app l k : Nat.Even (length l) -> word_sum (l ++ k) = word_sum l + word_sum k.
Proof.
  induction l as [|a|a b r IH] using list_ind2; intros He; [done| |].
  - destruct He as [n Hn]. simpl in Hn. lia.
  - cbn [app word_sum]. rewrite IH; [lia|]. destruct He as [n Hn]. exists (n - 1)%nat. simpl in Hn. lia.
Qed.

Lemma word_sum_be2 z : 0 <= z < 65536 -> word_sum (be_bytes 2 z) = z.
Proof.
  intros Hz. pose proof (be_val_be_bytes 2 z) as Hb. rewrite Z.mod_small in Hb by (simpl; lia).
  rewrite <- Hb at 2. cbn [be_bytes app word_sum]. unfold be16. lia.
Qed.

Lemma fold_slice_sum acc l :
  0 <= acc -> acc + 65535 * len l < 2 ^ 32 -> fold_slice acc l = acc + word_sum l.
Proof.
  revert acc. induction l as [|a|a b r IH] using list_ind2; intros acc Ha Hb; cbn [fold_slice word_sum].
  - lia.
  - autorewrite with len in Hb. unfold wrap32. rewrite Z.mod_small; [done|].
    rewrite Z.shiftl_mul_pow2 by lia. pose proof (u8_range a). lia.
  - autorewrite with len in Hb. pose proof (be16_range a b). pose_len. unfold wrap32.
    rewrite Z.mod_small by lia. rewrite IH by lia. lia.
Qed.

Lemma land_ffff z : Z.land z 0xffff = z mod 65536.
Proof. by apply (Z.land_ones z 16). Qed.

(** One folding round keeps the residue modulo [0xffff] and decreases. *)
Lemma carry_round acc :
  0xffff < acc < 2 ^ 32 ->
  let acc' := Z.land acc 0xffff + Z.shiftr acc 16 in
  0 < acc' < acc /\ acc' mod 65535 = acc mod 65535 /\ acc' <= 0xffff + acc / 65536.
Proof.
  intros Ha acc'. unfold acc'. rewrite land_ffff, Z.shiftr_div_pow2 by lia.
  change (2 ^ 16) with 65536. pose proof (Z.div_mod acc 65536 ltac:(lia)) as Hd.
  pose proof (Z.mod_pos_bound acc 65536 ltac:(lia)).
  assert (1 <= acc / 65536) by (apply Z.div_le_lower_bound; lia).
  split; [lia|]. split; [|lia]. rewrite Hd at 3.
  replace (65536 * (acc / 65536) + acc mod 65536)
    with (acc mod 65536 + acc / 65536 + acc / 65536 * 65535) by lia.
  by rewrite Z.mod_add.
Qed.

(** The fuel is enough: the folded value fits 16 bits for every 32-bit
    accumulator. *)
Lemma fold_carry_done acc :
  0 <= acc < 2 ^ 32 ->
  let r := fold_carry CARRY_FUEL acc in
  0 <= r <= 0xffff /\ r mod 65535 = acc mod 65535 /\ (0 < acc -> 0 < r).
Proof.
  intros Ha. unfold CARRY_FUEL. cbn [fold_carry]. cbv zeta.
  destruct (0xffff <? acc) eqn:E1; [|split; [lia|done]].
  destruct (carry_round acc ltac:(lia)) as (Hr & Hm & Hb). set (a1 := Z.land acc _ + _) in *.
  assert (acc / 65536 < 65536) by (apply Z.div_lt_upper_bound; lia).
  destruct (0xffff <? a1) eqn:E2; [|split; [lia|]; split; [done|lia]].
  destruct (carry_round a1 ltac:(lia)) as (Hr2 & Hm2 & Hb2). set (a2 := Z.land a1 _ + _) in *.
  assert (a2 <= 0xffff).
  { unfold a2. rewrite land_ffff, Z.shiftr_div_pow2 by lia. change (2 ^ 16) with 65536.
    assert (a1 / 65536 = 1) as Hq
      by (symmetry; apply (Z.div_unique a1 65536 1 (a1 - 65536)); lia).
    pose proof (Z.div_mod a1 65536 ltac:(lia)). lia. }
  destruct (0xffff <? a2) eqn:E3; [lia|]. split; [lia|]. split; [congruence|lia].
Qed.

(** The complement of the folded sum makes the total fold to all ones. *)
Lemma checksum_cancels s c :
  0 < s + c < 2 ^ 32 -> 0 <= s -> 0 <= c -> (s + c) mod 65535 = 0 ->
  fold_carry CARRY_FUEL (s + c) = 0xffff.
Proof.
  intros Hs H1 H2 Hm. destruct (fold_carry_done (s + c)) as (Hr & He & Hp); [lia|].
  rewrite Hm in He. specialize (Hp ltac:(lia)). set (r := fold_carry _ _) in *.
  destruct (decide (r = 65535)) as [->|Hn]; [done|]. rewrite Z.mod_small in He by lia. lia.
Qed.

Lemma complement_mod s :
  0 <= s < 2 ^ 32 ->
  let c := 0xffff - Z.land (fold_carry CARRY_FUEL s) 0xffff in
  0 <= c <= 0xffff /\ (s + c) mod 65535 = 0 /\ 0 < s + c.
Proof.
  intros Hs. destruct (decide (s = 0)) as [->|Hn0]; [done|].
  destruct (fold_carry_done s Hs) as (Hr & He & Hp). cbv zeta.
  set (r := fold_carry _ _) in *.
  rewrite land_ffff, Z.mod_small by lia. split; [lia|]. split; [|lia].
  rewrite Z.add_mod, <- He, <- Z.add_mod by lia. by replace (r + (0xffff - r)) with (1 * 65535) by lia.
Qed.

(** A block whose checksum field was filled with the complement of the sum of
    the rest verifies: its own checksum is zero. *)
Lemma ones_complement_fill pre post :
  Nat.Even (length pre) -> len pre + len post <= 1000 ->
  ones_complement_sum (pre ++ be_bytes 2 (ones_complement_sum (pre ++ [0; 0]%u8 ++ post)) ++ post) = 0.
Proof.
  intros He Hl. pose proof (word_sum_range pre). pose proof (word_sum_range post). pose_len.
  set (c := ones_complement_sum (pre ++ [0; 0]%u8 ++ post)).
  assert (Hc : c = 0xffff - Z.land (fold_carry CARRY_FUEL (word_sum pre + word_sum post)) 0xffff).
  { unfold c, ones_complement_sum. rewrite fold_slice_sum by llia.
    rewrite word_sum_app by done. reflexivity. }
  destruct (complement_mod (word_sum pre + word_sum post)) as (Hr & Hm & Hp); [lia|].
  rewrite <- Hc in *. unfold ones_complement_sum. rewrite fold_slice_sum by llia.
  rewrite !word_sum_app by (done || by exists 1%nat). rewrite word_sum_be2 by lia.
  replace (0 + (word_sum pre + (c + word_sum post))) with (word_sum pre + word_sum post + c) by lia.
  by rewrite checksum_cancels by (done || lia).
Qed.

(** ** The answer on the wire *)

Definition eth_hdr (dst src ty : list byte) : list byte := dst ++ src ++ ty.

Definition v4_hdr (n : Z) (cks src dst : list byte) : list byte :=
  ([0x45; 0]%u8 ++ be_bytes 2 (28 + n) ++ [0; 0; 0x40; 0; 64; 17]%u8) ++ cks ++ src ++ dst.

Definition v6_hdr (n : Z) (src dst : list byte) : list byte :=
  ([0x60; 0; 0; 0]%u8 ++ be_bytes 2 (8 + n) ++ [17; 64]%u8) ++ src ++ dst.

Definition udp_hdr (sp dp n : Z) (cks : list byte) : list byte :=
  (be_bytes 2 sp ++ be_bytes 2 dp ++ be_bytes 2 (8 + n)) ++ cks.

Definition udp6_sum (src dst seg : list byte) : Z :=
  let sum := 0xffff - Z.land (fold_carry CARRY_FUEL
               (word_sum (src ++ dst) + len seg + 17 + word_sum seg)) 0xffff in
  if sum =? 0 then 0xffff else sum.

(** The answer carrying [pkt]: every header reflected.  The IPv4 checksum covers
    [fl_ip_hdr_len] bytes from the IP header on. *)
Definition answer (l : FrameLayout) (local_mac : mac) (pkt : list byte) : list byte :=
  let n := len pkt in
  match src_ip l, dst_ip l with
  | V4 s, V4 d =>
      let ip c := v4_hdr n c d s ++ udp_hdr (fl_dst_port l) (fl_src_port l) n [0; 0]%u8 ++ pkt in
      eth_hdr (fl_src_mac l) local_mac [8; 0]%u8 ++
      ip (be_bytes 2 (ones_complement_sum (sub (ip [0; 0]%u8) 0 (fl_ip_hdr_len l))))
  | V6 s, V6 d =>
      let udp c := udp_hdr (fl_dst_port l) (fl_src_port l) n c ++ pkt in
      eth_hdr (fl_src_mac l) local_mac [0x86; 0xdd]%u8 ++ v6_hdr n d s ++
      udp (be_bytes 2 (udp6_sum d s (udp [0; 0]%u8)))
  | _, _ => []
  end.

Record layout_wf (l : FrameLayout) : Prop := {
  lw_mac : length (fl_src_mac l) = 6%nat;
  lw_src : ip_wf (src_ip l);
  lw_dst : ip_wf (dst_ip l);
  lw_family : match src_ip l, dst_ip l with
              | V4 _, V4 _ => is_ipv4 l = true /\ 20 <= fl_ip_hdr_len l <= 60
              | V6 _, V6 _ => is_ipv4 l = false /\ udp_offset l = 54
              | _, _ => False
              end;
  lw_ip_offset : ip_offset l = 14;
}.

Definition hdr_of (l : FrameLayout) (local_mac : mac) (n : Z) : list byte :=
  match src_ip l, dst_ip l with
  | V4 s, V4 d => eth_hdr (fl_src_mac l) local_mac [8; 0]%u8 ++ v4_hdr n [0; 0]%u8 d s ++
                  udp_hdr (fl_dst_port l) (fl_src_port l) n [0; 0]%u8
  | V6 s, V6 d => eth_hdr (fl_src_mac l) local_mac [0x86; 0xdd]%u8 ++ v6_hdr n d s ++
                  udp_hdr (fl_dst_port l) (fl_src_port l) n [0; 0]%u8
  | _, _ => []
  end.

(** A two-byte value and a short array, spelled out. *)
Lemma be2_bytes z : exists a b, be_bytes 2 z = [a; b].
Proof. cbn [be_bytes app]. eauto. Qed.

Lemma wrap16_small z : 0 <= z < 65536 -> wrap16 z = z.
Proof. intros. unfold wrap16. by rewrite Z.mod_small by (simpl; lia). Qed.

Lemma wrap32_small z : 0 <= z < 2 ^ 32 -> wrap32 z = z.
Proof. intros. unfold wrap32. by apply Z.mod_small. Qed.

Ltac spell_be2 := repeat match goal with
  | |- context [be_bytes 2 ?z] =>
      let a := fresh "a" in let b := fresh "b" in let E := fresh "E" in
      destruct (be2_bytes z) as (a & b & E); rewrite ?E; clear E
  end.

Lemma build_reflected_headers_spec l lm n :
  layout_wf l -> length lm = 6%nat -> 0 <= n <= 1000 ->
  build_reflected_headers (zeros 64) l lm n =
  Done (hdr_of l lm n ++ zeros (64 - len (hdr_of l lm n)), len (hdr_of l lm n)).
Proof.
  intros [Hm Hs Hd Hf Ho] Hl Hn. unfold build_reflected_headers, hdr_of, reflected_v4_addrs,
    reflected_v6_addrs, eth_hdr, v4_hdr, v6_hdr, udp_hdr.
  change (IPV4_MIN_HDR_LEN + UDP_HDR_LEN) with 28. change UDP_HDR_LEN with 8 at 1 2 3 4.
  rewrite !wrap16_small by lia.
  destruct l as [v4 io hl uo qo sm si di sp dp]. simpl in Hm, Hs, Hd, Hf |- *.
  do 6 (destruct sm as [|? sm]; [discriminate|]). destruct sm; [|discriminate].
  do 6 (destruct lm as [|? lm]; [discriminate|]). destruct lm; [|discriminate].
  destruct si as [s|s], di as [d|d]; try done; destruct Hf as [-> _]; simpl in Hs, Hd.
  - do 4 (destruct s as [|? s]; [discriminate|]). destruct s; [|discriminate].
    do 4 (destruct d as [|? d]; [discriminate|]). destruct d; [|discriminate].
    spell_be2. reflexivity.
  - do 16 (destruct s as [|? s]; [discriminate|]). destruct s; [|discriminate].
    do 16 (destruct d as [|? d]; [discriminate|]). destruct d; [|discriminate].
    spell_be2. reflexivity.
Qed.

Lemma set_at_mid (l : list byte) x r i v :
  i = len l -> set_at (l ++ x :: r) i v = Done (l ++ v :: r).
Proof. intros ->. rewrite set_at_front. by rewrite <- app_assoc. Qed.

Lemma copy_to_mid (l m r src : list byte) a b :
  a = len l -> b = a + len src -> len m = len src ->
  copy_to (l ++ m ++ r) a b src = Done (l ++ src ++ r).
Proof. intros. rewrite copy_to_front by lia. by rewrite <- app_assoc. Qed.

Lemma write_ipv4_checksum_spec (e a b : list byte) hl :
  len e = 14 -> len a = 10 -> 12 <= hl <= 12 + len b ->
  write_ipv4_checksum (e ++ a ++ [0; 0]%u8 ++ b) 14 hl =
  Done (e ++ a ++ be_bytes 2 (ones_complement_sum (sub (a ++ [0; 0]%u8 ++ b) 0 hl)) ++ b).
Proof.
  intros He Ha Hl. unfold write_ipv4_checksum. rewrite (app_assoc e a). cbn [app].
  rewrite set_at_mid by llia. replace (_ :: _ :: b) with ([0%u8] ++ 0%u8 :: b) by done.
  rewrite (app_assoc (e ++ a)), set_at_mid by llia. rewrite <- !app_assoc. cbn [app].
  rewrite slice_in by llia. rewrite (sub_app_r e), He by lia.
  replace (14 - 14) with 0 by lia. replace (14 + hl - 14) with hl by lia.
  rewrite (app_assoc e a). replace (0%u8 :: 0%u8 :: b) with ([0; 0]%u8 ++ b) by done.
  rewrite copy_to_mid by llia. by rewrite <- app_assoc.
Qed.

Lemma even_len (l : list byte) (n : nat) : len l = 2 * Z.of_nat n -> Nat.Even (length l).
Proof. intros Hl. exists n. unfold len in Hl. lia. Qed.

Lemma word_sum_be4 z : 0 <= z < 65536 -> word_sum (be_bytes 4 z) = z.
Proof.
  intros Hz. assert (be_bytes 4 z = [0; 0]%u8 ++ be_bytes 2 z) as ->.
  { apply be_val_inj; [done|]. rewrite be_val_app, !be_val_be_bytes, !Z.mod_small by (simpl; lia).
    reflexivity. }
  rewrite word_sum_app by (by exists 1%nat). rewrite word_sum_be2 by done. reflexivity.
Qed.

(** The words of a UDP segment with its IPv6 pseudo-header. *)
Lemma pseudo_word_sum src dst hdr pkt c :
  len src = 16 -> len dst = 16 -> len hdr = 6 -> len pkt <= 1000 -> 0 <= c <= 0xffff ->
  let seg := hdr ++ be_bytes 2 c ++ pkt in
  word_sum (src ++ dst ++ be_bytes 4 (len seg) ++ [0; 0; 0; 17]%u8 ++ seg) =
  word_sum (src ++ dst) + len seg + 17 + word_sum (hdr ++ [0; 0]%u8 ++ pkt) + c.
Proof.
  intros Hs Hd Hh Hp Hc seg. assert (Hseg : len seg = 8 + len pkt) by (unfold seg; llia). pose_len.
  rewrite (app_assoc src dst), (word_sum_app (src ++ dst)) by (apply (even_len _ 16); llia).
  rewrite (word_sum_app (be_bytes 4 _)) by (apply (even_len _ 2); llia).
  rewrite word_sum_be4 by lia.
  rewrite (word_sum_app [0; 0; 0; 17]%u8) by (by exists 2%nat). unfold seg at 2.
  rewrite !(word_sum_app hdr) by (apply (even_len _ 3); lia).
  rewrite (word_sum_app (be_bytes 2 c)), (word_sum_app [0; 0]%u8) by (by exists 1%nat).
  rewrite word_sum_be2 by lia. change (word_sum [0; 0; 0; 17]%u8) with 17.
  change (word_sum [0; 0]%u8) with 0. lia.
Qed.

(** The IPv6 checksum makes the segment verify with its pseudo-header. *)
Lemma udp6_sum_spec src dst hdr pkt :
  len src = 16 -> len dst = 16 -> len hdr = 6 -> len pkt <= 1000 ->
  let c := udp6_sum src dst (hdr ++ [0; 0]%u8 ++ pkt) in
  let seg := hdr ++ be_bytes 2 c ++ pkt in
  0 < c /\ c <= 0xffff /\
  ones_complement_sum (src ++ dst ++ be_bytes 4 (len seg) ++ [0; 0; 0; 17]%u8 ++ seg) = 0.
Proof.
  intros Hs Hd Hh Hp c seg. set (z := hdr ++ [0; 0]%u8 ++ pkt).
  assert (Hz : len z = 8 + len pkt) by (unfold z; llia).
  pose proof (word_sum_range (src ++ dst)) as Hw1. rewrite len_app in Hw1.
  pose proof (word_sum_range z) as Hw2. pose_len.
  set (S := word_sum (src ++ dst) + len z + 17 + word_sum z).
  destruct (complement_mod S) as (Hr & Hm & _); [unfold S; lia|].
  set (x := 0xffff - Z.land (fold_carry CARRY_FUEL S) 0xffff) in *.
  assert (Hc : c = if x =? 0 then 0xffff else x) by done.
  assert ((S + c) mod 65535 = 0 /\ 0 < c <= 0xffff) as [Hcm Hcr].
  { rewrite Hc. case_goal; [|split; [done|lia]]. split; [|lia].
    assert (x = 0) as Hx by lia. rewrite Hx, Z.add_0_r in Hm.
    replace (S + 0xffff) with (S + 1 * 65535) by lia. by rewrite Z.mod_add. }
  split; [lia|]. split; [lia|]. assert (Hseg : len seg = 8 + len pkt) by (unfold seg; llia).
  unfold ones_complement_sum. rewrite fold_slice_sum by (rewrite ?len_app, ?len_be_bytes; llia).
  unfold seg. rewrite pseudo_word_sum by lia. fold seg z. rewrite Hseg, <- Hz. fold S.
  rewrite Z.add_0_l, checksum_cancels by (done || lia). done.
Qed.

(** The UDP segment of an IPv6 answer, and the reads the checksum makes of the
    frame around it. *)
Definition udp_seg (u pkt cks : list byte) : list byte :=
  (u ++ be_bytes 2 (8 + len pkt)) ++ cks ++ pkt.

Lemma len_udp_seg u pkt c : len u = 4 -> len c = 2 -> len (udp_seg u pkt c) = 8 + len pkt.
Proof. intros. unfold udp_seg. llia. Qed.

Section ipv6_frame.
  Context (e h src dst u pkt : list byte).
  Context (He : len e = 14) (Hh : len h = 8) (Hs : len src = 16) (Hd : len dst = 16)
    (Hu : len u = 4) (Hp : len pkt <= 1000).
Let f := e ++ (h ++ src ++ dst) ++ udp_seg u pkt [0; 0]%u8.

#[local] Lemma v6_frame_split :
  f = (e ++ h ++ src ++ dst) ++ u ++ be_bytes 2 (8 + len pkt) ++ [0; 0]%u8 ++ pkt.
Proof. unfold f, udp_seg. by rewrite <- !app_assoc. Qed.

#[local] Lemma v6_frame_len : len f = 62 + len pkt.
Proof. rewrite v6_frame_split. llia. Qed.

Lemma v6_frame_udp_len :
  exists a b, idx f (54 + 4) = Done a /\ idx f (54 + 5) = Done b /\ be16 a b = 8 + len pkt.
Proof.
  pose proof v6_frame_len. pose_len. exists (elt f (54 + 4)), (elt f (54 + 5)).
  rewrite !idx_in by lia. split; [done|]. split; [done|].
  pose proof (be_val_be_bytes 2 (8 + len pkt)) as Hb. rewrite Z.mod_small in Hb by (simpl; lia).
  rewrite <- Hb, v6_frame_split, !(elt_app_r (e ++ _)), !(elt_app_r u), !elt_app_l by llia.
  autorewrite with len. rewrite He, Hh, Hs, Hd, Hu. reflexivity.
Qed.

Lemma v6_frame_zero i : i = 54 + 6 \/ i = 54 + 7 -> set_at f i 0%u8 = Done f.
Proof.
  intros Hi. pose proof v6_frame_len as Hf. pose_len.
  rewrite set_at_in by lia. f_equal. apply list_insert_id.
  rewrite lookup_elt by (unfold len in Hf; lia). f_equal. rewrite Z2Nat.id by lia.
  rewrite v6_frame_split, (elt_app_r (e ++ _)), (elt_app_r u), elt_app_r, elt_app_l by llia.
  autorewrite with len. rewrite He, Hh, Hs, Hd, Hu. destruct Hi as [->| ->]; reflexivity.
Qed.

Lemma v6_frame_addrs : slice f (14 + 8) (14 + 40) = Done (src ++ dst).
Proof.
  assert (f = (e ++ h) ++ (src ++ dst) ++ udp_seg u pkt [0; 0]%u8) as ->
    by (unfold f; by rewrite <- !app_assoc).
  apply slice_app_mid; llia.
Qed.

Lemma v6_frame_seg : slice f 54 (54 + (8 + len pkt)) = Done (udp_seg u pkt [0; 0]%u8).
Proof.
  pose proof (slice_app_mid (e ++ h ++ src ++ dst) (udp_seg u pkt [0; 0]%u8) [] 54
    (54 + (8 + len pkt))) as Hx.
  rewrite app_nil_r, <- app_assoc in Hx. apply Hx; rewrite ?len_udp_seg by done; llia.
Qed.

Lemma write_ipv6_udp_checksum_spec (l : FrameLayout) :
  ip_offset l = 14 -> udp_offset l = 54 ->
  write_ipv6_udp_checksum f l =
  Done (e ++ (h ++ src ++ dst) ++
        udp_seg u pkt (be_bytes 2 (udp6_sum src dst (udp_seg u pkt [0; 0]%u8)))).
Proof using All.
  intros Hio Huo. unfold write_ipv6_udp_checksum. rewrite Hio, Huo.
  destruct v6_frame_udp_len as (a & b & -> & -> & ->). rewrite !v6_frame_zero by lia.
  rewrite v6_frame_addrs, v6_frame_seg. pose_len.
  pose proof (word_sum_range (src ++ dst)) as Hw1.
  pose proof (word_sum_range (udp_seg u pkt [0; 0]%u8)) as Hw2.
  pose proof (len_udp_seg u pkt [0; 0]%u8 Hu eq_refl) as Hlu.
  rewrite len_app, Hs, Hd in Hw1. unfold IPPROTO_UDP. rewrite (fold_slice_sum 0) by llia.
  set (w := word_sum (src ++ dst)) in *.
  rewrite (wrap32_small (0 + w + 0)), (wrap32_small (0 + w + 0 + (8 + len pkt))),
    (wrap32_small (0 + w + 0 + (8 + len pkt) + 17)), fold_slice_sum by lia.
  match goal with |- context [be_bytes 2 (if ?s =? 0 then _ else _)] =>
    assert (Hs6 : (if s =? 0 then 0xffff else s) = udp6_sum src dst (udp_seg u pkt [0; 0]%u8)) end.
  { unfold udp6_sum. rewrite Hlu. fold w.
    by replace (0 + w + 0 + (8 + len pkt) + 17) with (w + (8 + len pkt) + 17) by lia. }
  rewrite Hs6. set (c := udp6_sum _ _ _).
  assert (f = ((e ++ h ++ src ++ dst) ++ u ++ be_bytes 2 (8 + len pkt)) ++ [0; 0]%u8 ++ pkt) as ->
    by (rewrite v6_frame_split; by rewrite <- !app_assoc).
  rewrite copy_to_mid by llia. unfold udp_seg. by rewrite <- !app_assoc.
Qed.

End ipv6_frame.

Lemma len_answer l lm pkt :
  layout_wf l -> length lm = 6%nat ->
  len (answer l lm pkt) = len (hdr_of l lm (len pkt)) + len pkt /\
  len (hdr_of l lm (len pkt)) = (if is_ipv4 l then 42 else 62).
Proof.
  intros [Hm Hs Hd Hf _] Hl. unfold answer, hdr_of, eth_hdr, v4_hdr, v6_hdr, udp_hdr.
  assert (len (fl_src_mac l) = 6 /\ len lm = 6) as [??] by (unfold len; lia).
  destruct (src_ip l) as [s|s], (dst_ip l) as [d|d]; try done; destruct Hf as [-> _];
    simpl in Hs, Hd; assert (len s = Z.of_nat (length s) /\ len d = Z.of_nat (length d)) by done;
    llia.
Qed.

(** Filling the checksum of the reflected frame gives the answer. *)
Lemma checksum_answer l lm pkt :
  layout_wf l -> length lm = 6%nat -> 47 <= len pkt <= 1000 ->
  (if is_ipv4 l then write_ipv4_checksum (hdr_of l lm (len pkt) ++ pkt) (ip_offset l) (fl_ip_hdr_len l)
   else write_ipv6_udp_checksum (hdr_of l lm (len pkt) ++ pkt) l) = Done (answer l lm pkt).
Proof.
  intros [Hm Hs Hd Hf Ho] Hl Hn. unfold answer, hdr_of.
  assert (len (fl_src_mac l) = 6 /\ len lm = 6) as [Hm1 Hm2] by (unfold len; lia).
  destruct (src_ip l) as [s|s], (dst_ip l) as [d|d]; try done; destruct Hf as [-> Hf]; simpl in Hs, Hd;
    assert (len s = Z.of_nat (length s) /\ len d = Z.of_nat (length d)) as [Hs' Hd'] by done.
  - rewrite Ho. unfold v4_hdr. rewrite <- !app_assoc.
    pose proof (write_ipv4_checksum_spec (eth_hdr (fl_src_mac l) lm [8; 0]%u8)
      ([0x45; 0]%u8 ++ be_bytes 2 (28 + len pkt) ++ [0; 0; 0x40; 0; 64; 17]%u8)
      (d ++ s ++ udp_hdr (fl_dst_port l) (fl_src_port l) (len pkt) [0; 0]%u8 ++ pkt)
      (fl_ip_hdr_len l)) as Hw.
    rewrite <- !app_assoc in Hw. apply Hw; unfold eth_hdr, udp_hdr; llia.
  - unfold v6_hdr, udp_hdr.
    pose proof (write_ipv6_udp_checksum_spec (eth_hdr (fl_src_mac l) lm [0x86; 0xdd]%u8)
      ([0x60; 0; 0; 0]%u8 ++ be_bytes 2 (8 + len pkt) ++ [17; 64]%u8) d s
      (be_bytes 2 (fl_dst_port l) ++ be_bytes 2 (fl_src_port l)) pkt) as Hw.
    unfold udp_seg in Hw. rewrite <- !app_assoc in Hw. repeat rewrite <- app_assoc.
    apply Hw; unfold eth_hdr; llia.
Qed.

Section emission.
  Context `{HmacLaws} `{AesGcmLaws}.

(** The Retry packet sent for an Initial: the token in it is fresh, and its
    source CID is the client's own destination CID. *)
Definition retry_for (r : RetryConfig) (src : IpAddr) (version : Z) (odcid scid : list byte)
    (now_ms : Z) : list byte :=
  retry_packet version odcid scid odcid
    (token_of (r_token_key r) src odcid (be_bytes 8 now_ms)).

Lemma len_retry_for r src v o s now :
  len (retry_for r src v o s now) = 47 + len o + len s.
Proof.
  unfold retry_for, retry_packet. cbv zeta.
  rewrite len_app, len_retry_body, len_token_of by apply len_be_bytes.
  unfold retry_tag. case_goal; rewrite len_gcm_tag; lia.
Qed.

Lemma emit_spec data l v odcid scid r lm now :
  layout_wf l -> length lm = 6%nat -> v = QUIC_V1 \/ v = QUIC_V2 ->
  len odcid <= 20 -> len scid <= 20 ->
  let out := answer l lm (retry_for r (src_ip l) v odcid scid now) in
  emit data l v odcid scid r lm now =
  Done (if capacity data <? len out then (data, OSkip)
        else (mkView (splice (fv_chunk data) 0 out) (len out), OEmitted)).
Proof.
  intros Hl Hlm Hv Ho Hs out. unfold emit. rewrite mint_spec by done.
  pose proof (len_retry_for r (src_ip l) v odcid scid now) as Hp.
  unfold retry_for in *. set (tok := token_of _ _ _ _) in *. set (pkt := retry_packet _ _ _ _ _) in *.
  assert (Ht : len tok = 24) by (apply len_token_of, len_be_bytes). pose_len.
  destruct (build_retry_outcome (zeros 128) v odcid scid odcid tok) as (buf & -> & Hbuf).
  assert (Hout : build_outcome (zeros 128) v odcid scid odcid tok = Ok (len pkt)).
  { unfold build_outcome. rewrite len_zeros by lia. repeat case_goal; try lia; f_equal; lia. }
  rewrite Hout in *. specialize (Hbuf _ eq_refl). fold pkt in Hbuf. subst buf.
  rewrite slice_in by (rewrite ?len_app; pose_len; lia). rewrite sub_app_l, sub_full by lia.
  rewrite build_reflected_headers_spec by (done || lia). unfold resize.
  destruct (len_answer l lm pkt Hl Hlm) as [Hla Hlh]. fold out in Hla. rewrite <- Hla.
  set (hdr := hdr_of l lm (len pkt)) in *. case_goal; [done|].
  assert (Hh64 : len hdr <= 62) by (rewrite Hlh; case_goal; lia).
  rewrite slice_in by (pose_len; rewrite ?len_app, ?len_zeros; lia). pose_len. rewrite sub_app_l, sub_full by lia.
  set (c := contents _). assert (Hc : len c = len hdr + len pkt).
  { unfold c, contents, capacity in *. cbn [fv_chunk fv_len]. rewrite len_sub; lia. }
  destruct (split_at c (len hdr)) as (c1 & c2 & Hc12 & Hc1); [lia|]. rewrite Hc12, len_app in *.
  pose proof (copy_to_mid [] c1 c2 hdr 0 (len hdr)) as Hcp. cbn [app] in Hcp.
  rewrite Hcp by (done || lia).
  pose proof (copy_to_mid hdr c2 [] pkt (len hdr) (len out)) as Hcp2. rewrite !app_nil_r in Hcp2.
  rewrite Hcp2 by lia. unfold hdr. by rewrite checksum_answer by (done || lia).
Qed.

End emission.

(** ** Policy, declaratively *)

(** The Initials the Retry path handles: Retry is enabled, the frame is UDP
    without IPv6 extension headers, its port is in scope, and it carries a
    well-formed Initial. *)
Record handled `{Aes : Aes128} (data : FrameView) (p : ParsedFrame) (table : ConfigTable) (r : RetryConfig)
    (l : FrameLayout) (i : Initial) : Prop := {
  h_retry : retry table = Some r;
  h_enabled : r_enabled r = true;
  h_layout : from_parsed p = Some l;
  h_port : r_ports r = [] \/ fl_dst_port l ∈ r_ports r;
  h_initial : parse_strict (sub (contents data) (quic_offset l) (len (contents data))) = Done (Ok i);
}.

Definition view_wf (v : FrameView) : Prop := 0 <= fv_len v <= capacity v.

Lemma contents_rewritten v out :
  len out <= capacity v -> contents (mkView (splice (fv_chunk v) 0 out) (len out)) = out.
Proof.
  intros. unfold contents, capacity in *. cbn [fv_chunk fv_len]. apply sub_splice_same; pose_len; lia.
Qed.

Lemma from_parsed_wf frame p l :
  parsed_wf frame p -> from_parsed p = Some l ->
  layout_wf l /\ 0 <= quic_offset l <= len frame /\ src_ip l = pf_src_addr p.
Proof.
  intros (Hlen & Hmac & Hfam & Hl4). unfold from_parsed, l4_wf in *.
  destruct (l4 p) as [u q sp dp|]; [|done]. destruct Hl4 as (Hu & Hq & Hql & _).
  assert (Hsub : forall a b, 0 <= a <= b -> b <= len frame -> length (sub frame a b) = Z.to_nat (b - a)).
  { intros a b Ha Hb. pose proof (len_sub frame a b Ha Hb) as Hs. unfold len in Hs at 1. lia. }
  assert (Hm6 : length (src_mac p) = 6%nat) by (rewrite Hmac, Hsub by lia; done).
  unfold IPV6_HDR_LEN, ETH_HDR_LEN. destruct (family p).
  - destruct Hfam as (Hh & Hs & Hd). intros [= <-]. split; [|simpl; split; [lia|done]].
    constructor; simpl; rewrite ?Hs, ?Hd; simpl; rewrite ?Hsub by lia; try done.
  - destruct Hfam as (Hh & Hs & Hd). case_goal; [done|]. intros [= <-]. split; [|simpl; split; [lia|done]].
    constructor; simpl; rewrite ?Hs, ?Hd; simpl; rewrite ?Hsub by lia; try done. split; [done|lia].
Qed.

Lemma handled_unique `{Aes : Aes128} data p table r l i r' l' i' :
  handled data p table r l i -> handled data p table r' l' i' -> r' = r /\ l' = l /\ i' = i.
Proof.
  intros [Hr _ Hl _ Hi] [Hr' _ Hl' _ Hi']. assert (r' = r) as -> by congruence.
  assert (l' = l) as -> by congruence. split; [done|]. split; [done|congruence].
Qed.

Lemma handled_dec `{Aes : Aes128} data p table :
  (exists r l i, handled data p table r l i) \/ ~ (exists r l i, handled data p table r l i).
Proof.
  destruct (retry table) as [r|] eqn:Hr; [|right; intros (?&?&?&[]); congruence].
  destruct (r_enabled r) eqn:He; [|right; intros (?&?&?&[]); congruence].
  destruct (from_parsed p) as [l|] eqn:Hl; [|right; intros (?&?&?&[]); congruence].
  destruct (decide (r_ports r = [] \/ fl_dst_port l ∈ r_ports r)) as [Hp|Hp];
    [|right; intros (r'&l'&i'&[]); apply Hp; congruence].
  destruct (parse_strict (sub (contents data) (quic_offset l) (len (contents data)))) as [[i|]|] eqn:Hi;
    [|right; intros (r'&l'&i'&[]); congruence..].
  left. exists r, l, i. by constructor.
Qed.

Section policy.
  Context `{Aes : Aes128} `{HL : HmacLaws} `{GL : AesGcmLaws}.
  Context (trackers : tracker_ref -> LoadRateTracker).

(** The Initial carries a token this key minted for this client and this
    destination CID, still inside its lifetime. *)
Definition token_valid (r : RetryConfig) (src : IpAddr) (i : Initial) (now_ms : Z) : bool :=
  (len (token i) =? TOKEN_LEN) &&
  match verify (r_token_key r) (token i) src (dcid i) now_ms (token_lifetime_ms r) with
  | Done (Ok _) => true
  | _ => false
  end.

(** The mode answers clients without a valid token. *)
Definition emits (r : RetryConfig) : bool :=
  match r_mode r with
  | Always => true
  | Observe => false
  | LoadMode =>
      match load_tracker r, load_trigger_rate r with
      | Some t, Some n => n <=? rate (trackers t)
      | _, _ => false
      end
  end.

Definition tally (r : RetryConfig) (pending : Z) : Z :=
  match r_mode r with LoadMode => wrap64 (pending + 1) | _ => pending end.

Lemma classify_spec i src r now pending :
  retry_wf r ->
  exists d, d <> DNone /\ classify trackers i src r now pending =
    Done (if token_valid r src i now then (DForward, DTokenValid, pending)
          else (if emits r then DEmit else DSkip, d, tally r pending)).
Proof.
  intros Hwf. unfold classify, token_valid, emits, tally, load_gated_decision, load_over_trigger.
  assert (Hload : r_mode r = LoadMode -> exists n t, load_trigger_rate r = Some n /\ load_tracker r = Some t).
  { intros Hm. apply (rw_load r Hwf) in Hm as (n & t & ? & _ & ?). eauto. }
  rewrite verify_spec. destruct (len (token i) =? TOKEN_LEN); cbn [andb];
    [set (v := if negb _ || _ then _ else _) in *; clearbody v; destruct v as [[]|[]]; [by exists DTokenValid|..]|];
    (destruct (r_mode r); [| |destruct (Hload eq_refl) as (n & t & -> & ->)]);
    repeat case_goal; (eexists; split; [|reflexivity]; done).
Qed.

Lemma port_filter (ports : list Z) p :
  negb (bool_decide (ports = [])) && negb (existsb (Z.eqb p) ports) = false <->
  ports = [] \/ p ∈ ports.
Proof.
  rewrite andb_false_iff, !negb_false_iff, bool_decide_eq_true, existsb_exists.
  split; (intros [?|Hp]; [by left|right]).
  - destruct Hp as (x & Hx & ->%Z.eqb_eq). by apply list_elem_of_In.
  - exists p. split; [by apply list_elem_of_In|apply Z.eqb_refl].
Qed.

Definition answer_for (r : RetryConfig) (l : FrameLayout) (i : Initial) (lm : mac) (now : Z) : list byte :=
  answer l lm (retry_for r (src_ip l) (version i) (dcid i) (scid i) now).

Lemma cid_snapshot (c : list byte) :
  len c <= 20 -> exists buf, copy_to (zeros 20) 0 (len c) c = Done buf /\ slice buf 0 (len c) = Done c.
Proof.
  intros Hc. pose_len. eexists. rewrite copy_to_in by (rewrite ?len_zeros; lia). split; [done|].
  rewrite slice_in by (rewrite ?len_splice, ?len_zeros by (rewrite ?len_zeros; lia); lia).
  f_equal. apply sub_splice_same; rewrite ?len_zeros; lia.
Qed.

Lemma try_handle_handled data p table r l i lm now pending :
  handled data p table r l i -> parsed_wf (contents data) p -> retry_wf r -> length lm = 6%nat ->
  exists d, d <> DNone /\ try_handle trackers data p table lm now pending =
    Done (if token_valid r (src_ip l) i now then (data, OForward, DTokenValid, pending)
          else if emits r && (len (answer_for r l i lm now) <=? capacity data)
          then (mkView (splice (fv_chunk data) 0 (answer_for r l i lm now))
                  (len (answer_for r l i lm now)), OEmitted, d, tally r pending)
          else (data, OSkip, d, tally r pending)).
Proof.
  intros [Hr He Hl Hp Hi] Hwf Hrw Hlm.
  destruct (from_parsed_wf _ _ _ Hwf Hl) as (Hlw & Hq & _).
  destruct (classify_spec i (src_ip l) r now pending Hrw) as (d & Hd & Hc). exists d. split; [done|].
  unfold try_handle. rewrite Hr, He, Hl. cbn [negb]. apply port_filter in Hp. rewrite Hp.
  rewrite slice_from_in by lia. rewrite Hi.
  apply parse_strict_sound in Hi as (k1 & k2 & payload & Hiw & _).
  destruct (cid_snapshot (dcid i)) as (db & -> & Hdb); [apply (iw_dcid _ _ _ _ Hiw)|].
  destruct (cid_snapshot (scid i)) as (sb & -> & Hsb); [apply (iw_scid _ _ _ _ Hiw)|].
  rewrite Hc. destruct (token_valid r (src_ip l) i now); [done|].
  destruct (emits r); cbn [andb]; [|done]. rewrite Hdb, Hsb.
  rewrite emit_spec; [|done|done| |apply (iw_dcid _ _ _ _ Hiw)|apply (iw_scid _ _ _ _ Hiw)].
  - fold (answer_for r l i lm now). repeat case_goal; (done || lia).
  - destruct (iw_type _ _ _ _ Hiw) as [[? _]|[? _]]; auto.
Qed.

Lemma try_handle_other data p table lm now pending :
  parsed_wf (contents data) p -> (forall r l i, ~ handled data p table r l i) ->
  exists d, try_handle trackers data p table lm now pending = Done (data, OSkip, d, pending).
Proof.
  intros Hwf Hn. unfold try_handle. destruct (retry table) as [r|] eqn:Hr; [|eauto].
  destruct (r_enabled r) eqn:He; cbn [negb]; [|eauto].
  destruct (from_parsed p) as [l|] eqn:Hl; [|eauto].
  destruct (from_parsed_wf _ _ _ Hwf Hl) as (_ & Hq & _).
  destruct (negb _ && negb _) eqn:Hp; [eauto|]. apply port_filter in Hp.
  rewrite slice_from_in by lia.
  destruct (parse_strict_returns (sub (contents data) (quic_offset l) (len (contents data)))) as [[i|e] Hi].
  - destruct (Hn r l i). by constructor.
  - rewrite Hi. destruct e; eauto.
Qed.

Lemma token_valid_iff r src i now :
  token_valid r src i now = true <->
  exists ts, 0 <= ts < 2 ^ 64 /\ now - token_lifetime_ms r <= ts <= now /\
    mint (r_token_key r) src (dcid i) ts = Done (Ok (token i)).
Proof.
  rewrite <- verify_minted. unfold token_valid, TOKEN_LEN, TS_LEN, MAC_LEN. change (8 + 16) with 24.
  rewrite verify_spec. destruct (len (token i) =? 24); cbn [negb orb andb]; [|done].
  set (v := if 20 <? _ then _ else _). clearbody v. by destruct v as [[]|[]].
Qed.

(** The outcome in general: the frame is untouched unless answered, and every
    answer is counted. *)
Lemma try_handle_cases data p table lm now pending :
  parsed_wf (contents data) p -> (forall r, retry table = Some r -> retry_wf r) -> length lm = 6%nat ->
  exists data' o d pending',
    try_handle trackers data p table lm now pending = Done (data', o, d, pending') /\
    (o <> OEmitted -> data' = data) /\ (o = OEmitted -> d <> DNone).
Proof.
  intros Hwf Hrw Hlm. destruct (handled_dec data p table) as [(r & l & i & Hh)|Hn].
  - destruct (try_handle_handled data p table r l i lm now pending Hh Hwf) as (d & Hd & ->);
      [by apply Hrw, (h_retry _ _ _ _ _ _ Hh)|done|].
    repeat case_goal; do 4 eexists; (split; [done|]); done.
  - destruct (try_handle_other data p table lm now pending Hwf) as [d ->]; [naive_solver|].
    do 4 eexists. split; [done|]. done.
Qed.

End policy.

(** ** Properties *)

(** C8.  The contract of the Retry path on every parsed frame, for every
    validated configuration.  It never panics.  It leaves the frame alone unless
    it answers.  It forwards exactly the Initials whose token this key minted for
    this client address and destination CID inside the lifetime.  It answers
    exactly the other Initials it handles when the mode emits (always, or load
    with the last window's rate at the trigger) and the answer fits the chunk,
    and the frame is then the answer: the reflected headers and the Retry packet. *)
Theorem try_handle_contract `{Aes128} `{HmacLaws} `{AesGcmLaws} (trackers : tracker_ref -> LoadRateTracker)
    (data : FrameView) (p : ParsedFrame) (table : ConfigTable) (lm : mac) (now pending : Z) :
  view_wf data -> parse_frame (contents data) = Done (Some p) ->
  (forall r, retry table = Some r -> retry_wf r) -> length lm = 6%nat ->
  exists data' o d pending',
    try_handle trackers data p table lm now pending = Done (data', o, d, pending') /\
    (o <> OEmitted -> data' = data) /\
    (o = OForward <-> exists r l i ts, handled data p table r l i /\ 0 <= ts < 2 ^ 64 /\
       now - token_lifetime_ms r <= ts <= now /\
       mint (r_token_key r) (pf_src_addr p) (dcid i) ts = Done (Ok (token i))) /\
    (o = OEmitted <-> exists r l i, handled data p table r l i /\ emits trackers r = true /\
       token_valid r (pf_src_addr p) i now = false /\
       len (answer_for r l i lm now) <= capacity data) /\
    (forall r l i, o = OEmitted -> handled data p table r l i ->
       contents data' = answer_for r l i lm now).
Proof.
  intros Hv Hp Hrw Hlm. assert (Hwf : parsed_wf (contents data) p) by (by apply parse_frame_wf).
  destruct (handled_dec data p table) as [(r & l & i & Hh)|Hn].
  - destruct (from_parsed_wf _ _ _ Hwf (h_layout _ _ _ _ _ _ Hh)) as (_ & _ & Hsrc).
    destruct (try_handle_handled trackers data p table r l i lm now pending Hh Hwf) as (d & _ & Ht);
      [by apply Hrw, (h_retry _ _ _ _ _ _ Hh)|done|].
    rewrite Ht, Hsrc. pose proof (token_valid_iff r (pf_src_addr p) i now) as Hti.
    pose proof (fun r' l' i' => handled_unique data p table r l i r' l' i' Hh) as Hu.
    destruct (token_valid r (pf_src_addr p) i now) eqn:Etv.
    + do 4 eexists. split; [done|]. split; [done|]. split; [|split; [|done]].
      * split; [|done]. intros _. destruct (proj1 Hti eq_refl) as (ts & ?). eauto 10.
      * split; [done|]. intros (r' & l' & i' & Hh' & _ & Hf & _).
        destruct (Hu _ _ _ Hh') as (-> & -> & ->). congruence.
    + assert (Hnf : ~ exists r l i ts, handled data p table r l i /\ 0 <= ts < 2 ^ 64 /\
        now - token_lifetime_ms r <= ts <= now /\
        mint (r_token_key r) (pf_src_addr p) (dcid i) ts = Done (Ok (token i))).
      { intros (r' & l' & i' & ts & Hh' & Hts). destruct (Hu _ _ _ Hh') as (-> & -> & ->).
        enough (false = true) by done. apply Hti. eauto. }
      destruct (emits trackers r && _) eqn:Ee; do 4 eexists; (split; [done|]).
      * bools. split; [done|]. split; [done|]. split.
        { split; [|done]. intros _. exists r, l, i. split; [done|]. split; [done|]. split; [done|lia]. }
        intros r' l' i' _ Hh'. destruct (Hu _ _ _ Hh') as (-> & -> & ->).
        apply contents_rewritten. lia.
      * split; [done|]. split; [done|]. split; [|done]. split; [done|].
        intros (r' & l' & i' & Hh' & He & _ & Hc). destruct (Hu _ _ _ Hh') as (-> & -> & ->).
        rewrite He in Ee. cbn [andb] in Ee. lia.
  - destruct (try_handle_other trackers data p table lm now pending Hwf) as [d Ht]; [naive_solver|].
    rewrite Ht. do 4 eexists. split; [done|]. split; [done|]. naive_solver.
Qed.

(** C22.  The Retry exchange.  When the Retry path answers an Initial, the packet
    it sends carries a token such that the client's next Initial, sent from the
    same address with that token and with the Retry's source CID as its
    destination CID, is forwarded until the lifetime ends, in every mode and
    without being counted as load.  The Retry's source CID is the client's own
    destination CID. *)
Theorem retry_exchange `{Aes128} `{HmacLaws} `{AesGcmLaws} (trackers : tracker_ref -> LoadRateTracker)
    (data : FrameView) (p : ParsedFrame) (table : ConfigTable) (r : RetryConfig) (l : FrameLayout)
    (i : Initial) (lm : mac) (now pending : Z) (data' : FrameView) (d : Detail) (pending' : Z) :
  parse_frame (contents data) = Done (Some p) -> retry_wf r -> length lm = 6%nat ->
  0 <= now < 2 ^ 64 -> handled data p table r l i ->
  try_handle trackers data p table lm now pending = Done (data', OEmitted, d, pending') ->
  exists retry_scid tok,
    retry_scid = dcid i /\
    contents data' = answer l lm (retry_packet (version i) (dcid i) (scid i) retry_scid tok) /\
    forall trackers2 data2 p2 table2 r2 l2 i2 now2 pending2,
      parse_frame (contents data2) = Done (Some p2) -> retry_wf r2 ->
      handled data2 p2 table2 r2 l2 i2 ->
      r_token_key r2 = r_token_key r -> pf_src_addr p2 = pf_src_addr p ->
      dcid i2 = retry_scid -> token i2 = tok ->
      now <= now2 <= now + token_lifetime_ms r2 ->
      try_handle trackers2 data2 p2 table2 lm now2 pending2
      = Done (data2, OForward, DTokenValid, pending2).
Proof.
  intros Hp Hrw Hlm Hnow Hh Ht. apply parse_frame_wf in Hp as Hwf.
  destruct (from_parsed_wf _ _ _ Hwf (h_layout _ _ _ _ _ _ Hh)) as (_ & _ & Hsrc).
  destruct (try_handle_handled trackers data p table r l i lm now pending Hh Hwf Hrw Hlm) as (d' & _ & Ht').
  rewrite Ht in Ht'. destruct (token_valid _ _ _ _); [done|].
  destruct (emits _ _ && _) eqn:Ee; [|done]. bools.
  assert (data' = mkView (splice (fv_chunk data) 0 (answer_for r l i lm now))
    (len (answer_for r l i lm now))) as -> by congruence. clear Ht Ht'.
  pose proof (h_initial _ _ _ _ _ _ Hh) as (k1 & k2 & payload & Hiw & _)%parse_strict_sound.
  assert (Ho : len (dcid i) <= 20) by apply (iw_dcid _ _ _ _ Hiw).
  exists (dcid i), (token_of (r_token_key r) (src_ip l) (dcid i) (be_bytes 8 now)). split; [done|]. split.
  { apply (contents_rewritten data (answer_for r l i lm now)). lia. }
  intros trackers2 data2 p2 table2 r2 l2 i2 now2 pending2 Hp2 Hrw2 Hh2 Hk Ha Hd2 Htok Hn2.
  apply parse_frame_wf in Hp2 as Hwf2.
  destruct (from_parsed_wf _ _ _ Hwf2 (h_layout _ _ _ _ _ _ Hh2)) as (_ & _ & Hsrc2).
  destruct (try_handle_handled trackers2 data2 p2 table2 r2 l2 i2 lm now2 pending2 Hh2 Hwf2 Hrw2 Hlm)
    as (d2 & _ & ->).
  assert (token_valid r2 (src_ip l2) i2 now2 = true) as ->; [|done].
  apply token_valid_iff. exists now. split; [done|]. split; [lia|].
  rewrite mint_spec by (rewrite Hd2; done). congruence.
Qed.

(** The checksums of the answer verify.  For an IPv4 client whose Initial
    came without IP options, the 20-byte header of the answer sums to all ones;
    for an IPv6 client the UDP segment with its pseudo-header does, and the
    checksum field is never the reserved zero. *)
Theorem answer_checksums (l : FrameLayout) (lm pkt : list byte) :
  layout_wf l -> length lm = 6%nat -> len pkt <= 900 ->
  let out := answer l lm pkt in
  match src_ip l, dst_ip l with
  | V4 s, V4 d =>
      fl_ip_hdr_len l = 20 -> ones_complement_sum (sub out 14 34) = 0
  | V6 s, V6 d =>
      let seg := sub out 54 (len out) in
      ones_complement_sum (d ++ s ++ be_bytes 4 (len seg) ++ [0; 0; 0; 17]%u8 ++ seg) = 0 /\
      be16 (elt seg 6) (elt seg 7) <> 0
  | _, _ => True
  end.
Proof.
  intros [Hm Hs Hd Hf Ho] Hl Hn out.
  assert (len (fl_src_mac l) = 6 /\ len lm = 6) as [Hm1 Hm2] by (unfold len; lia). pose_len.
  unfold out, answer. destruct (src_ip l) as [s|s], (dst_ip l) as [d|d]; try done; simpl in Hs, Hd;
    assert (len s = Z.of_nat (length s) /\ len d = Z.of_nat (length d)) as [Hs' Hd'] by done;
    (assert (He : forall ty, len ty = 2 -> len (eth_hdr (fl_src_mac l) lm ty) = 14)
      by (intros; unfold eth_hdr; llia)).
  - intros Hh. rewrite Hh. assert (Hv4 : forall c, len c = 2 -> len (v4_hdr (len pkt) c d s) = 20)
      by (intros; unfold v4_hdr; llia).
    rewrite (sub_app_r (eth_hdr _ _ _)), He by (rewrite ?He; done || lia).
    change (14 - 14) with 0. change (34 - 14) with 20.
    assert (Hb2 : forall z, len (be_bytes 2 z) = 2) by (intros; apply len_be_bytes).
    rewrite !sub_app_l, !sub_full by (rewrite ?Hv4 by done; lia || done).
    unfold v4_hdr. apply ones_complement_fill; [by exists 5%nat|llia].
  - set (c := udp6_sum _ _ _). cbv zeta. unfold udp_hdr.
    set (e := eth_hdr _ _ _). set (h := v6_hdr _ _ _). rewrite (app_assoc e h).
    assert (Hpre : len (e ++ h) = 54).
    { unfold e. rewrite len_app, He by done. unfold h, v6_hdr. llia. }
    set (pre := e ++ h) in *.
    rewrite len_app, (sub_app_r pre), Hpre by llia. change (54 - 54) with 0.
    rewrite sub_full by lia.
    set (hd := be_bytes 2 (fl_dst_port l) ++ be_bytes 2 (fl_src_port l) ++ be_bytes 2 (8 + len pkt)).
    assert (Hhd : len hd = 6) by (unfold hd; llia).
    assert (Hc : c = udp6_sum d s (hd ++ [0; 0]%u8 ++ pkt))
      by (unfold c, udp_hdr; fold hd; by rewrite <- app_assoc).
    destruct (udp6_sum_spec d s hd pkt) as (Hc1 & Hc2 & Hc3); [lia..|]. rewrite <- Hc in *.
    rewrite <- (app_assoc hd). split; [exact Hc3|].
    rewrite !(elt_app_r hd), !elt_app_l, Hhd by (rewrite ?len_be_bytes; lia).
    pose proof (be_val_be_bytes 2 c) as Hb. rewrite Z.mod_small in Hb by (simpl; lia).
    change (be_val (be_bytes 2 c) <> 0). lia.
Qed.

(** An Initial from 192.0.2.7:50000 to 198.51.100.1:443 in an IPv4 frame with the
    given options (a multiple of four bytes). *)
Definition example_frame (options tok : list byte) : list byte :=
  [2; 0; 0; 0; 0; 1]%u8 ++ [2; 0; 0; 0; 0; 2]%u8 ++ [8; 0]%u8 ++
  [b8 (0x45 + len options / 4)] ++ [0; 0; 80; 0; 0; 0; 0; 64; 17; 0; 0; 192; 0; 2; 7; 198; 51; 100; 1]%u8 ++
  options ++ be_bytes 2 50000 ++ be_bytes 2 443 ++ [0; 60; 0; 0]%u8 ++
  [0xc3; 0; 0; 0; 1; 4; 1; 2; 3; 4; 2; 5; 6]%u8 ++ varint_enc 1 (len tok) ++ tok ++
  [2; 0xaa; 0xbb]%u8.

Definition example_view (options tok : list byte) : FrameView :=
  mkView (example_frame options tok ++ zeros 1000) (len (example_frame options tok)).

Definition example_parsed (options tok : list byte) : ParsedFrame :=
  match parse_frame (contents (example_view options tok)) with
  | Done (Some p) => p
  | _ => mkParsed Ipv4 0 [] (V4 []) (V4 []) (Udp 0 0 0 0)
  end.

Definition example_policy : RetryConfig :=
  mkRetryConfig true (mkTokenKey (zeros 32)) 10000 Always [443] None None 0 None.

#[local] Existing Instance xor_aes.

Definition example_retry_table : ConfigTable :=
  mkTable [] (replicate 7 None) (replicate 7 None) [] (Some example_policy).

Definition example_local : mac := [2; 0; 0; 0; 0; 9]%u8.

Lemma example_policy_wf : retry_wf example_policy.
Proof.
  constructor; simpl; try done; try lia.
  - by repeat constructor.
  - split; [done|]. by intros (n & t & ? & _).
Qed.

#[local] Existing Instance sum_hmac.
#[local] Existing Instance sum_hmac_laws.
#[local] Existing Instance sum_gcm.
#[local] Existing Instance sum_gcm_laws.

Definition example_answer (options : list byte) : FrameView * Outcome * Detail * Z :=
  match try_handle (fun _ => tracker_new) (example_view options []) (example_parsed options [])
          example_retry_table example_local 5000 0 with
  | Done x => x
  | Panic => (example_view options [], OSkip, DNone, 0)
  end.

(** The IPv4 checksum of an answer is summed over the length of the
    client's IP header, while the answer's header has no options: the answer to
    an Initial with one word of IP options leaves with a checksum that does not
    verify. *)
Theorem ip_options_break_checksum :
  exists data' d pending',
    try_handle (fun _ => tracker_new) (example_view [1; 1; 1; 1]%u8 [])
      (example_parsed [1; 1; 1; 1]%u8 []) example_retry_table example_local 5000 0
    = Done (data', OEmitted, d, pending') /\
    elt (contents data') 14 = 0x45%u8 /\ ones_complement_sum (sub (contents data') 14 34) <> 0.
Proof.
  exists (example_answer [1; 1; 1; 1]%u8).1.1.1, DIssued, 0.
  split; [vm_compute; reflexivity|]. split; [vm_compute; reflexivity|vm_compute; discriminate].
Qed.

Lemma try_handle_contract_witness :
  exists data' o d pending',
    try_handle (fun _ => tracker_new) (example_view [] []) (example_parsed [] []) example_retry_table
      example_local 5000 0 = Done (data', o, d, pending').
Proof.
  destruct (try_handle_contract (fun _ => tracker_new) (example_view [] []) (example_parsed [] [])
    example_retry_table example_local 5000 0) as (data' & o & d & pend & Ht & _).
  - split; vm_compute; discriminate.
  - vm_compute. reflexivity.
  - intros r [= <-]. apply example_policy_wf.
  - reflexivity.
  - exists data', o, d, pend. exact Ht.
Defined.

Definition example_layout (options tok : list byte) : FrameLayout :=
  match from_parsed (example_parsed options tok) with
  | Some l => l
  | None => mkLayout true 0 0 0 0 [] (V4 []) (V4 []) 0 0
  end.

Definition example_initial (tok : list byte) : Initial :=
  mkInitial 0xc3%u8 QUIC_V1 [1; 2; 3; 4]%u8 [5; 6]%u8 tok 2 (len tok + 16).

Lemma example_handled :
  handled (example_view [] []) (example_parsed [] []) example_retry_table example_policy
    (example_layout [] []) (example_initial []).
Proof. constructor; try (vm_compute; reflexivity). right. apply list_elem_of_singleton. vm_compute. reflexivity. Qed.

Lemma retry_exchange_witness :
  exists retry_scid tok, retry_scid = [1; 2; 3; 4]%u8 /\
    contents (example_answer []).1.1.1
    = answer (example_layout [] []) example_local
        (retry_packet QUIC_V1 [1; 2; 3; 4]%u8 [5; 6]%u8 retry_scid tok).
Proof.
  destruct (retry_exchange (fun _ => tracker_new) (example_view [] []) (example_parsed [] [])
    example_retry_table example_policy (example_layout [] []) (example_initial []) example_local 5000 0
    (example_answer []).1.1.1 DIssued 0) as (s & tok & Hs & Hc & _).
  - vm_compute. reflexivity.
  - apply example_policy_wf.
  - reflexivity.
  - lia.
  - apply example_handled.
  - vm_compute. reflexivity.
  - exists s, tok. split; [exact Hs|exact Hc].
Defined.

Lemma answer_checksums_witness :
  ones_complement_sum (sub (answer (example_layout [] []) example_local (zeros 60)) 14 34) = 0.
Proof.
  assert (Hw : layout_wf (example_layout [] [])).
  { constructor; try (vm_compute; reflexivity). vm_compute. split; [reflexivity|].
    split; discriminate. }
  refine (answer_checksums (example_layout [] []) example_local (zeros 60) Hw eq_refl _ _).
  - vm_compute. discriminate.
  - vm_compute. reflexivity.
Defined.
