(* ===== verification/Neigh.v ===== *)
(** * The neighbour table

    Models [pesigitg-daemon/src/neigh.rs]: reading the kernel's neighbour dump
    from netlink messages and filling in the MAC addresses of backends that have
    none configured.  The netlink socket is a sequence of received chunks.  The
    byte order of the machine, which the netlink structures use, is a parameter.
    The loops over messages and attributes carry fuel, and running out of it is
    a panic: that the functions return shows the fuel to be enough. *)

From stdpp Require Import gmap.
From S2P Require Import Prelude Std Common Route ConfigTable.

Definition NLMSG_ERROR : Z := 2.
Definition NLMSG_DONE : Z := 3.
Definition RTM_NEWNEIGH : Z := 28.
Definition RTM_GETNEIGH : Z := 30.
Definition NLM_F_REQUEST : Z := 0x001.
Definition NLM_F_DUMP : Z := 0x300.
Definition AF_UNSPEC : Z := 0.
Definition AF_INET : Z := 2.
Definition AF_INET6 : Z := 10.
Definition NUD_REACHABLE : Z := 0x02.
Definition NUD_STALE : Z := 0x04.
Definition NUD_DELAY : Z := 0x08.
Definition NUD_PROBE : Z := 0x10.
Definition NUD_PERMANENT : Z := 0x80.
Definition NUD_VALID : Z :=
  Z.lor (Z.lor (Z.lor (Z.lor NUD_REACHABLE NUD_STALE) NUD_DELAY) NUD_PROBE) NUD_PERMANENT.
Definition NDA_DST : Z := 1.
Definition NDA_LLADDR : Z := 2.

(** [size_of] the three C structures: [nlmsghdr], [ndmsg], [nlattr]. *)
Definition NLMSGHDR_LEN : Z := 16.
Definition NDMSG_LEN : Z := 12.
Definition NLATTR_LEN : Z := 4.

Definition nlmsg_align (n : Z) : Z := Z.land (n + 3) (Z.lnot 3).

Definition neigh_table := gmap IpAddr mac.

Inductive ChunkOutcome :=
| ChunkContinue
| ChunkDone
| ChunkError.

(** The machine's byte order. *)
Class Endian := little_endian : bool.

Section netlink.
  Context `{Endian}.

(** [from_ne_bytes] and [to_ne_bytes]. *)
Definition ne_val (l : list byte) : Z := be_val (if little_endian then rev l else l).
Definition ne_bytes (n : nat) (z : Z) : list byte :=
  if little_endian then rev (be_bytes n z) else be_bytes n z.

(** The field of [n] bytes at offset [off] of a structure the buffer holds. *)
Definition field (buf : list byte) (off n : Z) : rs Z :=
  let* l := slice buf off (off + n) in Done (ne_val l).

Definition build_dump_request_bytes : list byte :=
  ne_bytes 4 (NLMSGHDR_LEN + NDMSG_LEN) ++ ne_bytes 2 RTM_GETNEIGH ++
  ne_bytes 2 (Z.lor NLM_F_REQUEST NLM_F_DUMP) ++ ne_bytes 4 1 ++ ne_bytes 4 0 ++
  b8 AF_UNSPEC :: zeros 11.

(** The attribute loop of [parse_neigh_msg]. *)
Fixpoint parse_attrs (fuel : nat) (buf : list byte) (family attr_offset : Z)
    (dst_ip : option IpAddr) (lladdr : option mac) : rs (option IpAddr * option mac) :=
  match fuel with
  | O => Panic
  | S fuel =>
      if attr_offset + NLATTR_LEN <=? len buf then
        let* nla_len := field buf attr_offset 2 in
        let* nla_type := field buf (attr_offset + 2) 2 in
        if (nla_len <? NLATTR_LEN) || (len buf <? attr_offset + nla_len) then Done (dst_ip, lladdr)
        else
          let data_start := attr_offset + NLATTR_LEN in
          let* data := slice buf data_start (attr_offset + nla_len) in
          let ty := Z.land nla_type 0x3fff in
          let* (dst_ip, lladdr) :=
            if (ty =? NDA_DST) && (family =? AF_INET) && (len data =? 4) then
              let* a := idx data 0 in let* b := idx data 1 in
              let* c := idx data 2 in let* d := idx data 3 in
              Done (Some (V4 [a; b; c; d]), lladdr)
            else if (ty =? NDA_DST) && (family =? AF_INET6) && (len data =? 16) then
              let* o := copy_to (zeros 16) 0 16 data in Done (Some (V6 o), lladdr)
            else if (ty =? NDA_LLADDR) && (len data =? 6) then
              let* m := copy_to (zeros 6) 0 6 data in Done (dst_ip, Some m)
            else Done (dst_ip, lladdr) in
          parse_attrs fuel buf family (attr_offset + nlmsg_align nla_len) dst_ip lladdr
      else Done (dst_ip, lladdr)
  end.

Definition parse_neigh_msg (buf : list byte) (table : neigh_table) : rs neigh_table :=
  let hdr_len := nlmsg_align NLMSGHDR_LEN in
  let ndm_len := NDMSG_LEN in
  if len buf <? hdr_len + ndm_len then Done table
  else
    let* ndm_state := field buf (hdr_len + 8) 2 in
    if Z.land ndm_state NUD_VALID =? 0 then Done table
    else
      let* family := field buf hdr_len 1 in
      if negb (family =? AF_INET) && negb (family =? AF_INET6) then Done table
      else
        let* r := parse_attrs (S (length buf)) buf family (hdr_len + nlmsg_align ndm_len) None None in
        match r with
        | (Some ip, Some m) => Done (<[ip := m]> table)
        | _ => Done table
        end.

Fixpoint process_loop (fuel : nat) (buf : list byte) (offset : Z) (table : neigh_table)
    : rs (neigh_table * ChunkOutcome) :=
  match fuel with
  | O => Panic
  | S fuel =>
      if offset + NLMSGHDR_LEN <=? len buf then
        let* msg_len := field buf offset 4 in
        if (msg_len <? NLMSGHDR_LEN) || (len buf <? offset + msg_len) then Done (table, ChunkContinue)
        else
          let* ty := field buf (offset + 4) 2 in
          if ty =? NLMSG_DONE then Done (table, ChunkDone)
          else if ty =? NLMSG_ERROR then Done (table, ChunkError)
          else
            let* table :=
              if ty =? RTM_NEWNEIGH then
                let* msg := slice buf offset (offset + msg_len) in parse_neigh_msg msg table
              else Done table in
            process_loop fuel buf (offset + nlmsg_align msg_len) table
      else Done (table, ChunkContinue)
  end.

Definition process_chunk (buf : list byte) (table : neigh_table) : rs (neigh_table * ChunkOutcome) :=
  process_loop (S (length buf)) buf 0 table.

(** [recv_neigh_entries] on the chunks the socket delivers: [None] while it
    waits for another one. *)
Fixpoint recv_neigh_entries {E} (eproto : E) (recv : list (result (list byte) E)) (table : neigh_table)
    : rs (option (result neigh_table E)) :=
  match recv with
  | [] => Done None
  | Err e :: _ => Done (Some (Err e))
  | Ok buf :: rest =>
      let* (table, out) := process_chunk buf table in
      match out with
      | ChunkContinue => recv_neigh_entries eproto rest table
      | ChunkDone => Done (Some (Ok table))
      | ChunkError => Done (Some (Err eproto))
      end
  end.

End netlink.

(** ** Filling in the MAC addresses *)

Definition set_mac (s : Server) (m : option mac) : Server :=
  mkServer (s_id s) (s_address s) m (s_draining s) (s_healthy s) (s_transitions s) (s_state_since s).

(** [query] is the outcome of [query_neighbour_table]. *)
Definition resolve_macs {E} (query : result neigh_table E) (servers : list Server) : list Server :=
  if (length (List.filter (fun s => bool_decide (s_mac s = None)) servers) =? 0)%nat then servers
  else
    match query with
    | Err _ => servers
    | Ok table =>
        map (fun s =>
          match s_mac s with
          | Some _ => s
          | None =>
              match table !! s_address s with
              | Some m => set_mac s (Some m)
              | None => s
              end
          end) servers
    end.

(** ** Lemmas *)

Lemma nlmsg_align_spec n :
  0 <= n -> n <= nlmsg_align n < n + 4 /\ nlmsg_align n mod 4 = 0.
Proof.
  intros Hn. unfold nlmsg_align. change (Z.lnot 3) with (Z.lnot (Z.ones 2)).
  rewrite <- Z.ldiff_land, Z.ldiff_ones_r, Z.shiftl_mul_pow2, Z.shiftr_div_pow2 by lia.
  change (2 ^ 2) with 4. rewrite Z.mod_mul by lia.
  pose proof (Z.div_mod (n + 3) 4 ltac:(lia)). pose proof (Z.mod_pos_bound (n + 3) 4 ltac:(lia)). lia.
Qed.

Section lemmas.
  Context `{En : Endian}.

Lemma ne_val_nonneg l : 0 <= ne_val l.
Proof. apply be_val_range. Qed.

Lemma length_ne_bytes n z : length (ne_bytes n z) = n.
Proof.
  pose proof (len_be_bytes n z) as Hl. unfold len in Hl. unfold ne_bytes.
  case_goal; rewrite ?length_rev; lia.
Qed.

Lemma len_ne_bytes n z : len (ne_bytes n z) = Z.of_nat n.
Proof. unfold len. by rewrite length_ne_bytes. Qed.

Lemma ne_val_bytes n z : 0 <= z < 256 ^ Z.of_nat n -> ne_val (ne_bytes n z) = z.
Proof.
  intros Hz. unfold ne_val, ne_bytes. case_goal; rewrite ?rev_involutive, be_val_be_bytes;
    by apply Z.mod_small.
Qed.

Lemma field_in buf off n :
  0 <= off -> 0 <= n -> off + n <= len buf -> field buf off n = Done (ne_val (sub buf off (off + n))).
Proof. intros. unfold field. by rewrite slice_in by lia. Qed.

Lemma field_mid pre f post off n z :
  off = len pre -> len f = n -> ne_val f = z -> field (pre ++ f ++ post) off n = Done z.
Proof. intros -> <- <-. unfold field. by rewrite slice_app_mid by lia. Qed.

(** What an entry of the table looks like. *)
Definition ip_ok (o : option IpAddr) : Prop := forall a, o = Some a -> ip_wf a.
Definition mac_ok (o : option mac) : Prop := forall m, o = Some m -> length m = 6%nat.
Definition neigh_wf (t : neigh_table) : Prop := map_Forall (fun a m => ip_wf a /\ length m = 6%nat) t.

Lemma copy_fresh (data : list byte) n : len data = n -> copy_to (zeros n) 0 n data = Done data.
Proof.
  intros <-. pose_len. rewrite copy_to_in by (rewrite ?len_zeros; lia).
  rewrite splice_0, drop_ge, app_nil_r; [done|]. unfold zeros. rewrite length_replicate. unfold len. lia.
Qed.

Lemma parse_attrs_ok fuel buf family off d l :
  0 <= off -> Z.max 0 (len buf - off) < Z.of_nat fuel -> ip_ok d -> mac_ok l ->
  exists d' l', parse_attrs fuel buf family off d l = Done (d', l') /\ ip_ok d' /\ mac_ok l'.
Proof.
  revert off d l. induction fuel as [|fuel IH]; intros off d l Hoff Hf Hd Hl; [lia|].
  cbn [parse_attrs]. unfold NLATTR_LEN in *. case_goal; [|eauto].
  rewrite !field_in by lia. set (nl := ne_val (sub buf off (off + 2))).
  pose proof (ne_val_nonneg (sub buf off (off + 2))) as Hnl. fold nl in Hnl.
  case_goal; [eauto|]. rewrite slice_in by lia. set (data := sub buf (off + 4) (off + nl)).
  pose proof (nlmsg_align_spec nl Hnl) as [Ha _].
  assert (Hnext : forall d l, ip_ok d -> mac_ok l -> exists d' l',
    parse_attrs fuel buf family (off + nlmsg_align nl) d l = Done (d', l') /\ ip_ok d' /\ mac_ok l')
    by (intros; apply IH; (done || lia)).
  case_goal.
  { rewrite !idx_in by lia. apply Hnext; [by intros ? [= <-]|done]. }
  case_goal.
  { rewrite copy_fresh by lia. apply Hnext; [|done]. intros ? [= <-]. simpl. unfold len in *. lia. }
  case_goal; [|by apply Hnext].
  rewrite copy_fresh by lia. apply Hnext; [done|]. intros ? [= <-]. unfold len in *. lia.
Qed.

Lemma parse_neigh_msg_ok buf t :
  neigh_wf t -> exists t', parse_neigh_msg buf t = Done t' /\ neigh_wf t'.
Proof.
  intros Ht. unfold parse_neigh_msg. change (nlmsg_align NLMSGHDR_LEN) with 16.
  change (nlmsg_align NDMSG_LEN) with 12. unfold NDMSG_LEN.
  case_goal; [eauto|]. rewrite field_in by lia. case_goal; [eauto|]. rewrite field_in by lia.
  case_goal; [eauto|].
  destruct (parse_attrs_ok (S (length buf)) buf (ne_val (sub buf 16 (16 + 1))) (16 + 12) None None)
    as (d & l & -> & Hd & Hl); [lia|unfold len; lia|done|done|].
  destruct d as [ip|]; [|eauto]. destruct l as [m|]; [|eauto]. eexists. split; [done|].
  apply map_Forall_insert_2; [|done]. split; [by apply Hd|by apply Hl].
Qed.

Lemma process_loop_ok fuel buf off t :
  0 <= off -> Z.max 0 (len buf - off) < Z.of_nat fuel -> neigh_wf t ->
  exists t' o, process_loop fuel buf off t = Done (t', o) /\ neigh_wf t'.
Proof.
  revert off t. induction fuel as [|fuel IH]; intros off t Hoff Hf Ht; [lia|].
  cbn [process_loop]. unfold NLMSGHDR_LEN in *. case_goal; [|eauto].
  rewrite field_in by lia. set (ml := ne_val (sub buf off (off + 4))).
  pose proof (ne_val_nonneg (sub buf off (off + 4))) as Hml. fold ml in Hml.
  case_goal; [eauto|]. rewrite field_in by lia. pose proof (nlmsg_align_spec ml Hml) as [Ha _].
  case_goal; [eauto|]. case_goal; [eauto|]. case_goal.
  - rewrite slice_in by lia.
    destruct (parse_neigh_msg_ok (sub buf off (off + ml)) t Ht) as (t' & -> & Ht').
    apply IH; (done || lia).
  - apply IH; (done || lia).
Qed.

(** *** Messages the kernel sends *)

(** An attribute: length, type, value, padding. *)
Definition nlattr (ty : Z) (data : list byte) : list byte :=
  ne_bytes 2 (4 + len data) ++ ne_bytes 2 ty ++ data ++ zeros (nlmsg_align (len data) - len data).

Definition nlmsg (ty : Z) (flags_seq_pid payload : list byte) : list byte :=
  ne_bytes 4 (16 + len payload) ++ ne_bytes 2 ty ++ flags_seq_pid ++ payload.

(** A neighbour: its address, its link-layer address and the rest of [ndmsg]. *)
Record neighbour := mkNeigh {
  n_ip : IpAddr;
  n_mac : mac;
  n_state : Z;
  n_pad_ifindex : list byte;
  n_flags_type : list byte;
  n_flags_seq_pid : list byte;
}.

Record neighbour_wf (n : neighbour) : Prop := {
  nw_ip : ip_wf (n_ip n);
  nw_mac : length (n_mac n) = 6%nat;
  nw_state : 0 <= n_state n < 65536;
  nw_pad : length (n_pad_ifindex n) = 7%nat;
  nw_flags : length (n_flags_type n) = 2%nat;
  nw_hdr : length (n_flags_seq_pid n) = 10%nat;
}.

Definition family_of (a : IpAddr) : Z := match a with V4 _ => AF_INET | V6 _ => AF_INET6 end.

Definition ndmsg (n : neighbour) : list byte :=
  b8 (family_of (n_ip n)) :: n_pad_ifindex n ++ ne_bytes 2 (n_state n) ++ n_flags_type n.

Definition neigh_msg (n : neighbour) : list byte :=
  nlmsg RTM_NEWNEIGH (n_flags_seq_pid n)
    (ndmsg n ++ nlattr NDA_DST (octets (n_ip n)) ++ nlattr NDA_LLADDR (n_mac n)).

Definition usable (n : neighbour) : bool := negb (Z.land (n_state n) NUD_VALID =? 0).

Definition learn (t : neigh_table) (n : neighbour) : neigh_table :=
  if usable n then <[n_ip n := n_mac n]> t else t.

Definition nlmsg_done : list byte := nlmsg NLMSG_DONE (zeros 10) [].

Lemma len_nlattr ty data : len (nlattr ty data) = 4 + nlmsg_align (len data).
Proof.
  unfold nlattr. rewrite !len_app, !len_ne_bytes, len_zeros; pose_len;
    pose proof (nlmsg_align_spec (len data) ltac:(done)); lia.
Qed.

Lemma nlmsg_align_4 n : 0 <= n -> nlmsg_align (4 + n) = 4 + nlmsg_align n.
Proof.
  intros. pose proof (nlmsg_align_spec n ltac:(done)) as [H1 H2].
  pose proof (nlmsg_align_spec (4 + n) ltac:(lia)) as [H3 H4].
  pose proof (Z.div_mod (nlmsg_align n) 4 ltac:(lia)).
  pose proof (Z.div_mod (nlmsg_align (4 + n)) 4 ltac:(lia)). lia.
Qed.

Lemma nlmsg_align_mult n : 0 <= n -> n mod 4 = 0 -> nlmsg_align n = n.
Proof.
  intros Hn Hm. pose proof (nlmsg_align_spec n Hn) as [H1 H2].
  pose proof (Z.div_mod (nlmsg_align n) 4 ltac:(lia)). pose proof (Z.div_mod n 4 ltac:(lia)). lia.
Qed.

(** The loop reads one attribute and moves past it. *)
Lemma parse_attrs_step fuel pre ty data post fam d l :
  0 <= ty < 0x4000 -> len data <= 1000 ->
  let buf := pre ++ nlattr ty data ++ post in
  parse_attrs (S fuel) buf fam (len pre) d l =
  parse_attrs fuel buf fam (len (pre ++ nlattr ty data))
    (if (ty =? NDA_DST) && (fam =? AF_INET) && (len data =? 4) then Some (V4 data)
     else if (ty =? NDA_DST) && (fam =? AF_INET6) && (len data =? 16) then Some (V6 data) else d)
    (if negb (ty =? NDA_DST) && (ty =? NDA_LLADDR) && (len data =? 6) then Some data else l).
Proof.
  intros Hty Hd buf. pose proof (len_nlattr ty data) as Hln. pose_len.
  pose proof (nlmsg_align_spec (len data) ltac:(done)) as [Ha _].
  assert (Hbuf : len buf = len pre + len (nlattr ty data) + len post) by (unfold buf; llia).
  assert (Hbs : buf = pre ++ ne_bytes 2 (4 + len data) ++
    (ne_bytes 2 ty ++ data ++ zeros (nlmsg_align (len data) - len data) ++ post)).
  { unfold buf, nlattr. by rewrite <- !app_assoc. }
  cbn [parse_attrs]. unfold NLATTR_LEN. pose_len.
  destruct (len pre + 4 <=? len buf) eqn:E0; [|lia].
  assert (field buf (len pre) 2 = Done (4 + len data)) as ->.
  { rewrite Hbs. apply field_mid; [done|apply len_ne_bytes|apply ne_val_bytes; simpl; lia]. }
  assert (field buf (len pre + 2) 2 = Done ty) as ->.
  { rewrite Hbs, app_assoc. apply field_mid; [|apply len_ne_bytes|apply ne_val_bytes; simpl; lia].
    rewrite len_app, len_ne_bytes. done. }
  destruct ((4 + len data <? 4) || (len buf <? len pre + (4 + len data))) eqn:Eb; [lia|].
  assert (slice buf (len pre + 4) (len pre + (4 + len data)) = Done data) as ->.
  { rewrite Hbs, !app_assoc, <- (app_assoc _ data). rewrite <- (app_assoc _ (data ++ _)), <- (app_assoc data).
    apply slice_app_mid; rewrite !len_app, !len_ne_bytes; lia. }
  change 0x3fff with (Z.ones 14). rewrite Z.land_ones, Z.mod_small by (simpl; lia).
  rewrite nlmsg_align_4, len_app, Hln by done. cbv zeta.
  destruct ((ty =? NDA_DST) && (fam =? AF_INET) && (len data =? 4)) eqn:E1.
  { assert (data = [elt data 0; elt data 1; elt data 2; elt data 3]) as Hdata.
    { rewrite <- (sub_full data 4) at 1 by lia. rewrite !sub_succ by lia. by rewrite sub_nil. }
    rewrite !idx_in by lia. rewrite <- Hdata.
    by assert (negb (ty =? NDA_DST) && (ty =? NDA_LLADDR) && (len data =? 6) = false) as -> by lia. }
  destruct ((ty =? NDA_DST) && (fam =? AF_INET6) && (len data =? 16)) eqn:E2.
  { rewrite copy_fresh by lia.
    by assert (negb (ty =? NDA_DST) && (ty =? NDA_LLADDR) && (len data =? 6) = false) as -> by lia. }
  unfold NDA_DST, NDA_LLADDR in *. destruct ((ty =? 2) && (len data =? 6)) eqn:E3.
  - rewrite copy_fresh by lia. by assert (negb (ty =? 1) && (ty =? 2) && (len data =? 6) = true) as -> by lia.
  - by assert (negb (ty =? 1) && (ty =? 2) && (len data =? 6) = false) as -> by lia.
Qed.

Lemma parse_attrs_end fuel buf fam d l :
  parse_attrs (S fuel) buf fam (len buf) d l = Done (d, l).
Proof. cbn [parse_attrs]. unfold NLATTR_LEN. case_goal; [lia|done]. Qed.

Lemma len_ndmsg n : neighbour_wf n -> len (ndmsg n) = 12.
Proof.
  intros [_ _ _ Hp Hf _]. unfold ndmsg. rewrite len_cons, !len_app, len_ne_bytes. unfold len. lia.
Qed.

Lemma len_neigh_msg n :
  neighbour_wf n -> len (neigh_msg n) = 16 + (12 + (4 + len (octets (n_ip n))) + 12) /\
  len (neigh_msg n) mod 4 = 0 /\ len (octets (n_ip n)) <= 16.
Proof.
  intros Hw. pose proof (len_ndmsg n Hw) as Hn. destruct Hw as [Hip Hm _ _ _ Hh].
  assert (len (n_mac n) = 6 /\ len (n_flags_seq_pid n) = 10) as [Hm' Hh'] by (unfold len; lia).
  assert (Ho : len (octets (n_ip n)) = 4 \/ len (octets (n_ip n)) = 16).
  { destruct (n_ip n); simpl in Hip |- *; unfold len; lia. }
  unfold neigh_msg, nlmsg. rewrite !len_app, !len_ne_bytes, Hn, Hh', !len_nlattr, Hm'.
  change (nlmsg_align 6) with 8.
  rewrite (nlmsg_align_mult (len (octets _))) by (destruct Ho as [->| ->]; done || lia).
  destruct Ho as [->| ->]; (split; [lia|]; split; [done|lia]).
Qed.

Lemma parse_neigh_msg_learn n t :
  neighbour_wf n -> parse_neigh_msg (neigh_msg n) t = Done (learn t n).
Proof.
  intros Hw. destruct (len_neigh_msg n Hw) as (Hl & _ & Ho). pose proof (len_ndmsg n Hw) as Hnd.
  destruct Hw as [Hip Hm Hst Hp Hf Hh]. pose_len.
  assert (len (n_mac n) = 6 /\ len (n_flags_seq_pid n) = 10 /\ len (n_pad_ifindex n) = 7)
    as (Hm' & Hh' & Hp') by (unfold len; lia).
  set (hdr := ne_bytes 4 (16 + len (ndmsg n ++ nlattr NDA_DST (octets (n_ip n)) ++ nlattr NDA_LLADDR (n_mac n)))
              ++ ne_bytes 2 RTM_NEWNEIGH ++ n_flags_seq_pid n).
  assert (Hhl : len hdr = 16) by (unfold hdr; rewrite !len_app, !len_ne_bytes; lia).
  assert (Hbuf : neigh_msg n = hdr ++ ndmsg n ++ nlattr NDA_DST (octets (n_ip n)) ++ nlattr NDA_LLADDR (n_mac n)).
  { unfold neigh_msg, nlmsg, hdr. by rewrite <- !app_assoc. }
  unfold parse_neigh_msg. change (nlmsg_align NLMSGHDR_LEN) with 16.
  change (nlmsg_align NDMSG_LEN) with 12. unfold NDMSG_LEN. case_goal; [lia|].
  set (buf := neigh_msg n) in *.
  assert (field buf (16 + 8) 2 = Done (n_state n)) as ->.
  { assert (buf = (hdr ++ b8 (family_of (n_ip n)) :: n_pad_ifindex n) ++ ne_bytes 2 (n_state n) ++
      n_flags_type n ++ nlattr NDA_DST (octets (n_ip n)) ++ nlattr NDA_LLADDR (n_mac n)) as ->.
    { rewrite Hbuf. unfold ndmsg. by repeat (rewrite <- ?app_assoc; cbn [app]). }
    apply field_mid; [llia|apply len_ne_bytes|apply ne_val_bytes; simpl; lia]. }
  unfold learn, usable. destruct (Z.land (n_state n) NUD_VALID =? 0); [done|]. cbn [negb].
  assert (field buf 16 1 = Done (family_of (n_ip n))) as ->.
  { rewrite Hbuf. unfold ndmsg. apply (field_mid hdr [_]); [lia|done|].
    unfold ne_val. destruct little_endian; cbn [rev app]; unfold be_val; simpl;
      rewrite u8_b8_small; destruct (n_ip n); simpl; unfold AF_INET, AF_INET6; lia. }
  assert (negb (family_of (n_ip n) =? AF_INET) && negb (family_of (n_ip n) =? AF_INET6) = false) as ->
    by (by destruct (n_ip n)).
  assert (exists k, S (length buf) = S (S (S k))) as [k ->].
  { exists (length buf - 2)%nat. unfold len in Hl. lia. }
  rewrite Hbuf, (app_assoc hdr). replace (16 + 12) with (len (hdr ++ ndmsg n)) by llia.
  rewrite parse_attrs_step by (unfold NDA_DST; lia).
  rewrite (app_assoc (hdr ++ ndmsg n)).
  pose proof (parse_attrs_step (S k) ((hdr ++ ndmsg n) ++ nlattr NDA_DST (octets (n_ip n))) NDA_LLADDR
    (n_mac n) [] (family_of (n_ip n))) as Hstep. rewrite !app_nil_r in Hstep.
  rewrite Hstep by (unfold NDA_LLADDR; lia). rewrite parse_attrs_end.
  cbn [Z.eqb NDA_DST NDA_LLADDR Pos.eqb andb negb]. rewrite Hm'. cbn [Z.eqb Pos.eqb].
  destruct (n_ip n) as [o|o]; simpl in Hip |- *; assert (len o = Z.of_nat (length o)) by done;
    rewrite Hip in *; by replace (len o) with (Z.of_nat (length o)) by done; rewrite Hip.
Qed.

(** The chunk loop reads one neighbour and moves past it. *)
Lemma process_loop_step fuel pre n post t :
  neighbour_wf n ->
  let buf := pre ++ neigh_msg n ++ post in
  process_loop (S fuel) buf (len pre) t = process_loop fuel buf (len (pre ++ neigh_msg n)) (learn t n).
Proof.
  intros Hw buf. destruct (len_neigh_msg n Hw) as (Hl & Hm4 & Ho). pose_len.
  assert (Hbuf : len buf = len pre + len (neigh_msg n) + len post) by (unfold buf; llia).
  set (payload := ndmsg n ++ nlattr NDA_DST (octets (n_ip n)) ++ nlattr NDA_LLADDR (n_mac n)).
  assert (Hpl : 16 + len payload = len (neigh_msg n)).
  { pose proof (nw_hdr n Hw) as Hh.
    assert (len (n_flags_seq_pid n) = 10) by (unfold len; lia).
    unfold neigh_msg, nlmsg. fold payload. rewrite !len_app, !len_ne_bytes. lia. }
  assert (Hbs : buf = pre ++ ne_bytes 4 (len (neigh_msg n)) ++ (ne_bytes 2 RTM_NEWNEIGH ++
    n_flags_seq_pid n ++ payload ++ post)).
  { rewrite <- Hpl. unfold buf, neigh_msg, nlmsg. fold payload. by rewrite <- !app_assoc. }
  cbn [process_loop]. unfold NLMSGHDR_LEN. pose_len. destruct (len pre + 16 <=? len buf) eqn:E0; [|lia].
  assert (field buf (len pre) 4 = Done (len (neigh_msg n))) as ->.
  { rewrite Hbs. apply field_mid; [done|apply len_ne_bytes|apply ne_val_bytes; simpl; lia]. }
  destruct ((len (neigh_msg n) <? 16) || _) eqn:E1; [lia|].
  assert (field buf (len pre + 4) 2 = Done RTM_NEWNEIGH) as ->.
  { rewrite Hbs, app_assoc. apply field_mid; [|apply len_ne_bytes|by apply ne_val_bytes].
    by rewrite len_app, len_ne_bytes. }
  cbn [Z.eqb RTM_NEWNEIGH NLMSG_DONE NLMSG_ERROR Pos.eqb].
  unfold buf at 1. rewrite slice_app_mid by lia. rewrite parse_neigh_msg_learn by done.
  rewrite nlmsg_align_mult by lia. by rewrite len_app.
Qed.

Lemma process_loop_done fuel pre t :
  process_loop (S fuel) (pre ++ nlmsg_done) (len pre) t = Done (t, ChunkDone).
Proof.
  set (rest := ne_bytes 2 NLMSG_DONE ++ zeros 10).
  assert (Hd : nlmsg_done = ne_bytes 4 16 ++ rest) by done.
  assert (Hdl : len nlmsg_done = 16).
  { rewrite Hd. unfold rest. rewrite !len_app, !len_ne_bytes. done. }
  cbn [process_loop]. unfold NLMSGHDR_LEN. rewrite len_app, Hdl.
  destruct (len pre + 16 <=? len pre + 16) eqn:E0; [|lia].
  assert (field (pre ++ nlmsg_done) (len pre) 4 = Done 16) as ->.
  { rewrite Hd. apply field_mid; [done|apply len_ne_bytes|by apply ne_val_bytes]. }
  destruct ((16 <? 16) || (len pre + 16 <? len pre + 16)) eqn:E1; [lia|].
  assert (field (pre ++ nlmsg_done) (len pre + 4) 2 = Done NLMSG_DONE) as ->; [|done].
  rewrite Hd, app_assoc. unfold rest.
  apply field_mid; [by rewrite len_app, len_ne_bytes|apply len_ne_bytes|by apply ne_val_bytes].
Qed.

Lemma process_loop_dump ns fuel pre t :
  Forall neighbour_wf ns -> (length ns < fuel)%nat ->
  process_loop fuel (pre ++ concat (map neigh_msg ns) ++ nlmsg_done) (len pre) t
  = Done (foldl learn t ns, ChunkDone).
Proof.
  revert fuel pre t. induction ns as [|n ns IH]; intros fuel pre t Hw Hf;
    (destruct fuel as [|fuel]; [simpl in Hf; lia|]); [apply process_loop_done|].
  inversion Hw as [|? ? Hn Hns]; subst. cbn [map concat foldl]. rewrite <- (app_assoc (neigh_msg n)).
  rewrite process_loop_step by done. rewrite app_assoc. apply IH; [done|]. simpl in Hf. lia.
Qed.

Lemma length_dump ns :
  Forall neighbour_wf ns -> (length ns <= length (concat (map neigh_msg ns)))%nat.
Proof.
  induction 1 as [|n ns Hn _ IH]; [done|]. cbn [map concat length]. rewrite length_app.
  destruct (len_neigh_msg n Hn) as (Hl & _ & Ho). unfold len in Hl at 1. pose_len. lia.
Qed.

End lemmas.

(** ** Properties *)

(** Reading neighbour messages never panics and never loops, whatever the
    bytes, and every entry it adds is an address with a six-byte MAC. *)
Theorem process_chunk_total `{Endian} (buf : list byte) (t : neigh_table) :
  neigh_wf t -> exists t' o, process_chunk buf t = Done (t', o) /\ neigh_wf t'.
Proof. intros Ht. apply process_loop_ok; [lia|unfold len; lia|done]. Qed.

(** The dump of a neighbour table read back: for any sequence of neighbour
    messages in the kernel's format followed by the end marker, on either byte
    order, the table has exactly the neighbours in a usable state, the later of
    two for one address winning. *)
Theorem neigh_dump_roundtrip `{Endian} (ns : list neighbour) (t : neigh_table) :
  Forall neighbour_wf ns ->
  process_chunk (concat (map neigh_msg ns) ++ nlmsg_done) t = Done (foldl learn t ns, ChunkDone).
Proof.
  intros Hw. unfold process_chunk. apply (process_loop_dump ns _ [] t Hw).
  rewrite length_app. pose proof (length_dump ns Hw). lia.
Qed.

Lemma process_chunk_total_witness :
  exists t' o, process_chunk (H := true) (zeros 20) ∅ = Done (t', o).
Proof.
  destruct (process_chunk_total (H := true) (zeros 20) ∅) as (t' & o & Ht & _).
  - apply map_Forall_empty.
  - exists t', o. exact Ht.
Defined.

Definition example_neighbour : neighbour :=
  mkNeigh (V4 [10; 0; 0; 1]%u8) [0xaa; 0xbb; 0xcc; 0xdd; 0xee; 0xff]%u8 NUD_REACHABLE
    (zeros 7) (zeros 2) (zeros 10).

Lemma neigh_dump_roundtrip_witness :
  process_chunk (H := true) (neigh_msg (En := true) example_neighbour ++ nlmsg_done (En := true)) ∅
  = Done ({[V4 [10; 0; 0; 1]%u8 := [0xaa; 0xbb; 0xcc; 0xdd; 0xee; 0xff]%u8]}, ChunkDone).
Proof.
  pose proof (neigh_dump_roundtrip (H := true) [example_neighbour] ∅) as Ht.
  cbn [map concat] in Ht. rewrite app_nil_r in Ht. rewrite Ht.
  - reflexivity.
  - constructor; [|constructor]. constructor; try reflexivity. split; [discriminate|reflexivity].
Defined.

(** A server keeps everything but a missing MAC, which the table may supply. *)
Lemma resolve_macs_lookup {E} (q : result neigh_table E) ss i s :
  ss !! i = Some s ->
  exists m, resolve_macs q ss !! i = Some (set_mac s m) /\
    (s_mac s <> None -> m = s_mac s) /\
    (forall x, m = Some x -> s_mac s = Some x \/ exists t, q = Ok t /\ t !! s_address s = Some x) /\
    (forall t x, q = Ok t -> t !! s_address s = Some x -> m <> None).
Proof.
  intros Hs. assert (Hid : set_mac s (s_mac s) = s) by (by destruct s).
  unfold resolve_macs. destruct (_ =? 0)%nat eqn:E0.
  - exists (s_mac s). rewrite Hid. split; [done|]. split; [done|]. split; [by left|].
    intros t x _ _ Hn. apply Nat.eqb_eq, length_zero_iff_nil in E0.
    assert (Hin : In s (List.filter (fun s => bool_decide (s_mac s = None)) ss)).
    { apply filter_In. split; [by apply list_elem_of_In, list_elem_of_lookup_2 with i|].
      by apply bool_decide_eq_true. }
    by rewrite E0 in Hin.
  - destruct q as [t|e].
    + change (map ?f ss) with (f <$> ss). rewrite list_lookup_fmap, Hs. simpl.
      destruct (s_mac s) as [m|] eqn:Em.
      * exists (Some m). rewrite Hid. split; [done|]. split; [done|]. split; [by left|done].
      * destruct (t !! s_address s) as [m|] eqn:Et.
        -- exists (Some m). split; [done|]. split; [done|]. split; [|done].
           intros x [= <-]. right. eauto.
        -- exists None. rewrite Hid. split; [done|]. split; [done|]. split; [done|]. naive_solver.
    + exists (s_mac s). rewrite Hid. split; [done|]. split; [done|]. split; [by left|done].
Qed.

Lemma length_resolve_macs {E} (q : result neigh_table E) ss : length (resolve_macs q ss) = length ss.
Proof. unfold resolve_macs. repeat case_goal; try done. by rewrite length_map. Qed.
