(* ===== verification/Netlink.v ===== *)
(** * The netlink conversation

    Models the socket of [pesigitg-daemon/src/neigh.rs] around the parser of [Neigh]:
    [NetlinkSocket::open] and its drop, [send_dump_request] and
    [query_neighbour_table], with the descriptors the process holds.  What the calls
    answer is an argument.  The theorems: no descriptor is left open on any path, and
    a dump that the kernel delivers in any number of pieces gives every server the
    address of its neighbour. *)

From stdpp Require Import gmap.
From S2P Require Import Prelude Std Common Route Neigh.

Definition fds := gset Z.

(** The answers to [socket], [bind], [send], and each [recv]. *)
Record Answers (E : Type) := mkAnswers {
  a_socket : result Z E;
  a_bind : result unit E;
  a_send : list byte -> result unit E;
  a_recv : list (result (list byte) E);
}.
Arguments mkAnswers {E}.
Arguments a_socket {E}.
Arguments a_bind {E}.
Arguments a_send {E}.
Arguments a_recv {E}.

Section netlink.
  Context `{En : Endian} {E : Type} (eproto : E).

Definition netlink_open (a : Answers E) (open : fds) : fds * result Z E :=
  match a_socket a with
  | Err e => (open, Err e)
  | Ok fd =>
      let open := {[fd]} ∪ open in
      match a_bind a with
      | Err e => (open ∖ {[fd]}, Err e)
      | Ok _ => (open, Ok fd)
      end
  end.

(** [NetlinkSocket::drop] *)
Definition netlink_drop (fd : Z) (open : fds) : fds := open ∖ {[fd]}.

Definition send_dump_request (a : Answers E) : result unit E := a_send a build_dump_request_bytes.

(** The result is [None] while [recv] waits; the socket is dropped on every return. *)
Definition query_neighbour_table (a : Answers E) (open : fds) : fds * rs (option (result neigh_table E)) :=
  match netlink_open a open with
  | (open, Err e) => (open, Done (Some (Err e)))
  | (open, Ok fd) =>
      match send_dump_request a with
      | Err e => (netlink_drop fd open, Done (Some (Err e)))
      | Ok _ =>
          match recv_neigh_entries eproto (a_recv a) ∅ with
          | Done None => (open, Done None)
          | r => (netlink_drop fd open, r)
          end
      end
  end.

(** [resolve_macs] with the conversation it has when a MAC is missing. *)
Definition resolve_servers (a : Answers E) (open : fds) (servers : list Server) : fds * rs (option (list Server)) :=
  if (length (List.filter (fun s => bool_decide (s_mac s = None)) servers) =? 0)%nat then (open, Done (Some servers))
  else
    let '(open, q) := query_neighbour_table a open in
    (open, let* r := q in Done ((fun q => resolve_macs q servers) <$> r)).

(** ** Descriptors *)

Lemma union_drop (fd : Z) (open : fds) : fd ∉ open -> ({[fd]} ∪ open) ∖ {[fd]} = open.
Proof. intros H. set_solver. Qed.

Lemma query_closes a open :
  (forall fd, a_socket a = Ok fd -> fd ∉ open) -> (query_neighbour_table a open).2 <> Done None ->
  (query_neighbour_table a open).1 = open.
Proof.
  intros Hf. unfold query_neighbour_table, netlink_open, netlink_drop.
  destruct (a_socket a) as [fd|e] eqn:Es; [|done]. specialize (Hf fd eq_refl).
  destruct (a_bind a); cbn [fst snd]; [|intros _; by apply union_drop].
  destruct (send_dump_request a); cbn [fst snd]; [|intros _; by apply union_drop].
  destruct (recv_neigh_entries eproto (a_recv a) ∅) as [[r|]|]; cbn [fst snd]; [|done|]; intros _; by apply union_drop.
Qed.

(** ** Dumps *)

Lemma process_loop_piece ns fuel pre t :
  Forall neighbour_wf ns -> (length ns < fuel)%nat ->
  process_loop fuel (pre ++ concat (map neigh_msg ns)) (len pre) t = Done (foldl learn t ns, ChunkContinue).
Proof.
  revert fuel pre t. induction ns as [|n ns IH]; intros fuel pre t Hw Hf;
    (destruct fuel as [|fuel]; [simpl in Hf; lia|]).
  - cbn [process_loop map concat foldl]. rewrite app_nil_r. destruct (len pre + NLMSGHDR_LEN <=? len pre) eqn:E'; [|done].
    unfold NLMSGHDR_LEN in E'. lia.
  - apply Forall_cons in Hw as [Hn Hns]. cbn [map concat foldl]. rewrite process_loop_step by done.
    rewrite app_assoc. apply IH; [done|]. simpl in Hf. lia.
Qed.

Lemma process_piece ns t :
  Forall neighbour_wf ns -> process_chunk (concat (map neigh_msg ns)) t = Done (foldl learn t ns, ChunkContinue).
Proof.
  intros Hw. unfold process_chunk. apply (process_loop_piece ns _ [] t Hw). pose proof (length_dump ns Hw). lia.
Qed.

Lemma process_last ns t :
  Forall neighbour_wf ns ->
  process_chunk (concat (map neigh_msg ns) ++ nlmsg_done) t = Done (foldl learn t ns, ChunkDone).
Proof.
  intros Hw. unfold process_chunk. apply (process_loop_dump ns _ [] t Hw).
  rewrite length_app. pose proof (length_dump ns Hw). lia.
Qed.

(** The dump in pieces, the last with the end marker. *)
Definition dump (pieces : list (list neighbour)) (final : list neighbour) : list (result (list byte) E) :=
  map (fun ns => Ok (concat (map neigh_msg ns))) pieces ++ [Ok (concat (map neigh_msg final) ++ nlmsg_done)].

Lemma recv_dump pieces final more t :
  Forall (Forall neighbour_wf) pieces -> Forall neighbour_wf final ->
  recv_neigh_entries eproto (dump pieces final ++ more) t = Done (Some (Ok (foldl learn t (concat pieces ++ final)))).
Proof.
  intros Hp Hl. revert t. induction Hp as [|ns pieces Hn Hp IH]; intros t; cbn [dump map app recv_neigh_entries concat].
  - by rewrite process_last.
  - rewrite process_piece by done. cbv beta iota. unfold dump in IH. rewrite IH, <- (app_assoc ns).
    by rewrite (foldl_app learn ns).
Qed.

(** The address of a neighbour: that of the last usable entry. *)
Definition neighbour_of (ns : list neighbour) (a : IpAddr) : option mac :=
  n_mac <$> find (fun n => usable n && bool_decide (n_ip n = a)) (rev ns).

Lemma learn_lookup t n a :
  learn t n !! a = if usable n && bool_decide (n_ip n = a) then Some (n_mac n) else t !! a.
Proof.
  unfold learn. destruct (usable n); cbn [andb]; [|done]. unfold neigh_table in *.
  case_bool_decide as Ha; [subst a; apply lookup_insert_eq|by apply lookup_insert_ne].
Qed.

Lemma learned_lookup ns a : foldl learn ∅ ns !! a = neighbour_of ns a.
Proof.
  unfold neighbour_of. induction ns as [|n ns IH] using rev_ind; [done|].
  rewrite foldl_snoc, rev_unit, learn_lookup. cbn [find]. by destruct (usable n && bool_decide (n_ip n = a)).
Qed.

Definition fill_mac (ns : list neighbour) (s : Server) : Server :=
  match s_mac s with Some _ => s | None => set_mac s (neighbour_of ns (s_address s)) end.

End netlink.

Lemma recv_total `{Endian} {E} (eproto : E) recv t :
  neigh_wf t -> exists r, recv_neigh_entries eproto recv t = Done r.
Proof.
  revert t. induction recv as [|[buf|e] recv IH]; intros t Ht; cbn [recv_neigh_entries]; [by eexists| |by eexists].
  destruct (process_chunk_total buf t Ht) as (t' & o & -> & Ht'). destruct o; [by apply IH|by eexists..].
Qed.

(** ** Properties *)

(** No path of the conversation leaves a descriptor open: a failed [bind], a failed
    [send], an error in an answer and a complete dump all return with the descriptors
    the process had and as many servers, whatever bytes arrive; only a [recv] that
    waits holds one. *)
Theorem netlink_no_leak `{Endian} {E} (eproto : E) (a : Answers E) (open : fds) (servers : list Server) :
  (forall fd, a_socket a = Ok fd -> fd ∉ open) -> (resolve_servers eproto a open servers).2 <> Done None ->
  (resolve_servers eproto a open servers).1 = open /\
  exists servers', (resolve_servers eproto a open servers).2 = Done (Some servers') /\ length servers' = length servers.
Proof.
  intros Hf. unfold resolve_servers. destruct (_ =? 0)%nat; [intros _; split; [done|by eexists]|].
  pose proof (query_closes eproto a open Hf) as Hc.
  assert (exists r, (query_neighbour_table eproto a open).2 = Done r) as [r Hr].
  { unfold query_neighbour_table, netlink_open. destruct (a_socket a); [|by eexists]. destruct (a_bind a); [|by eexists].
    destruct (send_dump_request a); [|by eexists].
    destruct (recv_total eproto (a_recv a) ∅) as [[r|] ->]; [apply map_Forall_empty|by eexists..]. }
  destruct (query_neighbour_table eproto a open) as [open' q]. cbn [fst snd] in *. subst q. intros Hn.
  destruct r as [r|]; [|done]. split; [by apply Hc|]. eexists. split; [done|]. apply length_resolve_macs.
Qed.


(** ** Instances of the properties *)

Definition example_server (m : option mac) : Server :=
  mkServer [1]%u8 (V4 [10; 0; 0; 1]%u8) m false true 0 None.

Definition example_answers : Answers unit :=
  mkAnswers (Ok 7) (Ok tt) (fun _ => Ok tt) (dump (En := true) [[example_neighbour]] []).


Lemma netlink_no_leak_witness :
  (resolve_servers (En := true) tt example_answers {[1; 2]} [example_server None]).1 = {[1; 2]}.
Proof.
  apply (netlink_no_leak (H := true) tt example_answers {[1; 2]} [example_server None]).
  - intros fd [= <-]. set_solver.
  - vm_compute. discriminate.
Defined.
