(* ===== verification/DaemonConfig.v ===== *)
(** * Command line and daemon configuration file

    Models [pesigitg-daemon/src/config/daemon.rs] (the [key = value] file) and
    [pesigitg-daemon/src/args.rs] (merging it with the command line), with the
    part of [std::path] they use.  Reading a file is a parameter: its size and
    its text, or an I/O error. *)

From S2P Require Import Prelude Std Common.

(** ** Paths *)

Definition slash : Z := 47.

Definition is_relative (p : str) : bool :=
  match p with c :: _ => negb (c =? slash) | [] => true end.

(** Trailing empty and [.] components are not part of a path; a leading [.] of a
    relative path is. *)
Fixpoint trim_components (rooted : bool) (parts : list str) : list str :=
  match parts with
  | [] => []
  | p :: rest =>
      match trim_components true rest with
      | [] => if bool_decide (p = []) || (rooted && bool_decide (p = lit ".")) then [] else [p]
      | rest' => p :: rest'
      end
  end.

Fixpoint intercalate (sep : Z) (parts : list str) : str :=
  match parts with
  | [] => []
  | [p] => p
  | p :: rest => p ++ sep :: intercalate sep rest
  end.

(** [Path::parent]. *)
Definition parent (p : str) : option str :=
  let rooted := negb (is_relative p) in
  let parts := if rooted then split slash (tail p) else split slash p in
  match rev (trim_components rooted parts) with
  | [] => None
  | _ :: init =>
      let dir := intercalate slash (trim_components rooted (rev init)) in
      Some (if rooted then slash :: dir else dir)
  end.

(** [Path::join] of a relative path. *)
Definition join_relative (base p : str) : str :=
  match last base with
  | None => p
  | Some c => if c =? slash then base ++ p else base ++ slash :: p
  end.

(** ** The configuration file *)

Definition DEFAULT_INTF : str := lit "eth0".

Record FileConfig := mkFileConfig {
  fc_ports : list Z;
  fc_interface : str;
  fc_queues : Z;
  fc_route_config : option str;
  fc_status_socket : option str;
}.

Inductive file_error (IoError : Type) :=
| FileIo (e : IoError)
| FileTooLarge (size : Z)
| BadPort
| BadQueues
| QueuesRange.
Arguments FileIo {_}.
Arguments FileTooLarge {_}.
Arguments BadPort {_}.
Arguments BadQueues {_}.
Arguments QueuesRange {_}.

Section file.
  Context {IoError : Type}.
  Context (metadata_len : str -> result Z IoError) (read_to_string : str -> result str IoError).

(** One line of the file; malformed lines and unknown keys only warn. *)
Definition config_line (path : str) (fc : FileConfig) (line : str)
    : result FileConfig (file_error IoError) :=
  let line := trim line in
  if bool_decide (line = []) || bool_decide (head line = Some 35) then Ok fc
  else
    match split_once 61 line with
    | None => Ok fc
    | Some (k, v) =>
        let k := trim k in
        if bool_decide (k = lit "port") then
          match parse_u16 (trim v) with
          | None => Err BadPort
          | Some p => Ok (mkFileConfig (fc_ports fc ++ [p]) (fc_interface fc) (fc_queues fc)
                            (fc_route_config fc) (fc_status_socket fc))
          end
        else if bool_decide (k = lit "interface") then
          Ok (mkFileConfig (fc_ports fc) (trim v) (fc_queues fc) (fc_route_config fc)
                (fc_status_socket fc))
        else if bool_decide (k = lit "queues") then
          match parse_u32 (trim v) with
          | None => Err BadQueues
          | Some q =>
              if (q =? 0) || (MAX_QUEUES <? q) then Err QueuesRange
              else Ok (mkFileConfig (fc_ports fc) (fc_interface fc) q (fc_route_config fc)
                         (fc_status_socket fc))
          end
        else if bool_decide (k = lit "route_config") then
          let p := trim v in
          let full :=
            if is_relative p then
              join_relative (match parent path with Some d => d | None => path end) p
            else p in
          Ok (mkFileConfig (fc_ports fc) (fc_interface fc) (fc_queues fc) (Some full)
                (fc_status_socket fc))
        else if bool_decide (k = lit "status_socket") then
          let s := trim v in
          if bool_decide (s = []) then Ok fc
          else Ok (mkFileConfig (fc_ports fc) (fc_interface fc) (fc_queues fc)
                     (fc_route_config fc) (Some s))
        else Ok fc
    end.

Fixpoint config_lines (path : str) (fc : FileConfig) (ls : list str)
    : result FileConfig (file_error IoError) :=
  match ls with
  | [] => Ok fc
  | l :: rest => let+ fc := config_line path fc l in config_lines path fc rest
  end.

Definition file_config_from_file (path : str) : result FileConfig (file_error IoError) :=
  match metadata_len path with
  | Err e => Err (FileIo e)
  | Ok size =>
      if MAX_CONFIG_SIZE <? size then Err (FileTooLarge size)
      else
        match read_to_string path with
        | Err e => Err (FileIo e)
        | Ok content =>
            config_lines path (mkFileConfig [] DEFAULT_INTF DEFAULT_QUEUES None None) (lines content)
        end
  end.

End file.

(** ** Command line *)

Record CliArgs := mkCliArgs {
  cli_ports : list Z;
  cli_interface : option str;
  cli_queues : option Z;
  cli_config : option str;
  cli_status_socket : option str;
  cli_foreground : bool;
}.

Record Args := mkArgs {
  ports : list Z;
  interface : str;
  queues : Z;
  config : option str;
  routeconfig : option str;
  status_socket : option str;
  foreground : bool;
}.

Inductive args_error := ArgsQueuesRange.

Definition opt_or {A} (a b : option A) : option A := match a with Some _ => a | None => b end.

Definition merge_args (cli : CliArgs) (file : option FileConfig) : result Args args_error :=
  let q := default DEFAULT_QUEUES (opt_or (cli_queues cli) (fc_queues <$> file)) in
  if (q =? 0) || (MAX_QUEUES <? q) then Err ArgsQueuesRange
  else
    Ok (mkArgs
      (if negb (bool_decide (cli_ports cli = [])) then cli_ports cli
       else match file with Some fc => fc_ports fc | None => [DEFAULT_PORT] end)
      (default DEFAULT_INTF (opt_or (cli_interface cli) (fc_interface <$> file)))
      q (cli_config cli) (file ≫= fc_route_config)
      (opt_or (cli_status_socket cli) (file ≫= fc_status_socket))
      (cli_foreground cli)).

(** [args.ports[0]], the port the daemon hands to its health checker at startup. *)
Definition health_port (a : Args) : rs Z := idx (ports a) 0.

(** ** Lemmas *)

Record file_wf (fc : FileConfig) : Prop := {
  fw_ports : Forall (fun p => 0 <= p < 65536) (fc_ports fc);
  fw_queues : 1 <= fc_queues fc <= MAX_QUEUES;
}.

Lemma digits_acc_range radix max bs acc n :
  2 <= radix -> 0 <= acc <= max -> digits_acc radix max acc bs = Some n -> 0 <= n <= max.
Proof.
  intros Hr. revert acc. induction bs as [|b bs IH]; intros acc Ha; cbn [digits_acc]; [congruence|].
  unfold to_digit. repeat case_goal; try done; intros Hd; (eapply IH; [|exact Hd]);
    pose proof (u8_range b); bools; simplify_eq; nia.
Qed.

Lemma from_str_radix_range radix max bs n :
  2 <= radix -> 0 <= max -> from_str_radix radix max bs = Some n -> 0 <= n <= max.
Proof.
  intros Hr Hm. unfold from_str_radix. repeat case_goal; try done;
    apply digits_acc_range; lia.
Qed.

Section sound.
  Context {IoError : Type}.
  Context (metadata_len : str -> result Z IoError) (read_to_string : str -> result str IoError).

Lemma config_line_wf path fc l fc' :
  file_wf fc -> config_line (IoError := IoError) path fc l = Ok fc' -> file_wf fc'.
Proof.
  intros Hw. unfold config_line. case_goal; [congruence|]. case_goal; [|congruence].
  case_goal. case_goal.
  { case_goal; [|done]. intros [= <-]. constructor; [|apply Hw]. simpl. apply Forall_app.
    split; [apply Hw|]. constructor; [|done]. 
    match goal with Hp : parse_u16 _ = Some _ |- _ => apply from_str_radix_range in Hp; lia end. }
  case_goal; [intros [= <-]; constructor; apply Hw|].
  case_goal.
  { case_goal; [|done]. case_goal; [done|]. intros [= <-]. constructor; [apply Hw|].
    match goal with Hq : parse_u32 _ = Some _ |- _ => apply from_str_radix_range in Hq; simpl; lia end. }
  repeat case_goal; intros [= <-]; try done; constructor; apply Hw.
Qed.

Lemma config_lines_wf path ls fc fc' :
  file_wf fc -> config_lines (IoError := IoError) path fc ls = Ok fc' -> file_wf fc'.
Proof.
  revert fc. induction ls as [|l ls IH]; intros fc Hw; cbn [config_lines]; [congruence|].
  destruct (config_line path fc l) eqn:El; [|done]. apply IH. by eapply config_line_wf.
Qed.

Lemma from_file_wf path fc :
  file_config_from_file metadata_len read_to_string path = Ok fc -> file_wf fc.
Proof.
  unfold file_config_from_file. repeat case_goal; try done.
  apply config_lines_wf. constructor; [constructor|]. unfold DEFAULT_QUEUES, MAX_QUEUES. simpl. lia.
Qed.

End sound.

Lemma merge_args_ports cli file a :
  merge_args cli file = Ok a ->
  ports a = (if bool_decide (cli_ports cli = []) then
               match file with Some fc => fc_ports fc | None => [DEFAULT_PORT] end
             else cli_ports cli).
Proof.
  unfold merge_args. case_goal; [done|]. intros [= <-]. simpl. by destruct (bool_decide _).
Qed.

(** ** Properties *)

(** Starting the daemon reads the port to probe as the first configured
    one, and this panics exactly when a configuration file was given, it names no
    port, and neither does the command line: the default port only applies
    without a file. *)
Theorem portless_config_panics (cli : CliArgs) (file : option FileConfig) (a : Args) :
  merge_args cli file = Ok a ->
  (health_port a = Panic <->
   cli_ports cli = [] /\ exists fc, file = Some fc /\ fc_ports fc = []).
Proof.
  intros Hm. unfold health_port. rewrite (merge_args_ports _ _ _ Hm).
  case_goal; bools.
  - destruct file as [fc|].
    + destruct (fc_ports fc) as [|p ps] eqn:Ep; (split; [intros Hp|intros (_ & fc' & [= <-] & Hf)]).
      * eauto.
      * done.
      * discriminate Hp.
      * congruence.
    + split; [done|]. by intros (_ & fc & ? & _).
  - destruct (cli_ports cli); [done|]. split; [done|]. by intros [? _].
Qed.

(** A file that sets only the interface. *)
Definition example_file : result FileConfig (file_error unit) :=
  file_config_from_file (fun _ => Ok 20) (fun _ => Ok (lit "interface = eth1")) (lit "/etc/pesigitg.conf").

Definition example_file_config : FileConfig :=
  match example_file with Ok fc => fc | Err _ => mkFileConfig [443] [] 1 None None end.

Definition example_cli : CliArgs := mkCliArgs [] None None (Some (lit "/etc/pesigitg.conf")) None false.

Definition example_args : Args := mkArgs [] (lit "eth1") 1 (Some (lit "/etc/pesigitg.conf")) None None false.

Lemma portless_config_panics_witness :
  example_file = Ok example_file_config /\ health_port example_args = Panic.
Proof.
  split; [vm_compute; reflexivity|].
  apply (portless_config_panics example_cli (Some example_file_config) example_args);
    [vm_compute; reflexivity|]. split; [reflexivity|].
  exists example_file_config. split; [reflexivity|vm_compute; reflexivity].
Defined.
