(* ===== verification/Health.v ===== *)
(** * Health checking

    Models [pesigitg-daemon/src/health.rs]: the per-backend health automaton, its
    probe schedule, and mirroring the outcome onto the routing table.  The QUIC
    handshakes (crates [quinn] and [tokio]) are a parameter: the function from
    the due addresses to the entries of the result map, in its iteration order. *)

From stdpp Require Import gmap.
From S2P Require Import Prelude Std Common Route ConfigTable Neigh.

Definition FAILURE_THRESHOLD : Z := 3.
Definition PROBE_INTERVAL : Duration := from_secs 5.
Definition BACKOFF_SCHEDULE : list Duration :=
  [from_secs 10; from_secs 30; from_secs 60; from_secs 300].

Record ServerHealth := mkHealth {
  consecutive_failures : Z;
  healthy : bool;
  next_probe_at : Instant;
  transitions : Z;
  state_since : Instant;
  ever_healthy : bool;
}.

Notation health_state := (gmap IpAddr ServerHealth).

Record HealthChecker := mkChecker {
  hc_state : health_state;
  hc_port : Z;
}.

Definition checker_new (port : Z) : HealthChecker := mkChecker ∅ port.

Definition fresh_health (now : Instant) : ServerHealth := mkHealth 0 false now 0 now false.

Definition reset_backoff (hc : HealthChecker) (now : Instant) : HealthChecker :=
  mkChecker
    ((fun s => mkHealth (consecutive_failures s) (healthy s) now (transitions s) (state_since s)
                 (ever_healthy s)) <$> hc_state hc) (hc_port hc).

Definition backoff_for (failures : Z) : rs Duration :=
  if failures <? FAILURE_THRESHOLD then Done PROBE_INTERVAL
  else
    let i := failures - FAILURE_THRESHOLD in
    idx BACKOFF_SCHEDULE (Z.min i (len BACKOFF_SCHEDULE - 1)).

(** The body of the loop of [apply_probe_results] for one outcome: the new state
    and whether the server changed health. *)
Definition probe_step (s : ServerHealth) (ok : bool) (now : Instant) : rs (ServerHealth * bool) :=
  if ok then
    let next := now + PROBE_INTERVAL in
    if negb (healthy s) then
      Done (mkHealth 0 true next
              (if ever_healthy s then wrap32 (transitions s + 1) else transitions s) now true, true)
    else Done (mkHealth 0 (healthy s) next (transitions s) (state_since s) (ever_healthy s), false)
  else
    let failures := wrap32 (consecutive_failures s + 1) in
    let* delay := backoff_for failures in
    let next := now + delay in
    if healthy s && (FAILURE_THRESHOLD <=? failures) then
      Done (mkHealth failures false next (wrap32 (transitions s + 1)) now (ever_healthy s), true)
    else Done (mkHealth failures (healthy s) next (transitions s) (state_since s) (ever_healthy s), false).

Fixpoint apply_probes (state : health_state) (probes : list (IpAddr * bool)) (now : Instant)
    (changed : bool) : rs (health_state * bool) :=
  match probes with
  | [] => Done (state, changed)
  | (addr, ok) :: rest =>
      match state !! addr with
      | None => Panic
      | Some s =>
          let* (s', flipped) := probe_step s ok now in
          apply_probes (<[addr := s']> state) rest now (changed || flipped)
      end
  end.

Section table.
  Context `{Aes128}.

(** [for rc in config.configs_mut()]: every configuration's servers rewritten. *)
Definition map_servers (f : RouteConfig -> list Server) (t : ConfigTable) : ConfigTable :=
  mkTable (path t)
    (map (option_map (fun c =>
       mkRouteConfig (config_id c) (first_octet_encodes_cid_length c) (server_id_length c)
         (nonce_length c) (encryption c) (f c) (max_key_age_secs c))) (slots t))
    (slot_loaded_at t) (fallback_servers t) (retry t).

Definition mirror_server (state : health_state) (s : Server) : Server :=
  match state !! s_address s with
  | Some h => mkServer (s_id s) (s_address s) (s_mac s) (s_draining s) (healthy h) (transitions h)
                (Some (state_since h))
  | None => s
  end.

Definition mirror_table (state : health_state) (t : ConfigTable) : ConfigTable :=
  map_servers (fun c => map (mirror_server state) (servers c)) t.

Definition apply_probe_results (state : health_state) (probes : list (IpAddr * bool)) (now : Instant)
    (config : ConfigTable) : rs (health_state * ConfigTable * bool) :=
  let* (state, changed) := apply_probes state probes now false in
  Done (state, mirror_table state config, changed).

Definition evict_removed (state : health_state) (current : gset IpAddr) : health_state :=
  filter (fun kv => kv.1 ∈ current) state.

(** The addresses of every backend, without duplicates. *)
Definition all_addrs (t : ConfigTable) : gset IpAddr :=
  list_to_set (concat (map (fun c => map s_address (servers c)) (configs t))).

(** [state.entry(addr).or_insert(..)] for every address, collecting the due ones. *)
Fixpoint collect_due (addrs : list IpAddr) (state : health_state) (now : Instant)
    : health_state * list IpAddr :=
  match addrs with
  | [] => (state, [])
  | a :: rest =>
      let s := default (fresh_health now) (state !! a) in
      let '(state', due) := collect_due rest (<[a := s]> state) now in
      (state', if next_probe_at s <=? now then a :: due else due)
  end.

Definition check (probe_all : list IpAddr -> list (IpAddr * bool)) (hc : HealthChecker)
    (config : ConfigTable) (now : Instant) : rs (HealthChecker * ConfigTable * bool) :=
  let addrs := all_addrs config in
  let state := evict_removed (hc_state hc) addrs in
  let '(state, due) := collect_due (elements addrs) state now in
  if bool_decide (due = []) then Done (mkChecker state (hc_port hc), config, false)
  else
    let* (state, config, changed) := apply_probe_results state (probe_all due) now config in
    Done (mkChecker state (hc_port hc), config, changed).

End table.

(** ** The health automaton of one backend *)

Fixpoint probe_run (s : ServerHealth) (history : list (bool * Instant)) : rs ServerHealth :=
  match history with
  | [] => Done s
  | (ok, now) :: rest => let* (s', _) := probe_step s ok now in probe_run s' rest
  end.

(** The failures since the last success, and the flips of a health flag. *)
Definition recent_failures (h : list (bool * Instant)) : Z :=
  foldl (fun n p => if p.1 : bool then 0 else n + 1) 0 h.

(** Up: some probe succeeded, and fewer than three failed since. *)
Definition is_up (h : list (bool * Instant)) : bool :=
  existsb fst h && (recent_failures h <? FAILURE_THRESHOLD).

(** The delay to the next probe. *)
Definition delay_spec (failures : Z) : Duration :=
  if failures <? 3 then from_secs 5
  else if failures =? 3 then from_secs 10
  else if failures =? 4 then from_secs 30
  else if failures =? 5 then from_secs 60
  else from_secs 300.

Lemma backoff_for_spec n : 0 <= n -> backoff_for n = Done (delay_spec n).
Proof.
  intros Hn. unfold backoff_for, delay_spec, FAILURE_THRESHOLD. case_goal; [done|].
  change (len BACKOFF_SCHEDULE - 1) with 3.
  destruct (decide (n < 6)).
  - assert (n = 3 \/ n = 4 \/ n = 5) as [->|[->| ->]] by lia; done.
  - replace (Z.min (n - 3) 3) with 3 by lia. cbn [idx]. by repeat (case_goal; [lia|]).
Qed.

Lemma recent_failures_snoc h p :
  recent_failures (h ++ [p]) = if p.1 then 0 else recent_failures h + 1.
Proof. unfold recent_failures. by rewrite foldl_app. Qed.

Lemma recent_failures_range h : 0 <= recent_failures h <= len h.
Proof.
  induction h as [|p h IH] using rev_ind; [done|]. rewrite recent_failures_snoc. case_goal; llia.
Qed.

Lemma is_up_snoc h p :
  is_up (h ++ [p]) = p.1 || (is_up h && (recent_failures h + 1 <? 3)).
Proof.
  unfold is_up, FAILURE_THRESHOLD. rewrite existsb_app, recent_failures_snoc. cbn [existsb].
  pose proof (recent_failures_range h). destruct (existsb fst h), p as [[] ?]; cbn [fst orb andb]; try done.
  destruct (recent_failures h + 1 <? 3) eqn:E; [|by rewrite andb_false_r].
  by assert (recent_failures h <? 3 = true) as -> by lia.
Qed.

Lemma probe_run_app s h1 h2 :
  probe_run s (h1 ++ h2) = let* s' := probe_run s h1 in probe_run s' h2.
Proof.
  revert s. induction h1 as [|[ok now] h1 IH]; intros s; [done|]. cbn [probe_run app].
  destruct (probe_step s ok now) as [[s' b]|]; [apply IH|done].
Qed.

(** The state after a history of probes of a backend first seen at [t0]. *)
Definition health_inv (t0 : Instant) (h : list (bool * Instant)) (s : ServerHealth) : Prop :=
  consecutive_failures s = recent_failures h /\ healthy s = is_up h /\
  ever_healthy s = existsb fst h /\
  next_probe_at s = (match last h with
                     | Some (_, t) => t + delay_spec (recent_failures h)
                     | None => t0
                     end).

Lemma health_inv_run t0 h :
  len h < 2 ^ 32 -> exists s, probe_run (fresh_health t0) h = Done s /\ health_inv t0 h s.
Proof.
  induction h as [|[ok t] h IH] using rev_ind; intros Hl; [by eexists|].
  autorewrite with len in Hl.
  destruct IH as (s & Hs & Hf & Hh & He & _); [lia|]. rewrite probe_run_app, Hs. cbn [probe_run].
  pose proof (recent_failures_range h). unfold probe_step, wrap32, FAILURE_THRESHOLD. destruct ok.
  - assert (Hup : is_up (h ++ [(true, t)]) = true) by (by rewrite is_up_snoc).
    assert (Hr : recent_failures (h ++ [(true, t)]) = 0) by apply recent_failures_snoc.
    assert (Hex : existsb fst (h ++ [(true, t)]) = true) by (rewrite existsb_app; apply orb_true_r).
    unfold health_inv. rewrite Hup, Hr, Hex, last_snoc.
    destruct (healthy s) eqn:Ehs; cbn [negb]; eexists; (split; [done|]); cbn; split_and!; try done.
    rewrite He. symmetry in Hh. unfold is_up in Hh. by bools.
  - rewrite Z.mod_small by lia. rewrite backoff_for_spec by lia.
    unfold health_inv. rewrite is_up_snoc, recent_failures_snoc, existsb_app, last_snoc. cbn [existsb fst orb].
    rewrite orb_false_r, <- Hh, <- Hf, <- He. destruct (healthy s) eqn:Ehs; cbn [andb].
    + case_goal; eexists; (split; [done|]); cbn [consecutive_failures healthy ever_healthy next_probe_at];
        split_and!; try done; lia.
    + eexists. split; [done|]. done.
Qed.

(** ** A round of checks *)

(** The probe results are for addresses that were asked about. *)
Definition probes_asked (probe_all : list IpAddr -> list (IpAddr * bool)) : Prop :=
  forall due, Forall (fun p => p.1 ∈ due) (probe_all due).

Lemma probe_step_returns s ok now :
  0 <= consecutive_failures s -> exists s' b, probe_step s ok now = Done (s', b) /\
    0 <= consecutive_failures s' /\ (b = false -> healthy s' = healthy s).
Proof.
  intros Hf. unfold probe_step. destruct ok.
  - case_goal; eexists _, _; (split; [done|]); done.
  - assert (0 <= wrap32 (consecutive_failures s + 1)) by (apply Z.mod_pos_bound; lia).
    rewrite backoff_for_spec by done. case_goal; eexists _, _; (split; [done|]); done.
Qed.

Definition counts_ok (state : health_state) : Prop :=
  map_Forall (fun _ s => 0 <= consecutive_failures s) state.

Lemma apply_probes_returns state probes now b :
  counts_ok state -> Forall (fun p => p.1 ∈ dom state) probes ->
  exists state' b', apply_probes state probes now b = Done (state', b') /\
    counts_ok state' /\ dom state' = dom state /\
    (b' = false -> b = false /\ forall a s', state' !! a = Some s' ->
       exists s, state !! a = Some s /\ healthy s' = healthy s).
Proof.
  revert state b. induction probes as [|[a ok] probes IH]; intros state b Hc Hin; cbn [apply_probes].
  { exists state, b. split; [done|]. split; [done|]. split; [done|]. eauto. }
  inversion Hin as [|? ? [s Hs]%elem_of_dom Hin']; subst. cbn [fst] in Hs. rewrite Hs.
  destruct (probe_step_returns s ok now) as (s' & fl & -> & Hf' & Hfl); [by apply (Hc a)|].
  assert (Hdom : dom (<[a := s']> state) = dom state).
  { rewrite dom_insert_L. apply elem_of_dom_2 in Hs. set_solver. }
  destruct (IH (<[a := s']> state) (b || fl)) as (st' & b' & -> & Hc' & Hd' & Hch).
  { by apply map_Forall_insert_2. }
  { by rewrite Hdom. }
  exists st', b'. split; [done|]. split; [done|]. split; [congruence|]. intros Hb'.
  destruct (Hch Hb') as [[-> ->]%orb_false_iff Hst]. split; [done|]. intros a' s2 Hs2.
  destruct (Hst a' s2 Hs2) as (s1 & Hs1 & Heq). destruct (decide (a = a')) as [<-|Hne].
  - rewrite lookup_insert_eq in Hs1. simplify_eq. exists s. split; [done|]. rewrite Heq. by apply Hfl.
  - rewrite lookup_insert_ne in Hs1 by done. eauto.
Qed.

Lemma collect_due_spec addrs state now :
  counts_ok state ->
  let '(state', due) := collect_due addrs state now in
  counts_ok state' /\ dom state' = dom state ∪ list_to_set addrs /\ (forall a, a ∈ due -> a ∈ addrs) /\
  (forall a, state' !! a = match state !! a with
                           | Some s => Some s
                           | None => if bool_decide (a ∈ addrs) then Some (fresh_health now) else None
                           end).
Proof.
  revert state. induction addrs as [|a addrs IH]; intros state Hc; cbn [collect_due].
  { split; [done|]. split; [set_solver|]. split; [done|]. intros a.
    destruct (state !! a); [done|]. rewrite bool_decide_eq_false_2 by set_solver. done. }
  set (s := default (fresh_health now) (state !! a)).
  assert (Hc1 : counts_ok (<[a := s]> state)).
  { apply map_Forall_insert_2; [|done]. unfold s. destruct (state !! a) eqn:Ea; simpl; [by apply (Hc a)|lia]. }
  specialize (IH (<[a := s]> state) Hc1).
  destruct (collect_due addrs (<[a := s]> state) now) as [st due].
  destruct IH as (Hc' & Hd & Hdue & Hl). split; [done|]. split.
  { rewrite Hd, dom_insert_L. set_solver. }
  split.
  { intros x. case_goal; set_solver. }
  intros x. rewrite Hl. destruct (decide (a = x)) as [<-|Hne].
  - rewrite lookup_insert_eq. unfold s. destruct (state !! a); [done|]. simpl.
    by rewrite bool_decide_eq_true_2 by set_solver.
  - rewrite lookup_insert_ne by done. destruct (state !! x); [done|].
    assert (bool_decide (x ∈ a :: addrs) = bool_decide (x ∈ addrs)) as ->; [|done].
    apply bool_decide_ext. set_solver.
Qed.

Section round.
  Context `{Aes : Aes128}.

Lemma evict_lookup state cur a :
  evict_removed state cur !! a = if bool_decide (a ∈ cur) then state !! a else None.
Proof.
  unfold evict_removed. rewrite map_lookup_filter. case_goal; bools; destruct (state !! a); simpl; try done.
  - by rewrite option_guard_True.
  - by rewrite option_guard_False.
Qed.

Lemma check_spec probe_all hc cfg now :
  counts_ok (hc_state hc) -> probes_asked probe_all ->
  exists hc' cfg' changed, check probe_all hc cfg now = Done (hc', cfg', changed) /\
    counts_ok (hc_state hc') /\ dom (hc_state hc') = all_addrs cfg /\
    (cfg' = cfg /\ changed = false \/
     cfg' = mirror_table (hc_state hc') cfg) /\
    (changed = false -> forall a s', hc_state hc' !! a = Some s' ->
       healthy s' = match hc_state hc !! a with Some s => healthy s | None => false end).
Proof.
  intros Hc Hasked. unfold check. set (addrs := all_addrs cfg).
  set (st0 := evict_removed (hc_state hc) addrs).
  assert (Hst0 : forall a, st0 !! a = if bool_decide (a ∈ addrs) then hc_state hc !! a else None)
    by (intros; apply evict_lookup).
  assert (Hc0 : counts_ok st0).
  { intros a s Hs. rewrite Hst0 in Hs. case_match; [by apply (Hc a)|done]. }
  pose proof (collect_due_spec (elements addrs) st0 now Hc0) as Hcd.
  destruct (collect_due (elements addrs) st0 now) as [st1 due].
  destruct Hcd as (Hc1 & Hd1 & Hdue & Hl1).
  assert (Hdom : dom st1 = addrs).
  { rewrite Hd1, list_to_set_elements_L. apply set_eq. intros a. rewrite elem_of_union, elem_of_dom, Hst0.
    case_goal; bools; [naive_solver|]. split; [|naive_solver]. intros [[? ?]|?]; done. }
  assert (Hflag : forall a s1, st1 !! a = Some s1 ->
    healthy s1 = match hc_state hc !! a with Some s => healthy s | None => false end).
  { intros a s1 Hs1. assert (Ha : a ∈ addrs) by (rewrite <- Hdom; by eapply elem_of_dom_2).
    rewrite Hl1, Hst0, bool_decide_eq_true_2 in Hs1 by done. destruct (hc_state hc !! a); [congruence|].
    rewrite bool_decide_eq_true_2 in Hs1 by by apply elem_of_elements. by simplify_eq. }
  case_goal.
  { exists (mkChecker st1 (hc_port hc)), cfg, false. split; [done|]. split; [done|]. split; [done|].
    split; [by left|]. intros _. exact Hflag. }
  unfold apply_probe_results.
  destruct (apply_probes_returns st1 (probe_all due) now false) as (st2 & b & -> & Hc2 & Hd2 & Hch).
  { done. }
  { eapply List.Forall_impl; [|exact (Hasked due)]. intros p Hp. rewrite Hdom.
    by apply elem_of_elements, Hdue. }
  eexists (mkChecker st2 (hc_port hc)), _, b. split; [done|]. split; [done|]. split; [simpl; congruence|].
  split; [by right|]. intros ->. destruct (Hch eq_refl) as [_ Hst]. intros a s' Hs'.
  destruct (Hst a s' Hs') as (s1 & Hs1 & ->). by apply Hflag.
Qed.

(** When every backend is up and every probe succeeds, nothing changes. *)
Lemma apply_probes_up state probes now b :
  Forall (fun p => p.2 = true /\ exists s, state !! p.1 = Some s) probes ->
  map_Forall (fun _ s => healthy s = true) state ->
  exists state', apply_probes state probes now b = Done (state', b).
Proof.
  revert state. induction probes as [|[a ok] probes IH]; intros state Hp Hs; cbn [apply_probes]; [eauto|].
  inversion Hp as [|? ? [Hok [s Hsa]] Hp']; subst. cbn [fst snd] in *. subst ok. rewrite Hsa.
  pose proof (Hs a s Hsa) as Hh. cbn in Hh. unfold probe_step. rewrite Hh. cbn [negb]. rewrite orb_false_r.
  apply IH.
  - eapply List.Forall_impl; [|exact Hp']. intros p [? [s' Hs']]. split; [done|].
    destruct (decide (a = p.1)) as [<-|Hne]; [rewrite lookup_insert_eq; eauto|].
    rewrite lookup_insert_ne; eauto.
  - by apply map_Forall_insert_2.
Qed.

Lemma check_all_up probe_all hc cfg now hc' cfg' changed :
  counts_ok (hc_state hc) -> probes_asked probe_all ->
  (forall due, Forall (fun p => p.2 = true) (probe_all due)) ->
  (forall a, a ∈ all_addrs cfg -> exists s, hc_state hc !! a = Some s /\ healthy s = true) ->
  check probe_all hc cfg now = Done (hc', cfg', changed) -> changed = false.
Proof.
  intros Hc Hasked Hok Hup. unfold check. set (addrs := all_addrs cfg) in *.
  set (st0 := evict_removed (hc_state hc) addrs).
  assert (Hst0 : forall a, st0 !! a = if bool_decide (a ∈ addrs) then hc_state hc !! a else None)
    by (intros; apply evict_lookup).
  assert (Hc0 : counts_ok st0).
  { intros a s Hs. rewrite Hst0 in Hs. case_match; [by apply (Hc a)|done]. }
  pose proof (collect_due_spec (elements addrs) st0 now Hc0) as Hcd.
  destruct (collect_due (elements addrs) st0 now) as [st1 due].
  destruct Hcd as (_ & _ & Hdue & Hl1). case_goal; [congruence|]. unfold apply_probe_results.
  assert (Hl : forall a, a ∈ addrs -> st1 !! a = hc_state hc !! a).
  { intros a Ha. rewrite Hl1, Hst0, bool_decide_eq_true_2 by done.
    by destruct (Hup a Ha) as (s & -> & _). }
  destruct (apply_probes_up st1 (probe_all due) now false) as [st2 ->]; [| |congruence].
  - apply list.Forall_forall. intros p Hp. split; [by apply (proj1 (list.Forall_forall _ _) (Hok due))|].
    assert (p.1 ∈ addrs).
    { apply elem_of_elements, Hdue. by apply (proj1 (list.Forall_forall _ _) (Hasked due)). }
    rewrite Hl by done. destruct (Hup p.1) as (s & ? & _); eauto.
  - intros a s Hs. rewrite Hl1, Hst0 in Hs. destruct (bool_decide (a ∈ addrs)) eqn:Ea; bools.
    + destruct (Hup a Ea) as (s' & Hs' & Hh). rewrite Hs' in Hs. by simplify_eq.
    + rewrite bool_decide_eq_false_2 in Hs by (by rewrite elem_of_elements). done.
Qed.

End round.

(** ** Properties *)

(** C10.  The health of a backend after any history of probes: up exactly when
    some probe succeeded and fewer than three failed since the last success; the
    next probe is due five seconds after the last one while at most two failed
    in a row, then after 10, 30, 60 and from then on 300 seconds. *)
Theorem health_automaton (t0 : Instant) (history : list (bool * Instant)) :
  len history < 2 ^ 32 ->
  exists s, probe_run (fresh_health t0) history = Done s /\
    consecutive_failures s = recent_failures history /\
    healthy s = is_up history /\
    next_probe_at s = (match last history with
                       | Some (_, t) => t + delay_spec (recent_failures history)
                       | None => t0
                       end).
Proof.
  intros Hl. destruct (health_inv_run t0 history Hl) as (s & Hs & Hf & Hh & _ & Hn). eauto.
Qed.

Lemma health_automaton_witness :
  exists s, probe_run (fresh_health 0) [(true, 5); (false, 10); (false, 20); (false, 30)] = Done s /\
    healthy s = false /\ next_probe_at s = 30 + from_secs 10.
Proof.
  destruct (health_automaton 0 [(true, 5); (false, 10); (false, 20); (false, 30)])
    as (s & Hs & _ & Hh & Hn); [reflexivity|].
  exists s. split; [exact Hs|]. split; [exact Hh|exact Hn].
Defined.

(** A round of health checks never panics, keeps state for exactly the
    addresses of the configured backends, publishes either the table as it was
    or the table with every server showing the state of its address, and reports
    no change only if no backend changed health. *)
Theorem check_round `{Aes128} (probe_all : list IpAddr -> list (IpAddr * bool)) (hc : HealthChecker)
    (cfg : ConfigTable) (now : Instant) :
  counts_ok (hc_state hc) -> probes_asked probe_all ->
  exists hc' cfg' changed, check probe_all hc cfg now = Done (hc', cfg', changed) /\
    counts_ok (hc_state hc') /\ dom (hc_state hc') = all_addrs cfg /\
    (cfg' = cfg /\ changed = false \/
     cfg' = mirror_table (hc_state hc') cfg) /\
    (changed = false -> forall a s', hc_state hc' !! a = Some s' ->
       healthy s' = match hc_state hc !! a with Some s => healthy s | None => false end).
Proof. apply check_spec. Qed.

Lemma check_round_witness :
  exists hc' cfg' changed,
    check (H := xor_aes) (map (fun a => (a, true))) (checker_new 443)
      (example_table 0) 0 = Done (hc', cfg', changed).
Proof.
  destruct (check_round (map (fun a => (a, true))) (checker_new 443) (example_table 0) 0)
    as (hc' & cfg' & ch & Hc & _).
  - apply map_Forall_empty.
  - intros due. apply list.Forall_forall. intros p (a & -> & Ha)%list_elem_of_fmap. exact Ha.
  - exists hc', cfg', ch. exact Hc.
Defined.
