(* ===== verification/Reload.v ===== *)
(** * Configuration reload and the periodic tasks

    Models [pesigitg-daemon/src/config/mod.rs] ([reload_config], [build_status])
    and the main loop of [pesigitg-daemon/src/main.rs]: what a round of the loop
    does with the pending signals, [check_and_rebuild], the drain detection, the
    key-age warnings and the exits.  The table workers read is published as a
    whole, so it is a value of the loop's state. *)

From stdpp Require Import gmap.
From S2P Require Import Prelude Std Common Route RetryConfig ConfigTable Neigh DaemonConfig Health.

Definition DEFAULT_ROUTE_CONFIG : str := lit "/etc/pesigitg/lb.toml".

Section reload.
  Context `{Aes128} {IoError FileError TableError : Type}.
  (** The configuration readers and, per configuration, the neighbour query. *)
  Context (read_file : str -> result FileConfig FileError).
  Context (read_table : str -> rs (result ConfigTable TableError)).
  Context (query : Z -> result neigh_table IoError).

Record Daemon := mkDaemon {
  d_args : Args;
  d_table : ConfigTable;
}.

Definition reload_args (a : Args) : Args :=
  match config a with
  | None => a
  | Some p =>
      match read_file p with
      | Ok fc => mkArgs (fc_ports fc) (fc_interface fc) (fc_queues fc) (config a) (routeconfig a)
                   (status_socket a) (foreground a)
      | Err _ => a
      end
  end.

Definition resolve_table (t : ConfigTable) : ConfigTable :=
  map_servers (fun c => resolve_macs (query (config_id c)) (servers c)) t.

Definition reload_config (d : Daemon) : rs Daemon :=
  let a := reload_args (d_args d) in
  let* new := read_table (default DEFAULT_ROUTE_CONFIG (routeconfig a)) in
  match new with
  | Err _ => Done (mkDaemon a (d_table d))
  | Ok rc =>
      let rc := resolve_table rc in
      let rc := rebuild_fallback_servers rc in
      let rc := inherit_ages_from rc (d_table d) in
      Done (mkDaemon a rc)
  end.

(** The counts behind the [STATUS=] line: all, healthy and draining servers. *)
Definition build_status (t : ConfigTable) : Z * Z * Z :=
  let all := concat (map servers (configs t)) in
  (len all, len (List.filter s_healthy all), len (List.filter s_draining all)).

(** The table is cloned, updated and stored only if something changed. *)
Definition check_and_rebuild (probe_all : list IpAddr -> list (IpAddr * bool)) (live : ConfigTable)
    (hc : HealthChecker) (now : Instant) : rs (ConfigTable * HealthChecker * bool) :=
  let rc := live in
  let unresolved := has_unresolved_macs rc in
  let rc := if unresolved then resolve_table rc else rc in
  let* (hc, rc, changed) := check probe_all hc rc now in
  let rebuild := unresolved || changed in
  if rebuild then Done (rebuild_fallback_servers rc, hc, true)
  else Done (live, hc, false).

(** ** The main loop *)

Inductive signal := SIGHUP | SIGUSR1 | SIGUSR2 | SIGINT | SIGTERM.

Inductive exit_reason :=
| Handoff
| Shutdown
| WorkerDied.

Record LoopState := mkLoop {
  l_daemon : Daemon;
  l_health : HealthChecker;
  l_had_traffic : bool;
  l_warner : KeyAgeWarner;
}.

(** What one round observes: the queued signals, the draining packets forwarded
    since the last one, the clock, and whether a worker thread has died. *)
Record Round := mkRound {
  signals : list signal;
  draining_delta : Z;
  now : Instant;
  worker_dead : bool;
}.

Fixpoint handle_signals (sigs : list signal) (now : Instant) (st : LoopState)
    : rs (LoopState + exit_reason) :=
  match sigs with
  | [] => Done (inl st)
  | SIGHUP :: rest =>
      let* d := reload_config (l_daemon st) in
      handle_signals rest now
        (mkLoop d (reset_backoff (l_health st) now) (l_had_traffic st) (l_warner st))
  | SIGUSR1 :: rest => handle_signals rest now st
  | SIGUSR2 :: _ => Done (inr Handoff)
  | SIGINT :: _ | SIGTERM :: _ => Done (inr Shutdown)
  end.

Definition drain_detect (delta : Z) (t : ConfigTable) (had : bool) : bool :=
  if 0 <? delta then true
  else if had then negb (has_draining_servers t)
  else had.

Definition loop_round (probe_all : list IpAddr -> list (IpAddr * bool)) (r : Round) (st : LoopState)
    : rs (LoopState + exit_reason) :=
  let* res := handle_signals (signals r) (now r) st in
  match res with
  | inr e => Done (inr e)
  | inl st =>
      let live := d_table (l_daemon st) in
      let had := drain_detect (draining_delta r) live (l_had_traffic st) in
      let* (live, hc, _) := check_and_rebuild probe_all live (l_health st) (now r) in
      let* (warner, _) := check_at (l_warner st) live (now r) in
      if worker_dead r then Done (inr WorkerDied)
      else Done (inl (mkLoop (mkDaemon (d_args (l_daemon st)) live) hc had warner))
  end.

Fixpoint loop_run (rounds : list ((list IpAddr -> list (IpAddr * bool)) * Round)) (st : LoopState)
    : rs (LoopState + exit_reason) :=
  match rounds with
  | [] => Done (inl st)
  | (probe_all, r) :: rest =>
      let* res := loop_round probe_all r st in
      match res with
      | inl st => loop_run rest st
      | inr e => Done (inr e)
      end
  end.

(** ** Lemmas *)

Definition all_servers (t : ConfigTable) : list Server := concat (map servers (configs t)).

Definition has_address (t : ConfigTable) (a : IpAddr) : Prop :=
  exists s, s ∈ all_servers t /\ s_address s = a.

Lemma elem_of_all_servers t s : s ∈ all_servers t <-> exists c, c ∈ configs t /\ s ∈ servers c.
Proof.
  unfold all_servers. rewrite list_elem_of_In, in_concat. setoid_rewrite in_map_iff.
  setoid_rewrite <- list_elem_of_In. naive_solver.
Qed.

Lemma elem_of_all_addrs t a : a ∈ all_addrs t <-> has_address t a.
Proof.
  unfold all_addrs, has_address. rewrite elem_of_list_to_set, list_elem_of_In, in_concat.
  setoid_rewrite elem_of_all_servers. setoid_rewrite in_map_iff. split.
  - intros (l & (c & <- & Hc) & (s & <- & Hs)%in_map_iff). exists s. split; [|done].
    exists c. by rewrite !list_elem_of_In.
  - intros (s & (c & Hc & Hs) & <-). exists (map s_address (servers c)).
    split; [exists c; by rewrite <- list_elem_of_In|]. apply in_map. by apply list_elem_of_In.
Qed.

(** No server of the table is usable: all have a MAC, none is marked healthy,
    and nothing is in the fallback pool. *)
Record dark (t : ConfigTable) : Prop := {
  dk_macs : forall s, s ∈ all_servers t -> s_mac s <> None;
  dk_unhealthy : forall s, s ∈ all_servers t -> s_healthy s = false;
  dk_fallback : fallback_servers t = [];
}.

(** The checker believes every backend of the table is up. *)
Definition believed_up (hc : HealthChecker) (t : ConfigTable) : Prop :=
  counts_ok (hc_state hc) /\
  forall a, has_address t a -> exists s, hc_state hc !! a = Some s /\ healthy s = true.

Lemma no_unresolved t : (forall s, s ∈ all_servers t -> s_mac s <> None) -> has_unresolved_macs t = false.
Proof.
  intros Hm. unfold has_unresolved_macs. apply not_true_iff_false. rewrite existsb_exists.
  intros (c & Hc & (s & Hs & Hn%bool_decide_eq_true)%existsb_exists).
  apply (Hm s); [|done]. apply elem_of_all_servers. exists c. by rewrite !list_elem_of_In.
Qed.

Lemma resolve_static (q : result neigh_table IoError) ss :
  Forall (fun s => s_mac s <> None) ss -> resolve_macs q ss = ss.
Proof.
  intros Hs. unfold resolve_macs.
  assert (List.filter (fun s => bool_decide (s_mac s = None)) ss = []) as ->; [|done].
  induction Hs as [|s ss Hn _ IH]; [done|]. cbn [List.filter]. by rewrite bool_decide_eq_false_2.
Qed.

Lemma map_servers_id f t :
  (forall c, c ∈ configs t -> f c = servers c) -> map_servers f t = t.
Proof.
  intros Hf. destruct t as [p ss la fb rt]. unfold map_servers. cbn. f_equal.
  assert (Hss : forall c, Some c ∈ ss -> f c = servers c).
  { intros c Hc. apply Hf. unfold configs. cbn. apply list_elem_of_omap. eauto. }
  clear Hf. induction ss as [|o ss IH]; [done|]. cbn [map]. f_equal.
  - destruct o as [c|]; [|done]. cbn. rewrite Hss by constructor. by destruct c.
  - apply IH. intros c Hc. apply Hss. by constructor.
Qed.

Lemma resolve_table_static t :
  (forall s, s ∈ all_servers t -> s_mac s <> None) -> resolve_table t = t.
Proof.
  intros Hm. apply map_servers_id. intros c Hc. apply resolve_static, list.Forall_forall.
  intros s Hs. apply Hm, elem_of_all_servers. eauto.
Qed.

Lemma unhealthy_pool t :
  (forall s, s ∈ all_servers t -> s_healthy s = false) -> fallback_servers (rebuild_fallback_servers t) = [].
Proof.
  intros Hu. destruct (rebuild_pool_inv t) as (_ & Hall & _).
  destruct (fallback_servers _) as [|s pool]; [done|]. inversion Hall as [|? ? [[Hh _] Hs] _]; subst.
  rewrite Hu in Hh by done. done.
Qed.

(** A round without signals, with every probe successful, changes nothing. *)
Lemma quiet_tick probe_all live hc now :
  dark live -> believed_up hc live -> probes_asked probe_all ->
  (forall due, Forall (fun p => p.2 = true) (probe_all due)) ->
  exists hc', check_and_rebuild probe_all live hc now = Done (live, hc', false) /\ believed_up hc' live.
Proof.
  intros Hd [Hc Hup] Hask Hok. unfold check_and_rebuild. rewrite no_unresolved by apply Hd.
  destruct (check_spec probe_all hc live now Hc Hask) as (hc' & cfg' & ch & Hch & Hc' & Hdom & _ & Hfl).
  assert (ch = false) as ->.
  { apply (check_all_up probe_all hc live now hc' cfg' ch Hc Hask Hok); [|exact Hch].
    intros a Ha. by apply Hup, elem_of_all_addrs. }
  rewrite Hch. exists hc'. split; [done|]. split; [done|]. intros a Ha.
  assert (Ha' : a ∈ dom (hc_state hc')) by (rewrite Hdom; by apply elem_of_all_addrs).
  apply elem_of_dom in Ha' as [s Hs]. exists s. split; [done|]. rewrite (Hfl eq_refl a s Hs).
  by destruct (Hup a Ha) as (s0 & -> & ?).
Qed.

Lemma reset_backoff_up hc t now : believed_up hc t -> believed_up (reset_backoff hc now) t.
Proof.
  intros [Hc Hup]. split.
  - intros a s (s0 & <- & Hs0)%lookup_fmap_Some. exact (Hc a s0 Hs0).
  - intros a Ha. destruct (Hup a Ha) as (s & Hs & Hh). unfold reset_backoff. cbn [hc_state].
    rewrite lookup_fmap, Hs. simpl. eauto.
Qed.

(** The configuration ids index the warner's slots. *)
Definition ids_ok (t : ConfigTable) : Prop := Forall (fun c => 0 <= config_id c <= 6) (configs t).
Definition warner_ok (w : KeyAgeWarner) : Prop := length (qlb_warned_for w) = 7%nat.

Lemma check_at_returns w t now :
  ids_ok t -> warner_ok w -> exists w' log, check_at w t now = Done (w', log) /\ warner_ok w'.
Proof.
  unfold ids_ok, warner_ok, check_at. intros Hids Hw.
  assert (Hcs : exists warned log, check_configs t now (configs t) (qlb_warned_for w, []) = Done (warned, log)
    /\ length warned = 7%nat).
  { generalize (@nil warning) as log. revert Hw. generalize (qlb_warned_for w) as l.
    induction Hids as [|c cs Hid _ IH]; intros l Hl log; cbn [check_configs]; [eauto|].
    rewrite check_config_spec by done. apply IH. by rewrite length_mark_due. }
  destruct Hcs as (warned & log & -> & Hl). repeat case_goal; eauto.
Qed.

(** A table whose servers have static MACs and no health yet, as a file gives. *)
Definition fresh_static (t : ConfigTable) : Prop :=
  ids_ok t /\ forall s, s ∈ all_servers t -> s_mac s <> None /\ s_healthy s = false.

(** A reload that reads such a table publishes it dark. *)
Lemma reload_dark d t :
  read_table (default DEFAULT_ROUTE_CONFIG (routeconfig (reload_args (d_args d)))) = Done (Ok t) ->
  fresh_static t ->
  exists d', reload_config d = Done d' /\ dark (d_table d') /\ slots (d_table d') = slots t.
Proof.
  intros Hr [Hwf Hs]. unfold reload_config. rewrite Hr, resolve_table_static by (intros s Hin; by apply Hs).
  eexists. split; [done|]. cbn [d_table]. split; [|done]. constructor.
  - intros s Hin. by apply Hs.
  - intros s Hin. by apply Hs.
  - cbn [inherit_ages_from fallback_servers]. apply unhealthy_pool. intros s Hin. by apply Hs.
Qed.

(** The loop stays as it is through quiet rounds. *)
Definition quiet (pr : (list IpAddr -> list (IpAddr * bool)) * Round) : Prop :=
  probes_asked pr.1 /\ (forall due, Forall (fun p => p.2 = true) (pr.1 due)) /\
  Forall (eq SIGUSR1) (signals pr.2) /\ worker_dead pr.2 = false.

Lemma handle_usr1 sigs t st : Forall (eq SIGUSR1) sigs -> handle_signals sigs t st = Done (inl st).
Proof. induction 1 as [|s sigs <- _ IH]; [done|]. exact IH. Qed.

Lemma tail_round pr st :
  quiet pr -> dark (d_table (l_daemon st)) -> believed_up (l_health st) (d_table (l_daemon st)) ->
  ids_ok (d_table (l_daemon st)) -> warner_ok (l_warner st) ->
  exists st', loop_round pr.1 pr.2 st = Done (inl st') /\
    d_table (l_daemon st') = d_table (l_daemon st) /\
    believed_up (l_health st') (d_table (l_daemon st)) /\ warner_ok (l_warner st').
Proof.
  intros (Hask & Hok & Hsig & Hdead) Hd Hup Hids Hw. unfold loop_round. rewrite handle_usr1 by done.
  destruct (quiet_tick pr.1 (d_table (l_daemon st)) (l_health st) (now pr.2) Hd Hup Hask Hok)
    as (hc' & -> & Hup').
  destruct (check_at_returns (l_warner st) (d_table (l_daemon st)) (now pr.2) Hids Hw) as (w' & log & -> & Hw').
  rewrite Hdead. eexists. split; [done|]. split; [done|]. split; [done|done].
Qed.

Lemma quiet_run prs st :
  Forall quiet prs -> dark (d_table (l_daemon st)) ->
  believed_up (l_health st) (d_table (l_daemon st)) ->
  ids_ok (d_table (l_daemon st)) -> warner_ok (l_warner st) ->
  exists st', loop_run prs st = Done (inl st') /\ d_table (l_daemon st') = d_table (l_daemon st).
Proof.
  intros Hq. revert st. induction Hq as [|[pa r] prs Hpr _ IH]; intros st Hd Hup Hids Hw;
    cbn [loop_run]; [eauto|].
  destruct (tail_round (pa, r) st Hpr Hd Hup Hids Hw) as (st1 & Hst1 & Ht & Hup1 & Hw1).
  cbn [fst snd] in Hst1. rewrite Hst1, <- Ht. apply IH; by rewrite ?Ht.
Qed.

(** A round that starts with SIGHUP and is quiet otherwise. *)
Lemma hup_round pr st t :
  signals pr.2 = [SIGHUP] -> probes_asked pr.1 -> (forall due, Forall (fun p => p.2 = true) (pr.1 due)) ->
  worker_dead pr.2 = false ->
  read_table (default DEFAULT_ROUTE_CONFIG (routeconfig (reload_args (d_args (l_daemon st))))) = Done (Ok t) ->
  fresh_static t -> believed_up (l_health st) t -> warner_ok (l_warner st) ->
  exists st', loop_round pr.1 pr.2 st = Done (inl st') /\ dark (d_table (l_daemon st')) /\
    slots (d_table (l_daemon st')) = slots t /\
    believed_up (l_health st') (d_table (l_daemon st')) /\ warner_ok (l_warner st').
Proof.
  intros Hsig Hask Hok Hdead Hr Hf Hup Hw. destruct (reload_dark _ _ Hr Hf) as (d' & Hd' & Hdark & Hsl).
  set (st1 := mkLoop d' (reset_backoff (l_health st) (now pr.2)) (l_had_traffic st) (l_warner st)).
  assert (Hcfg : configs (d_table d') = configs t) by (unfold configs; by rewrite Hsl).
  assert (Hadr : forall a, has_address (d_table d') a <-> has_address t a).
  { intros a. unfold has_address, all_servers. by rewrite Hcfg. }
  destruct (tail_round (pr.1, mkRound [] (draining_delta pr.2) (now pr.2) false) st1)
    as (st' & Hst' & Ht & Hup' & Hw').
  - by split; [|split; [|split]].
  - done.
  - destruct (reset_backoff_up _ _ (now pr.2) Hup) as [Hc Hu]. split; [exact Hc|].
    intros a Ha. apply Hu. by apply Hadr.
  - unfold ids_ok. cbn [st1 l_daemon]. rewrite Hcfg. apply Hf.
  - done.
  - exists st'. split; [|split; [by rewrite Ht|split; [by rewrite Ht|split; [by rewrite Ht|done]]]].
    revert Hst'. unfold loop_round. rewrite Hsig, Hdead. cbn [fst snd signals handle_signals now draining_delta worker_dead].
    rewrite Hd'. done.
Qed.

End reload.

Section from_file.
  Context `{Aes : Aes128} {IoE TomlE : Type}.
  Context (read_text : str -> result str IoE) (toml_routes : str -> result (list RawConfig) TomlE)
    (toml_retry : str -> result (option RawRetry) TomlE).

Lemma table_from_file_fresh now tracker p t :
  table_from_file toml_routes toml_retry read_text now tracker p = Done (Ok t) ->
  ids_ok t /\ forall s, s ∈ all_servers t -> s_healthy s = false.
Proof.
  unfold table_from_file. destruct (read_text p) as [text|]; [|done].
  destruct (table_from_str toml_routes toml_retry now tracker text) as [[t0|]|] eqn:Et; [|done..].
  intros [= <-]. apply table_from_str_ok in Et as (Hwf & _ & cs & Hp & Hin & Hout).
  assert (Hcs : forall c, c ∈ configs t0 -> c ∈ cs /\ 0 <= config_id c <= 6).
  { intros c (i & Hi)%elem_of_configs. destruct (tw_config _ Hwf _ _ Hi) as [Hc Hid].
    split; [|apply Hc]. destruct (decide (config_id c ∈ map config_id cs)) as [Hm|Hm].
    - apply list_elem_of_fmap in Hm as (c' & Hid' & Hc'). destruct (Hin c' Hc') as [Hg _].
      rewrite <- Hid', Hid in Hg. unfold table_get, slot_get in Hg. rewrite Nat2Z.id, Hi in Hg. congruence.
    - specialize (Hout _ Hm ltac:(apply Hc)). unfold table_get, slot_get in Hout.
      rewrite Hid, Nat2Z.id, Hi in Hout. done. }
  split.
  - apply list.Forall_forall. intros c Hc. by apply Hcs.
  - intros s (c & Hc & Hs)%elem_of_all_servers. apply parse_routes_fresh in Hp.
    destruct (Hcs c Hc) as [Hc' _].
    pose proof (proj1 (list.Forall_forall _ _) Hp c Hc') as Hfr.
    by apply (proj1 (list.Forall_forall _ _) Hfr s Hs).
Qed.

End from_file.

(** ** Properties *)

(** C40.  A reload takes healthy backends out of service for good.  Let every
    backend of a configuration file have a static MAC and be known as up to the
    health checker.  After a SIGHUP that reads the file, and for as long as every
    probe succeeds, the published table shows every server unhealthy and has an
    empty fallback pool: the round of checks copies the checker's state into a
    clone of the table, and drops the clone because nothing changed. *)
Theorem reload_blackhole `{Aes128} {IoE TomlE FileE NeighE}
    (read_text : str -> result str IoE) (toml_routes : str -> result (list RawConfig) TomlE)
    (toml_retry : str -> result (option RawRetry) TomlE) (read_file : str -> result FileConfig FileE)
    (query : Z -> result neigh_table NeighE) (load_now : Instant) (tracker : tracker_ref)
    (st : LoopState) (t : ConfigTable) (hup : (list IpAddr -> list (IpAddr * bool)) * Round)
    (rounds : list ((list IpAddr -> list (IpAddr * bool)) * Round)) :
  let read_table := table_from_file toml_routes toml_retry read_text load_now tracker in
  read_table (default DEFAULT_ROUTE_CONFIG (routeconfig (reload_args read_file (d_args (l_daemon st)))))
    = Done (Ok t) ->
  (forall s, s ∈ all_servers t -> s_mac s <> None) ->
  believed_up (l_health st) t -> warner_ok (l_warner st) ->
  signals hup.2 = [SIGHUP] -> quiet (hup.1, mkRound [] 0 0 (worker_dead hup.2)) ->
  Forall quiet rounds ->
  exists st', loop_run read_file read_table query (hup :: rounds) st = Done (inl st') /\
    slots (d_table (l_daemon st')) = slots t /\
    (forall s, s ∈ all_servers (d_table (l_daemon st')) -> s_healthy s = false) /\
    fallback_servers (d_table (l_daemon st')) = [].
Proof.
  intros read_table Hr Hm Hup Hw Hsig (Hask & Hok & _ & Hdead) Hq. cbn [fst snd worker_dead] in *.
  destruct (table_from_file_fresh _ _ _ _ _ _ _ Hr) as [Hids Hfr].
  assert (Hfs : fresh_static t) by (split; [done|]; intros s Hs; split; auto).
  destruct hup as [pa r]. cbn [fst snd] in *.
  destruct (hup_round read_file read_table query (pa, r) st t) as (st1 & Hst1 & Hd1 & Hsl1 & Hup1 & Hw1); try done.
  cbn [fst snd] in Hst1. cbn [loop_run]. rewrite Hst1.
  destruct (quiet_run read_file read_table query rounds st1 Hq Hd1 Hup1) as (st' & -> & Ht); [|done|].
  - unfold ids_ok, configs. rewrite Hsl1. exact Hids.
  - exists st'. rewrite Ht. split; [done|]. split; [done|]. split; [apply Hd1|apply Hd1].
Qed.

(** A SIGHUP makes the configuration file win over the command line: the
    port, interface and queue count given as options are replaced by the file's,
    although the file ranks below the command line when they are merged. *)
Theorem reload_drops_cli {FileE} (read_file : str -> result FileConfig FileE) (cli : CliArgs)
    (fc : FileConfig) (p : str) (a : Args) :
  cli_config cli = Some p -> read_file p = Ok fc -> merge_args cli (Some fc) = Ok a ->
  cli_ports cli <> [] ->
  ports a = cli_ports cli /\ ports (reload_args read_file a) = fc_ports fc /\
  interface (reload_args read_file a) = fc_interface fc /\
  queues (reload_args read_file a) = fc_queues fc.
Proof.
  intros Hc Hr Hm Hp. rewrite (merge_args_ports _ _ _ Hm), bool_decide_eq_false_2 by done.
  split; [done|]. assert (config a = Some p) as Ha.
  { revert Hm. unfold merge_args. case_goal; [done|]. by intros [= <-]. }
  unfold reload_args. by rewrite Ha, Hr.
Qed.

Lemma reload_drops_cli_witness :
  ports (reload_args (fun _ => Ok (E := unit) (mkFileConfig [443] (lit "eth0") 1 None None))
           (mkArgs [8443] (lit "eth0") 1 (Some []) None None false)) = [443].
Proof.
  apply (reload_drops_cli (fun _ => Ok (E := unit) (mkFileConfig [443] (lit "eth0") 1 None None))
    (mkCliArgs [8443] None None (Some []) None false) (mkFileConfig [443] (lit "eth0") 1 None None) []
    (mkArgs [8443] (lit "eth0") 1 (Some []) None None false)).
  - reflexivity.
  - reflexivity.
  - vm_compute. reflexivity.
  - discriminate.
Defined.

Definition example_backend : IpAddr := V4 [10; 0; 0; 1]%u8.

#[local] Existing Instance xor_aes.

Definition example_reload (p : str) : rs (result ConfigTable (table_error unit unit)) :=
  table_from_file (fun _ => Ok [example_raw]) (fun _ => Ok None) (fun _ => Ok []) 0 1%positive p.

Definition example_reloaded : ConfigTable :=
  match example_reload DEFAULT_ROUTE_CONFIG with
  | Done (Ok t) => t
  | _ => mkTable [] [] [] [] None
  end.

Definition example_loop : LoopState :=
  mkLoop (mkDaemon (mkArgs [443] (lit "eth0") 1 None None None false) (mkTable [] [] [] [] None))
    (mkChecker {[example_backend := mkHealth 0 true 0 0 0 true]} 443) false warner_new.

Definition up_probes (due : list IpAddr) : list (IpAddr * bool) := map (fun a => (a, true)) due.

Definition example_hup : (list IpAddr -> list (IpAddr * bool)) * Round :=
  (up_probes, mkRound [SIGHUP] 0 (from_secs 5) false).

Definition example_quiet : (list IpAddr -> list (IpAddr * bool)) * Round :=
  (up_probes, mkRound [] 0 (from_secs 10) false).

Lemma up_probes_quiet sigs delta t : Forall (eq SIGUSR1) sigs -> quiet (up_probes, mkRound sigs delta t false).
Proof.
  intros Hs. split; [|split; [|split]]; try done; intros due; apply list.Forall_forall;
    intros p (a & -> & Ha)%list_elem_of_fmap; done.
Qed.

Lemma example_reloaded_servers s :
  s ∈ all_servers example_reloaded -> s_mac s <> None /\ s_address s = example_backend.
Proof.
  intros Hs. assert (Hall : Forall (fun s => s_mac s <> None /\ s_address s = example_backend)
    (all_servers example_reloaded)).
  { vm_compute. constructor; [|constructor]. split; [discriminate|reflexivity]. }
  by apply (proj1 (list.Forall_forall _ _) Hall).
Qed.

Lemma reload_blackhole_witness :
  exists st', loop_run (fun _ => Err (A := FileConfig) tt) example_reload
      (fun _ => Err (A := neigh_table) tt) [example_hup; example_quiet; example_quiet] example_loop
      = Done (inl st') /\
    (forall s, s ∈ all_servers (d_table (l_daemon st')) -> s_healthy s = false).
Proof.
  destruct (reload_blackhole (IoE := unit) (TomlE := unit) (fun _ => Ok []) (fun _ => Ok [example_raw]) (fun _ => Ok None)
    (fun _ => Err (A := FileConfig) tt) (fun _ => Err (A := neigh_table) tt) 0 1%positive example_loop
    example_reloaded example_hup [example_quiet; example_quiet]) as (st' & Hrun & _ & Hdark & _).
  - vm_compute. reflexivity.
  - intros s Hs. by apply example_reloaded_servers.
  - split.
    + apply map_Forall_singleton. simpl. lia.
    + intros a (s & Hs & <-). rewrite (proj2 (example_reloaded_servers s Hs)).
      eexists. split; [apply lookup_singleton_eq|reflexivity].
  - reflexivity.
  - reflexivity.
  - by apply up_probes_quiet.
  - constructor; [by apply up_probes_quiet|]. constructor; [by apply up_probes_quiet|constructor].
  - exists st'. split; [exact Hrun|exact Hdark].
Defined.
