(* ===== verification/Stats.v ===== *)
(** * Packet counters

    Models [pesigitg-daemon/src/stats.rs]: the counters of a worker, the batch
    accumulator flushed into them, and the aggregate over the workers with its
    delta.  Each worker writes only its own slot, so a slot is a value of the
    worker's state; the 64-bit counters wrap. *)

From S2P Require Import Prelude Std RetryDatapath.

Record WorkerStats := mkStats {
  rx_packets : Z;
  forwarded : Z;
  cid_routed : Z;
  cid_by_config : list Z;
  fallback_routed : Z;
  cid_unroutable_no_server : Z;
  cid_unroutable_bad_server_id : Z;
  draining_forwarded : Z;
  icmp_forwarded : Z;
  passed : Z;
  pending_fill_peak : Z;
  retry_initials_seen : Z;
  retry_issued : Z;
  retry_token_validated : Z;
  retry_token_invalid : Z;
  retry_token_expired : Z;
  retry_parse_error : Z;
}.

Definition stats_new : WorkerStats :=
  mkStats 0 0 0 (replicate 7 0) 0 0 0 0 0 0 0 0 0 0 0 0 0.

Definition add (counter n : Z) : Z := wrap64 (counter + n).

Definition record_rx (s : WorkerStats) (n : Z) : WorkerStats :=
  mkStats (add (rx_packets s) n) (forwarded s) (cid_routed s) (cid_by_config s) (fallback_routed s)
    (cid_unroutable_no_server s) (cid_unroutable_bad_server_id s) (draining_forwarded s)
    (icmp_forwarded s) (passed s) (pending_fill_peak s) (retry_initials_seen s) (retry_issued s)
    (retry_token_validated s) (retry_token_invalid s) (retry_token_expired s) (retry_parse_error s).

Definition record_pending_fill (s : WorkerStats) (depth : Z) : WorkerStats :=
  if pending_fill_peak s <? depth then
    mkStats (rx_packets s) (forwarded s) (cid_routed s) (cid_by_config s) (fallback_routed s)
      (cid_unroutable_no_server s) (cid_unroutable_bad_server_id s) (draining_forwarded s)
      (icmp_forwarded s) (passed s) depth (retry_initials_seen s) (retry_issued s)
      (retry_token_validated s) (retry_token_invalid s) (retry_token_expired s) (retry_parse_error s)
  else s.

Record BatchStats := mkBatch {
  b_forwarded : Z;
  b_cid_routed : Z;
  b_cid_by_config : list Z;
  b_fallback_routed : Z;
  b_cid_unroutable_no_server : Z;
  b_cid_unroutable_bad_server_id : Z;
  b_draining_forwarded : Z;
  b_icmp_forwarded : Z;
  b_passed : Z;
  b_retry_initials_seen : Z;
  b_retry_issued : Z;
  b_retry_token_validated : Z;
  b_retry_token_invalid : Z;
  b_retry_token_expired : Z;
  b_retry_parse_error : Z;
}.

Definition batch_new : BatchStats := mkBatch 0 0 (replicate 7 0) 0 0 0 0 0 0 0 0 0 0 0 0.

Definition record_cid_forward (b : BatchStats) (config_id : Z) : rs BatchStats :=
  let* n := idx (b_cid_by_config b) config_id in
  let* by_config := set_at (b_cid_by_config b) config_id (n + 1) in
  Done (mkBatch (b_forwarded b + 1) (b_cid_routed b + 1) by_config (b_fallback_routed b)
    (b_cid_unroutable_no_server b) (b_cid_unroutable_bad_server_id b) (b_draining_forwarded b)
    (b_icmp_forwarded b) (b_passed b) (b_retry_initials_seen b) (b_retry_issued b)
    (b_retry_token_validated b) (b_retry_token_invalid b) (b_retry_token_expired b)
    (b_retry_parse_error b)).

Definition record_fallback_forward (b : BatchStats) : BatchStats :=
  mkBatch (b_forwarded b + 1) (b_cid_routed b) (b_cid_by_config b) (b_fallback_routed b + 1)
    (b_cid_unroutable_no_server b) (b_cid_unroutable_bad_server_id b) (b_draining_forwarded b)
    (b_icmp_forwarded b) (b_passed b) (b_retry_initials_seen b) (b_retry_issued b)
    (b_retry_token_validated b) (b_retry_token_invalid b) (b_retry_token_expired b)
    (b_retry_parse_error b).

Definition record_icmp_forward (b : BatchStats) : BatchStats :=
  mkBatch (b_forwarded b + 1) (b_cid_routed b) (b_cid_by_config b) (b_fallback_routed b)
    (b_cid_unroutable_no_server b) (b_cid_unroutable_bad_server_id b) (b_draining_forwarded b)
    (b_icmp_forwarded b + 1) (b_passed b) (b_retry_initials_seen b) (b_retry_issued b)
    (b_retry_token_validated b) (b_retry_token_invalid b) (b_retry_token_expired b)
    (b_retry_parse_error b).

Definition record_draining_forward (b : BatchStats) : BatchStats :=
  mkBatch (b_forwarded b) (b_cid_routed b) (b_cid_by_config b) (b_fallback_routed b)
    (b_cid_unroutable_no_server b) (b_cid_unroutable_bad_server_id b) (b_draining_forwarded b + 1)
    (b_icmp_forwarded b) (b_passed b) (b_retry_initials_seen b) (b_retry_issued b)
    (b_retry_token_validated b) (b_retry_token_invalid b) (b_retry_token_expired b)
    (b_retry_parse_error b).

Definition record_cid_unroutable_no_server (b : BatchStats) : BatchStats :=
  mkBatch (b_forwarded b) (b_cid_routed b) (b_cid_by_config b) (b_fallback_routed b)
    (b_cid_unroutable_no_server b + 1) (b_cid_unroutable_bad_server_id b) (b_draining_forwarded b)
    (b_icmp_forwarded b) (b_passed b) (b_retry_initials_seen b) (b_retry_issued b)
    (b_retry_token_validated b) (b_retry_token_invalid b) (b_retry_token_expired b)
    (b_retry_parse_error b).

Definition record_cid_unroutable_bad_server_id (b : BatchStats) : BatchStats :=
  mkBatch (b_forwarded b) (b_cid_routed b) (b_cid_by_config b) (b_fallback_routed b)
    (b_cid_unroutable_no_server b) (b_cid_unroutable_bad_server_id b + 1) (b_draining_forwarded b)
    (b_icmp_forwarded b) (b_passed b) (b_retry_initials_seen b) (b_retry_issued b)
    (b_retry_token_validated b) (b_retry_token_invalid b) (b_retry_token_expired b)
    (b_retry_parse_error b).

Definition record_pass (b : BatchStats) : BatchStats :=
  mkBatch (b_forwarded b) (b_cid_routed b) (b_cid_by_config b) (b_fallback_routed b)
    (b_cid_unroutable_no_server b) (b_cid_unroutable_bad_server_id b) (b_draining_forwarded b)
    (b_icmp_forwarded b) (b_passed b + 1) (b_retry_initials_seen b) (b_retry_issued b)
    (b_retry_token_validated b) (b_retry_token_invalid b) (b_retry_token_expired b)
    (b_retry_parse_error b).

Definition is_emitted (o : Outcome) : bool := match o with OEmitted => true | _ => false end.

Definition record_retry (b : BatchStats) (outcome : Outcome) (detail : Detail) : BatchStats :=
  let bump (d : Detail -> bool) (n : Z) := if d detail then n + 1 else n in
  match detail with
  | DNone => b
  | _ =>
      mkBatch (b_forwarded b) (b_cid_routed b) (b_cid_by_config b) (b_fallback_routed b)
        (b_cid_unroutable_no_server b) (b_cid_unroutable_bad_server_id b) (b_draining_forwarded b)
        (b_icmp_forwarded b) (b_passed b) (b_retry_initials_seen b + 1)
        (if is_emitted outcome then b_retry_issued b + 1 else b_retry_issued b)
        (bump (fun d => match d with DTokenValid => true | _ => false end) (b_retry_token_validated b))
        (bump (fun d => match d with DTokenInvalid => true | _ => false end) (b_retry_token_invalid b))
        (bump (fun d => match d with DTokenExpired => true | _ => false end) (b_retry_token_expired b))
        (bump (fun d => match d with DParseError => true | _ => false end) (b_retry_parse_error b))
  end.

(** [if n > 0 { add(&target, n) }]; the per-configuration counters are only
    visited when some CID was routed. *)
Definition flush_one (target n : Z) : Z := if 0 <? n then add target n else target.

Definition flush (b : BatchStats) (s : WorkerStats) : WorkerStats :=
  mkStats (rx_packets s) (flush_one (forwarded s) (b_forwarded b))
    (flush_one (cid_routed s) (b_cid_routed b))
    (if 0 <? b_cid_routed b then zip_with flush_one (cid_by_config s) (b_cid_by_config b)
     else cid_by_config s)
    (flush_one (fallback_routed s) (b_fallback_routed b))
    (flush_one (cid_unroutable_no_server s) (b_cid_unroutable_no_server b))
    (flush_one (cid_unroutable_bad_server_id s) (b_cid_unroutable_bad_server_id b))
    (flush_one (draining_forwarded s) (b_draining_forwarded b))
    (flush_one (icmp_forwarded s) (b_icmp_forwarded b)) (flush_one (passed s) (b_passed b))
    (pending_fill_peak s) (flush_one (retry_initials_seen s) (b_retry_initials_seen b))
    (flush_one (retry_issued s) (b_retry_issued b))
    (flush_one (retry_token_validated s) (b_retry_token_validated b))
    (flush_one (retry_token_invalid s) (b_retry_token_invalid b))
    (flush_one (retry_token_expired s) (b_retry_token_expired b))
    (flush_one (retry_parse_error s) (b_retry_parse_error b)).

(** ** Aggregates: a [Snapshot] has the fields of a worker's slot *)

Definition Snapshot := WorkerStats.

(** Pointwise on all counters but the peak. *)
Definition combine (f : Z -> Z -> Z) (peak : Z) (a b : WorkerStats) : WorkerStats :=
  mkStats (f (rx_packets a) (rx_packets b)) (f (forwarded a) (forwarded b))
    (f (cid_routed a) (cid_routed b)) (zip_with f (cid_by_config a) (cid_by_config b))
    (f (fallback_routed a) (fallback_routed b))
    (f (cid_unroutable_no_server a) (cid_unroutable_no_server b))
    (f (cid_unroutable_bad_server_id a) (cid_unroutable_bad_server_id b))
    (f (draining_forwarded a) (draining_forwarded b)) (f (icmp_forwarded a) (icmp_forwarded b))
    (f (passed a) (passed b)) peak (f (retry_initials_seen a) (retry_initials_seen b))
    (f (retry_issued a) (retry_issued b)) (f (retry_token_validated a) (retry_token_validated b))
    (f (retry_token_invalid a) (retry_token_invalid b))
    (f (retry_token_expired a) (retry_token_expired b)) (f (retry_parse_error a) (retry_parse_error b)).

Definition aggregate (slots : list WorkerStats) : Snapshot :=
  foldl (fun total slot =>
    combine add (if pending_fill_peak total <? pending_fill_peak slot then pending_fill_peak slot
                 else pending_fill_peak total) total slot) stats_new slots.

Definition delta (self prev : Snapshot) : Snapshot :=
  combine wsub64 (pending_fill_peak self) self prev.

Definition cid_unroutable (s : Snapshot) : Z :=
  wrap64 (cid_unroutable_no_server s + cid_unroutable_bad_server_id s).

(** The floating-point quotient, kept as a numerator and a denominator. *)
Definition ratio (n d : Z) : Z * Z := if d =? 0 then (0, 1) else (n, d).

Definition retry_forgery_rate (s : Snapshot) : Z * Z :=
  ratio (retry_token_invalid s)
    (wrap64 (retry_token_validated s + retry_token_invalid s + retry_token_expired s)).

Definition cid_probing_rate (s : Snapshot) : Z * Z :=
  ratio (cid_unroutable_bad_server_id s)
    (wrap64 (cid_routed s + cid_unroutable_no_server s + cid_unroutable_bad_server_id s)).

(** ** Accounting *)

(** Equal as 64-bit counters. *)
Definition eq64 (a b : Z) : Prop := exists k, a = b + k * 2 ^ 64.

(** Every received packet is in exactly one bucket, the forwarded ones split by
    path and the CID-routed ones by configuration. *)
Record balanced (s : WorkerStats) : Prop := {
  bal_slots : length (cid_by_config s) = 7%nat;
  bal_rx : eq64 (rx_packets s) (forwarded s + passed s + cid_unroutable_no_server s
                                + cid_unroutable_bad_server_id s + retry_issued s);
  bal_forwarded : eq64 (forwarded s) (cid_routed s + fallback_routed s + icmp_forwarded s);
  bal_cid : eq64 (cid_routed s) (zsum id (cid_by_config s));
}.

(** The same for a batch of [n] packets. *)
Record batch_ok (b : BatchStats) (n : Z) : Prop := {
  bo_slots : length (b_cid_by_config b) = 7%nat;
  bo_slots_pos : Forall (fun x => 0 <= x) (b_cid_by_config b);
  bo_pos : 0 <= b_fallback_routed b /\ 0 <= b_icmp_forwarded b /\ 0 <= b_passed b /\
           0 <= b_cid_unroutable_no_server b /\ 0 <= b_cid_unroutable_bad_server_id b /\
           0 <= b_retry_issued b;
  bo_total : n = b_forwarded b + b_passed b + b_cid_unroutable_no_server b
                 + b_cid_unroutable_bad_server_id b + b_retry_issued b;
  bo_forwarded : b_forwarded b = b_cid_routed b + b_fallback_routed b + b_icmp_forwarded b;
  bo_cid : b_cid_routed b = zsum id (b_cid_by_config b);
}.

Ltac batch_cbn := unfold record_fallback_forward, record_icmp_forward, record_draining_forward,
  record_cid_unroutable_no_server, record_cid_unroutable_bad_server_id, record_pass; cbn [b_forwarded b_cid_routed b_cid_by_config b_fallback_routed
  b_cid_unroutable_no_server b_cid_unroutable_bad_server_id b_icmp_forwarded b_passed b_retry_issued].

Lemma batch_new_ok : batch_ok batch_new 0.
Proof. by constructor; repeat constructor. Qed.

Lemma record_cid_forward_ok b n c :
  batch_ok b n -> 0 <= c <= 6 -> exists b', record_cid_forward b c = Done b' /\ batch_ok b' (n + 1).
Proof.
  intros [Hl Hp Hpos Ht Hf Hc] Hid. unfold record_cid_forward.
  rewrite idx_in, set_at_in by (unfold len; lia). eexists. split; [done|].
  destruct (lookup_lt_is_Some_2 (b_cid_by_config b) (Z.to_nat c)) as [x Hx]; [lia|].
  assert (Hxp : 0 <= x) by exact (Forall_lookup_1 _ _ _ _ Hp Hx).
  rewrite (elt_lookup _ _ x) by (done || lia). constructor; batch_cbn; try done; try lia.
  - by rewrite length_insert.
  - apply Forall_insert; [done|lia].
  - rewrite (zsum_insert _ _ _ x) by done. unfold id at 2 3. lia.
Qed.

Lemma record_retry_ok b n o d :
  batch_ok b n -> (o = OEmitted -> d <> DNone) ->
  batch_ok (record_retry b o d) (if is_emitted o then n + 1 else n).
Proof.
  intros [Hl Hp Hpos Ht Hf Hc] Hd. unfold record_retry.
  destruct d, o; cbn [is_emitted]; try (by exfalso; apply Hd); constructor; batch_cbn; try done; lia.
Qed.

Lemma add_eq c n : eq64 (add c n) (c + n).
Proof.
  exists (- ((c + n) / 2 ^ 64)). unfold add, wrap64. pose proof (Z.div_mod (c + n) (2 ^ 64) ltac:(lia)). lia.
Qed.

Lemma flush_one_eq t n : 0 <= n -> eq64 (flush_one t n) (t + n).
Proof. intros. unfold flush_one. case_goal; [apply add_eq|]. exists 0. lia. Qed.

Lemma zsum_flush l m :
  Forall (fun x => 0 <= x) m -> length l = length m ->
  eq64 (zsum id (zip_with flush_one l m)) (zsum id l + zsum id m).
Proof.
  intros Hm. revert l. induction Hm as [|y m Hy _ IH]; intros [|x l] Hl; try done; [by exists 0|].
  destruct (IH l) as [k Hk]; [simpl in Hl; lia|]. destruct (flush_one_eq x y Hy) as [k' Hk'].
  exists (k + k'). cbn [zip_with]. unfold zsum in *. cbn [foldr]. unfold id at 1 3 5. lia.
Qed.

Lemma zsum_id_nonneg l : Forall (fun x => 0 <= x) l -> 0 <= zsum id l.
Proof. induction 1 as [|x l Hx _ IH]; [done|]. unfold zsum in *. cbn [foldr]. unfold id at 1. lia. Qed.

(** Counting the received packets and flushing their batch keeps the balance. *)
Lemma flush_balanced s b n :
  balanced s -> batch_ok b n -> balanced (flush b (record_rx s n)).
Proof.
  intros [Hl [k1 H1] [k2 H2] [k3 H3]] [Hbl Hbp Hpos Ht Hf Hc].
  pose proof (zsum_id_nonneg _ Hbp) as Hz.
  destruct (add_eq (rx_packets s) n) as [j0 J0].
  destruct (flush_one_eq (forwarded s) (b_forwarded b)) as [j1 J1]; [lia|].
  destruct (flush_one_eq (cid_routed s) (b_cid_routed b)) as [j2 J2]; [lia|].
  destruct (flush_one_eq (fallback_routed s) (b_fallback_routed b)) as [j3 J3]; [lia|].
  destruct (flush_one_eq (icmp_forwarded s) (b_icmp_forwarded b)) as [j4 J4]; [lia|].
  destruct (flush_one_eq (passed s) (b_passed b)) as [j5 J5]; [lia|].
  destruct (flush_one_eq (cid_unroutable_no_server s) (b_cid_unroutable_no_server b)) as [j6 J6]; [lia|].
  destruct (flush_one_eq (cid_unroutable_bad_server_id s) (b_cid_unroutable_bad_server_id b)) as [j7 J7]; [lia|].
  destruct (flush_one_eq (retry_issued s) (b_retry_issued b)) as [j8 J8]; [lia|].
  destruct (zsum_flush (cid_by_config s) (b_cid_by_config b) Hbp) as [j9 J9]; [lia|].
  unfold flush, record_rx. constructor; cbn [cid_by_config rx_packets forwarded passed cid_unroutable_no_server
    cid_unroutable_bad_server_id retry_issued cid_routed fallback_routed icmp_forwarded].
  - case_goal; [|done]. rewrite length_zip_with. lia.
  - rewrite J0, J1, J5, J6, J7, J8. exists (k1 + j0 - j1 - j5 - j6 - j7 - j8). lia.
  - rewrite J1, J2, J3, J4. exists (k2 + j1 - j2 - j3 - j4). lia.
  - rewrite J2. case_goal; [rewrite J9; exists (k3 + j2 - j9); lia|].
    exists (k3 + j2). lia.
Qed.

Lemma record_pending_fill_balanced s d : balanced s -> balanced (record_pending_fill s d).
Proof. intros []. unfold record_pending_fill. case_goal; by constructor. Qed.

Lemma stats_new_balanced : balanced stats_new.
Proof. constructor; try done; by exists 0. Qed.

Lemma zsum_add l m :
  length l = length m -> eq64 (zsum id (zip_with add l m)) (zsum id l + zsum id m).
Proof.
  revert m. induction l as [|x l IH]; intros [|y m] Hl; try done; [by exists 0|].
  destruct (IH m) as [k Hk]; [simpl in Hl; lia|]. destruct (add_eq x y) as [k' Hk'].
  exists (k + k'). cbn [zip_with]. unfold zsum in *. cbn [foldr]. unfold id at 1 3 5. lia.
Qed.

Lemma combine_balanced a b p : balanced a -> balanced b -> balanced (combine add p a b).
Proof.
  intros [La [a1 A1] [a2 A2] [a3 A3]] [Lb [b1 B1] [b2 B2] [b3 B3]].
  destruct (add_eq (rx_packets a) (rx_packets b)) as [j0 J0].
  destruct (add_eq (forwarded a) (forwarded b)) as [j1 J1].
  destruct (add_eq (cid_routed a) (cid_routed b)) as [j2 J2].
  destruct (add_eq (fallback_routed a) (fallback_routed b)) as [j3 J3].
  destruct (add_eq (icmp_forwarded a) (icmp_forwarded b)) as [j4 J4].
  destruct (add_eq (passed a) (passed b)) as [j5 J5].
  destruct (add_eq (cid_unroutable_no_server a) (cid_unroutable_no_server b)) as [j6 J6].
  destruct (add_eq (cid_unroutable_bad_server_id a) (cid_unroutable_bad_server_id b)) as [j7 J7].
  destruct (add_eq (retry_issued a) (retry_issued b)) as [j8 J8].
  destruct (zsum_add (cid_by_config a) (cid_by_config b)) as [j9 J9]; [lia|].
  unfold combine. constructor; cbn [cid_by_config rx_packets forwarded passed cid_unroutable_no_server
    cid_unroutable_bad_server_id retry_issued cid_routed fallback_routed icmp_forwarded].
  - rewrite length_zip_with. lia.
  - rewrite J0, J1, J5, J6, J7, J8. exists (a1 + b1 + j0 - j1 - j5 - j6 - j7 - j8). lia.
  - rewrite J1, J2, J3, J4. exists (a2 + b2 + j1 - j2 - j3 - j4). lia.
  - rewrite J2, J9. exists (a3 + b3 + j2 - j9). lia.
Qed.

Lemma aggregate_balanced slots : Forall balanced slots -> balanced (aggregate slots).
Proof.
  unfold aggregate. generalize stats_new_balanced. generalize stats_new.
  induction slots as [|s slots IH]; intros t Ht Hs; [done|]. inversion Hs; subst. cbn [foldl].
  apply IH; [by apply combine_balanced|done].
Qed.
