(* ===== verification/Status.v ===== *)
(** * The status interface

    Models [pesigitg-daemon/src/status_api.rs]: reading a request from a
    connection, the four endpoints and their JSON documents, and the accept loop
    with its limit on concurrent handlers.  The stream of a connection is a
    parameter (what the n-th read returns); the clock readings and the build
    identifiers are arguments. *)

From S2P Require Import Prelude Std Common Route Token RetryConfig ConfigTable DaemonConfig Stats Text BTree Json.

Definition MAX_REQUEST_BYTES : Z := 256.
Definition MAX_CONCURRENT : Z := 4.

(** ** Reading a request *)

Section connection.
  Context {St IoError : Type}.
  (** [stream.read(buf)] for a buffer of the given size. *)
  Context (read : St -> Z -> result (list byte) IoError * St).

Inductive received :=
| TooLong
| ReadFailed
| Request (bs : list byte).

(** [fuel] bounds the reads; [got] is [buf[..len]]. *)
Fixpoint read_request (fuel : nat) (st : St) (got : list byte) : option received :=
  match fuel with
  | O => None
  | S fuel' =>
      if len got =? MAX_REQUEST_BYTES then Some TooLong
      else
        match read st (MAX_REQUEST_BYTES - len got) with
        | (Ok [], _) => Some (Request got)
        | (Ok chunk, st') =>
            let got := got ++ chunk in
            if existsb (fun b => u8 b =? 10) got then Some (Request got)
            else read_request fuel' st' got
        | (Err _, _) => Some ReadFailed
        end
  end.
End connection.

(** [.split(['\n', '\r']).next()] *)
Fixpoint first_line (s : str) : str :=
  match s with
  | [] => []
  | c :: r => if (c =? 10) || (c =? 13) then [] else c :: first_line r
  end.

Definition request_of (bs : list byte) : str :=
  trim (first_line (or_default [] (from_utf8 bs))).

(** ** Documents *)

Record BuildInfo := mkBuild {
  cargo_pkg_version : str;
  build_date : str;
  rustc_version : str;
  build_target : str;
}.

(** The number of live workers is refreshed by the main loop. *)
Record WorkerHealth := mkWorkerHealth {
  alive : Z;
  expected : Z;
}.

Definition build_version_response (b : BuildInfo) : json :=
  obj [(lit "name", JStr PROC_NAME); (lit "version", JStr (cargo_pkg_version b));
       (lit "build_date", JStr (build_date b)); (lit "rustc_version", JStr (rustc_version b));
       (lit "target", JStr (build_target b))].

(** [uptime] is [epoch.elapsed().as_secs()]. *)
Definition build_health_response (w : WorkerHealth) (uptime : Z) : json :=
  let status := if expected w <=? alive w then lit "ok" else lit "degraded" in
  obj [(lit "status", JStr status); (lit "uptime_secs", JNum uptime);
       (lit "workers_alive", JNum (alive w)); (lit "workers_expected", JNum (expected w))].

(** The non-zero counters, keyed by their index. *)
Fixpoint cid_by_config_view (i : Z) (l : list Z) : list (str * json) :=
  match l with
  | [] => []
  | n :: r => (if 0 <? n then [(fmt_dec i, JNum n)] else []) ++ cid_by_config_view (i + 1) r
  end.

Definition JRate (q : Z * Z) : json := JRatio q.1 q.2.

Definition retry_view (s : Snapshot) : json :=
  obj [(lit "initials_seen", JNum (retry_initials_seen s)); (lit "issued", JNum (retry_issued s));
       (lit "token_validated", JNum (retry_token_validated s));
       (lit "token_invalid", JNum (retry_token_invalid s));
       (lit "token_expired", JNum (retry_token_expired s)); (lit "parse_error", JNum (retry_parse_error s));
       (lit "forgery_rate", JRate (retry_forgery_rate s))].

(** [SnapshotView::from], flattened into the response. *)
Definition snapshot_view (s : Snapshot) : list (str * json) :=
  [(lit "rx_packets", JNum (rx_packets s)); (lit "forwarded", JNum (forwarded s));
   (lit "cid_routed", JNum (cid_routed s));
   (lit "cid_by_config", obj (cid_by_config_view 0 (cid_by_config s)));
   (lit "fallback_routed", JNum (fallback_routed s)); (lit "cid_unroutable", JNum (cid_unroutable s));
   (lit "cid_unroutable_no_server", JNum (cid_unroutable_no_server s));
   (lit "cid_unroutable_bad_server_id", JNum (cid_unroutable_bad_server_id s));
   (lit "cid_probing_rate", JRate (cid_probing_rate s));
   (lit "draining_forwarded", JNum (draining_forwarded s)); (lit "icmp_forwarded", JNum (icmp_forwarded s));
   (lit "passed", JNum (passed s)); (lit "pending_fill_peak", JNum (pending_fill_peak s));
   (lit "retry", retry_view s)].

Definition build_stats_response (stats : list WorkerStats) (uptime : Z) : json :=
  obj ((lit "uptime_secs", JNum uptime) :: snapshot_view (aggregate stats)).

(** *** The configuration *)

Section config.
  Context `{Aes : Aes128}.

Definition encryption_name (e : Encryption) : str :=
  match e with
  | Plaintext => lit "plaintext"
  | SinglePass _ _ => lit "single_pass"
  | FourPass _ _ => lit "four_pass"
  end.

Definition retry_mode_name (m : RetryMode) : str :=
  match m with
  | Observe => lit "observe"
  | Always => lit "always"
  | LoadMode => lit "load"
  end.

Definition retry_config_view (rc : RetryConfig) (now : Instant) : json :=
  obj ([(lit "enabled", JBool (r_enabled rc)); (lit "mode", JStr (retry_mode_name (r_mode rc)));
        (lit "ports", JArr (map JNum (r_ports rc)));
        (lit "token_lifetime_secs", JNum (token_lifetime_ms rc / 1000));
        (lit "key_age_secs", JNum (as_secs (duration_since now (r_loaded_at rc))))]
       ++ skip_none (lit "max_key_age_secs") ((fun n => JNum (Z.of_N n)) <$> r_max_key_age_secs rc)).

(** The conversion reads the clock itself. *)
Definition server_view (now : Instant) (s : Server) : rs json :=
  let* mac :=
    match s_mac s with
    | Some m => let* t := mac_format m in Done (Some (JStr t))
    | None => Done None
    end in
  Done (obj [(lit "id", JStr (hex_encode (s_id s))); (lit "address", JStr (ip_to_string (s_address s)));
             (lit "mac", or_null mac); (lit "healthy", JBool (s_healthy s));
             (lit "draining", JBool (s_draining s)); (lit "transitions", JNum (s_transitions s));
             (lit "state_since_secs",
              or_null ((fun t => JNum (as_secs (duration_since now t))) <$> s_state_since s))]).

(** [iter().map(f).collect()], with the position for the clock reading. *)
Fixpoint rs_mapi {A B} (f : nat -> A -> rs B) (i : nat) (l : list A) : rs (list B) :=
  match l with
  | [] => Done []
  | x :: r =>
      let* y := f i x in
      let* ys := rs_mapi f (S i) r in
      Done (y :: ys)
  end.

(** [clock] is what each server's conversion reads. *)
Definition route_config_view (rc : RouteConfig) (loaded_at : option Instant) (now : Instant)
    (clock : nat -> Instant) : rs json :=
  let key_age_secs :=
    match encryption rc with
    | Plaintext => None
    | _ => (fun t => JNum (as_secs (duration_since now t))) <$> loaded_at
    end in
  let* servers := rs_mapi (fun i s => server_view (clock i) s) 0 (servers rc) in
  Done (obj ([(lit "config_id", JNum (config_id rc));
              (lit "encryption", JStr (encryption_name (encryption rc)));
              (lit "server_id_length", JNum (server_id_length rc));
              (lit "nonce_length", JNum (nonce_length rc))]
             ++ skip_none (lit "key_age_secs") key_age_secs
             ++ skip_none (lit "max_key_age_secs") ((fun n => JNum (Z.of_N n)) <$> max_key_age_secs rc)
             ++ [(lit "servers", JArr servers)])).

Definition opt_path (p : option str) : json := or_null (JStr <$> p).

Definition build_config_response (a : Args) (rc : ConfigTable) (now : Instant)
    (clock : nat -> nat -> Instant) : rs json :=
  let daemon :=
    obj [(lit "interface", JStr (interface a)); (lit "ports", JArr (map JNum (ports a)));
         (lit "queues", JNum (queues a)); (lit "config_path", opt_path (config a));
         (lit "route_config_path", opt_path (routeconfig a));
         (lit "status_socket_path", opt_path (status_socket a)); (lit "foreground", JBool (foreground a))] in
  let* configs :=
    rs_mapi (fun i cfg => route_config_view cfg (loaded_at rc (config_id cfg)) now (clock i)) 0 (configs rc) in
  let route :=
    obj ([(lit "path", JStr (path rc)); (lit "configs", JArr configs);
          (lit "fallback_pool",
           JArr (map (fun s => JStr (ip_to_string (s_address s))) (fallback_servers rc)))]
         ++ skip_none (lit "retry") ((fun r => retry_config_view r now) <$> retry rc)) in
  Done (obj [(lit "daemon", daemon); (lit "route", route)]).

(** ** Answering *)

(** What a handler sees of the daemon when it answers. *)
Record view := mkView {
  v_args : Args;
  v_table : ConfigTable;
  v_stats : list WorkerStats;
  v_health : WorkerHealth;
  v_uptime : Z;
  v_now : Instant;
  v_clock : nat -> nat -> Instant;
}.

Definition error_doc (msg : str) : json := obj [(lit "error", JStr msg)].

Definition endpoints : list str := [lit "/health"; lit "/version"; lit "/stats"; lit "/config"].

Definition respond (b : BuildInfo) (d : view) (request : str) : rs json :=
  if bool_decide (request = lit "GET /") then Done (obj [(lit "endpoints", JArr (map JStr endpoints))])
  else if bool_decide (request = lit "GET /health") then Done (build_health_response (v_health d) (v_uptime d))
  else if bool_decide (request = lit "GET /version") then Done (build_version_response b)
  else if bool_decide (request = lit "GET /stats") then Done (build_stats_response (v_stats d) (v_uptime d))
  else if bool_decide (request = lit "GET /config") then
    build_config_response (v_args d) (v_table d) (v_now d) (v_clock d)
  else Done (error_doc (lit "unknown endpoint")).

(** What is written to the stream: a document, or nothing after a failed read. *)
Definition answer (b : BuildInfo) (d : view) (r : received) : rs (option json) :=
  match r with
  | TooLong => Done (Some (error_doc (lit "request too long")))
  | ReadFailed => Done None
  | Request bs => let* doc := respond b d (request_of bs) in Done (Some doc)
  end.

(** One more read than the buffer has bytes. *)
Definition request_fuel : nat := 257.

Definition handle_connection {St IoError} (read : St -> Z -> result (list byte) IoError * St) (st : St)
    (b : BuildInfo) (d : view) : option (rs (option json)) :=
  let? r := read_request read request_fuel st [] in
  Some (answer b d r).

End config.

(** ** The accept loop

    One thread accepts; every admitted connection gets a thread of its own.  The
    counter [active] is shared, so each access to it is a step of its own. *)

Inductive phase :=
| PAccept                    (* in [accept] *)
| PReturned (ok : bool)      (* it returned a stream or an error *)
| PError                     (* an error, before the second look at the flag *)
| PStream                    (* a stream, before [fetch_add] *)
| PCounted (current : Z)     (* after it *)
| PBusy                      (* counted down again, about to write the refusal *)
| PSpawnFailed
| PExited.

Record accept_state := mkAccept {
  a_active : Z;
  a_running : Z;             (* handler threads that have not counted down *)
  a_shutdown : bool;
  a_phase : phase;
}.

Inductive accept_event :=
| Tau
| Accepted
| Refused.

Inductive accept_step : accept_state -> accept_event -> accept_state -> Prop :=
| st_accept a r s ok : accept_step (mkAccept a r s PAccept) Tau (mkAccept a r s (PReturned ok))
| st_stop a r ok : accept_step (mkAccept a r true (PReturned ok)) Tau (mkAccept a r true PExited)
| st_ok a r : accept_step (mkAccept a r false (PReturned true)) Tau (mkAccept a r false PStream)
| st_err a r : accept_step (mkAccept a r false (PReturned false)) Tau (mkAccept a r false PError)
| st_err_stop a r : accept_step (mkAccept a r true PError) Tau (mkAccept a r true PExited)
| st_err_go a r : accept_step (mkAccept a r false PError) Tau (mkAccept a r false PAccept)
| st_count a r s : accept_step (mkAccept a r s PStream) Tau (mkAccept (a + 1) r s (PCounted a))
| st_busy a r s c : MAX_CONCURRENT <= c ->
    accept_step (mkAccept a r s (PCounted c)) Tau (mkAccept (a - 1) r s PBusy)
| st_refuse a r s : accept_step (mkAccept a r s PBusy) Refused (mkAccept a r s PAccept)
| st_spawn a r s c : c < MAX_CONCURRENT ->
    accept_step (mkAccept a r s (PCounted c)) Accepted (mkAccept a (r + 1) s PAccept)
| st_spawn_failed a r s c : c < MAX_CONCURRENT ->
    accept_step (mkAccept a r s (PCounted c)) Tau (mkAccept a r s PSpawnFailed)
| st_spawn_undo a r s : accept_step (mkAccept a r s PSpawnFailed) Tau (mkAccept (a - 1) r s PAccept)
| st_handler_done a r s p : 0 < r -> accept_step (mkAccept a r s p) Tau (mkAccept (a - 1) (r - 1) s p)
| st_shutdown a r s p : accept_step (mkAccept a r s p) Tau (mkAccept a r true p).

Definition accept_start : accept_state := mkAccept 0 0 false PAccept.

(** Runs with their events, latest first. *)
Inductive accept_run : accept_state -> list accept_event -> Prop :=
| run_start : accept_run accept_start []
| run_step s es e s' : accept_run s es -> accept_step s e s' -> accept_run s' (e :: es).

(** ** Lemmas *)

(** *** Requests *)

Lemma read_request_ends {St IoError} (read : St -> Z -> result (list byte) IoError * St) fuel st got :
  (forall st n c, 0 < n -> (read st n).1 = Ok c -> len c <= n) ->
  len got <= MAX_REQUEST_BYTES -> MAX_REQUEST_BYTES - len got < Z.of_nat fuel ->
  exists r, read_request read fuel st got = Some r /\ (forall bs, r = Request bs -> len bs <= MAX_REQUEST_BYTES).
Proof.
  intros Hread. revert st got. induction fuel as [|fuel IH]; intros st got Hg Hf; [lia|]. cbn [read_request].
  destruct (len got =? MAX_REQUEST_BYTES) eqn:E; [by eexists|].
  destruct (read st (MAX_REQUEST_BYTES - len got)) as [[c|e] st'] eqn:Er; [|by eexists].
  specialize (Hread st (MAX_REQUEST_BYTES - len got) c ltac:(lia) ltac:(by rewrite Er)).
  destruct c as [|b c]; [eexists; split; [done|]; intros bs [= <-]; lia|].
  case_goal; [eexists; split; [done|]; intros bs [= <-]; llia|]. apply IH; llia.
Qed.

Lemma first_line_app t u : existsb (fun c => c =? 10) t = true -> first_line (t ++ u) = first_line t.
Proof.
  induction t as [|c t IH]; [done|]. cbn [existsb app first_line]. intros H.
  destruct ((c =? 10) || (c =? 13)) eqn:E; [done|]. f_equal. apply IH.
  destruct (c =? 10) eqn:E'; [done|]. done.
Qed.

(** A stream that delivers [data] in pieces of the given sizes. *)
Definition chunked (sizes : nat -> nat) (st : nat * list byte) (n : Z) : result (list byte) unit * (nat * list byte) :=
  let '(k, data) := st in
  let c := take (Nat.min (Z.to_nat n) (S (sizes k))) data in
  (Ok c, (S k, drop (length c) data)).

Lemma existsb_newline t :
  Forall is_ascii t -> existsb (fun b => u8 b =? 10) (map b8 t) = existsb (fun c => c =? 10) t.
Proof.
  unfold is_ascii. induction 1 as [|c t Hc _ IH]; [done|]. cbn [map existsb]. by rewrite u8_b8_small, IH by lia.
Qed.

Lemma existsb_take_mono {A} (f : A -> bool) n m l :
  (n <= m)%nat -> existsb f (take n l) = true -> existsb f (take m l) = true.
Proof.
  intros Hnm H. replace (take n l) with (take n (take m l)) in H by (rewrite take_take; f_equal; lia).
  rewrite <- (take_drop n (take m l)). rewrite existsb_app. by rewrite H.
Qed.

Lemma request_of_ascii t : Forall is_ascii t -> request_of (map b8 t) = trim (first_line t).
Proof. intros Ht. unfold request_of. by rewrite from_utf8_ascii. Qed.

Lemma request_of_prefix n t :
  Forall is_ascii t -> existsb (fun c => c =? 10) (take n t) = true ->
  request_of (map b8 (take n t)) = trim (first_line t).
Proof.
  intros Ht Hn. rewrite request_of_ascii by by apply Forall_take.
  f_equal. rewrite <- (take_drop n t) at 2. by rewrite first_line_app.
Qed.

(** What the read loop makes of a text: its first line, unless that is too long. *)
Definition received_as (t : str) (r : received) : Prop :=
  if (length t <? 256)%nat || existsb (fun c => c =? 10) (take 256 t)
  then exists bs, r = Request bs /\ request_of bs = trim (first_line t) else r = TooLong.

(** After [n] characters without a line feed. *)
Lemma read_request_chunked sizes fuel k t n :
  Forall is_ascii t -> (n <= length t)%nat -> (n <= 256)%nat -> (256 - n < fuel)%nat ->
  existsb (fun c => c =? 10) (take n t) = false ->
  exists r, read_request (chunked sizes) fuel (k, map b8 (drop n t)) (map b8 (take n t)) = Some r /\ received_as t r.
Proof.
  intros Ht. revert k n. induction fuel as [|fuel IH]; intros k n Hn Hm Hf Hnl; [lia|].
  assert (len (map b8 (take n t)) = Z.of_nat n) as Hl by (rewrite len_map, len_take; unfold len; lia).
  cbn [read_request]. rewrite Hl. unfold MAX_REQUEST_BYTES at 1.
  destruct (Z.of_nat n =? 256) eqn:E.
  { eexists. split; [done|]. unfold received_as. replace n with 256%nat in * by lia. rewrite Hnl.
    destruct (length t <? 256)%nat eqn:E2; [apply Nat.ltb_lt in E2; lia|done]. }
  unfold chunked at 1. set (c := Nat.min _ _).
  assert (1 <= c <= 256 - n)%nat as Hc by (unfold c, MAX_REQUEST_BYTES; lia). clearbody c. rewrite firstn_map.
  destruct (take c (drop n t)) as [|x more] eqn:Em; cbn [map].
  { eexists. split; [done|]. assert (length (take c (drop n t)) = 0%nat) as Hz by by rewrite Em.
    rewrite length_take, length_drop in Hz. assert (n = length t) as -> by lia. unfold received_as.
    replace (length t <? 256)%nat with true by (symmetry; apply Nat.ltb_lt; lia).
    eexists. split; [done|]. rewrite firstn_all. by apply request_of_ascii. }
  change (b8 x :: map b8 more) with (map b8 (x :: more)). rewrite <- Em, <- map_app.
  set (n' := Nat.min (n + c) (length t)).
  assert (take n t ++ take c (drop n t) = take n' t) as ->.
  { rewrite take_take_drop. unfold n'. destruct (decide (n + c <= length t)%nat); [f_equal; lia|].
    rewrite !take_ge by lia. done. }
  rewrite existsb_newline by by apply Forall_take.
  destruct (existsb (fun c => c =? 10) (take n' t)) eqn:E3.
  - eexists. split; [done|]. unfold received_as.
    rewrite (existsb_take_mono _ n' 256 t) by (done || unfold n'; lia). rewrite orb_true_r.
    eexists. split; [done|]. by apply request_of_prefix.
  - rewrite length_map, length_take, length_drop, skipn_map, drop_drop.
    replace (n + Nat.min c (length t - n))%nat with n' by (unfold n'; lia).
    assert (n' <> n) by (assert (0 < length (take c (drop n t)))%nat by (rewrite Em; simpl; lia);
      rewrite length_take, length_drop in *; unfold n'; lia).
    apply IH; unfold n' in *; lia || done.
Qed.

(** *** Shapes *)

Definition u16_max : Z := 2 ^ 16 - 1.
Definition u32_max : Z := 2 ^ 32 - 1.
Definition u64_max : Z := 2 ^ 64 - 1.

Definition error_ty : ty := TObj [(lit "error", true, TStr)].

Definition index_ty : ty := TObj [(lit "endpoints", true, TArr TStr)].

Definition health_ty : ty :=
  TObj [(lit "status", true, TEnum [lit "ok"; lit "degraded"]); (lit "uptime_secs", true, TNum u64_max);
        (lit "workers_alive", true, TNum u64_max); (lit "workers_expected", true, TNum u64_max)].

Definition version_ty : ty :=
  TObj [(lit "name", true, TEnum [PROC_NAME]); (lit "version", true, TStr); (lit "build_date", true, TStr);
        (lit "rustc_version", true, TStr); (lit "target", true, TStr)].

Definition retry_stats_ty : ty :=
  TObj [(lit "initials_seen", true, TNum u64_max); (lit "issued", true, TNum u64_max);
        (lit "token_validated", true, TNum u64_max); (lit "token_invalid", true, TNum u64_max);
        (lit "token_expired", true, TNum u64_max); (lit "parse_error", true, TNum u64_max);
        (lit "forgery_rate", true, TRatio)].

Definition stats_ty : ty :=
  TObj [(lit "uptime_secs", true, TNum u64_max); (lit "rx_packets", true, TNum u64_max);
        (lit "forwarded", true, TNum u64_max); (lit "cid_routed", true, TNum u64_max);
        (lit "cid_by_config", true, TMap (TNum u64_max)); (lit "fallback_routed", true, TNum u64_max);
        (lit "cid_unroutable", true, TNum u64_max); (lit "cid_unroutable_no_server", true, TNum u64_max);
        (lit "cid_unroutable_bad_server_id", true, TNum u64_max); (lit "cid_probing_rate", true, TRatio);
        (lit "draining_forwarded", true, TNum u64_max); (lit "icmp_forwarded", true, TNum u64_max);
        (lit "passed", true, TNum u64_max); (lit "pending_fill_peak", true, TNum u64_max);
        (lit "retry", true, retry_stats_ty)].

Definition server_ty : ty :=
  TObj [(lit "id", true, TStr); (lit "address", true, TStr); (lit "mac", true, TNullable TStr);
        (lit "healthy", true, TBool); (lit "draining", true, TBool); (lit "transitions", true, TNum u32_max);
        (lit "state_since_secs", true, TNullable (TNum u64_max))].

Definition route_config_ty : ty :=
  TObj [(lit "config_id", true, TNum 6);
        (lit "encryption", true, TEnum [lit "plaintext"; lit "single_pass"; lit "four_pass"]);
        (lit "server_id_length", true, TNum 15); (lit "nonce_length", true, TNum 18);
        (lit "key_age_secs", false, TNum u64_max); (lit "max_key_age_secs", false, TNum u64_max);
        (lit "servers", true, TArr server_ty)].

Definition retry_config_ty : ty :=
  TObj [(lit "enabled", true, TBool); (lit "mode", true, TEnum [lit "observe"; lit "always"; lit "load"]);
        (lit "ports", true, TArr (TNum u16_max)); (lit "token_lifetime_secs", true, TNum 86400);
        (lit "key_age_secs", true, TNum u64_max); (lit "max_key_age_secs", false, TNum u64_max)].

Definition daemon_ty : ty :=
  TObj [(lit "interface", true, TStr); (lit "ports", true, TArr (TNum u16_max));
        (lit "queues", true, TNum u32_max); (lit "config_path", true, TNullable TStr);
        (lit "route_config_path", true, TNullable TStr); (lit "status_socket_path", true, TNullable TStr);
        (lit "foreground", true, TBool)].

Definition route_ty : ty :=
  TObj [(lit "path", true, TStr); (lit "configs", true, TArr route_config_ty);
        (lit "fallback_pool", true, TArr TStr); (lit "retry", false, retry_config_ty)].

Definition config_ty : ty := TObj [(lit "daemon", true, daemon_ty); (lit "route", true, route_ty)].

Definition response_ty (request : str) : ty :=
  if bool_decide (request = lit "GET /") then index_ty
  else if bool_decide (request = lit "GET /health") then health_ty
  else if bool_decide (request = lit "GET /version") then version_ty
  else if bool_decide (request = lit "GET /stats") then stats_ty
  else if bool_decide (request = lit "GET /config") then config_ty
  else error_ty.

(** The widths of the fields a document shows. *)
Definition u64 (n : Z) : Prop := 0 <= n < 2 ^ 64.

Record stats_wf (s : WorkerStats) : Prop := {
  sw_rx : u64 (rx_packets s); sw_forwarded : u64 (forwarded s); sw_cid : u64 (cid_routed s);
  sw_by_config : Forall u64 (cid_by_config s); sw_fallback : u64 (fallback_routed s);
  sw_no_server : u64 (cid_unroutable_no_server s); sw_bad : u64 (cid_unroutable_bad_server_id s);
  sw_draining : u64 (draining_forwarded s); sw_icmp : u64 (icmp_forwarded s); sw_passed : u64 (passed s);
  sw_peak : u64 (pending_fill_peak s); sw_initials : u64 (retry_initials_seen s);
  sw_issued : u64 (retry_issued s); sw_valid : u64 (retry_token_validated s);
  sw_invalid : u64 (retry_token_invalid s); sw_expired : u64 (retry_token_expired s);
  sw_parse : u64 (retry_parse_error s);
}.

(** An instant later readings of the clock are not 2^64 seconds away from. *)
Definition past (t : Instant) : Prop := 0 <= t.
Definition clock_ok (t : Instant) : Prop := t < from_secs (2 ^ 64).

Record view_wf `{Aes128} (d : view) : Prop := {
  vw_table : table_wf (v_table d);
  vw_ports : Forall (fun p => 0 <= p <= u16_max) (ports (v_args d));
  vw_queues : 0 <= queues (v_args d) <= u32_max;
  vw_servers : forall c s, c ∈ configs (v_table d) -> s ∈ servers c ->
      0 <= s_transitions s <= u32_max /\ (forall t, s_state_since s = Some t -> past t);
  vw_ages : forall c n, c ∈ configs (v_table d) -> max_key_age_secs c = Some n -> u64 (Z.of_N n);
  vw_loaded : forall i t, loaded_at (v_table d) i = Some t -> past t;
  vw_retry : forall r, retry (v_table d) = Some r ->
      Forall (fun p => 0 <= p <= u16_max) (r_ports r) /\ past (r_loaded_at r) /\
      (forall n, r_max_key_age_secs r = Some n -> u64 (Z.of_N n));
  vw_stats : Forall stats_wf (v_stats d);
  vw_health : u64 (alive (v_health d)) /\ u64 (expected (v_health d)) /\ u64 (v_uptime d);
  vw_now : clock_ok (v_now d) /\ (forall i j, clock_ok (v_clock d i j));
}.

(** Splits an object into its fields. *)
Ltac by_fields :=
  apply has_type_obj; [refine (proj1 (bool_decide_eq_true _) _); vm_compute; reflexivity|];
  repeat first [apply follows_nil | apply follows_cons | apply follows_opt];
  try reflexivity; try (apply has_type_num; unfold u64, u64_max, u32_max, u16_max in *; lia).

Lemma age_typed now t : clock_ok now -> past t -> has_type (TNum u64_max) (JNum (as_secs (duration_since now t))) = true.
Proof.
  unfold clock_ok, past, from_secs. intros Hn Ht. apply has_type_num. unfold as_secs, duration_since, u64_max.
  split; [apply Z.div_pos; lia|]. apply Z.lt_succ_r, Z.div_lt_upper_bound; lia.
Qed.

Lemma nums_typed max l : Forall (fun p => 0 <= p <= max) l -> has_type (TArr (TNum max)) (JArr (map JNum l)) = true.
Proof. intros Hl. apply has_type_arr. induction Hl; constructor; [by apply has_type_num|done]. Qed.

Lemma opt_path_typed p : has_type (TNullable TStr) (opt_path p) = true.
Proof. by destruct p. Qed.

Lemma rs_mapi_Forall {A B} (P : B -> Prop) (f : nat -> A -> rs B) l i :
  (forall j x, x ∈ l -> exists y, f j x = Done y /\ P y) -> exists ys, rs_mapi f i l = Done ys /\ Forall P ys.
Proof.
  revert i. induction l as [|x l IH]; intros i Hf; cbn [rs_mapi]; [by exists []|].
  destruct (Hf i x) as (y & -> & Hy); [by apply elem_of_cons; left|].
  destruct (IH (S i)) as (ys & -> & Hys); [intros j z Hz; apply Hf; by apply elem_of_cons; right|].
  eexists. split; [done|]. by constructor.
Qed.

Lemma mac_format_returns m : len m = 6 -> exists t, mac_format m = Done t.
Proof. intros. unfold mac_format. rewrite !idx_in by lia. by eexists. Qed.

Lemma server_view_typed n now s :
  server_wf n s -> clock_ok now -> 0 <= s_transitions s <= u32_max -> (forall t, s_state_since s = Some t -> past t) ->
  exists doc, server_view now s = Done doc /\ has_type server_ty doc = true.
Proof.
  intros (_ & _ & Hm) Hnow Htr Hst. unfold server_view.
  assert (exists o, match s_mac s with Some m => let* t := mac_format m in Done (Some (JStr t)) | None => Done None end
    = Done o /\ has_type (TNullable TStr) (or_null o) = true) as (o & -> & Ho).
  { destruct (s_mac s) as [m|]; [|by eexists]. destruct (mac_format_returns m) as [t ->]; [auto|]. by eexists. }
  eexists. split; [done|]. by_fields; [done|].
  destruct (s_state_since s) as [t|]; [|done]. apply age_typed; auto.
Qed.

Lemma max_age_typed (o : option N) v :
  (forall n, o = Some n -> u64 (Z.of_N n)) -> (fun n => JNum (Z.of_N n)) <$> o = Some v ->
  has_type (TNum u64_max) v = true.
Proof.
  intros Ho. destruct o as [n|]; [|done]. intros [= <-]. apply has_type_num. specialize (Ho n eq_refl).
  unfold u64, u64_max in *. lia.
Qed.

Lemma retry_config_view_typed rc now :
  retry_wf rc -> clock_ok now -> Forall (fun p => 0 <= p <= u16_max) (r_ports rc) -> past (r_loaded_at rc) ->
  (forall n, r_max_key_age_secs rc = Some n -> u64 (Z.of_N n)) ->
  has_type retry_config_ty (retry_config_view rc now) = true.
Proof.
  intros Hw Hn Hp Hl Ha. pose proof (rw_lifetime _ Hw). unfold retry_config_view. cbn [app].
  rewrite <- (app_nil_r (skip_none _ _)). by_fields.
  - by destruct (r_mode rc).
  - by apply nums_typed.
  - apply has_type_num. split; [apply Z.div_pos; lia|]. apply Z.lt_succ_r, Z.div_lt_upper_bound; lia.
  - by apply age_typed.
  - intros v. by apply max_age_typed.
Qed.

Lemma route_config_view_typed `{Aes128} rc loaded now clock :
  config_wf rc -> clock_ok now -> (forall i, clock_ok (clock i)) -> (forall t, loaded = Some t -> past t) ->
  (forall s, s ∈ servers rc ->
     0 <= s_transitions s <= u32_max /\ (forall t, s_state_since s = Some t -> past t)) ->
  (forall n, max_key_age_secs rc = Some n -> u64 (Z.of_N n)) ->
  exists doc, route_config_view rc loaded now clock = Done doc /\ has_type route_config_ty doc = true.
Proof.
  intros Hw Hn Hc Hl Hs Ha. unfold route_config_view.
  destruct (rs_mapi_Forall (fun v => has_type server_ty v = true) (fun i s => server_view (clock i) s) (servers rc) 0)
    as (ss & -> & Hss).
  { intros i s Hin. destruct (Hs s Hin). eapply server_view_typed; auto.
    pose proof (wf_servers _ Hw) as Hf. rewrite list.Forall_forall in Hf. exact (Hf s Hin). }
  pose proof (wf_id _ Hw). pose proof (wf_sid _ Hw). pose proof (wf_nonce _ Hw).
  eexists. split; [done|]. cbn [app]. by_fields.
  - by destruct (encryption rc).
  - intros v. destruct (encryption rc); [done| |]; (destruct loaded as [t|]; [|done]); intros [= <-]; apply age_typed; auto.
  - intros v. by apply max_age_typed.
  - by apply has_type_arr.
Qed.

Lemma build_config_typed `{Aes128} d :
  view_wf d -> exists doc, build_config_response (v_args d) (v_table d) (v_now d) (v_clock d) = Done doc /\
    has_type config_ty doc = true.
Proof.
  intros Hw. destruct (vw_now _ Hw) as [Hnow Hclk]. unfold build_config_response.
  set (f := fun i cfg => _).
  destruct (rs_mapi_Forall (fun v => has_type route_config_ty v = true) f (configs (v_table d)) 0) as (cs & -> & Hcs).
  { intros i c Hin. apply route_config_view_typed; auto.
    - apply elem_of_configs in Hin as [j Hj]. by apply (tw_config _ (vw_table _ Hw)) in Hj as [? _].
    - intros t. apply (vw_loaded _ Hw).
    - intros s Hs. by eapply vw_servers.
    - intros n. by eapply vw_ages. }
  eexists. split; [done|]. cbn [app]. by_fields.
  - by_fields; auto using nums_typed, opt_path_typed, vw_ports. pose proof (vw_queues _ Hw). apply has_type_num. lia.
  - rewrite <- (app_nil_r (skip_none _ _)). by_fields.
    + by apply has_type_arr.
    + apply has_type_arr. induction (fallback_servers (v_table d)); by constructor.
    + intros v. destruct (retry (v_table d)) as [r|] eqn:E; [|done]. intros [= <-].
      destruct (vw_retry _ Hw r E) as (H1 & H2 & H3).
      apply retry_config_view_typed; auto. by eapply tw_retry; [apply Hw|].
Qed.

Lemma u64_wrap n : u64 (wrap64 n).
Proof. unfold u64, wrap64. apply Z.mod_pos_bound. lia. Qed.

#[local] Hint Resolve u64_wrap : core.

Lemma zip_add_u64 l m : Forall u64 (zip_with add l m).
Proof. revert m. induction l as [|x l IH]; intros [|y m]; constructor; [apply u64_wrap|apply IH]. Qed.

Lemma aggregate_wf slots : Forall stats_wf slots -> stats_wf (aggregate slots).
Proof.
  unfold aggregate. assert (stats_wf stats_new) as H0.
  { constructor; try (unfold u64; cbn; lia). repeat constructor; lia. }
  revert H0. generalize stats_new. induction slots as [|s slots IH]; intros t Ht Hs; [done|].
  inversion Hs as [|? ? Hs1 Hs2]; subst. cbn [foldl]. apply IH; [|done].
  pose proof (sw_peak _ Ht). pose proof (sw_peak _ Hs1).
  constructor; cbn [combine rx_packets forwarded cid_routed cid_by_config fallback_routed cid_unroutable_no_server
    cid_unroutable_bad_server_id draining_forwarded icmp_forwarded passed pending_fill_peak retry_initials_seen
    retry_issued retry_token_validated retry_token_invalid retry_token_expired retry_parse_error];
    try apply u64_wrap; [apply zip_add_u64|by case_goal].
Qed.

Lemma ratio_typed n d : 0 <= n -> 0 <= d -> has_type TRatio (JRate (ratio n d)) = true.
Proof. intros. unfold ratio, JRate. case_goal; cbn [fst snd has_type]; lia. Qed.

Lemma cid_by_config_typed i l : Forall u64 l -> has_type (TMap (TNum u64_max)) (obj (cid_by_config_view i l)) = true.
Proof.
  intros Hl. unfold obj. cbn [has_type]. apply andb_true_iff. split; [by apply sorted_fields|].
  assert (forall m, Forall (fun e : str * json => has_type (TNum u64_max) e.2 = true) m ->
    Forall (fun e : str * json => has_type (TNum u64_max) e.2 = true)
      (foldl (fun m '(k, v) => bt_insert k v m) m (cid_by_config_view i l))) as Hm.
  { revert i. induction Hl as [|n l Hn _ IH]; intros i m Hm; [done|]. cbn [cid_by_config_view].
    rewrite foldl_app. apply IH. case_goal; [|done]. cbn [foldl].
    assert (has_type (TNum u64_max) (JNum n) = true) as Ht by (apply has_type_num; unfold u64, u64_max in *; lia).
    clear IH. induction Hm as [|[k v] m Hv Hm IHm]; unfold bt_insert; cbn [bt_alter]; [by repeat constructor|].
    case_goal; [|case_goal]; auto using Forall_cons_2. }
  apply forallb_forall, List.Forall_forall, Hm. constructor.
Qed.

Lemma build_stats_typed slots uptime :
  Forall stats_wf slots -> u64 uptime -> has_type stats_ty (build_stats_response slots uptime) = true.
Proof.
  intros Hs Hu. unfold build_stats_response, snapshot_view. pose proof (aggregate_wf _ Hs) as Ha.
  generalize dependent (aggregate slots). intros s [].
  assert (u64 (cid_unroutable s)) by apply u64_wrap.
  by_fields.
  - by apply cid_by_config_typed.
  - apply ratio_typed; [unfold u64 in *; lia|]. apply u64_wrap.
  - by_fields. apply ratio_typed; [unfold u64 in *; lia|]. apply u64_wrap.
Qed.

(** *** Redaction *)

Section redaction.
  Context `{Aes : Aes128}.

(** The same entry but for the key. *)
Record config_pub (c c' : RouteConfig) : Prop := {
  cp_id : config_id c = config_id c';
  cp_first : first_octet_encodes_cid_length c = first_octet_encodes_cid_length c';
  cp_sid : server_id_length c = server_id_length c';
  cp_nonce : nonce_length c = nonce_length c';
  cp_scheme : encryption_name (encryption c) = encryption_name (encryption c');
  cp_servers : servers c = servers c';
  cp_age : max_key_age_secs c = max_key_age_secs c';
}.

Record retry_pub (r r' : RetryConfig) : Prop := {
  rp_enabled : r_enabled r = r_enabled r';
  rp_mode : r_mode r = r_mode r';
  rp_ports : r_ports r = r_ports r';
  rp_lifetime : token_lifetime_ms r = token_lifetime_ms r';
  rp_loaded : r_loaded_at r = r_loaded_at r';
  rp_age : r_max_key_age_secs r = r_max_key_age_secs r';
}.

(** The same table but for the keys. *)
Record table_pub (t t' : ConfigTable) : Prop := {
  tp_path : path t = path t';
  tp_slots : Forall2 (option_Forall2 config_pub) (slots t) (slots t');
  tp_loaded : slot_loaded_at t = slot_loaded_at t';
  tp_fallback : fallback_servers t = fallback_servers t';
  tp_retry : option_Forall2 retry_pub (retry t) (retry t');
}.

#[global] Instance config_pub_equiv : Equivalence config_pub.
Proof.
  split; [by intros c|by intros c c' []|].
  intros c1 c2 c3 [] []. split; by etrans.
Qed.

#[global] Instance retry_pub_equiv : Equivalence retry_pub.
Proof.
  split; [by intros c|by intros c c' []|].
  intros c1 c2 c3 [] []. split; by etrans.
Qed.

#[global] Instance table_pub_equiv : Equivalence table_pub.
Proof.
  split; [by intros t|by intros t t' []; split; symmetry|].
  intros t1 t2 t3 [] []. split; by etrans.
Qed.

Lemma configs_pub t t' : table_pub t t' -> Forall2 config_pub (configs t) (configs t').
Proof.
  intros [_ Hs _ _ _]. unfold configs. induction Hs as [|x y l k Hxy _ IH]; [constructor|].
  destruct Hxy; cbn; [by constructor|done].
Qed.

Lemma rs_mapi_pub {A B} (R : A -> A -> Prop) (f g : nat -> A -> rs B) l k i :
  Forall2 R l k -> (forall j x y, R x y -> f j x = g j y) -> rs_mapi f i l = rs_mapi g i k.
Proof.
  intros Hl Hf. revert i. induction Hl as [|x y l k Hxy _ IH]; intros i; cbn [rs_mapi]; [done|].
  by rewrite (Hf i x y Hxy), IH.
Qed.

#[global] Instance config_id_pub : Proper (config_pub ==> (=)) config_id.
Proof. by intros c c' []. Qed.

#[global] Instance route_config_view_pub :
  Proper (config_pub ==> (=) ==> (=) ==> (=) ==> (=)) route_config_view.
Proof.
  intros c c' [H1 _ H2 H3 H4 H5 H6] l ? <- now ? <- clk ? <-. unfold route_config_view.
  rewrite H1, H2, H3, H4, H5, H6.
  destruct (encryption c), (encryption c'); done.
Qed.

#[global] Instance retry_config_view_pub : Proper (retry_pub ==> (=) ==> (=)) retry_config_view.
Proof. intros r r' [] now ? <-. unfold retry_config_view. congruence. Qed.

#[global] Instance build_config_response_pub :
  Proper ((=) ==> table_pub ==> (=) ==> (=) ==> (=)) build_config_response.
Proof.
  intros a ? <- t t' Ht now ? <- clk ? <-. pose proof (configs_pub _ _ Ht) as Hc. destruct Ht as [Hp _ Hl Hf Hr].
  unfold build_config_response.
  rewrite (rs_mapi_pub config_pub _ (fun i cfg => route_config_view cfg (loaded_at t' (config_id cfg)) now (clk i))
    _ (configs t') 0 Hc) by (intros j x y Hxy; rewrite Hxy; unfold loaded_at; by rewrite Hl).
  rewrite Hp, Hf. destruct Hr as [r r' Hr|]; [|done].
  assert (retry_config_view r now = retry_config_view r' now) as Hv by by rewrite Hr.
  cbn [fmap option_fmap option_map]. by rewrite Hv.
Qed.

End redaction.

(** *** Handlers *)

(** The counter is the number of handlers, and one more between counting and
    deciding; no more handlers run than allowed; a connection about to be refused
    was counted with all of them running. *)
Definition holds (p : phase) : Z := match p with PCounted _ | PSpawnFailed => 1 | _ => 0 end.

Record accept_inv (s : accept_state) : Prop := {
  ai_active : a_active s = a_running s + holds (a_phase s);
  ai_running : 0 <= a_running s <= MAX_CONCURRENT;
  ai_counted : forall c, a_phase s = PCounted c -> a_running s <= c <= MAX_CONCURRENT;
  ai_failed : a_phase s = PSpawnFailed -> a_running s < MAX_CONCURRENT;
}.

Lemma accept_step_inv s e s' : accept_inv s -> accept_step s e s' -> accept_inv s'.
Proof.
  intros [Ha Hr Hc Hf] Hst. inversion Hst; subst; cbn [a_active a_running a_phase holds] in *;
    constructor; cbn [a_active a_running a_phase holds]; try done; try lia;
    try (intros c' [= <-]); try intros _; try lia.
  all: try match goal with H : forall c, PCounted ?x = PCounted c -> _ |- _ => specialize (H x eq_refl); lia end.
  all: try (intros c' ->; specialize (Hc c' eq_refl); lia).
  all: try (intros ->; specialize (Hf eq_refl); lia).
Qed.

Lemma accept_run_inv s es : accept_run s es -> accept_inv s.
Proof.
  induction 1 as [|s es e s' _ IH Hst]; [|by eapply accept_step_inv].
  constructor; cbn; try done; lia.
Qed.

(** Once the flag is set and the loop is back in [accept]. *)
Definition stopping (p : phase) : bool :=
  match p with PAccept | PReturned _ | PError | PExited => true | _ => false end.

Lemma stopping_step a r p e s' :
  stopping p = true -> accept_step (mkAccept a r true p) e s' ->
  e = Tau /\ a_shutdown s' = true /\ stopping (a_phase s') = true.
Proof. intros Hp Hst. inversion Hst; subst; try done. Qed.

Inductive accept_more : accept_state -> list accept_event -> accept_state -> Prop :=
| more_nil s : accept_more s [] s
| more_cons s e s' es s'' : accept_step s e s' -> accept_more s' es s'' -> accept_more s (e :: es) s''.

Lemma stopping_more s es s' :
  a_shutdown s = true -> stopping (a_phase s) = true -> accept_more s es s' -> Forall (fun e => e = Tau) es.
Proof.
  intros Hs Hp Hm. induction Hm as [|s e s1 es s2 Hst _ IH]; [constructor|]. destruct s as [a r sd p].
  cbn in Hs, Hp. subst sd. destruct (stopping_step _ _ _ _ _ Hp Hst) as (-> & H1 & H2). constructor; auto.
Qed.

(** ** Properties *)

(** C13. A request is always answered or dropped after boundedly many reads, however
    the peer behaves: for every stream whose reads return at most the bytes asked
    for - in any pieces, failing at any point, ending or never ending - 257 rounds
    of the read loop reach a result, and in a well-formed daemon no endpoint panics
    while answering it. *)
Theorem handle_connection_terminates `{Aes128} {St IoError} (read : St -> Z -> result (list byte) IoError * St)
    (st : St) (b : BuildInfo) (d : view) :
  (forall st n c, 0 < n -> (read st n).1 = Ok c -> len c <= n) -> view_wf d ->
  exists doc, handle_connection read st b d = Some (Done doc).
Proof.
  intros Hread Hd. unfold handle_connection.
  destruct (read_request_ends read request_fuel st [] Hread) as (r & -> & _); [done|done|].
  destruct r as [| |bs]; [by eexists..|]. cbn [answer]. unfold respond. repeat (case_goal; [by eexists|]).
  case_goal; [|by eexists]. destruct (build_config_typed d Hd) as (doc & -> & _). by eexists.
Qed.

(** The answer to a request of ASCII text depends on the text alone, not on the
    pieces in which the stream delivers it: the first line, trimmed, is dispatched,
    also when the stream ends without a line feed; a text of 256 bytes or more
    without a line feed in the first 256 is refused as too long. *)
Theorem request_chunking `{Aes128} (sizes : nat -> nat) (t : str) (b : BuildInfo) (d : view) :
  Forall is_ascii t ->
  handle_connection (chunked sizes) (0%nat, map b8 t) b d =
    Some (if (len t <? MAX_REQUEST_BYTES) || existsb (fun c => c =? 10) (take 256 t)
          then let* doc := respond b d (trim (first_line t)) in Done (Some doc)
          else Done (Some (error_doc (lit "request too long")))).
Proof.
  intros Ht. unfold handle_connection.
  destruct (read_request_chunked sizes request_fuel 0 t 0 Ht) as (r & Hr & Has); [lia|lia|unfold request_fuel; lia|done|].
  change (drop 0 t) with t in Hr. change (map b8 (take 0 t)) with (@nil byte) in Hr. rewrite Hr.
  unfold received_as in Has.
  replace (len t <? MAX_REQUEST_BYTES) with (length t <? 256)%nat
    by (unfold len, MAX_REQUEST_BYTES; destruct (length t <? 256)%nat eqn:E;
        [apply Nat.ltb_lt in E|apply Nat.ltb_ge in E]; lia).
  destruct (_ || _); [|by rewrite Has]. destruct Has as (bs & -> & <-). done.
Qed.


(** C14. No endpoint reveals a key: two daemons that differ only in their QUIC-LB keys
    (under the same schemes) and in their Retry token keys answer every request with
    the same document. *)
Theorem config_redacts_keys `{Aes128} (b : BuildInfo) (d d' : view) (request : str) :
  table_pub (v_table d) (v_table d') ->
  v_args d = v_args d' -> v_stats d = v_stats d' -> v_health d = v_health d' -> v_uptime d = v_uptime d' ->
  v_now d = v_now d' -> v_clock d = v_clock d' ->
  respond b d request = respond b d' request.
Proof.
  intros Ht Ha Hs Hh Hu Hn Hc. unfold respond. rewrite Ha, Hs, Hh, Hu, Hn, Hc. by rewrite Ht.
Qed.

(** C33. The accept loop under every interleaving with its handlers: at most
    [MAX_CONCURRENT] handlers run; a connection is counted with the exact number of
    running handlers, so it is refused only when all of them are taken; whenever the
    loop waits for a connection or has ended the counter equals the number of
    handlers, so no slot is ever lost; and after a shutdown request seen from
    [accept] no connection is admitted or refused any more. *)
Theorem handlers_bounded (s : accept_state) (es : list accept_event) :
  accept_run s es ->
  a_running s <= MAX_CONCURRENT /\
  (forall s' c, a_phase s = PStream -> accept_step s Tau s' -> a_phase s' = PCounted c -> c = a_running s) /\
  (forall c, a_phase s = PCounted c -> MAX_CONCURRENT <= c -> c = MAX_CONCURRENT) /\
  (a_phase s = PAccept \/ a_phase s = PExited -> a_active s = a_running s) /\
  (a_shutdown s = true -> a_phase s = PAccept -> forall es' s', accept_more s es' s' -> Forall (fun e => e = Tau) es').
Proof.
  intros Hr. destruct (accept_run_inv _ _ Hr) as [Ha Hb Hc Hf]. split; [lia|]. split; [|split; [|split]].
  - intros s' c Hp Hst Hp'. rewrite Hp in Ha. inversion Hst; subst; cbn in *; try congruence.
    injection Hp' as <-. lia.
  - intros c Hp Hm. specialize (Hc c Hp). lia.
  - intros [Hp|Hp]; rewrite Hp in Ha; cbn in Ha; lia.
  - intros Hs Hp es' s' Hm. eapply stopping_more; [done| |done]. by rewrite Hp.
Qed.

(** ** Instances of the properties *)

#[local] Existing Instance xor_aes.

Definition example_build : BuildInfo := mkBuild (lit "0.1.0") (lit "2026-01-01") (lit "1.90") (lit "x86_64").

Definition example_view (t : ConfigTable) : view :=
  mkView (mkArgs [443; 4433] (lit "eth0") 2 None (Some (lit "/etc/route.toml")) None true) t
    [stats_new; stats_new] (mkWorkerHealth 1 2) 77 (from_secs 30) (fun _ _ => from_secs 31).

Lemma example_view_wf : view_wf (example_view (example_table 0)).
Proof.
  constructor; cbn [v_table v_args v_stats v_health v_uptime v_now v_clock example_view ports queues alive expected].
  - apply example_table_wf.
  - repeat constructor; vm_compute; intuition discriminate.
  - vm_compute; intuition discriminate.
  - assert (Forall (fun c => Forall (fun s => (0 <= s_transitions s <= u32_max) /\ s_state_since s = None) (servers c))
      (configs (example_table 0))) as HF by (repeat constructor; vm_compute; intuition discriminate).
    intros c s Hc Hs. rewrite list.Forall_forall in HF. specialize (HF c Hc). rewrite list.Forall_forall in HF.
    destruct (HF s Hs) as [? Hn]. split; [done|]. intros t. by rewrite Hn.
  - assert (Forall (fun c => match max_key_age_secs c with Some n => u64 (Z.of_N n) | None => True end)
      (configs (example_table 0))) as HF by (repeat constructor; vm_compute; intuition discriminate).
    intros c n Hc Hn. rewrite list.Forall_forall in HF. specialize (HF c Hc). by rewrite Hn in HF.
  - intros i t. unfold loaded_at. assert (Forall (fun o => match o with Some x => 0 <= x | None => True end)
      (slot_loaded_at (example_table 0))) as HF by (repeat constructor; vm_compute; intuition discriminate).
    destruct (slot_loaded_at (example_table 0) !! Z.to_nat i) as [o|] eqn:E; [|done]. intros ->.
    exact (Forall_lookup_1 _ _ _ _ HF E).
  - intros r Hr. vm_compute in Hr. injection Hr as <-.
    split; [repeat constructor; vm_compute; intuition discriminate|]. split; [vm_compute; discriminate|].
    intros n Hn. vm_compute in Hn. first [discriminate Hn|injection Hn as <-; vm_compute; intuition discriminate].
  - repeat constructor; vm_compute; intuition discriminate.
  - repeat split; vm_compute; intuition discriminate.
  - split; [vm_compute; reflexivity|]. intros i j. vm_compute. reflexivity.
Qed.

(** A peer that sends one byte at a time and never a line feed. *)
Lemma handle_connection_terminates_witness :
  exists doc, handle_connection (IoError := unit) (fun st n => (Ok [65]%u8, st)) tt example_build
    (example_view (example_table 0)) = Some (Done doc).
Proof.
  apply (handle_connection_terminates (fun st n => (Ok [65]%u8, st)) tt example_build (example_view (example_table 0))).
  - intros st n c Hn [= <-]. unfold len. simpl. lia.
  - exact example_view_wf.
Defined.

(** [GET /health] in pieces of one byte, with a carriage return and more behind it. *)
Lemma request_chunking_witness :
  handle_connection (chunked (fun _ => 0%nat)) (0%nat, map b8 (lit "GET /health" ++ [13; 10] ++ lit "Host: x"))
    example_build (example_view (example_table 0))
  = Some (Done (Some (build_health_response (mkWorkerHealth 1 2) 77))).
Proof.
  rewrite (request_chunking (fun _ => 0%nat) (lit "GET /health" ++ [13; 10] ++ lit "Host: x")).
  - vm_compute. reflexivity.
  - repeat constructor; vm_compute; discriminate.
Defined.


(** The example with every key replaced. *)
Definition rekeyed (t : ConfigTable) : ConfigTable :=
  mkTable (path t)
    (map (option_map (fun c => mkRouteConfig (config_id c) (first_octet_encodes_cid_length c) (server_id_length c)
       (nonce_length c) (match encryption c with
                         | Plaintext => Plaintext
                         | SinglePass _ _ => SinglePass (zeros 16) (aes_new (zeros 16))
                         | FourPass _ _ => FourPass (zeros 16) (aes_new (zeros 16))
                         end) (servers c) (max_key_age_secs c))) (slots t))
    (slot_loaded_at t) (fallback_servers t) (retry t).

Lemma rekeyed_pub t : table_pub t (rekeyed t).
Proof.
  split; try done. unfold rekeyed. cbn [slots]. induction (slots t) as [|[c|] l IH]; cbn [map option_map]; constructor; auto.
  all: constructor. split; try done. by destruct (encryption c).
Qed.

Lemma config_redacts_keys_witness :
  respond example_build (example_view (example_table 0)) (lit "GET /config")
  = respond example_build (example_view (rekeyed (example_table 0))) (lit "GET /config").
Proof. apply config_redacts_keys; [apply rekeyed_pub|reflexivity..]. Defined.

Lemma handlers_bounded_witness :
  a_running (mkAccept 1 1 true PAccept) <= MAX_CONCURRENT.
Proof.
  refine (proj1 (handlers_bounded (mkAccept 1 1 true PAccept) [Tau; Accepted; Tau; Tau; Tau] _)).
  eapply run_step; [|apply st_shutdown]. eapply run_step; [|apply (st_spawn 1 0 false 0); reflexivity].
  eapply run_step; [|apply (st_count 0 0 false)]. eapply run_step; [|apply st_ok].
  eapply run_step; [|apply st_accept]. apply run_start.
Defined.
