(* ===== verification/Control.v ===== *)
(** * The control tool

    Models [pesigitg-control/src/main.rs]: finding the running daemons from pid
    files, status sockets and [/proc], resolving a target, the argument helpers,
    the command table and the commands (the two that decode connection ids and
    emit provisioning data are in [Inspect.v]).  What the tool sees of the machine
    is the record [host], taken as one snapshot per command; what it does to it -
    lines printed, signals sent, files removed - is the list of effects of a
    command. *)

From stdpp Require Import sorting.
From S2P Require Import Prelude Std Common Decimal Text BTree Json.

Definition RUN_DIR : str := lit "/run/pesigitg".
Definition PIDFILE_PREFIX : str := lit "pesigitgd-".
Definition PIDFILE_SUFFIX : str := lit ".pid".
Definition SOCKET_PREFIX : str := lit "status-".
Definition SOCKET_SUFFIX : str := lit ".sock".

Definition SIGHUP : Z := 1.
Definition SIGUSR1 : Z := 10.
Definition SIGUSR2 : Z := 12.
Definition SIGTERM : Z := 15.

Inductive Target :=
| Interface (iface : str)
| Pid (pid : Z).

(** An I/O error is its message. *)
Inductive TargetError :=
| Empty
| NotFound (q : str)
| Ambiguous (names : list str)
| NotAPesigitgdProcess (pid : Z)
| NoStatusSocket (iface : str)
| Io (e : str)
| ExtraArgs (s : str)
| BadResponse (s : str)
| RemoteError (s : str).

(** [Display for TargetError] *)
Definition show_error (e : TargetError) : str :=
  match e with
  | Empty => lit "no target"
  | NotFound q => lit "no pesigitgd instance matching '" ++ q ++ lit "'"
  | Ambiguous names => lit "multiple pesigitgd instances running; specify one of: " ++ join (lit ", ") names
  | NotAPesigitgdProcess pid => lit "pid " ++ fmt_dec pid ++ lit " is not a pesigitgd process"
  | NoStatusSocket iface =>
      lit "no status socket for interface " ++ iface ++ lit " (status_socket not configured?)"
  | Io e => lit "i/o error: " ++ e
  | ExtraArgs s => s
  | BadResponse s => lit "bad response from daemon: " ++ s
  | RemoteError s => lit "daemon error: " ++ s
  end.

Definition target_from_str (s : str) : result Target TargetError :=
  let s := trim s in
  if bool_decide (s = []) then Err Empty
  else
    match parse_u32 s with
    | Some pid => Ok (Pid pid)
    | None => Ok (Interface s)
    end.

Record Instance := mkInstance {
  i_interface : option str;
  i_pid : option Z;
  i_pidfile : option str;
  i_status_socket : option str;
  i_cmdline : option str;
}.

Definition no_instance : Instance := mkInstance None None None None None.

Record ResolvedTarget := mkResolved {
  t_interface : str;
  t_pid : Z;
  t_status_socket : option str;
}.

(** ** The machine *)

(** The reply on a status socket: nothing, text that is not JSON, or a document. *)
Inductive reply :=
| NoReply (e : str)
| NotJson (e : str)
| Reply (v : json).

(** A directory that cannot be read is [None]; a file name that is not UTF-8 is
    [None]; so is a file that cannot be read as text. *)
Record host := mkHost {
  pid_dir : option (list (option str * option str));
  run_dir : option (list (option str));
  proc_dir : option (list (option str));
  comm : Z -> option str;
  cmdline : Z -> option (list byte);
  kill : Z -> Z -> option str;
  remove_file : str -> option str;
  pins : str -> result (list (option str)) (bool * str);
  ask : str -> str -> reply;
}.

(** ** Discovery *)

Definition strip_name (prefix suffix name : str) : option str :=
  let? rest := strip_prefix prefix name in
  let? iface := strip_suffix suffix rest in
  if bool_decide (iface = []) then None else Some iface.

Definition iface_from_pidfile (name : str) : option str := strip_name PIDFILE_PREFIX PIDFILE_SUFFIX name.
Definition iface_from_sockname (name : str) : option str := strip_name SOCKET_PREFIX SOCKET_SUFFIX name.

Record ProcHit := mkHit {
  h_pid : Z;
  h_interface : option str;
  h_cmdline : str;
}.

Definition is_pesigitgd_proc (h : host) (pid : Z) : bool :=
  match comm h pid with
  | Some s => bool_decide (trim s = PROC_NAME)
  | None => false
  end.

(** [bytes.split(|&b| b == 0).filter(|s| !s.is_empty())] *)
Fixpoint split_nul (bs : list byte) (cur : list byte) : list (list byte) :=
  match bs with
  | [] => match cur with [] => [] | _ => [cur] end
  | b :: r =>
      if u8 b =? 0 then match cur with [] => split_nul r [] | _ => cur :: split_nul r [] end
      else split_nul r (cur ++ [b])
  end.

Fixpoint bytes_strip (p s : list byte) : option (list byte) :=
  match p, s with
  | [], _ => Some s
  | a :: p', b :: s' => if bool_decide (a = b) then bytes_strip p' s' else None
  | _ :: _, [] => None
  end.

Definition bytes_of (s : str) : list byte := str_bytes s.

(** The loop over the arguments; a flag without a value falls through to the end. *)
Fixpoint iface_from_args (args : list (list byte)) : option str :=
  match args with
  | [] => None
  | arg :: rest =>
      if bool_decide (arg = bytes_of (lit "-i")) || bool_decide (arg = bytes_of (lit "--interface")) then
        match rest with
        | next :: _ => from_utf8 next
        | [] => None
        end
      else
        match bytes_strip (bytes_of (lit "-i")) arg with
        | Some v =>
            match v with [] => iface_from_args rest | _ => from_utf8 v end
        | None =>
            match bytes_strip (bytes_of (lit "--interface=")) arg with
            | Some v => from_utf8 v
            | None => iface_from_args rest
            end
        end
  end.

Definition iface_from_cmdline (bs : list byte) : option str := iface_from_args (split_nul bs []).

Definition proc_hit (h : host) (name : option str) : option ProcHit :=
  let? s := name in
  let? pid := parse_u32 s in
  if is_pesigitgd_proc h pid then
    let? bs := cmdline h pid in
    Some (mkHit pid (iface_from_cmdline bs) (join (lit " ") (map from_utf8_lossy (split_nul bs []))))
  else None.

Definition scan_proc_for_pesigitgd (h : host) : list ProcHit :=
  match proc_dir h with
  | Some entries => omap (proc_hit h) entries
  | None => []
  end.

Definition or_new (o : option Instance) : Instance := match o with Some i => i | None => no_instance end.

(** Source 1: a pid file. *)
Definition add_pidfile (m : list (str * Instance)) (entry : option str * option str) : list (str * Instance) :=
  match entry.1 with
  | None => m
  | Some name =>
      match iface_from_pidfile name with
      | None => m
      | Some iface =>
          let pid := let? s := entry.2 in parse_u32 (trim s) in
          bt_alter iface (fun o => let i := or_new o in
            mkInstance (Some iface) pid (Some (PID_DIR ++ lit "/" ++ name)) (i_status_socket i) (i_cmdline i)) m
      end
  end.

(** Source 2: a status socket. *)
Definition add_socket (m : list (str * Instance)) (entry : option str) : list (str * Instance) :=
  match entry with
  | None => m
  | Some name =>
      match iface_from_sockname name with
      | None => m
      | Some iface =>
          bt_alter iface (fun o => let i := or_new o in
            mkInstance (Some iface) (i_pid i) (i_pidfile i) (Some (RUN_DIR ++ lit "/" ++ name)) (i_cmdline i)) m
      end
  end.

(** [by_iface.values_mut().find(|i| i.pid == Some(pid))], given a command line. *)
Fixpoint attach (pid : Z) (cmd : str) (m : list (str * Instance)) : option (list (str * Instance)) :=
  match m with
  | [] => None
  | (k, i) :: m' =>
      if bool_decide (i_pid i = Some pid) then
        Some ((k, mkInstance (i_interface i) (i_pid i) (i_pidfile i) (i_status_socket i) (Some cmd)) :: m')
      else let? r := attach pid cmd m' in Some ((k, i) :: r)
  end.

(** Source 3: a live process. *)
Definition add_hit (st : list (str * Instance) * list Instance) (hit : ProcHit)
    : list (str * Instance) * list Instance :=
  let '(m, unnamed) := st in
  match h_interface hit with
  | Some iface =>
      (bt_alter iface (fun o => let i := or_new o in
         mkInstance (Some iface) (Some (h_pid hit)) (i_pidfile i) (i_status_socket i) (Some (h_cmdline hit))) m,
       unnamed)
  | None =>
      match attach (h_pid hit) (h_cmdline hit) m with
      | Some m' => (m', unnamed)
      | None => (m, unnamed ++ [mkInstance None (Some (h_pid hit)) None None (Some (h_cmdline hit))])
      end
  end.

Definition discover_instances (h : host) : list Instance :=
  let m := match pid_dir h with Some es => foldl add_pidfile [] es | None => [] end in
  let m := match run_dir h with Some es => foldl add_socket m es | None => m end in
  let '(m, unnamed) := foldl add_hit (m, []) (scan_proc_for_pesigitgd h) in
  m.*2 ++ unnamed.

(** ** Commands as effects

    A document is printed by [serde_json], so its text is not modelled. *)

Inductive effect :=
| Println (s : str)
| Eprintln (s : str)
| PrintJson (v : json)
| Kill (pid sig : Z)
| Remove (path : str).

(** What was done, and the result. *)
Definition act (A : Type) : Type := list effect * result A TargetError.

Definition ret {A} (a : A) : act A := ([], Ok a).
Definition throw {A} (e : TargetError) : act A := ([], Err e).
Definition emit (e : effect) : act unit := ([e], Ok tt).
Definition lift {A} (r : result A TargetError) : act A := ([], r).

Definition bind {A B} (m : act A) (k : A -> act B) : act B :=
  match m.2 with
  | Ok a => let n := k a in (m.1 ++ n.1, n.2)
  | Err e => (m.1, Err e)
  end.

Notation "'let!' x := e 'in' k" := (bind e (fun x => k))
  (at level 200, x pattern, right associativity).

Definition println (s : str) : act unit := emit (Println s).
Definition print_lines (l : list str) : act unit := (map Println l, Ok tt).

(** ** Targets *)

Definition to_resolved (i : Instance) : option ResolvedTarget :=
  let? iface := i_interface i in
  let? pid := i_pid i in
  Some (mkResolved iface pid (i_status_socket i)).

Definition is_identified (i : Instance) : bool :=
  bool_decide (i_interface i <> None) && bool_decide (i_pid i <> None).

Definition ok_or {A} (o : option A) (e : TargetError) : result A TargetError :=
  match o with Some a => Ok a | None => Err e end.

Definition resolve (h : host) (target_arg : option str) : act ResolvedTarget :=
  let instances := discover_instances h in
  let identified := List.filter is_identified instances in
  match target_arg with
  | None =>
      match identified with
      | [] => throw (NotFound (lit "<auto>"))
      | [inst] =>
          match to_resolved inst with
          | Some r =>
              let! _ := println (t_interface r ++ lit " (pid " ++ fmt_dec (t_pid r) ++ lit ")") in
              ret r
          | None => throw Empty (* unreachable: the instance is identified *)
          end
      | _ => throw (Ambiguous (omap i_interface identified))
      end
  | Some s =>
      let! t := lift (target_from_str s) in
      match t with
      | Interface iface =>
          lift (ok_or (let? i := find (fun i => bool_decide (i_interface i = Some iface)) identified in to_resolved i)
                  (NotFound iface))
      | Pid pid =>
          if negb (is_pesigitgd_proc h pid) then throw (NotAPesigitgdProcess pid)
          else
            let inst :=
              match find (fun i => bool_decide (i_pid i = Some pid)) instances with
              | Some i => i
              | None => mkInstance None (Some pid) None None None
              end in
            lift (ok_or (to_resolved inst)
                    (NotFound (lit "pid " ++ fmt_dec pid ++ lit " (running, but interface not on cmdline)")))
      end
  end.

(** ** Arguments *)

Definition expect_no_args (args : list str) : result unit TargetError :=
  match args with
  | [] => Ok tt
  | _ => Err (ExtraArgs (lit "unexpected argument(s): " ++ join (lit " ") args))
  end.

Definition expect_optional_target (args : list str) : result (option str) TargetError :=
  match args with
  | [] => Ok None
  | [a] => Ok (Some a)
  | _ => Err (ExtraArgs (lit "expected at most one target, got: " ++ join (lit " ") args))
  end.

(** The loop: the value so far and the arguments kept. *)
Fixpoint extract_loop (short long : str) (args : list str) (value : option str) (rest : list str)
    : result (option str * list str) TargetError :=
  match args with
  | [] => Ok (value, rest)
  | a :: args' =>
      if bool_decide (a = short) || bool_decide (a = long) then
        match args' with
        | v :: args'' => extract_loop short long args'' (Some v) rest
        | [] => Err (ExtraArgs (a ++ lit " requires a value"))
        end
      else
        match strip_prefix (long ++ lit "=") a with
        | Some v => extract_loop short long args' (Some v) rest
        | None => extract_loop short long args' value (rest ++ [a])
        end
  end.

Definition extract_flag (args : list str) (short long : str) : result (option str * list str) TargetError :=
  extract_loop short long args None [].

(** ** Asking a daemon *)

Definition query_endpoint (h : host) (target : option str) (path : str) : act (ResolvedTarget * json) :=
  let! resolved := resolve h target in
  let! socket := lift (ok_or (t_status_socket resolved) (NoStatusSocket (t_interface resolved))) in
  match ask h socket (lit "GET " ++ path) with
  | NoReply e => throw (Io e)
  | NotJson e => throw (BadResponse e)
  | Reply value =>
      match get_as as_str (lit "error") value with
      | Some msg => throw (RemoteError msg)
      | None => ret (resolved, value)
      end
  end.

Definition format_duration (secs : Z) : str :=
  if secs <? 60 then fmt_dec secs ++ lit "s"
  else
    let m := secs / 60 in
    let s := secs mod 60 in
    if m <? 60 then fmt_dec m ++ lit "m" ++ fmt_dec s ++ lit "s"
    else
      let hh := m / 60 in
      let m := m mod 60 in
      if hh <? 24 then fmt_dec hh ++ lit "h" ++ fmt_dec m ++ lit "m"
      else
        let d := hh / 24 in
        let hh := hh mod 24 in
        fmt_dec d ++ lit "d" ++ fmt_dec hh ++ lit "h".

Definition print_health_summary (t : ResolvedTarget) (v : json) : act unit :=
  let status := or_default (lit "?") (get_as as_str (lit "status") v) in
  let uptime := get_as as_u64 (lit "uptime_secs") v in
  let alive := get_as as_u64 (lit "workers_alive") v in
  let expected := get_as as_u64 (lit "workers_expected") v in
  let parts := [status]
    ++ match uptime with Some u => [lit "uptime " ++ format_duration u] | None => [] end
    ++ match alive, expected with
       | Some a, Some e => [lit "workers " ++ fmt_dec a ++ lit "/" ++ fmt_dec e]
       | _, _ => []
       end in
  println (t_interface t ++ lit " (pid " ++ fmt_dec (t_pid t) ++ lit "): " ++ join (lit ", ") parts).

(** ** Signals *)

(** [pid as libc::pid_t] *)
Definition pid_t (pid : Z) : Z := (pid + 2 ^ 31) mod 2 ^ 32 - 2 ^ 31.

Definition send_signal (h : host) (pid sig : Z) : act unit :=
  let! _ := emit (Kill (pid_t pid) sig) in
  match kill h (pid_t pid) sig with
  | None => ret tt
  | Some e => throw (Io e)
  end.

Definition signal_line (name : str) (t : ResolvedTarget) : str :=
  lit "sent " ++ name ++ lit " to " ++ t_interface t ++ lit " (pid " ++ fmt_dec (t_pid t) ++ lit ")".

Definition cmd_signal (h : host) (sig : Z) (name : str) (tail : str) (args : list str) : act unit :=
  let! t := lift (expect_optional_target args) in
  let! target := resolve h t in
  let! _ := send_signal h (t_pid target) sig in
  println (signal_line name target ++ tail).

Definition cmd_hup (h : host) : list str -> act unit := cmd_signal h SIGHUP (lit "SIGHUP") [].
Definition cmd_stop (h : host) : list str -> act unit := cmd_signal h SIGTERM (lit "SIGTERM") [].
Definition cmd_dump_stats (h : host) : list str -> act unit := cmd_signal h SIGUSR1 (lit "SIGUSR1") [].
Definition cmd_restart (h : host) : list str -> act unit :=
  cmd_signal h SIGUSR2 (lit "SIGUSR2") (lit "; daemon will hand off to a fresh instance").

(** ** The other commands *)

Definition pad (w : nat) (s : str) : str := s ++ replicate (w - length s) 32.

(** The interface column is as wide as the longest name in bytes. *)
Definition iface_width (named : list Instance) : nat :=
  Z.to_nat (foldr Z.max 9 (map str_len (omap i_interface named))).

Definition instance_line (w : nat) (i : Instance) : str :=
  let iface := or_default (lit "?") (i_interface i) in
  let pid := match i_pid i with Some p => fmt_dec p | None => lit "?" end in
  let sources :=
    match i_pidfile i with Some _ => [lit "pidfile"] | None => [] end
    ++ match i_status_socket i with Some _ => [lit "socket"] | None => [] end
    ++ match i_cmdline i with Some _ => [lit "proc"] | None => [] end in
  let note := match i_pidfile i, i_cmdline i with Some _, None => lit "  (stale pidfile)" | _, _ => [] end in
  pad w iface ++ lit "  " ++ pad 7 pid ++ lit "  " ++ join (lit ",") sources ++ note.

Definition cmd_list (h : host) (args : list str) : act unit :=
  let! _ := lift (expect_no_args args) in
  let instances := discover_instances h in
  let named := List.filter (fun i => bool_decide (i_interface i <> None)) instances in
  let unnamed := List.filter (fun i => bool_decide (i_interface i = None)) instances in
  match named, unnamed with
  | [], [] => println (lit "no pesigitgd instances found")
  | _, _ =>
      let w := iface_width named in
      let! _ :=
        match named with
        | [] => ret tt
        | _ => print_lines ((pad w (lit "INTERFACE") ++ lit "  " ++ pad 7 (lit "PID") ++ lit "  SOURCES")
                            :: map (instance_line w) named)
        end in
      match unnamed with
      | [] => ret tt
      | _ =>
          let! _ := match named with [] => ret tt | _ => println [] end in
          print_lines (lit "Unmatched processes (interface not on cmdline):"
            :: map (fun i => lit "  pid=" ++ match i_pid i with Some p => fmt_dec p | None => lit "?" end
                             ++ lit "  " ++ or_default [] (i_cmdline i)) unnamed)
      end
  end.

Definition cmd_paths (args : list str) : act unit :=
  let! _ := lift (expect_no_args args) in
  print_lines [lit "pidfile dir:    " ++ PID_DIR; lit "runtime dir:    " ++ RUN_DIR;
               lit "bpffs pin root: /sys/fs/bpf/pesigitg/<interface>/"].

Definition cmd_status (h : host) (args : list str) : act unit :=
  let! t := lift (expect_optional_target args) in
  let! (resolved, value) := query_endpoint h t (lit "/health") in
  print_health_summary resolved value.

Definition cmd_fetch (h : host) (path : str) (args : list str) : act unit :=
  let! t := lift (expect_optional_target args) in
  let! (_, v) := query_endpoint h t path in
  emit (PrintJson v).

Definition cmd_health (h : host) : list str -> act unit := cmd_fetch h (lit "/health").
Definition cmd_stats (h : host) : list str -> act unit := cmd_fetch h (lit "/stats").
Definition cmd_config (h : host) : list str -> act unit := cmd_fetch h (lit "/config").
Definition cmd_info (h : host) : list str -> act unit := cmd_fetch h (lit "/version").

Definition cmd_endpoint (h : host) (args : list str) : act unit :=
  match args with
  | [] => throw (ExtraArgs (lit "endpoint requires a path argument (e.g. /stats)"))
  | path :: more =>
      match more with
      | _ :: _ :: _ => throw (ExtraArgs (lit "expected '<path> [target]', got: " ++ join (lit " ") args))
      | _ =>
          if negb (starts_with (lit "/") path) then
            throw (ExtraArgs (lit "endpoint path must start with '/', got '" ++ path ++ lit "'"))
          else
            let! (_, v) := query_endpoint h (head more) path in
            emit (PrintJson v)
      end
  end.

(** The loop over the instances: effects, pid files removed, failures. *)
Fixpoint cleanup_loop (h : host) (instances : list Instance) : list effect * Z * Z :=
  match instances with
  | [] => ([], 0, 0)
  | i :: rest =>
      let '(es, removed, errors) := cleanup_loop h rest in
      match i_pidfile i, i_cmdline i with
      | Some path, None =>
          match remove_file h path with
          | None => (Remove path :: Println (lit "removed stale pidfile: " ++ path) :: es, removed + 1, errors)
          | Some e => (Remove path :: Eprintln (lit "failed to remove " ++ path ++ lit ": " ++ e) :: es,
                       removed, errors + 1)
          end
      | _, _ => (es, removed, errors)
      end
  end.

Definition cmd_cleanup (h : host) (args : list str) : act unit :=
  let! _ := lift (expect_no_args args) in
  let '(es, removed, errors) := cleanup_loop h (discover_instances h) in
  let! _ := (es, Ok tt) in
  let! _ := if (removed =? 0) && (errors =? 0) then println (lit "no stale pidfiles") else ret tt in
  if 0 <? errors then throw (Io (fmt_dec errors ++ lit " pidfile(s) could not be removed")) else ret tt.

Fixpoint insert_str (s : str) (l : list str) : list str :=
  match l with
  | [] => [s]
  | t :: r => if str_ltb t s then t :: insert_str s r else s :: l
  end.

(** [names.sort()] *)
Definition sort_strs (l : list str) : list str := foldr insert_str [] l.

Definition cmd_pin_info (h : host) (args : list str) : act unit :=
  let! target_arg := lift (expect_optional_target args) in
  let! iface :=
    match target_arg with
    | Some s =>
        let! t := lift (target_from_str s) in
        match t with
        | Interface i => ret i
        | Pid _ => throw (ExtraArgs (lit "pin-info expects an interface name, not a pid"))
        end
    | None => let! r := resolve h None in ret (t_interface r)
    end in
  let dir_path := lit "/sys/fs/bpf/pesigitg/" ++ iface in
  let! _ := println dir_path in
  match pins h dir_path with
  | Err (true, _) =>
      println (lit "  (no pin directory; daemon may not have run yet on " ++ iface ++ lit ")")
  | Err (false, e) => throw (Io e)
  | Ok entries =>
      match sort_strs (omap id entries) with
      | [] => println (lit "  (empty)")
      | names => print_lines (map (fun n => lit "  " ++ n) names)
      end
  end.

(** ** What discovery finds

    Per interface: the last pid file, the last socket and the last process with
    that name, as the directories list them. *)

Definition pidfile_entry (e : option str * option str) : option (str * (str * option Z)) :=
  let? name := e.1 in
  let? iface := iface_from_pidfile name in
  Some (iface, (PID_DIR ++ lit "/" ++ name, let? s := e.2 in parse_u32 (trim s))).

Definition pidfiles (h : host) : list (str * (str * option Z)) :=
  omap pidfile_entry (or_default [] (pid_dir h)).

Definition socket_entry (e : option str) : option (str * str) :=
  let? name := e in
  let? iface := iface_from_sockname name in
  Some (iface, RUN_DIR ++ lit "/" ++ name).

Definition sockets (h : host) : list (str * str) := omap socket_entry (or_default [] (run_dir h)).

Definition named_hits (hits : list ProcHit) : list (str * ProcHit) :=
  omap (fun hit => (fun k => (k, hit)) <$> h_interface hit) hits.

Definition last_for {A} (k : str) (l : list (str * A)) : option A := bt_get k (rev l).

(** The pid of an interface: of its process, else what its pid file says. *)
Definition pid_of (h : host) (k : str) : option Z :=
  match last_for k (named_hits (scan_proc_for_pesigitgd h)) with
  | Some hit => Some (h_pid hit)
  | None => let? (_, pid) := last_for k (pidfiles h) in pid
  end.

Definition socket_of (h : host) (k : str) : option str := last_for k (sockets h).

(** ** Lemmas *)

Lemma last_for_snoc {A} k (l : list (str * A)) k' v :
  last_for k (l ++ [(k', v)]) = if bool_decide (k = k') then Some v else last_for k l.
Proof. unfold last_for. rewrite rev_unit. done. Qed.

(** Every entry is filed under its own interface. *)
Definition filed (m : list (str * Instance)) : Prop :=
  bt_sorted m = true /\ forall k i, bt_get k m = Some i -> i_interface i = Some k.

Lemma filed_alter m k f :
  filed m -> (forall o, i_interface (f o) = Some k) -> filed (bt_alter k f m).
Proof.
  intros [Hs Hi] Hf. split; [by apply bt_alter_sorted|]. intros k' i. rewrite bt_get_alter by done.
  case_bool_decide as Hk; [|apply Hi]. subst k'. intros [= <-]. apply Hf.
Qed.

Lemma foldl_pidfiles es :
  let m := foldl add_pidfile [] es in
  filed m /\ forall k, bt_get k m =
    (fun '(path, pid) => mkInstance (Some k) pid (Some path) None None) <$> last_for k (omap pidfile_entry es).
Proof.
  induction es as [|e es IH] using rev_ind; [done|]. cbn zeta in *. rewrite foldl_snoc, omap_app. destruct IH as [Hf IH].
  set (m := foldl add_pidfile [] es) in *. unfold add_pidfile. cbn [omap list_omap]. unfold pidfile_entry at 2.
  destruct e as [[name|] text]; cbn [fst snd]; [|by rewrite app_nil_r].
  destruct (iface_from_pidfile name) as [iface|]; [|by rewrite app_nil_r].
  split; [by apply filed_alter|]. intros k. rewrite bt_get_alter, last_for_snoc by apply Hf.
  case_bool_decide as Hk; [|apply IH]. subst iface. rewrite IH.
  destruct (last_for k _) as [[? ?]|]; done.
Qed.

Lemma foldl_sockets m es :
  filed m ->
  let m' := foldl add_socket m es in
  filed m' /\ forall k, bt_get k m' =
    match last_for k (omap socket_entry es) with
    | Some path =>
        let i := or_new (bt_get k m) in
        Some (mkInstance (Some k) (i_pid i) (i_pidfile i) (Some path) (i_cmdline i))
    | None => bt_get k m
    end.
Proof.
  intros Hm. induction es as [|e es IH] using rev_ind; [done|]. cbn zeta in *. rewrite foldl_snoc, omap_app.
  destruct IH as [Hf IH]. set (m' := foldl add_socket m es) in *. unfold add_socket. cbn [omap list_omap].
  unfold socket_entry at 2. destruct e as [name|]; [|by rewrite app_nil_r].
  destruct (iface_from_sockname name) as [iface|]; [|by rewrite app_nil_r].
  split; [by apply filed_alter|]. intros k. rewrite bt_get_alter, last_for_snoc by apply Hf.
  case_bool_decide as Hk; [|apply IH]. subst iface. rewrite IH.
  destruct (last_for k _); done.
Qed.

(** All but the command line. *)
Definition core (i : Instance) : option str * option Z * option str * option str :=
  (i_interface i, i_pid i, i_pidfile i, i_status_socket i).

Lemma attach_get pid cmd m m' k :
  attach pid cmd m = Some m' ->
  core <$> bt_get k m' = core <$> bt_get k m /\ m'.*1 = m.*1 /\
  (forall i i', bt_get k m = Some i -> bt_get k m' = Some i' -> i_cmdline i <> None -> i_cmdline i' <> None).
Proof.
  revert m'. induction m as [|[k1 i] m IH]; intros m'; [done|]. cbn [attach]. case_bool_decide.
  { intros [= <-]. cbn [bt_get]. split; [by case_bool_decide|]. split; [done|].
    case_bool_decide; [by intros ? ? [= <-] [= <-]|]. by intros ? ? -> [= ->]. }
  destruct (attach pid cmd m) as [r|]; [|done]. intros [= <-]. destruct (IH r eq_refl) as (H1 & H2 & H3).
  cbn [bt_get]. split; [by case_bool_decide|]. split; [cbn; by f_equal|].
  case_bool_decide; [by intros ? ? -> [= ->]|done].
Qed.

Lemma bt_sorted_keys {A B} (m : list (str * A)) (m' : list (str * B)) : m.*1 = m'.*1 -> bt_sorted m = bt_sorted m'.
Proof.
  revert m'. induction m as [|e m IH]; intros [|e' m'] H; try done. injection H as H1 H2. specialize (IH m' H2).
  destruct m as [|e1 m], m' as [|e1' m']; try done. injection H2 as H3 H4. cbn [bt_sorted] in *. congruence.
Qed.

Lemma filed_attach pid cmd m m' : filed m -> attach pid cmd m = Some m' -> filed m'.
Proof.
  intros [Hs Hi] Ha. split; [|].
  - destruct (attach_get _ _ _ _ [] Ha) as (_ & Hk & _). by rewrite (bt_sorted_keys _ _ Hk).
  - intros k i Hg. destruct (attach_get _ _ _ _ k Ha) as (Hc & _). rewrite Hg in Hc.
    destruct (bt_get k m) as [i0|] eqn:E; [|done]. injection Hc as Hc _ _ _. rewrite Hc. by apply Hi.
Qed.

(** A pid from a named process, the rest from before; and it has a command line. *)
Definition after_hits (m m' : list (str * Instance)) (hits : list ProcHit) (k : str) : Prop :=
  core <$> bt_get k m' =
    match last_for k (named_hits hits) with
    | Some hit => let i := or_new (bt_get k m) in
                  Some (Some k, Some (h_pid hit), i_pidfile i, i_status_socket i)
    | None => core <$> bt_get k m
    end /\
  (forall i, last_for k (named_hits hits) <> None -> bt_get k m' = Some i -> i_cmdline i <> None).

Lemma named_hits_snoc hits hit :
  named_hits (hits ++ [hit]) = named_hits hits ++ match h_interface hit with Some k => [(k, hit)] | None => [] end.
Proof. unfold named_hits. rewrite omap_app. cbn. by destruct (h_interface hit). Qed.

Lemma foldl_hits m hits :
  filed m ->
  let st := foldl add_hit (m, []) hits in
  filed st.1 /\ Forall (fun i => i_interface i = None /\ i_pidfile i = None) st.2 /\ forall k, after_hits m st.1 hits k.
Proof.
  intros Hm. induction hits as [|hit hits IH] using rev_ind; cbn zeta in *.
  { split; [done|]. split; [constructor|]. by intros k. }
  rewrite foldl_snoc. destruct (foldl add_hit (m, []) hits) as [m1 un]. cbn [fst snd] in IH.
  destruct IH as (Hf & Hu & IH). unfold add_hit, after_hits. rewrite named_hits_snoc.
  destruct (h_interface hit) as [iface|] eqn:Ei.
  - cbn [fst snd]. split; [by apply filed_alter|]. split; [done|]. intros k. destruct (IH k) as [H1 H2].
    rewrite bt_get_alter, last_for_snoc by apply Hf. case_bool_decide as Hk; [|done]. subst iface.
    split; [|by intros i _ [= <-]]. cbn [fmap option_fmap option_map core i_interface i_pid i_pidfile i_status_socket].
    destruct (last_for k (named_hits hits)).
    + destruct (bt_get k m1) as [i1|]; [|done]. injection H1 as _ _ H5 H6. cbn [or_new]. by rewrite H5, H6.
    + destruct (bt_get k m1) as [i1|], (bt_get k m) as [i|]; try done. injection H1 as _ _ H5 H6. cbn [or_new]. by rewrite H5, H6.
  - rewrite app_nil_r. destruct (attach (h_pid hit) (h_cmdline hit) m1) as [m2|] eqn:Ea; cbn [fst snd].
    + split; [by eapply filed_attach|]. split; [done|]. intros k. destruct (IH k) as [H1 H2].
      destruct (attach_get _ _ _ _ k Ea) as (H3 & _ & H4). rewrite H3. split; [done|].
      intros i Hl Hg. destruct (bt_get k m1) as [i1|] eqn:E1; [|by rewrite Hg in H3]. eapply H4; eauto.
    + split; [done|]. split; [apply Forall_app; split; [done|by repeat constructor]|]. intros k. apply IH.
Qed.

(** *** The discovered instances *)

(** After the two directories, and after the processes. *)
Definition files_map (h : host) : list (str * Instance) :=
  let m := match pid_dir h with Some es => foldl add_pidfile [] es | None => [] end in
  match run_dir h with Some es => foldl add_socket m es | None => m end.

Definition named_map (h : host) : list (str * Instance) * list Instance :=
  foldl add_hit (files_map h, []) (scan_proc_for_pesigitgd h).

Lemma discover_eq h : discover_instances h = (named_map h).1.*2 ++ (named_map h).2.
Proof. unfold discover_instances, named_map, files_map. by destruct (foldl add_hit _ _). Qed.

Definition pidfile_pid (h : host) (k : str) : option Z := let? (_, pid) := last_for k (pidfiles h) in pid.

Lemma files_map_spec h :
  filed (files_map h) /\
  forall k,
    match bt_get k (files_map h) with
    | Some i => i_pid i = pidfile_pid h k /\ i_status_socket i = socket_of h k /\
                i_pidfile i = fst <$> last_for k (pidfiles h)
    | None => last_for k (pidfiles h) = None /\ socket_of h k = None
    end.
Proof.
  unfold files_map, pidfile_pid, socket_of, pidfiles, sockets.
  set (m1 := match pid_dir h with Some es => foldl add_pidfile [] es | None => [] end).
  assert (filed m1 /\ forall k, bt_get k m1 = (fun '(path, pid) => mkInstance (Some k) pid (Some path) None None)
    <$> last_for k (omap pidfile_entry (or_default [] (pid_dir h)))) as [Hf1 H1].
  { unfold m1. destruct (pid_dir h) as [es|]; [apply (foldl_pidfiles es)|by split]. }
  set (m2 := match run_dir h with Some es => foldl add_socket m1 es | None => m1 end).
  assert (filed m2 /\ forall k, bt_get k m2 = match last_for k (omap socket_entry (or_default [] (run_dir h))) with
    | Some path => let i := or_new (bt_get k m1) in Some (mkInstance (Some k) (i_pid i) (i_pidfile i) (Some path) (i_cmdline i))
    | None => bt_get k m1 end) as [Hf2 H2].
  { unfold m2. destruct (run_dir h) as [es|]; [by apply (foldl_sockets m1 es)|by split]. }
  split; [done|]. intros k. rewrite H2, H1. cbn zeta.
  by destruct (last_for k (omap socket_entry _)), (last_for k (omap pidfile_entry _)) as [[? ?]|].
Qed.

Lemma pid_of_eq h k :
  pid_of h k = match last_for k (named_hits (scan_proc_for_pesigitgd h)) with
               | Some hit => Some (h_pid hit) | None => pidfile_pid h k end.
Proof. done. Qed.

Lemma named_map_spec h :
  filed (named_map h).1 /\ Forall (fun i => i_interface i = None /\ i_pidfile i = None) (named_map h).2 /\
  forall k,
    match bt_get k (named_map h).1 with
    | Some i => i_pid i = pid_of h k /\ i_status_socket i = socket_of h k /\ i_pidfile i = fst <$> last_for k (pidfiles h)
    | None => pid_of h k = None /\ last_for k (pidfiles h) = None
    end.
Proof.
  destruct (files_map_spec h) as [Hf2 H2].
  pose proof (foldl_hits (files_map h) (scan_proc_for_pesigitgd h) Hf2) as (Hf3 & Hu & H3).
  split; [done|]. split; [done|]. intros k. destruct (H3 k) as [H4 _]. specialize (H2 k).
  unfold named_map. rewrite pid_of_eq. unfold pidfile_pid in *.
  destruct (bt_get k (foldl _ _ _).1) as [i|], (last_for k (named_hits _)) as [hit|],
    (bt_get k (files_map h)) as [i2|], (last_for k (pidfiles h)) as [[? ?]|]; cbn in *; try done;
    try (injection H4 as H5 H6 H7 H8; rewrite ?H6, ?H7, ?H8; naive_solver); naive_solver.
Qed.

Lemma filed_elem m k i : filed m -> (k, i) ∈ m -> i_interface i = Some k.
Proof. intros [Hs Hi] Hin. by apply Hi, bt_get_elem. Qed.

Lemma find_filter {A} (p q : A -> bool) l : find p (List.filter q l) = find (fun x => q x && p x) l.
Proof.
  induction l as [|x l IH]; [done|]. cbn [List.filter find]. destruct (q x); cbn [find andb]; [|done].
  destruct (p x); done.
Qed.

Lemma find_app {A} (p : A -> bool) l k : find p (l ++ k) = match find p l with Some x => Some x | None => find p k end.
Proof. induction l as [|x l IH]; [done|]. cbn. by destruct (p x). Qed.

Lemma find_none_Forall {A} (p : A -> bool) l : Forall (fun x => p x = false) l -> find p l = None.
Proof. induction 1 as [|x l Hx _ IH]; [done|]. cbn. by rewrite Hx. Qed.

Definition named_as (k : str) (i : Instance) : bool := is_identified i && bool_decide (i_interface i = Some k).

Lemma find_named k m :
  bt_sorted m = true -> (forall k i, (k, i) ∈ m -> i_interface i = Some k) ->
  find (named_as k) m.*2 = let? i := bt_get k m in if is_identified i then Some i else None.
Proof.
  induction m as [|[k1 i] m IH]; intros Hs Hi; [done|]. cbn [fmap list_fmap find bt_get snd]. unfold named_as at 1.
  assert (i_interface i = Some k1) as -> by (apply Hi; apply elem_of_cons; by left).
  assert (forall k i, (k, i) ∈ m -> i_interface i = Some k) as Hi' by (intros; apply Hi; apply elem_of_cons; by right).
  destruct (decide (k = k1)) as [<-|Hne].
  - rewrite !bool_decide_true by done. rewrite andb_true_r. destruct (is_identified i); [done|].
    rewrite IH by (done || by eapply bt_tail_sorted). rewrite bt_get_lt; [done|]. by eapply bt_sorted_lt.
  - rewrite !bool_decide_false by congruence. rewrite andb_false_r. apply IH; [by eapply bt_tail_sorted|done].
Qed.

(** Looking up an interface among the identified instances. *)
Lemma find_interface h k :
  (let? i := find (fun i => bool_decide (i_interface i = Some k)) (List.filter is_identified (discover_instances h))
   in to_resolved i)
  = (fun p => mkResolved k p (socket_of h k)) <$> pid_of h k.
Proof.
  destruct (named_map_spec h) as (Hf & Hu & Hk). rewrite find_filter. change (fun i => is_identified i && _) with (named_as k).
  rewrite discover_eq, find_app, find_named; [|apply Hf|intros ? ?; by apply filed_elem].
  rewrite (find_none_Forall (named_as k) (named_map h).2)
    by (eapply Forall_impl; [exact Hu|]; intros i [Hn _]; unfold named_as; rewrite Hn; by rewrite andb_false_r).
  specialize (Hk k). destruct (bt_get k _) as [i|] eqn:E; [|by destruct Hk as [-> _]].
  destruct Hk as (Hp & Hs & _). pose proof (proj2 Hf k i E) as Hi. unfold is_identified. rewrite Hi, Hp.
  destruct (pid_of h k) as [p|] eqn:Ep; [|done]. cbn. unfold to_resolved. by rewrite Hi, Hp, Hs.
Qed.

(** *** Choosing an instance *)

Definition has_pid (h : host) (k : str) : bool := bool_decide (pid_of h k <> None).

(** The interfaces with a pid, in order. *)
Definition candidates (h : host) : list str := List.filter (has_pid h) (named_map h).1.*1.

Lemma identified_candidates h m :
  (forall k i, (k, i) ∈ m -> i_interface i = Some k /\ i_pid i = pid_of h k /\ i_status_socket i = socket_of h k) ->
  Forall2 (fun i k => i_interface i = Some k /\ i_pid i = pid_of h k /\ i_status_socket i = socket_of h k)
    (List.filter is_identified m.*2) (List.filter (has_pid h) m.*1).
Proof.
  induction m as [|[k i] m IH]; intros Hm; [constructor|]. cbn [fmap list_fmap List.filter fst snd].
  destruct (Hm k i) as (Hi & Hp & Hs); [apply elem_of_cons; by left|].
  assert (is_identified i = has_pid h k) as -> by (unfold is_identified, has_pid; rewrite Hi, Hp; by destruct (pid_of h k)).
  destruct (has_pid h k); [constructor; [done|]|]; apply IH; intros; apply Hm; apply elem_of_cons; by right.
Qed.

Lemma filter_none {A} (f : A -> bool) l : Forall (fun x => f x = false) l -> List.filter f l = [].
Proof. induction 1 as [|x l Hx _ IH]; [done|]. cbn. by rewrite Hx. Qed.

Lemma identified_spec h :
  Forall2 (fun i k => i_interface i = Some k /\ i_pid i = pid_of h k /\ i_status_socket i = socket_of h k)
    (List.filter is_identified (discover_instances h)) (candidates h).
Proof.
  destruct (named_map_spec h) as (Hf & Hu & Hk). rewrite discover_eq, List.filter_app.
  rewrite (filter_none is_identified (named_map h).2), app_nil_r.
  2:{ eapply Forall_impl; [exact Hu|]. intros i [Hn _]. unfold is_identified. by rewrite Hn. }
  apply identified_candidates. intros k i Hin. split; [by eapply filed_elem|].
  apply bt_get_elem in Hin; [|apply Hf]. specialize (Hk k). rewrite Hin in Hk. tauto.
Qed.

Lemma elem_of_candidates h k : k ∈ candidates h <-> exists p, pid_of h k = Some p.
Proof.
  unfold candidates. rewrite list_elem_of_In, filter_In, <- list_elem_of_In. unfold has_pid. split.
  - intros [_ Hp%bool_decide_eq_true]. destruct (pid_of h k) as [p|]; [by exists p|done].
  - intros [p Hp]. rewrite Hp. split; [|done]. destruct (named_map_spec h) as (Hf & _ & Hk). specialize (Hk k).
    destruct (bt_get k (named_map h).1) as [i|] eqn:E; [|destruct Hk; congruence].
    apply bt_get_elem in E; [|apply Hf]. apply list_elem_of_fmap. by exists (k, i).
Qed.

Lemma sorted_filter {A} (f : str -> bool) (m : list (str * A)) :
  bt_sorted m = true -> StronglySorted (fun s t => str_ltb s t = true) (List.filter f m.*1).
Proof.
  induction m as [|[k v] m IH]; intros Hs; [constructor|]. cbn [fmap list_fmap fst List.filter].
  specialize (IH (bt_tail_sorted _ _ Hs)). destruct (f k); [|done]. constructor; [done|].
  pose proof (bt_sorted_lt _ _ _ Hs) as Hlt. clear -Hlt. induction Hlt as [|[k1 v1] m Hk _ IH]; [constructor|].
  cbn [fmap list_fmap fst List.filter]. destruct (f k1); [by constructor|done].
Qed.

Lemma candidates_sorted h : StronglySorted (fun s t => str_ltb s t = true) (candidates h).
Proof. apply sorted_filter. apply (named_map_spec h). Qed.

(** The outcome of choosing among the interfaces that have a pid. *)
Definition choose (h : host) (ks : list str) : act ResolvedTarget :=
  match ks with
  | [] => throw (NotFound (lit "<auto>"))
  | [k] =>
      match pid_of h k with
      | Some p => ([Println (k ++ lit " (pid " ++ fmt_dec p ++ lit ")")], Ok (mkResolved k p (socket_of h k)))
      | None => throw Empty
      end
  | _ => throw (Ambiguous ks)
  end.

Lemma resolve_auto h : resolve h None = choose h (candidates h).
Proof.
  unfold resolve. pose proof (identified_spec h) as H2. pose proof (elem_of_candidates h) as He.
  destruct H2 as [|i k l ks (Hi & Hp & Hs) Hr]; [done|]. destruct Hr as [|i' k' l' ks' (Hi' & _) Hr]; cbn [choose].
  - destruct (proj1 (He k)) as [p Ep]; [apply elem_of_cons; by left|].
    unfold to_resolved. rewrite Hi, Hp, Hs, Ep. done.
  - unfold throw. do 2 f_equal. cbn. rewrite Hi, Hi'. do 3 f_equal.
    clear -Hr. induction Hr as [|i k l ks (Hi & _) _ IH]; [done|]. cbn. by rewrite Hi, IH.
Qed.

(** *** Cleaning up *)

Lemma cleanup_removes h l path :
  Remove path ∈ (cleanup_loop h l).1.1 <-> exists i, i ∈ l /\ i_pidfile i = Some path /\ i_cmdline i = None.
Proof.
  induction l as [|i l IH]; cbn [cleanup_loop].
  { split; [by intros ?%elem_of_nil|]. intros (i & ?%elem_of_nil & _). done. }
  destruct (cleanup_loop h l) as [[es r] e]. cbn [fst] in IH. setoid_rewrite elem_of_cons.
  destruct (i_pidfile i) as [p|] eqn:Ep, (i_cmdline i) as [c|] eqn:Ec; cbn [fst]; try (rewrite IH; naive_solver).
  destruct (remove_file h p); cbn [fst]; rewrite !elem_of_cons, IH; naive_solver.
Qed.

Lemma last_for_elem {A} k (l : list (str * A)) v : last_for k l = Some v -> (k, v) ∈ l.
Proof.
  unfold last_for. intros H. apply list_elem_of_In, in_rev, list_elem_of_In. revert H.
  induction (rev l) as [|[k' v'] r IH]; [done|]. cbn [bt_get]. case_bool_decide as Hk.
  - intros [= ->]. subst k'. apply elem_of_cons. by left.
  - intros H. apply elem_of_cons. right. auto.
Qed.

Lemma pidfiles_inj h k k' p x x' : (k, (p, x)) ∈ pidfiles h -> (k', (p, x')) ∈ pidfiles h -> k = k'.
Proof.
  unfold pidfiles. rewrite !list_elem_of_omap. intros ([n t] & _ & H1) ([n' t'] & _ & H2).
  unfold pidfile_entry in *. cbn [fst snd] in *. destruct n as [n|], n' as [n'|]; try done.
  destruct (iface_from_pidfile n) as [i|] eqn:E1, (iface_from_pidfile n') as [i'|] eqn:E2; try done.
  injection H1 as <- Hp _. injection H2 as <- Hp' _. rewrite <- Hp' in Hp. injection Hp as ->. congruence.
Qed.

(** A command line, once found, stays. *)
Lemma add_hit_keeps m un hit k i :
  filed m -> bt_get k m = Some i -> i_cmdline i <> None ->
  exists i', bt_get k (add_hit (m, un) hit).1 = Some i' /\ i_cmdline i' <> None.
Proof.
  intros Hf Hg Hc. unfold add_hit. destruct (h_interface hit) as [iface|]; cbn [fst].
  - rewrite bt_get_alter by apply Hf. case_bool_decide; [by eexists|by exists i].
  - destruct (attach _ _ m) as [m'|] eqn:Ea; cbn [fst]; [|by exists i].
    destruct (attach_get _ _ _ _ k Ea) as (H1 & _ & H2). rewrite Hg in H1.
    destruct (bt_get k m') as [i'|]; [|done]. exists i'. split; [done|]. by eapply H2.
Qed.

Lemma add_hit_filed m un hit : filed m -> filed (add_hit (m, un) hit).1.
Proof.
  intros Hf. unfold add_hit. destruct (h_interface hit); cbn [fst]; [by apply filed_alter|].
  destruct (attach _ _ m) as [m'|] eqn:Ea; [by eapply filed_attach|done].
Qed.

Lemma foldl_hits_keep hits m un k i :
  filed m -> bt_get k m = Some i -> i_cmdline i <> None ->
  exists i', bt_get k (foldl add_hit (m, un) hits).1 = Some i' /\ i_cmdline i' <> None.
Proof.
  revert m un i. induction hits as [|hit hits IH]; intros m un i Hf Hg Hc; cbn [foldl]; [by exists i|].
  destruct (add_hit_keeps m un hit k i Hf Hg Hc) as (i' & Hg' & Hc'). pose proof (add_hit_filed m un hit Hf) as Hf'.
  destruct (add_hit (m, un) hit) as [m' un']. by eapply IH.
Qed.

Lemma attach_first pid cmd m k i :
  (forall k' i', (k', i') ∈ m -> i_pid i' = Some pid -> k' = k) -> bt_get k m = Some i -> i_pid i = Some pid ->
  exists m' i', attach pid cmd m = Some m' /\ bt_get k m' = Some i' /\ i_cmdline i' <> None.
Proof.
  induction m as [|[k1 i1] m IH]; intros Hu Hg Hp; [done|]. cbn [attach bt_get] in *.
  assert (i_pid i1 = Some pid -> k1 = k) as H1 by (apply Hu; apply elem_of_cons; by left).
  destruct (decide (k = k1)) as [<-|Hne].
  - rewrite bool_decide_true in Hg by done. injection Hg as ->. rewrite bool_decide_true by done.
    do 2 eexists. split; [done|]. cbn [bt_get]. by rewrite bool_decide_true.
  - rewrite bool_decide_false in Hg by done. rewrite bool_decide_false by (intros H; by apply Hne; rewrite H1).
    destruct IH as (m' & i' & -> & Hg' & Hc); [|done|done|].
    { intros k' i' Hin. apply Hu. apply elem_of_cons. by right. }
    do 2 eexists. split; [done|]. cbn [bt_get]. by rewrite bool_decide_false.
Qed.

Lemma last_for_none {A} k (l : list (str * A)) v : (k, v) ∈ l -> last_for k l <> None.
Proof.
  intros Hin. unfold last_for. assert ((k, v) ∈ rev l) as Hr by by apply list_elem_of_In, in_rev; rewrite rev_involutive; apply list_elem_of_In.
  revert Hr. induction (rev l) as [|[k' v'] r IH]; [by intros ?%elem_of_nil|]. cbn [bt_get].
  case_bool_decide; [done|]. intros [[= -> ->]|Hr]%elem_of_cons; auto.
Qed.

Lemma elem_of_named_hits hits k hit : (k, hit) ∈ named_hits hits <-> hit ∈ hits /\ h_interface hit = Some k.
Proof.
  unfold named_hits. rewrite list_elem_of_omap. split.
  - intros (hit' & Hin & He). destruct (h_interface hit') eqn:E; [|done]. injection He as -> ->. done.
  - intros [Hin Hi]. exists hit. by rewrite Hi.
Qed.

(** Before a process without an interface is met, only the pid file it owns has its pid. *)
Lemma attach_owner h pre hit post k :
  NoDup (h_pid <$> scan_proc_for_pesigitgd h) -> scan_proc_for_pesigitgd h = pre ++ hit :: post ->
  h_interface hit = None -> pidfile_pid h k = Some (h_pid hit) ->
  (forall k', pidfile_pid h k' = Some (h_pid hit) -> k' = k) -> last_for k (named_hits pre) = None ->
  exists i, bt_get k (add_hit (foldl add_hit (files_map h, []) pre) hit).1 = Some i /\ i_cmdline i <> None.
Proof.
  intros Hnd Hscan Hi Hp Huniq Hnone. destruct (files_map_spec h) as [Hf H2].
  pose proof (foldl_hits (files_map h) pre Hf) as (Hf1 & _ & H1). destruct (foldl add_hit _ pre) as [m un]. cbn [fst] in *.
  destruct (H1 k) as [Hk _]. rewrite Hnone in Hk. specialize (H2 k) as H2k. unfold pidfile_pid in Hp.
  destruct (bt_get k (files_map h)) as [i2|] eqn:E2; [|destruct H2k as [H _]; by rewrite H in Hp].
  destruct (bt_get k m) as [i|] eqn:Em; [|done]. injection Hk as _ Hpid _ _. destruct H2k as (Hp2 & _).
  destruct (attach_first (h_pid hit) (h_cmdline hit) m k i) as (m' & i' & Ha & Hg & Hc); [|done|by rewrite Hpid, Hp2|].
  2:{ unfold add_hit. rewrite Hi, Ha. by exists i'. }
  intros k' i' Hin Hpi. apply bt_get_elem in Hin; [|apply Hf1]. destruct (H1 k') as [Hk' _]. rewrite Hin in Hk'.
  destruct (last_for k' (named_hits pre)) as [hit'|] eqn:El.
  - injection Hk' as _ Hpid' _ _. apply last_for_elem, elem_of_named_hits in El as [Hin' _].
    rewrite Hpid' in Hpi. injection Hpi as Heq. exfalso. rewrite Hscan, fmap_app in Hnd. cbn in Hnd.
    apply NoDup_app in Hnd as (_ & Hd & _). apply (Hd (h_pid hit)); [|apply elem_of_cons; by left].
    rewrite <- Heq. by apply list_elem_of_fmap_2.
  - specialize (H2 k'). destruct (bt_get k' (files_map h)) as [i3|]; [|done]. injection Hk' as _ Hpid' _ _.
    apply Huniq. destruct H2 as (<- & _). congruence.
Qed.

(** The entry of a running daemon's pid file has a command line. *)
Lemma owner_has_cmdline h hit k path pid :
  NoDup (h_pid <$> scan_proc_for_pesigitgd h) -> hit ∈ scan_proc_for_pesigitgd h ->
  last_for k (pidfiles h) = Some (path, pid) ->
  h_interface hit = Some k \/
  (h_interface hit = None /\ pid = Some (h_pid hit) /\ forall k', pidfile_pid h k' = Some (h_pid hit) -> k' = k) ->
  exists i, bt_get k (named_map h).1 = Some i /\ i_cmdline i <> None.
Proof.
  intros Hnd Hhit Hpf Hcase.
  destruct (files_map_spec h) as [Hf _].
  destruct (last_for k (named_hits (scan_proc_for_pesigitgd h))) as [hit'|] eqn:El.
  - pose proof (foldl_hits (files_map h) (scan_proc_for_pesigitgd h) Hf) as (_ & _ & H1). destruct (H1 k) as [H2 H3].
    rewrite El in H2. unfold named_map. destruct (bt_get k _) as [i|]; [|done]. exists i. split; [done|]. apply H3; [by rewrite El|done].
  - destruct Hcase as [Hi|(Hi & -> & Huniq)].
    { exfalso. eapply last_for_none; [|exact El]. by apply elem_of_named_hits. }
    apply list_elem_of_split in Hhit as (pre & post & Hscan).
    destruct (attach_owner h pre hit post k) as (i & Hg & Hc); try done.
    + unfold pidfile_pid. by rewrite Hpf.
    + destruct (last_for k (named_hits pre)) as [x|] eqn:Ex; [|done]. exfalso.
      apply last_for_elem, elem_of_named_hits in Ex as [Hx1 Hx2]. eapply last_for_none; [|exact El].
      apply elem_of_named_hits. split; [|exact Hx2]. rewrite Hscan. apply elem_of_app. by left.
    + unfold named_map. rewrite Hscan, foldl_app. cbn [foldl].
      pose proof (foldl_hits (files_map h) pre Hf) as (Hf1 & _). destruct (foldl add_hit _ pre) as [m un].
      pose proof (add_hit_filed m un hit Hf1). destruct (add_hit (m, un) hit) as [m' un']. by eapply foldl_hits_keep.
Qed.

Lemma elem_of_cleanup h path : Remove path ∈ (cmd_cleanup h []).1 -> Remove path ∈ (cleanup_loop h (discover_instances h)).1.1.
Proof.
  unfold cmd_cleanup. cbn [expect_no_args lift bind snd fst app].
  destruct (cleanup_loop h (discover_instances h)) as [[es removed] errors]. cbn [fst snd bind]. intros Hin.
  destruct ((removed =? 0) && (errors =? 0)), (0 <? errors); cbn in Hin; rewrite ?app_nil_r in Hin; try done;
    apply elem_of_app in Hin as [|Hin]; try done; by apply list_elem_of_singleton in Hin.
Qed.

(** ** Properties *)


(** [cleanup] never removes the pid file of a running daemon: neither when the
    daemon's command line names the interface, nor when it does not but the file holds
    its pid and no other pid file claims the same pid. *)
Theorem cleanup_spares_live (h : host) (hit : ProcHit) (k path : str) (pid : option Z) :
  NoDup (h_pid <$> scan_proc_for_pesigitgd h) -> hit ∈ scan_proc_for_pesigitgd h ->
  last_for k (pidfiles h) = Some (path, pid) ->
  h_interface hit = Some k \/
  (h_interface hit = None /\ pid = Some (h_pid hit) /\ forall k', pidfile_pid h k' = Some (h_pid hit) -> k' = k) ->
  Remove path ∉ (cmd_cleanup h []).1.
Proof.
  intros Hnd Hhit Hpf Hcase.
  destruct (owner_has_cmdline h hit k path pid) as (i & Hg & Hc); try done.
  intros Hes%elem_of_cleanup%cleanup_removes. destruct Hes as (i' & Hi' & Hp' & Hc').
  destruct (named_map_spec h) as (Hf & Hu & Hk). rewrite discover_eq in Hi'.
  apply elem_of_app in Hi' as [Hi'|Hi'].
  - apply list_elem_of_fmap in Hi' as ([k' i''] & -> & Hin'). apply bt_get_elem in Hin'; [|apply Hf].
    specialize (Hk k') as Hk1. rewrite Hin' in Hk1. destruct Hk1 as (_ & _ & Hpf'). cbn [snd] in *. rewrite Hp' in Hpf'.
    destruct (last_for k' (pidfiles h)) as [[p x]|] eqn:El'; [|done]. injection Hpf' as <-.
    apply last_for_elem in El', Hpf. assert (k' = k) as -> by by eapply pidfiles_inj. congruence.
  - rewrite list.Forall_forall in Hu. destruct (Hu i' Hi'). congruence.
Qed.

(** A stale pid file is trusted: with no daemon running for an interface, a signal
    command still signals the pid its file names, whatever process has it now, and
    a number of 2^31 or more becomes a negative one, which addresses a group of
    processes. *)
Theorem stale_pid_signalled (h : host) (k : str) (p : Z) :
  target_from_str k = Ok (Interface k) -> last_for k (named_hits (scan_proc_for_pesigitgd h)) = None ->
  pidfile_pid h k = Some p -> Kill (pid_t p) SIGTERM ∈ (cmd_stop h [k]).1.
Proof.
  intros Hk Hn Hp. unfold cmd_stop, cmd_signal, resolve. cbn [expect_optional_target lift bind snd fst app].
  rewrite Hk. cbn [bind snd fst app lift]. rewrite find_interface, pid_of_eq, Hn, Hp. cbn [fmap option_fmap option_map ok_or].
  cbn [bind lift snd fst app t_pid]. unfold send_signal, emit. cbn [bind snd fst app].
  destruct (kill h (pid_t p) SIGTERM); apply elem_of_cons; by left.
Qed.

(** ** Instances of the properties *)

(** Two pid files, one socket and two processes. *)
Definition example_host (files : list (option str * option str)) (procs : list (Z * str * str)) : host :=
  mkHost (Some files) (Some [Some (lit "status-eth0.sock"); None]) (Some (map (fun e => Some (fmt_dec e.1.1)) procs))
    (fun pid => (fun e => e.1.2) <$> find (fun e => e.1.1 =? pid) procs)
    (fun pid => (fun e => map (fun c => if c =? 32 then b8 0 else b8 c) e.2) <$> find (fun e => e.1.1 =? pid) procs)
    (fun _ _ => None) (fun _ => None) (fun _ => Ok []) (fun _ _ => NoReply []).

Definition running_host : host :=
  example_host
    [(Some (lit "pesigitgd-eth0.pid"), Some (lit "100")); (Some (lit "pesigitgd-eth1.pid"), Some (lit "200"));
     (Some (lit "cron.pid"), Some (lit "9"))]
    [(1, lit "systemd" ++ [10], lit "/sbin/init"); (150, lit "pesigitgd" ++ [10], lit "pesigitgd -f -i eth0");
     (200, lit "pesigitgd" ++ [10], lit "pesigitgd -c /etc/p.conf")].


Lemma cleanup_spares_live_witness :
  Remove (lit "/var/run/pesigitgd-eth1.pid") ∉ (cmd_cleanup running_host []).1.
Proof.
  apply (cleanup_spares_live running_host (mkHit 200 None (lit "pesigitgd -c /etc/p.conf")) (lit "eth1") _ (Some 200)).
  - refine (proj1 (bool_decide_eq_true _) _). vm_compute. reflexivity.
  - apply elem_of_cons. right. apply elem_of_cons. left. reflexivity.
  - vm_compute. reflexivity.
  - right. split; [reflexivity|]. split; [reflexivity|]. intros k'. unfold pidfile_pid.
    intros Hk. destruct (last_for k' (pidfiles running_host)) as [[p x]|] eqn:E; [|discriminate Hk]. cbv iota in Hk. subst x.
    apply last_for_elem in E.
    assert (Forall (fun e => e.2.2 = Some 200 -> e.1 = lit "eth1") (pidfiles running_host)) as HF
      by (repeat constructor; vm_compute; congruence).
    rewrite list.Forall_forall in HF. exact (HF _ E eq_refl).
Defined.

(** A recycled pid: the stale file of eth0 and the live one of eth1 name the same
    process, whose command line names no interface; [cleanup] credits it to eth0 and
    removes the pid file of the daemon that runs. *)
Example cleanup_removes_live :
  (cmd_cleanup (example_host
     [(Some (lit "pesigitgd-eth0.pid"), Some (lit "200")); (Some (lit "pesigitgd-eth1.pid"), Some (lit "200"))]
     [(200, lit "pesigitgd" ++ [10], lit "pesigitgd -c /etc/eth1.conf")]) []).1
  = [Remove (lit "/var/run/pesigitgd-eth1.pid"); Println (lit "removed stale pidfile: /var/run/pesigitgd-eth1.pid")].
Proof. vm_compute. reflexivity. Qed.

Example stop_everything :
  (cmd_stop (example_host [(Some (lit "pesigitgd-eth0.pid"), Some (lit "4294967295"))]
     [(1, lit "systemd" ++ [10], lit "/sbin/init")]) [lit "eth0"]).1
  = [Kill (-1) SIGTERM; Println (lit "sent SIGTERM to eth0 (pid 4294967295)")].
Proof. vm_compute. reflexivity. Qed.

(** The listing of a socket without a process and of a stale pid file. *)
Example list_stale :
  (cmd_list (example_host [(Some (lit "pesigitgd-eth1.pid"), Some (lit "77"))] []) []).1
  = [Println (lit "INTERFACE  PID      SOURCES"); Println (lit "eth0       ?        socket");
     Println (lit "eth1       77       pidfile  (stale pidfile)")].
Proof. vm_compute. reflexivity. Qed.
