(* ===== verification/Inspect.v ===== *)
(** * Decoding connection ids and provisioning backends

    Models the [whoami] and [backend-config] commands of
    [pesigitg-control/src/main.rs].  Each works on a route file (with the keys) or
    on the [/config] document of a running daemon (without them); the theorems
    relate the two to each other, to the daemon's document ([Status.v]) and to the
    load balancer's own decoder ([Cid.v]).  A panic stands for an aborted tool. *)

From S2P Require Import Prelude Std Common Route Cid LbCore RetryConfig ConfigTable Decimal Text BTree Json.
From S2P Require Import DaemonConfig Stats Status Control.

(** ** Text *)

Definition show_hex_error (e : hex_error) : str :=
  match e with
  | OddLength => lit "odd number of hex characters"
  | InvalidHex i => lit "invalid hex at position " ++ fmt_dec i
  end.

Definition parse_cid_hex (s : str) : rs (result (list byte) TargetError) :=
  let*+ bytes := rs_map_err (fun e => ExtraArgs (lit "invalid CID hex: " ++ show_hex_error e)) (hex_decode s) in
  match bytes with
  | [] => Done (Err (ExtraArgs (lit "CID must be non-empty")))
  | _ => Done (Ok bytes)
  end.

Definition config_line (config_id : Z) : str := lit "config_id: " ++ fmt_dec config_id.

(** The three lines on the scheme, common to both analyses. *)
Definition scheme_lines (scheme : str) (sid_len nonce_len : Z) : list str :=
  [lit "scheme:    " ++ scheme; lit "sid_len:   " ++ fmt_dec sid_len ++ lit " bytes";
   lit "nonce_len: " ++ fmt_dec nonce_len ++ lit " bytes"].

Definition truncated_line (n need : Z) : str :=
  lit "verdict:   truncated (CID is " ++ fmt_dec n ++ lit " byte(s); payload needs " ++ fmt_dec need ++ lit ")".

Definition reserved_line : str := lit "verdict:   config_id 7 is reserved (unroutable)".

Definition no_entry_line (config_id : Z) : str :=
  lit "verdict:   server_id has no entry in config_id=" ++ fmt_dec config_id
  ++ lit " (would count as cid_unroutable)".

Definition routes_line (addr mac : str) : str := lit "verdict:   routes to " ++ addr ++ lit " (" ++ mac ++ lit ")".

(** ** [whoami] on the daemon's document *)

Definition state_line (s : json) : str :=
  let healthy := or_default false (get_as as_bool (lit "healthy") s) in
  let draining := or_default false (get_as as_bool (lit "draining") s) in
  let transitions := or_default 0 (get_as as_u64 (lit "transitions") s) in
  let state :=
    [if healthy then lit "healthy" else lit "UNHEALTHY"]
    ++ (if draining then [lit "draining"] else [])
    ++ match get_as as_u64 (lit "state_since_secs") s with
       | Some secs => [lit "for " ++ format_duration secs]
       | None => []
       end
    ++ (if 0 <? transitions
        then [fmt_dec transitions ++ lit " flap" ++ (if transitions =? 1 then [] else lit "s")] else []) in
  lit "state:     " ++ join (lit ", ") state.

Definition find_json (key : str) (v : json -> bool) (l : list json) : option json :=
  find (fun c => match get key c with Some x => v x | None => false end) l.

Definition is_u64_val (n : Z) (v : json) : bool := bool_decide (as_u64 v = Some n).
Definition is_str_val (s : str) (v : json) : bool := bool_decide (as_str v = Some s).

Definition encrypted_lines (scheme : str) : list str :=
  [lit "verdict:   encrypted (" ++ scheme ++ lit ") " ++ [0x2014] ++ lit " online decode requires the key,";
   lit "           which /config does not expose. Re-run with";
   lit "           --route-config <path> for a full decode."].

Definition analyze_whoami (cid : list byte) (configs : list json) : rs (list str) :=
  let out := [lit "cid:       " ++ hex_encode cid] in
  let* b0 := idx cid 0 in
  let config_id := Z.shiftr (u8 b0) 5 in
  if config_id =? 7 then Done (out ++ [reserved_line])
  else
    let out := out ++ [config_line config_id] in
    match find_json (lit "config_id") (is_u64_val config_id) configs with
    | None => Done (out ++ [lit "verdict:   no route config with config_id=" ++ fmt_dec config_id
                            ++ lit " on this daemon"])
    | Some cfg =>
        let scheme := or_default (lit "?") (get_as as_str (lit "encryption") cfg) in
        let sid_len := or_default 0 (get_as as_u64 (lit "server_id_length") cfg) in
        let nonce_len := or_default 0 (get_as as_u64 (lit "nonce_length") cfg) in
        let payload_len := wrap64 (sid_len + nonce_len) in
        let out := out ++ scheme_lines scheme sid_len nonce_len in
        if len cid <? wrap64 (1 + payload_len) then
          Done (out ++ [truncated_line (len cid) (wrap64 (1 + payload_len))])
        else if negb (bool_decide (scheme = lit "plaintext")) then Done (out ++ encrypted_lines scheme)
        else
          let* id := slice cid 1 (wrap64 (1 + sid_len)) in
          let server_id_hex := hex_encode id in
          let out := out ++ [lit "server_id: " ++ server_id_hex] in
          match get_as as_array (lit "servers") cfg with
          | None => Done (out ++ [lit "verdict:   route config missing 'servers' array"])
          | Some servers =>
              match find_json (lit "id") (is_str_val server_id_hex) servers with
              | Some s =>
                  let addr := or_default (lit "?") (get_as as_str (lit "address") s) in
                  let mac := or_default (lit "(unset)") (get_as as_str (lit "mac") s) in
                  Done (out ++ [routes_line addr mac; state_line s])
              | None => Done (out ++ [no_entry_line config_id])
              end
          end
    end.

(** ** [whoami] on a route file *)

Section inspect.
  Context `{Aes : Aes128}.

Definition mac_or_unset (m : option mac) : rs str :=
  match m with Some m => mac_format m | None => Done (lit "(unset)") end.

Definition analyze_whoami_offline (cid : list byte) (configs : list RouteConfig) : rs (list str) :=
  let out := [lit "cid:       " ++ hex_encode cid] in
  let* b0 := idx cid 0 in
  let id := Z.shiftr (u8 b0) 5 in
  if id =? 7 then Done (out ++ [reserved_line])
  else
    let out := out ++ [config_line id] in
    match find (fun c => config_id c =? id) configs with
    | None => Done (out ++ [lit "verdict:   no route config with config_id=" ++ fmt_dec id ++ lit " in this file"])
    | Some cfg =>
        let out := out ++ scheme_lines (encryption_name (encryption cfg)) (server_id_length cfg) (nonce_length cfg) in
        let payload_len := cid_payload_length cfg in
        if len cid <? 1 + payload_len then Done (out ++ [truncated_line (len cid) (1 + payload_len)])
        else
          let* o := resolve_server_idx cid cfg in
          match o with
          | Some i =>
              let* server := idx (servers cfg) (Z.of_nat i) in
              let out := out ++ [lit "server_id: " ++ hex_encode (s_id server)] in
              let* mac_str := mac_or_unset (s_mac server) in
              let out := out ++ [routes_line (ip_to_string (s_address server)) mac_str] in
              Done (out ++ (if s_draining server then [lit "state:     draining"] else []))
          | None => Done (out ++ [no_entry_line id])
          end
    end.

(** ** [backend-config] *)

(** The document of one match. *)
Definition match_doc (config_id : Z) (server_id : str) (sid_len nonce_len : Z) (first_octet : bool)
    (encryption : str) (key : json) (redacted draining : bool) (address : str) (total : Z) : json :=
  obj [(lit "config_id", JNum config_id); (lit "server_id", JStr server_id);
       (lit "server_id_length", JNum sid_len); (lit "nonce_length", JNum nonce_len);
       (lit "first_octet_encodes_cid_length", JBool first_octet); (lit "encryption", JStr encryption);
       (lit "key", key); (lit "key_redacted", JBool redacted); (lit "draining", JBool draining);
       (lit "address", JStr address); (lit "cid_total_length", JNum total)].

Definition skipped (filter : option Z) (config_id : Z) : bool :=
  match filter with Some f => negb (config_id =? f) | None => false end.

Definition backend_match (server_id_hex : str) (redact_key : bool) (filter : option Z) (cfg : RouteConfig)
    : option json :=
  if skipped filter (config_id cfg) then None
  else
    let? server := find (fun s => bool_decide (hex_encode (s_id s) = server_id_hex)) (servers cfg) in
    let '(key_value, key_redacted) :=
      match encryption cfg with
      | Plaintext => (JNull, false)
      | SinglePass key _ | FourPass key _ =>
          (if redact_key then JNull else JStr (hex_encode key), redact_key)
      end in
    Some (match_doc (config_id cfg) (hex_encode (s_id server)) (server_id_length cfg) (nonce_length cfg)
            (first_octet_encodes_cid_length cfg) (encryption_name (encryption cfg)) key_value key_redacted
            (s_draining server) (ip_to_string (s_address server)) (cid_length cfg)).

Definition analyze_backend_config_offline (server_id_hex : str) (configs : list RouteConfig)
    (redact_key : bool) (config_id_filter : option Z) : list json :=
  omap (backend_match server_id_hex redact_key config_id_filter) configs.

End inspect.

Definition online_match (server_id_hex : str) (filter : option Z) (cfg : json) : option json :=
  let config_id := wrap8 (or_default 0 (get_as as_u64 (lit "config_id") cfg)) in
  if skipped filter config_id then None
  else
    let? servers := get_as as_array (lit "servers") cfg in
    let? server := find_json (lit "id") (is_str_val server_id_hex) servers in
    let encryption := or_default (lit "?") (get_as as_str (lit "encryption") cfg) in
    let sid_len := wrap8 (or_default 0 (get_as as_u64 (lit "server_id_length") cfg)) in
    let nonce_len := wrap8 (or_default 0 (get_as as_u64 (lit "nonce_length") cfg)) in
    let first_octet := or_default false (get_as as_bool (lit "first_octet_encodes_cid_length") cfg) in
    let address := or_default [] (get_as as_str (lit "address") server) in
    let draining := or_default false (get_as as_bool (lit "draining") server) in
    let key_redacted := negb (bool_decide (encryption = lit "plaintext")) in
    Some (match_doc config_id server_id_hex sid_len nonce_len first_octet encryption JNull key_redacted
            draining address (wrap8 (1 + sid_len + nonce_len))).

Definition analyze_backend_config_online (server_id_hex : str) (configs : list json)
    (config_id_filter : option Z) : list json :=
  omap (online_match server_id_hex config_id_filter) configs.

(** ** The commands *)

Section commands.
  Context `{Aes : Aes128} {IoError TomlError : Type}.
  Context (toml : str -> result (list RawConfig) TomlError).
  Context (read_to_string : str -> result str IoError).
  (** [Display] of an error of the route file. *)
  Context (show_route_error : RouteConfigError IoError TomlError -> str).
  (** [char::to_lowercase] outside ASCII. *)
  Context (lower_char : Z -> str).

Definition to_lowercase (s : str) : str :=
  concat (map (fun c => if (65 <=? c) && (c <=? 90) then [c + 32] else if c <? 128 then [c] else lower_char c) s).

Definition NO_TARGET_MSG : str :=
  lit "--route-config skips the daemon, so a target argument cannot be combined with it".

(** [parse_routes_file(&path).map_err(..)] *)
Definition route_file (path : str) : rs (result (list RouteConfig) TargetError) :=
  rs_map_err (fun e => ExtraArgs (lit "--route-config '" ++ path ++ lit "': " ++ show_route_error e))
    (parse_routes_file toml read_to_string path).

(** [v.get("route").and_then(|r| r.get("configs")).and_then(|c| c.as_array())] *)
Definition route_configs (v : json) : result (list json) TargetError :=
  ok_or (let? r := get (lit "route") v in get_as as_array (lit "configs") r)
    (BadResponse (lit "/config response missing route.configs")).

Definition cmd_whoami (h : host) (args : list str) : rs (act unit) :=
  match extract_flag args (lit "-r") (lit "--route-config") with
  | Err e => Done (throw e)
  | Ok (route_config_path, args) =>
      match args with
      | [] => Done (throw (ExtraArgs (lit "whoami requires a CID hex string (e.g. '00010203...')")))
      | arg0 :: more =>
          if 2 <? len args then
            Done (throw (ExtraArgs (lit "expected '<cid-hex> [target]', got: " ++ join (lit " ") args)))
          else
            let* cid := parse_cid_hex arg0 in
            match cid with
            | Err e => Done (throw e)
            | Ok cid =>
                match route_config_path with
                | Some path =>
                    match more with
                    | _ :: _ => Done (throw (ExtraArgs NO_TARGET_MSG))
                    | [] =>
                        let* configs := route_file path in
                        match configs with
                        | Err e => Done (throw e)
                        | Ok configs =>
                            let* lines := analyze_whoami_offline cid configs in
                            Done (print_lines ((lit "source:    " ++ path) :: lines))
                        end
                    end
                | None =>
                    let q := query_endpoint h (head more) (lit "/config") in
                    match q.2 with
                    | Err e => Done (q.1, Err e)
                    | Ok (resolved, v) =>
                        match route_configs v with
                        | Err e => Done (q.1, Err e)
                        | Ok configs =>
                            let header := lit "target:    " ++ t_interface resolved ++ lit " (pid "
                                          ++ fmt_dec (t_pid resolved) ++ lit ")" in
                            let* lines := analyze_whoami cid configs in
                            Done (q.1 ++ map Println (header :: lines), Ok tt)
                        end
                    end
                end
            end
      end
  end.

(** [--config-id] *)
Definition parse_filter (s : option str) : result (option Z) TargetError :=
  match s with
  | None => Ok None
  | Some s =>
      match from_str_radix 10 255 (str_bytes s) with
      | None => Err (ExtraArgs (lit "--config-id expects an integer 0-6, got '" ++ s ++ lit "'"))
      | Some n =>
          if 6 <? n then Err (ExtraArgs (lit "--config-id must be 0-6, got " ++ fmt_dec n)) else Ok (Some n)
      end
  end.

Definition backend_doc (source : json) (matches : list json) : json :=
  obj [(lit "schema_version", JNum 1); (lit "source", source); (lit "matches", JArr matches)].

(** Where the matches come from: the route file, or the daemon. *)
Definition backend_matches (h : host) (id : str) (path : option str) (no_key : bool) (filter : option Z)
    (more : list str) : rs (act (json * list json)) :=
  match path with
  | Some path =>
      match more with
      | _ :: _ => Done (throw (ExtraArgs NO_TARGET_MSG))
      | [] =>
          let* configs := route_file path in
          match configs with
          | Err e => Done (throw e)
          | Ok configs =>
              Done (ret (obj [(lit "kind", JStr (lit "file")); (lit "path", JStr path)],
                         analyze_backend_config_offline id configs no_key filter))
          end
      end
  | None =>
      let q := query_endpoint h (head more) (lit "/config") in
      match q.2 with
      | Err e => Done (q.1, Err e)
      | Ok (resolved, v) =>
          match route_configs v with
          | Err e => Done (q.1, Err e)
          | Ok configs =>
              Done (q.1, Ok (obj [(lit "kind", JStr (lit "daemon")); (lit "interface", JStr (t_interface resolved));
                                  (lit "pid", JNum (t_pid resolved))],
                             analyze_backend_config_online id configs filter))
          end
      end
  end.

Definition cmd_backend_config (h : host) (args : list str) : rs (act unit) :=
  match extract_flag args (lit "-r") (lit "--route-config") with
  | Err e => Done (throw e)
  | Ok (route_config_path, args) =>
      match extract_flag args [] (lit "--config-id") with
      | Err e => Done (throw e)
      | Ok (filter_str, args) =>
          let no_key := existsb (fun a => bool_decide (a = lit "--no-key")) args in
          let positional := List.filter (fun a => negb (bool_decide (a = lit "--no-key"))) args in
          match positional with
          | [] => Done (throw (ExtraArgs (lit "backend-config requires a server-id hex string (e.g. '000001')")))
          | arg0 :: more =>
              if 2 <? len positional then
                Done (throw (ExtraArgs (lit "expected '<server-id-hex> [target]', got: "
                                        ++ join (lit " ") positional)))
              else
                let server_id_hex := to_lowercase (trim arg0) in
                let* d := hex_decode server_id_hex in
                match d with
                | Err e => Done (throw (ExtraArgs (lit "invalid server-id hex: " ++ show_hex_error e)))
                | Ok _ =>
                    match parse_filter filter_str with
                    | Err e => Done (throw e)
                    | Ok filter =>
                        let* m := backend_matches h server_id_hex route_config_path no_key filter more in
                        Done (let! (source, matches) := m in emit (PrintJson (backend_doc source matches)))
                    end
                end
          end
      end
  end.

End commands.

(** The comment beside the empty short flag says it never matches an argument; an
    empty argument does, and swallows the next one. *)
Example empty_short_flag :
  extract_flag [[]; lit "000001"] [] (lit "--config-id") = Ok (Some (lit "000001"), []).
Proof. vm_compute. reflexivity. Qed.

(** ** Lemmas *)

Lemma hex_encode_inj a b : hex_encode a = hex_encode b -> a = b.
Proof. intros H. pose proof (hex_decode_encode a) as Ha. rewrite H, hex_decode_encode in Ha. by injection Ha. Qed.

Lemma find_Forall2 {A B} (R : A -> B -> Prop) (p : A -> bool) (q : B -> bool) l k :
  Forall2 R l k -> (forall x y, R x y -> p x = q y) ->
  match find p l, find q k with Some x, Some y => R x y | None, None => True | _, _ => False end.
Proof.
  intros H Hpq. induction H as [|x y l k Hxy _ IH]; [done|]. cbn [find]. rewrite (Hpq x y Hxy). by destruct (q y).
Qed.

Lemma rs_mapi_Forall2 {A B} (f : nat -> A -> rs B) l i ys :
  rs_mapi f i l = Done ys -> Forall2 (fun x y => exists j, f j x = Done y) l ys.
Proof.
  revert i ys. induction l as [|x l IH]; intros i ys; cbn [rs_mapi]; [by intros [= <-]|].
  destruct (f i x) as [y|] eqn:E; [|done]. destruct (rs_mapi f (S i) l) as [r|] eqn:Er; [|done].
  intros [= <-]. constructor; [by exists i|by eapply IH].
Qed.

Lemma as_u64_num n : 0 <= n < 2 ^ 64 -> as_u64 (JNum n) = Some n.
Proof. intros. unfold as_u64. destruct ((0 <=? n) && (n <? 2 ^ 64)) eqn:E; [done|]. bools; lia. Qed.

(** What a client reads from the document of a server. *)
Definition views_server (s : Server) (v : json) : Prop :=
  get_as as_str (lit "id") v = Some (hex_encode (s_id s)) /\
  get_as as_str (lit "address") v = Some (ip_to_string (s_address s)) /\
  mac_or_unset (s_mac s) = Done (or_default (lit "(unset)") (get_as as_str (lit "mac") v)) /\
  get_as as_bool (lit "draining") v = Some (s_draining s).

Lemma server_view_read now s v : server_view now s = Done v -> views_server s v.
Proof.
  unfold server_view, views_server, get_as. destruct (s_mac s) as [m|]; cbn [mac_or_unset].
  - destruct (mac_format m) as [t|]; [|done]. intros [= <-]. rewrite !get_obj. repeat split.
  - intros [= <-]. rewrite !get_obj. repeat split.
Qed.

Section views.
  Context `{Aes : Aes128}.

(** And from that of a route entry. *)
Record views_config (c : RouteConfig) (v : json) : Prop := {
  vc_id : get_as as_u64 (lit "config_id") v = Some (config_id c);
  vc_scheme : get_as as_str (lit "encryption") v = Some (encryption_name (encryption c));
  vc_sid : get_as as_u64 (lit "server_id_length") v = Some (server_id_length c);
  vc_nonce : get_as as_u64 (lit "nonce_length") v = Some (nonce_length c);
  vc_first : get_as as_bool (lit "first_octet_encodes_cid_length") v = None;
  vc_servers : exists ss, get_as as_array (lit "servers") v = Some ss /\ Forall2 views_server (servers c) ss;
}.

Lemma route_config_view_read c loaded now clock v :
  config_wf c -> route_config_view c loaded now clock = Done v -> views_config c v.
Proof.
  intros Hw. pose proof (wf_id _ Hw). pose proof (wf_sid _ Hw). pose proof (wf_nonce _ Hw).
  unfold route_config_view. destruct (rs_mapi _ 0 (servers c)) as [ss|] eqn:Es; [|done].
  apply rs_mapi_Forall2 in Es. assert (Forall2 views_server (servers c) ss) as Hss.
  { eapply Forall2_impl; [exact Es|]. intros s u [j Hj]. by eapply server_view_read. }
  intros [= <-]. set (age := match encryption c with Plaintext => None | _ => _ end).
  set (max := _ <$> max_key_age_secs c). clearbody age max.
  constructor; unfold get_as; rewrite get_obj.
  - rewrite <- (as_u64_num (config_id c)) by lia. by destruct age, max.
  - by destruct age, max.
  - rewrite <- (as_u64_num (server_id_length c)) by lia. by destruct age, max.
  - rewrite <- (as_u64_num (nonce_length c)) by lia. by destruct age, max.
  - by destruct age, max.
  - exists ss. split; [by destruct age, max|done].
Qed.

(** The route entries of the daemon's document. *)
Lemma config_doc_read a t now clock doc :
  table_wf t -> build_config_response a t now clock = Done doc ->
  exists cfgs, route_configs doc = Ok cfgs /\ Forall2 views_config (configs t) cfgs.
Proof.
  intros Ht. unfold build_config_response. destruct (rs_mapi _ 0 (configs t)) as [cfgs|] eqn:E; [|done].
  intros [= <-]. exists cfgs. split.
  - by destruct (retry t).
  - apply rs_mapi_Forall2 in E.
    assert (Forall config_wf (configs t)) as Hwf.
    { apply list.Forall_forall. intros c Hc. apply elem_of_configs in Hc as [i Hi]. by apply (tw_config _ Ht) in Hi as [? _]. }
    clear Ht. induction E as [|c v cs vs [j Hj] _ IH]; [constructor|]. inversion Hwf; subst.
    constructor; [by eapply route_config_view_read|auto].
Qed.

End views.

(** The first server with an id, found by position and by search. *)
Lemma find_position l id i :
  match position_id l id i with
  | Some k => (i <= k)%nat /\ find (fun s => bool_decide (s_id s = id)) l = l !! (k - i)%nat
  | None => find (fun s => bool_decide (s_id s = id)) l = None
  end.
Proof.
  revert i. induction l as [|s l IH]; intros i; cbn [position_id find]; [done|].
  case_bool_decide; [by rewrite Nat.sub_diag|]. specialize (IH (S i)). destruct (position_id l id (S i)) as [k|]; [|done].
  destruct IH as [Hk ->]. split; [lia|]. by replace (k - i)%nat with (S (k - S i)) by lia.
Qed.

Section decode.
  Context `{Aes : Aes128}.

Lemma find_configs t id :
  table_wf t -> 0 <= id -> find (fun c => config_id c =? id) (configs t) = table_get t id.
Proof.
  intros Ht Hid. unfold table_get, slot_get.
  destruct (find _ (configs t)) as [c|] eqn:E.
  - apply find_some in E as [Hin Hc]. apply list_elem_of_In, elem_of_configs in Hin as [i Hi].
    destruct (tw_config _ Ht _ _ Hi) as [_ Hci]. replace (Z.to_nat id) with i by lia. by rewrite Hi.
  - destruct (slots t !! Z.to_nat id) as [[c|]|] eqn:Es; [|done|done].
    pose proof (find_none _ _ E c) as Hn. destruct (tw_config _ Ht _ _ Es) as [_ Hci].
    exfalso. assert (In c (configs t)) as Hin by (apply list_elem_of_In, elem_of_configs; eauto).
    specialize (Hn Hin). cbn in Hn. lia.
Qed.

Lemma table_get_wf t id c : table_wf t -> table_get t id = Some c -> config_wf c.
Proof.
  intros Ht. unfold table_get, slot_get. destruct (slots t !! _) as [[c'|]|] eqn:E; [|done|done]. intros [= ->].
  by destruct (tw_config _ Ht _ _ E).
Qed.

(** The lines both analyses begin with, and those of a server. *)
Definition head_lines (cid : list byte) (c : RouteConfig) : list str :=
  [lit "cid:       " ++ hex_encode cid; config_line (config_id c)]
  ++ scheme_lines (encryption_name (encryption c)) (server_id_length c) (nonce_length c).

Definition server_lines (s : Server) (mac : str) : list str :=
  [lit "server_id: " ++ hex_encode (s_id s); routes_line (ip_to_string (s_address s)) mac].

Context `{!AesLaws}.

(** The analysis of a file, by what the datapath's decoder says. *)
Lemma whoami_offline_spec cid cfgs c b :
  idx cid 0 = Done b -> Z.shiftr (u8 b) 5 = config_id c -> config_wf c -> nonce_fits c ->
  find (fun c' => config_id c' =? config_id c) cfgs = Some c -> cid_length c <= len cid ->
  exists o, resolve_server_idx cid c = Done o /\
    match o with
    | Some i => exists s mac, servers c !! i = Some s /\ mac_or_unset (s_mac s) = Done mac /\
        analyze_whoami_offline cid cfgs
        = Done (head_lines cid c ++ server_lines s mac ++ (if s_draining s then [lit "state:     draining"] else []))
    | None => analyze_whoami_offline cid cfgs = Done (head_lines cid c ++ [no_entry_line (config_id c)])
    end.
Proof.
  intros Hb Hid Hw Hfit Hfind Hlen. destruct (cid_lengths _ Hw) as [Hpl Hcl]. pose proof (wf_id _ Hw).
  destruct (dcid_shape cid (cid_payload_length c)) as (b' & payload & rest & -> & Hp); [pose proof (wf_sid _ Hw); pose proof (wf_nonce _ Hw); lia|lia|].
  pose proof (resolve_server_idx_spec c b' payload rest Hw Hfit Hp) as Hr. unfold analyze_whoami_offline.
  rewrite Hb, Hid, Hfind. replace (config_id c =? 7) with false by lia.
  replace (len (b' :: payload ++ rest) <? 1 + cid_payload_length c) with false by lia. rewrite Hr.
  eexists. split; [done|]. unfold find_server_idx.
  destruct (position_id _ _ 0) as [i|] eqn:E; [|done].
  apply position_id_Some in E as (_ & s & Hs & _). rewrite Nat.sub_0_r in Hs. rewrite (idx_lookup _ _ s) by done.
  pose proof (Forall_lookup_1 _ _ _ _ (wf_servers _ Hw) Hs) as (_ & _ & Hm).
  assert (exists mac, mac_or_unset (s_mac s) = Done mac) as [mac Hmac].
  { destruct (s_mac s) as [m|]; [apply mac_format_returns; auto|by eexists]. }
  exists s, mac. split; [done|]. split; [done|]. rewrite Hmac. by destruct (s_draining s).
Qed.

End decode.

(** *** The daemon's document *)

Section online.
  Context `{Aes : Aes128}.

Lemma find_view_config t cfgs id :
  Forall2 views_config (configs t) cfgs ->
  match find (fun c => config_id c =? id) (configs t), find_json (lit "config_id") (is_u64_val id) cfgs with
  | Some c, Some v => views_config c v
  | None, None => True
  | _, _ => False
  end.
Proof.
  intros H. apply find_Forall2; [done|]. intros c v Hv. pose proof (vc_id _ _ Hv) as Hi. unfold get_as in Hi.
  destruct (get (lit "config_id") v) as [x|]; [|done]. unfold is_u64_val. rewrite Hi.
  destruct (config_id c =? id) eqn:E; symmetry; [apply bool_decide_eq_true; f_equal; lia|].
  apply bool_decide_eq_false. intros [= ?]. lia.
Qed.

Lemma find_view_server ss vs id :
  Forall2 views_server ss vs ->
  match find (fun s => bool_decide (s_id s = id)) ss, find_json (lit "id") (is_str_val (hex_encode id)) vs with
  | Some s, Some v => views_server s v
  | None, None => True
  | _, _ => False
  end.
Proof.
  intros H. apply find_Forall2; [done|]. intros s v (Hi & _). unfold get_as in Hi.
  destruct (get (lit "id") v) as [x|]; [|done]. unfold is_str_val. rewrite Hi.
  case_bool_decide as Hs; symmetry; [apply bool_decide_eq_true; by rewrite Hs|].
  apply bool_decide_eq_false. intros [= ?%hex_encode_inj]. done.
Qed.

(** The analysis of the document, on a plaintext entry. *)
Lemma whoami_online_spec cid t cfgs c b :
  Forall2 views_config (configs t) cfgs -> idx cid 0 = Done b -> Z.shiftr (u8 b) 5 = config_id c -> config_wf c ->
  encryption c = Plaintext -> find (fun c' => config_id c' =? config_id c) (configs t) = Some c ->
  cid_length c <= len cid ->
  let id := sub cid 1 (1 + server_id_length c) in
  match find (fun s => bool_decide (s_id s = id)) (servers c) with
  | Some s => exists mac st, mac_or_unset (s_mac s) = Done mac /\ starts_with (lit "state:") st = true /\
      analyze_whoami cid cfgs = Done (head_lines cid c ++ server_lines s mac ++ [st])
  | None => analyze_whoami cid cfgs
            = Done (head_lines cid c ++ [lit "server_id: " ++ hex_encode id; no_entry_line (config_id c)])
  end.
Proof.
  intros Hv Hb Hid Hw He Hfind Hlen id. destruct (cid_lengths _ Hw) as [Hpl Hcl].
  pose proof (wf_id _ Hw). pose proof (wf_sid _ Hw). pose proof (wf_nonce _ Hw).
  pose proof (find_view_config t cfgs (config_id c) Hv) as Hc. rewrite Hfind in Hc.
  unfold analyze_whoami. rewrite Hb, Hid. replace (config_id c =? 7) with false by lia.
  destruct (find_json (lit "config_id") _ cfgs) as [v|]; [|done]. destruct Hc as [_ Hsch Hsid Hnon _ (ss & Hss & Hss2)].
  rewrite Hsch, Hsid, Hnon, Hss, He. cbn [or_default encryption_name].
  assert (wrap64 (1 + wrap64 (server_id_length c + nonce_length c)) = 1 + server_id_length c + nonce_length c) as ->
    by (unfold wrap64; rewrite (Z.mod_small (server_id_length c + nonce_length c)), Z.mod_small by lia; lia).
  replace (len cid <? 1 + server_id_length c + nonce_length c) with false by lia.
  assert (wrap64 (1 + server_id_length c) = 1 + server_id_length c) as -> by (unfold wrap64; rewrite Z.mod_small; lia).
  rewrite bool_decide_true by done. cbn [negb]. rewrite slice_in by lia. fold id.
  pose proof (find_view_server (servers c) ss id Hss2) as Hs. unfold head_lines. rewrite He.
  destruct (find _ (servers c)) as [s|] eqn:Ef, (find_json (lit "id") _ ss) as [u|]; try done.
  apply find_some in Ef as [_ <-%bool_decide_eq_true]. destruct Hs as (_ & Ha & Hm & _).
  eexists _, (state_line u). split; [exact Hm|]. split; [done|]. by rewrite Ha.
Qed.

End online.

(** A plaintext id is in the clear. *)
Lemma resolve_plain `{AesLaws} c cid :
  config_wf c -> encryption c = Plaintext -> cid_length c <= len cid ->
  resolve_server_idx cid c = Done (find_server_idx c (sub cid 1 (1 + server_id_length c))).
Proof.
  intros Hw He Hlen. destruct (cid_lengths _ Hw) as [Hpl Hcl]. pose proof (wf_sid _ Hw). pose proof (wf_nonce _ Hw).
  destruct (dcid_shape cid (cid_payload_length c)) as (b & payload & rest & -> & Hp); [lia|lia|].
  rewrite resolve_server_idx_spec; [|done|unfold nonce_fits; by rewrite He|done]. unfold plain_payload. rewrite He.
  do 2 f_equal. change (b :: payload ++ rest) with ([b] ++ payload ++ rest).
  rewrite sub_app_r by (unfold len; simpl; lia). change (len [b]) with 1.
  rewrite sub_app_l by lia. f_equal; lia.
Qed.

(** *** Provisioning *)

Section provisioning.
  Context `{Aes : Aes128}.

(** What a backend does with a match: its fields, decoded, are the parameters of its
    encoder. *)
Definition provision_key (scheme : str) (key : json) : rs (option LbEncryption) :=
  if bool_decide (scheme = lit "plaintext") then Done (Some LbPlaintext)
  else
    match as_str key with
    | None => Done None
    | Some hex =>
        let* k := hex_decode hex in
        match k with
        | Err _ => Done None
        | Ok k => Done (if bool_decide (scheme = lit "single_pass") then Some (lb_single_pass k)
                        else if bool_decide (scheme = lit "four_pass") then Some (lb_four_pass k) else None)
        end
    end.

Definition provision (m : json) : rs (option QuicLbEncoder) :=
  let*? id := Done (get_as as_u64 (lit "config_id") m) in
  let*? sid := Done (get_as as_str (lit "server_id") m) in
  let*? n := Done (get_as as_u64 (lit "nonce_length") m) in
  let*? fo := Done (get_as as_bool (lit "first_octet_encodes_cid_length") m) in
  let*? scheme := Done (get_as as_str (lit "encryption") m) in
  let*? key := Done (get (lit "key") m) in
  let*? enc := provision_key scheme key in
  let* d := hex_decode sid in
  match d with
  | Err _ => Done None
  | Ok server_id => let* e := encoder_new (b8 id) server_id (b8 n) enc fo in Done (Some e)
  end.

Lemma find_hex_id ss sid :
  find (fun s => bool_decide (hex_encode (s_id s) = hex_encode sid)) ss = find (fun s => bool_decide (s_id s = sid)) ss.
Proof.
  induction ss as [|s ss IH]; [done|]. cbn [find]. rewrite IH.
  destruct (decide (s_id s = sid)) as [->|Hne]; [by rewrite !bool_decide_true|].
  rewrite !bool_decide_false; [done|done|]. intros ?%hex_encode_inj. done.
Qed.

(** The fields of a match, as a reader gets them. *)
Lemma match_doc_read id sid sl nl fo enc key red dr addr total :
  let m := match_doc id sid sl nl fo enc key red dr addr total in
  0 <= id < 2 ^ 64 -> 0 <= nl < 2 ^ 64 ->
  get_as as_u64 (lit "config_id") m = Some id /\ get_as as_str (lit "server_id") m = Some sid /\
  get_as as_u64 (lit "nonce_length") m = Some nl /\ get_as as_bool (lit "first_octet_encodes_cid_length") m = Some fo /\
  get_as as_str (lit "encryption") m = Some enc /\ get (lit "key") m = Some key.
Proof.
  intros m Hid Hnl. unfold m, match_doc, get_as. rewrite !get_obj.
  split; [by rewrite <- (as_u64_num id Hid)|]. split; [done|]. split; [by rewrite <- (as_u64_num nl Hnl)|]. repeat split.
Qed.

Lemma backend_match_server sid f redact c m :
  backend_match (hex_encode sid) redact f c = Some m ->
  exists s, s ∈ servers c /\ s_id s = sid /\ skipped f (config_id c) = false.
Proof.
  unfold backend_match. destruct (skipped f (config_id c)); [done|]. rewrite find_hex_id.
  destruct (find _ (servers c)) as [s|] eqn:E; [|done]. intros _. apply find_some in E as [Hin Hs%bool_decide_eq_true].
  exists s. by apply list_elem_of_In in Hin.
Qed.

Lemma backend_match_provision sid f c m :
  config_wf c -> backend_match (hex_encode sid) false f c = Some m ->
  exists e, provision m = Done (Some e) /\ encoder_matches e c /\ e_server_id e = sid /\
    e_encode_cid_length e = first_octet_encodes_cid_length c.
Proof.
  intros Hw Hm. destruct (backend_match_server _ _ _ _ _ Hm) as (s0 & Hin & Hs0 & Hsk). revert Hm.
  unfold backend_match. rewrite Hsk, find_hex_id. destruct (find _ (servers c)) as [s|] eqn:E; [|done].
  apply find_some in E as [_ Hs%bool_decide_eq_true]. rewrite Hs.
  pose proof (wf_servers _ Hw) as Hall. rewrite list.Forall_forall in Hall. destruct (Hall s0 Hin) as [Hlen _]. rewrite Hs0 in Hlen.
  pose proof (wf_id _ Hw). pose proof (wf_sid _ Hw). pose proof (wf_nonce _ Hw). pose proof (wf_sum _ Hw).
  pose proof (wf_enc _ Hw) as Henc. set (kv := match encryption c with Plaintext => _ | _ => _ end).
  destruct kv as [key red] eqn:Ekv. subst kv. intros [= <-]. unfold provision.
  destruct (match_doc_read (config_id c) (hex_encode sid) (server_id_length c) (nonce_length c)
    (first_octet_encodes_cid_length c) (encryption_name (encryption c)) key red (s_draining s)
    (ip_to_string (s_address s)) (cid_length c)) as (-> & -> & -> & -> & -> & ->); [lia|lia|].
  assert (exists enc, provision_key (encryption_name (encryption c)) key = Done (Some enc) /\
    match enc, encryption c with
    | LbPlaintext, Plaintext => True
    | LbSinglePass _ k, SinglePass _ k' => k = k'
    | LbFourPass _ k, FourPass _ k' => k = k'
    | _, _ => False end) as (enc & -> & Hmatch).
  { destruct (encryption c) as [|k ci|k ci]; [by eexists| |]; injection Ekv as <- <-; destruct Henc as (_ & -> & _);
      unfold provision_key; cbn [encryption_name as_str]; rewrite bool_decide_false by done; rewrite hex_decode_encode;
      by eexists. }
  rewrite hex_decode_encode. unfold encoder_new. rewrite !u8_b8_small by lia.
  replace (config_id c <=? 6) with true by lia. replace (len sid =? 0) with false by lia.
  replace (len sid <=? 15) with true by lia. replace (4 <=? nonce_length c) with true by lia.
  replace (nonce_length c <=? 18) with true by lia. replace (len sid + nonce_length c <=? 19) with true by lia.
  eexists. split; [done|]. by split; [constructor|].
Qed.

(** An entry that does not say its first octet carries the length. *)
Definition clear_first_octet (c : RouteConfig) : RouteConfig :=
  mkRouteConfig (config_id c) false (server_id_length c) (nonce_length c) (encryption c) (servers c) (max_key_age_secs c).

Lemma online_match_view c v sid f :
  config_wf c -> views_config c v ->
  online_match (hex_encode sid) f v = backend_match (hex_encode sid) true f (clear_first_octet c).
Proof.
  intros Hw [Hid Hsch Hsid Hnon Hfo (ss & Hss & Hv)]. pose proof (wf_id _ Hw). pose proof (wf_sid _ Hw).
  pose proof (wf_nonce _ Hw). pose proof (wf_sum _ Hw). destruct (cid_lengths _ Hw) as [_ Hcl].
  unfold online_match, backend_match. rewrite Hid, Hsch, Hsid, Hnon, Hfo, Hss. cbn [or_default].
  unfold wrap8. rewrite !(Z.mod_small (config_id c)), !(Z.mod_small (server_id_length c)),
    !(Z.mod_small (nonce_length c)), (Z.mod_small (1 + _ + _)) by lia.
  cbn [clear_first_octet config_id servers encryption server_id_length nonce_length first_octet_encodes_cid_length].
  destruct (skipped f (config_id c)); [done|]. rewrite find_hex_id. pose proof (find_view_server (servers c) ss sid Hv) as Hs.
  destruct (find _ (servers c)) as [s|] eqn:E, (find_json (lit "id") _ ss) as [u|]; try done.
  apply find_some in E as [_ <-%bool_decide_eq_true]. destruct Hs as (_ & -> & _ & ->). cbn [or_default].
  change (cid_length (clear_first_octet c)) with (cid_length c). rewrite Hcl.
  destruct (encryption c); cbn [encryption_name]; [by rewrite bool_decide_true|by rewrite bool_decide_false..].
Qed.

End provisioning.

(** ** Properties *)

(** The tool's offline decoder names the backend that issued a connection id:
    for every entry of a route file, whatever its scheme, and every id a server's
    encoder issues under that entry, the printed verdict is the address and the MAC
    of the server with that id. *)
Theorem whoami_names_issuer `{AesLaws} (cfgs : list RouteConfig) (c : RouteConfig) (e : QuicLbEncoder)
    (nonce : list byte) (rnd : byte) (i : nat) (s : Server) :
  NoDup (map config_id cfgs) -> c ∈ cfgs -> config_wf c -> nonce_fits c -> encoder_matches e c ->
  len nonce = nonce_length c -> find_server_idx c (e_server_id e) = Some i -> servers c !! i = Some s ->
  exists cid mac, encode_to_vec e nonce rnd = Done cid /\ mac_or_unset (s_mac s) = Done mac /\
    analyze_whoami_offline cid cfgs
    = Done (head_lines cid c ++ server_lines s mac ++ (if s_draining s then [lit "state:     draining"] else [])).
Proof.
  intros Hnd Hin Hw Hfit Hm Hn Hi Hs.
  destruct (cid_roundtrip_lemma e c nonce rnd Hw Hfit Hm Hn) as (cid & He & Hlen & Hb & Hr).
  destruct (cid_lengths _ Hw) as [Hpl Hcl]. pose proof (wf_sid _ Hw). pose proof (wf_nonce _ Hw).
  assert (find (fun c' => config_id c' =? config_id c) cfgs = Some c) as Hfind.
  { clear -Hnd Hin. induction cfgs as [|d cfgs IH]; [by apply elem_of_nil in Hin|]. cbn [map find] in *.
    apply NoDup_cons in Hnd as [Hnotin Hnd]. apply elem_of_cons in Hin as [<-|Hin]; [by rewrite Z.eqb_refl|].
    destruct (config_id d =? config_id c) eqn:E; [|auto]. exfalso. apply Hnotin. replace (config_id d) with (config_id c) by lia.
    by apply list_elem_of_fmap_2. }
  destruct (whoami_offline_spec cid cfgs c (elt cid 0)) as (o & Ho & Hlines); [apply idx_in; lia|done..|lia|].
  rewrite Hr, Hi in Ho. injection Ho as <-. destruct Hlines as (s' & mac & Hs' & Hmac & Hl).
  rewrite Hs in Hs'. injection Hs' as <-. by exists cid, mac.
Qed.

(** The tool's online decoder agrees with the datapath on plaintext entries: fed
    the [/config] document of a daemon, it prints for every long enough connection id
    of a plaintext entry the same lines as the offline decoder fed the daemon's own
    table - the same server, address and MAC - followed by a line on the state; and
    both say there is no such server exactly when the datapath resolves none. *)
Theorem whoami_online_agrees `{AesLaws} (a : Args) (t : ConfigTable) (now : Instant)
    (clock : nat -> nat -> Instant) (doc : json) (cid : list byte) (b : byte) (c : RouteConfig) :
  table_wf t -> build_config_response a t now clock = Done doc ->
  idx cid 0 = Done b -> table_get t (Z.shiftr (u8 b) 5) = Some c -> encryption c = Plaintext ->
  cid_length c <= len cid ->
  exists cfgs, route_configs doc = Ok cfgs /\
  exists o, resolve_server_idx cid c = Done o /\
    match o with
    | Some i => exists s mac st, servers c !! i = Some s /\ starts_with (lit "state:") st = true /\
        analyze_whoami cid cfgs = Done (head_lines cid c ++ server_lines s mac ++ [st]) /\
        analyze_whoami_offline cid (configs t)
        = Done (head_lines cid c ++ server_lines s mac ++ (if s_draining s then [lit "state:     draining"] else []))
    | None => exists id, analyze_whoami cid cfgs
          = Done (head_lines cid c ++ [lit "server_id: " ++ id; no_entry_line (config_id c)]) /\
        analyze_whoami_offline cid (configs t) = Done (head_lines cid c ++ [no_entry_line (config_id c)])
    end.
Proof.
  intros Ht Hdoc Hb Hget He Hlen. pose proof (table_get_wf _ _ _ Ht Hget) as Hw.
  destruct (config_doc_read _ _ _ _ _ Ht Hdoc) as (cfgs & Hr & Hv). exists cfgs. split; [done|].
  pose proof (u8_range b). assert (0 <= Z.shiftr (u8 b) 5) as Hpos by (apply Z.shiftr_nonneg; lia).
  assert (Z.shiftr (u8 b) 5 = config_id c) as Hid.
  { pose proof (find_configs t _ Ht Hpos) as Hf. rewrite Hget in Hf. apply find_some in Hf as [_ Hf]. lia. }
  assert (find (fun c' => config_id c' =? config_id c) (configs t) = Some c) as Hfind
    by (rewrite find_configs by lia || done; by rewrite <- Hid).
  assert (nonce_fits c) as Hfit by (unfold nonce_fits; by rewrite He).
  destruct (whoami_offline_spec cid (configs t) c b) as (o & Ho & Hoff); try done.
  pose proof (whoami_online_spec cid t cfgs c b Hv Hb Hid Hw He Hfind Hlen) as Hon. cbn zeta in Hon.
  exists o. split; [done|]. rewrite (resolve_plain c cid Hw He Hlen) in Ho. injection Ho as <-.
  pose proof (find_position (servers c) (sub cid 1 (1 + server_id_length c)) 0) as Hp. unfold find_server_idx in *.
  destruct (position_id _ _ 0) as [i|]; [|rewrite Hp in Hon; by eexists].
  destruct Hp as [_ Hp]. rewrite Nat.sub_0_r in Hp. destruct Hoff as (s & mac & Hs & Hmac & Hoff). rewrite Hp, Hs in Hon.
  destruct Hon as (mac' & st & Hmac' & Hst & Hon). rewrite Hmac in Hmac'. injection Hmac' as <-. by exists s, mac, st.
Qed.

(** C31. [backend-config] provisions backends the load balancer can route to: with a
    route file it emits a match for every entry that has the server (and passes the
    filter) and no other, and an encoder built from the fields of a match issues, for
    every nonce and random octet, connection ids that the entry resolves to a server
    with that id. *)
Theorem backend_config_provisions `{AesLaws} (sid : list byte) (cfgs : list RouteConfig) (f : option Z) :
  Forall config_wf cfgs ->
  (forall c, c ∈ cfgs -> (exists m, backend_match (hex_encode sid) false f c = Some m) <->
     skipped f (config_id c) = false /\ exists s, s ∈ servers c /\ s_id s = sid) /\
  (forall m, m ∈ analyze_backend_config_offline (hex_encode sid) cfgs false f ->
     exists c e, c ∈ cfgs /\ backend_match (hex_encode sid) false f c = Some m /\ provision m = Done (Some e) /\
       (nonce_fits c -> forall nonce rnd, len nonce = nonce_length c ->
          exists cid i s, encode_to_vec e nonce rnd = Done cid /\ resolve_server_idx cid c = Done (Some i) /\
            servers c !! i = Some s /\ s_id s = sid)).
Proof.
  intros Hall. rewrite list.Forall_forall in Hall. split.
  - intros c Hc. split.
    + intros [m Hm]. apply backend_match_server in Hm as (s & Hin & Hs & Hsk). eauto.
    + intros [Hsk (s & Hin & Hs)]. unfold backend_match. rewrite Hsk, find_hex_id.
      destruct (find _ (servers c)) as [s'|] eqn:E; [destruct (encryption c); by eexists|].
      pose proof (find_none _ _ E s ltac:(by apply list_elem_of_In)) as Hn.
      by apply bool_decide_eq_false in Hn.
  - intros m (c & Hc & Hm)%list_elem_of_omap. specialize (Hall c Hc).
    destruct (backend_match_provision sid f c m Hall Hm) as (e & Hp & Hmat & Hsid & _). exists c, e.
    split; [done|]. split; [done|]. split; [done|]. intros Hfit nonce rnd Hn.
    destruct (cid_roundtrip_lemma e c nonce rnd Hall Hfit Hmat Hn) as (cid & He & _ & _ & Hr).
    destruct (backend_match_server _ _ _ _ _ Hm) as (s & Hin & Hs & _). rewrite Hsid in Hr.
    unfold find_server_idx in Hr. destruct (position_id (servers c) sid 0) as [i|] eqn:Ei.
    + apply position_id_Some in Ei as (_ & s' & Hs' & Hid & _). rewrite Nat.sub_0_r in Hs'. by exists cid, i, s'.
    + apply position_id_None in Ei. rewrite list.Forall_forall in Ei. by destruct (Ei s Hin).
Qed.

(** Online and redacted provisioning.  From a daemon's [/config] document the tool
    emits what it would emit with [--no-key] from the daemon's own table, except that
    no entry says its first octet carries the length; and with [--no-key] the output
    does not depend on the keys at all. *)
Theorem backend_config_online `{Aes128} (a : Args) (t t' : ConfigTable) (now : Instant)
    (clock : nat -> nat -> Instant) (doc : json) (sid : list byte) (f : option Z) :
  table_wf t -> build_config_response a t now clock = Done doc -> table_pub t t' ->
  (exists cfgs, route_configs doc = Ok cfgs /\
     analyze_backend_config_online (hex_encode sid) cfgs f
     = analyze_backend_config_offline (hex_encode sid) (map clear_first_octet (configs t)) true f) /\
  analyze_backend_config_offline (hex_encode sid) (configs t) true f
  = analyze_backend_config_offline (hex_encode sid) (configs t') true f.
Proof.
  intros Ht Hdoc Hpub. split.
  - destruct (config_doc_read _ _ _ _ _ Ht Hdoc) as (cfgs & Hr & Hv). exists cfgs. split; [done|].
    assert (Forall config_wf (configs t)) as Hwf.
    { apply list.Forall_forall. intros c Hc. apply elem_of_configs in Hc as [i Hi]. by apply (tw_config _ Ht) in Hi as [? _]. }
    unfold analyze_backend_config_online, analyze_backend_config_offline. clear -Hv Hwf.
    induction Hv as [|c v cs vs Hcv _ IH]; [done|]. inversion Hwf; subst. cbn [map omap list_omap].
    rewrite (online_match_view c v) by done. destruct (backend_match _ _ _ _); rewrite IH by done; done.
  - apply configs_pub in Hpub. unfold analyze_backend_config_offline.
    induction Hpub as [|c c' cs cs' [H1 H2 H3 H4 H5 H6 H7] _ IH]; [done|]. cbn [omap list_omap]. rewrite IH.
    assert (backend_match (hex_encode sid) true f c = backend_match (hex_encode sid) true f c') as ->; [|done].
    unfold backend_match, cid_length, cid_payload_length. rewrite H1, H2, H3, H4, H5, H6.
    by destruct (encryption c), (encryption c').
Qed.

(** ** Instances of the properties *)

#[local] Existing Instance xor_aes.
#[local] Existing Instance xor_aes_laws.

Lemma example_configs_wf : Forall config_wf (configs (example_table 0)).
Proof.
  apply list.Forall_forall. intros c Hc. apply elem_of_configs in Hc as [i Hi].
  by apply (tw_config _ (example_table_wf 0)) in Hi as [? _].
Qed.

Lemma whoami_names_issuer_witness :
  exists cid, encode_to_vec four_pass_encoder [1; 2; 3; 4; 5; 6]%u8 0%u8 = Done cid /\
    analyze_whoami_offline cid (configs (example_table 0))
    = Done [lit "cid:       6b020203040562eec9c79406"; lit "config_id: 3"; lit "scheme:    four_pass"; lit "sid_len:   5 bytes";
            lit "nonce_len: 6 bytes"; lit "server_id: ed793a51d4"; lit "verdict:   routes to 10.0.0.2 ((unset))"].
Proof.
  destruct (whoami_names_issuer (configs (example_table 0)) four_pass_config four_pass_encoder
    [1; 2; 3; 4; 5; 6]%u8 0%u8 1 (mkServer [0xed; 0x79; 0x3a; 0x51; 0xd4]%u8 (V4 [10; 0; 0; 2]%u8) None false false 0 None))
    as (cid & mac & He & Hm & Hl).
  - refine (proj1 (bool_decide_eq_true _) _). vm_compute. reflexivity.
  - apply elem_of_configs. exists 3%nat. vm_compute. reflexivity.
  - exact four_pass_config_wf.
  - vm_compute. discriminate.
  - split; vm_compute; reflexivity.
  - vm_compute. reflexivity.
  - vm_compute. reflexivity.
  - vm_compute. reflexivity.
  - exists cid. split; [exact He|]. rewrite Hl. vm_compute in He, Hm. injection He as <-. injection Hm as <-.
    vm_compute. reflexivity.
Defined.

(** A plaintext table with two servers. *)
Definition plain_raw : RawConfig :=
  mkRawConfig 0%u8 true 2%u8 5%u8 None
    [mkRawServer (lit "0001") (lit "10.0.0.1") (Some (lit "de:ad:be:ef:00:11")) true;
     mkRawServer (lit "0002") (lit "2001:db8::1") None false] None.

Definition plain_read : rs (result ConfigTable (table_error unit unit)) :=
  table_from_str (fun _ => Ok [plain_raw]) (fun _ => Ok None) 0 1%positive [].

Definition plain_table : ConfigTable :=
  match plain_read with Done (Ok t) => t | _ => mkTable [] [] [] [] None end.

Lemma plain_read_ok : plain_read = Done (Ok plain_table).
Proof. vm_compute. reflexivity. Qed.

Lemma plain_table_wf : table_wf plain_table.
Proof. exact (proj1 (table_from_str_ok _ _ _ _ _ _ plain_read_ok)). Qed.

Definition plain_config : RouteConfig :=
  match table_get plain_table 0 with Some c => c | None => mkRouteConfig 0 false 0 0 Plaintext [] None end.

Definition plain_doc : json :=
  match build_config_response example_args plain_table 0 (fun _ _ => 0) with Done d => d | Panic => JNull end.

Lemma whoami_online_agrees_witness :
  exists cfgs, route_configs plain_doc = Ok cfgs /\
    analyze_whoami [0x07; 0; 2; 9; 9; 9; 9; 9]%u8 cfgs
    = Done [lit "cid:       0700020909090909"; lit "config_id: 0"; lit "scheme:    plaintext"; lit "sid_len:   2 bytes";
            lit "nonce_len: 5 bytes"; lit "server_id: 0002"; lit "verdict:   routes to 2001:db8::1 ((unset))";
            lit "state:     UNHEALTHY"].
Proof.
  destruct (whoami_online_agrees example_args plain_table 0 (fun _ _ => 0) plain_doc [0x07; 0; 2; 9; 9; 9; 9; 9]%u8
    0x07%u8 plain_config) as (cfgs & Hr & _).
  - exact plain_table_wf.
  - vm_compute. reflexivity.
  - vm_compute. reflexivity.
  - vm_compute. reflexivity.
  - vm_compute. reflexivity.
  - vm_compute. discriminate.
  - exists cfgs. split; [exact Hr|]. vm_compute in Hr. injection Hr as <-. vm_compute. reflexivity.
Defined.

Lemma backend_config_provisions_witness :
  exists m e, analyze_backend_config_offline (lit "ed793a51d4") (configs (example_table 0)) false (Some 3) = [m] /\
    provision m = Done (Some e).
Proof.
  destruct (backend_config_provisions [0xed; 0x79; 0x3a; 0x51; 0xd4]%u8 (configs (example_table 0)) (Some 3)
    example_configs_wf) as [_ Hm].
  assert (exists m, analyze_backend_config_offline (lit "ed793a51d4") (configs (example_table 0)) false (Some 3) = [m])
    as [m Hl] by (vm_compute; eexists; reflexivity).
  destruct (Hm m) as (c & e & _ & _ & Hp & _).
  - replace (hex_encode _) with (lit "ed793a51d4") by (vm_compute; reflexivity). rewrite Hl. apply elem_of_cons. by left.
  - exists m, e. split; [exact Hl|exact Hp].
Defined.

Lemma backend_config_online_witness :
  exists cfgs, route_configs plain_doc = Ok cfgs /\
    analyze_backend_config_online (hex_encode [0; 1]%u8) cfgs None
    = [match_doc 0 (lit "0001") 2 5 false (lit "plaintext") JNull false true (lit "10.0.0.1") 8].
Proof.
  destruct (backend_config_online example_args plain_table plain_table 0 (fun _ _ => 0) plain_doc [0; 1]%u8 None)
    as [(cfgs & Hr & Ho) _].
  - exact plain_table_wf.
  - vm_compute. reflexivity.
  - reflexivity.
  - exists cfgs. split; [exact Hr|]. rewrite Ho. vm_compute. reflexivity.
Defined.

(** The entry itself does encode the length in its first octet. *)
Example online_forgets_first_octet : first_octet_encodes_cid_length plain_config = true.
Proof. vm_compute. reflexivity. Qed.
