(* ===== verification/ControlMain.v ===== *)
(** * The command line of the control tool

    Models the command table, the resolution of a command name and the dispatch of
    [pesigitg-control/src/main.rs], and the samples of [watch], whose loop is in
    [Watch].  What crate [pico_args] reports of the command line - the subcommand and
    the two global flags - is an argument. *)

From S2P Require Import Prelude Std Common Route Text BTree Json Decimal Stats Status Control Inspect.

(** ** Sampling *)

Record StatsSample := mkSample {
  at_ : Instant;
  rx : Z;
  fwd : Z;
  cid : Z;
  fb : Z;
  unrt : Z;
  retry_iss : Z;
}.

Definition sample_from_value (v : json) (at_ : Instant) : StatsSample :=
  let g k := or_default 0 (get_as as_u64 k v) in
  mkSample at_ (g (lit "rx_packets")) (g (lit "forwarded")) (g (lit "cid_routed")) (g (lit "fallback_routed"))
    (g (lit "cid_unroutable")) (or_default 0 (let? r := get (lit "retry") v in get_as as_u64 (lit "issued") r)).

(** A counter that went backwards: the daemon restarted between two samples. *)
Definition rate_reset (curr prev : Z) : bool := curr <? prev.

(** The interval and the target of [watch]. *)
Definition watch_args (args : list str) : result (Z * option str) TargetError :=
  match extract_flag args (lit "-n") (lit "--interval") with
  | Err e => Err e
  | Ok (interval_str, rest) =>
      let interval :=
        match interval_str with
        | None => Ok 1
        | Some s =>
            match parse_usize s with
            | Some n => Ok n
            | None => Err (ExtraArgs (lit "--interval expects an integer, got '" ++ s ++ lit "'"))
            end
        end in
      match interval with
      | Err e => Err e
      | Ok n =>
          if n =? 0 then Err (ExtraArgs (lit "--interval must be at least 1 second"))
          else match expect_optional_target rest with Err e => Err e | Ok t => Ok (n, t) end
      end
  end.

(** ** The commands *)

Section table.
  Context `{Aes : Aes128} {IoError TomlError : Type}.
  Context (toml : str -> result (list RawConfig) TomlError).
  Context (read_to_string : str -> result str IoError).
  Context (show_route_error : RouteConfigError IoError TomlError -> str).
  Context (lower_char : Z -> str).
  (** The crate's version, and the loop of [watch] once its arguments are read. *)
  Context (pkg_version : str) (watch : host -> Z -> option str -> act unit).

Record Cmd := mkCmd {
  c_name : str;
  c_aliases : list str;
  c_summary : str;
  c_run : host -> list str -> rs (act unit);
}.

Definition cmd_version (args : list str) : act unit :=
  let! _ := lift (expect_no_args args) in println pkg_version.

Definition cmd_watch (h : host) (args : list str) : act unit :=
  match watch_args args with
  | Err e => throw e
  | Ok (n, t) => watch h n t
  end.

(** The names and aliases of the table. *)
Definition plain_cmd (name : str) (aliases : list str) (summary : str) (run : host -> list str -> act unit) : Cmd :=
  mkCmd name aliases summary (fun h args => Done (run h args)).

(** Every command but [help], which prints the table. *)
Definition CMDS' : list Cmd :=
  [plain_cmd (lit "list") [] (lit "list discovered pesigitgd instances") cmd_list;
   plain_cmd (lit "status") [] (lit "one-line health summary for a target") cmd_status;
   plain_cmd (lit "health") [] (lit "fetch /health JSON") cmd_health;
   plain_cmd (lit "stats") [] (lit "fetch /stats JSON") cmd_stats;
   plain_cmd (lit "config") [] (lit "fetch /config JSON (live daemon args + route table)") cmd_config;
   plain_cmd (lit "info") [] (lit "fetch /version JSON from the daemon (build identifiers)") cmd_info;
   plain_cmd (lit "endpoint") [] (lit "fetch an arbitrary status endpoint: endpoint <path> [target]") cmd_endpoint;
   mkCmd (lit "whoami") [] (lit "decode a QUIC CID: whoami <cid-hex> [target] [--route-config <path>]")
     (cmd_whoami toml read_to_string show_route_error);
   mkCmd (lit "backend-config") []
     (lit "emit per-backend QUIC-LB provisioning JSON: backend-config <server-id-hex> [target] [-r <path>] [--no-key] [--config-id N]")
     (cmd_backend_config toml read_to_string show_route_error lower_char);
   plain_cmd (lit "watch") [] (lit "poll /stats periodically and print rate deltas: watch [target] [-n SECS]") cmd_watch;
   plain_cmd (lit "pin-info") [] (lit "list bpffs pins under /sys/fs/bpf/pesigitg/<iface>/") cmd_pin_info;
   plain_cmd (lit "cleanup") [] (lit "remove stale pidfiles for daemons that are no longer running") cmd_cleanup;
   plain_cmd (lit "hup") [lit "reload"] (lit "send SIGHUP (reload daemon + route config, reset health backoff)") cmd_hup;
   plain_cmd (lit "stop") [] (lit "send SIGTERM (graceful shutdown)") cmd_stop;
   plain_cmd (lit "dump-stats") [lit "usr1"] (lit "send SIGUSR1 (log a stats snapshot)") cmd_dump_stats;
   plain_cmd (lit "restart") [lit "usr2"; lit "handoff"] (lit "send SIGUSR2 (zero-drop handoff to a fresh process)") cmd_restart;
   plain_cmd (lit "version") [] (lit "print this control utility's version") (fun _ => cmd_version);
   plain_cmd (lit "paths") [] (lit "show pidfile, runtime, and bpffs pin paths") (fun _ => cmd_paths)].

Definition HELP_NAME : str := lit "help".
Definition HELP_SUMMARY : str := lit "show this help".

Definition usage_entry (width : nat) (name : str) (aliases : list str) (summary : str) : list str :=
  (lit "  " ++ pad width name ++ lit "  " ++ summary)
  :: match aliases with
     | [] => []
     | _ => [lit "  " ++ pad width [] ++ lit "  (aliases: " ++ join (lit ", ") aliases ++ lit ")"]
     end.

Definition print_usage : act unit :=
  let entries := map (fun c => (c_name c, c_aliases c, c_summary c)) CMDS' ++ [(HELP_NAME, [], HELP_SUMMARY)] in
  let width := foldr Nat.max 0%nat (map (fun e => Z.to_nat (str_len e.1.1)) entries) in
  print_lines
    ([lit "pesigitg-ctl " ++ [0x2014] ++ lit " control utility for pesigitgd instances"; [];
      lit "Usage: pesigitg-ctl <command> [args]"; lit "       pesigitg-ctl -h | --help";
      lit "       pesigitg-ctl -V | --version"; []; lit "Commands:"]
     ++ concat (map (fun e => usage_entry width e.1.1 e.1.2 e.2) entries)
     ++ [[]; lit "A unique prefix is accepted (e.g. 'co' " ++ [0x2192] ++ lit " config, 'res' " ++ [0x2192] ++ lit " restart).";
         lit "Targets are an interface name (e.g. eth0) or a pid. With exactly";
         lit "one running instance, the target may be omitted."]).

Definition cmd_help (args : list str) : act unit :=
  let! _ := lift (expect_no_args args) in print_usage.

Definition CMDS : list Cmd := CMDS' ++ [plain_cmd HELP_NAME [] HELP_SUMMARY (fun _ => cmd_help)].

(** ** Resolving a name *)

Definition exact (name : str) (c : Cmd) : bool :=
  bool_decide (c_name c = name) || existsb (fun a => bool_decide (a = name)) (c_aliases c).

Definition find_cmd (name : str) : result Cmd str :=
  match find (exact name) CMDS with
  | Some c => Ok c
  | None =>
      match List.filter (fun c => starts_with name (c_name c)) CMDS with
      | [c] => Ok c
      | [] => Err (lit "unknown command: " ++ name ++ lit " (try `pesigitg-ctl help`)")
      | matches => Err (lit "ambiguous command '" ++ name ++ lit "' (matches: "
                        ++ join (lit ", ") (map c_name matches) ++ lit ")")
      end
  end.

(** ** Dispatch *)

Definition show_result (r : act unit) : list effect * result unit str :=
  (r.1, match r.2 with Ok tt => Ok tt | Err e => Err (show_error e) end).

Definition run (h : host) (cmd_name : option str) (help version : bool) (args : list str)
    : rs (list effect * result unit str) :=
  match cmd_name with
  | None =>
      Done (if help then show_result print_usage
            else if version then ([Println pkg_version], Ok tt)
            else ([], Err (lit "missing command (try `pesigitg-ctl help`)")))
  | Some name =>
      match find_cmd name with
      | Err e => Done ([], Err e)
      | Ok cmd =>
          if existsb (fun a => bool_decide (a = lit "-h") || bool_decide (a = lit "--help")) args then
            Done (show_result (print_lines
              ((c_name cmd ++ lit ": " ++ c_summary cmd)
               :: match c_aliases cmd with
                  | [] => []
                  | _ => [lit "  aliases: " ++ join (lit ", ") (c_aliases cmd)]
                  end)))
          else
            let* r := c_run cmd h args in
            Done (show_result r)
      end
  end.

(** ** Lemmas *)

Definition names (c : Cmd) : list str := c_name c :: c_aliases c.

Lemma exact_names name c : exact name c = true <-> name ∈ names c.
Proof.
  unfold exact, names. rewrite orb_true_iff, elem_of_cons, bool_decide_eq_true, existsb_exists. split.
  - intros [->|(a & Hin & ->%bool_decide_eq_true)]; [by left|right; by apply list_elem_of_In].
  - intros [->|Hin]; [by left|]. right. exists name. by rewrite list_elem_of_In in Hin; rewrite bool_decide_eq_true.
Qed.

Lemma names_NoDup : NoDup (concat (map names CMDS)).
Proof. refine (proj1 (bool_decide_eq_true _) _). vm_compute. reflexivity. Qed.

Lemma find_unique l name c :
  NoDup (concat (map names l)) -> c ∈ l -> exact name c = true -> find (exact name) l = Some c.
Proof.
  induction l as [|d l IH]; intros Hnd Hin He; [by apply elem_of_nil in Hin|]. cbn [map concat find] in *.
  apply NoDup_app in Hnd as (_ & Hdis & Hnd). apply elem_of_cons in Hin as [<-|Hin]; [by rewrite He|].
  destruct (exact name d) eqn:Ed; [|by apply IH]. exfalso. apply exact_names in Ed, He. apply (Hdis name Ed).
  apply list_elem_of_In, in_concat. exists (names c). split; [apply in_map; by apply list_elem_of_In|by apply list_elem_of_In].
Qed.

End table.

Lemma sample_num v k n : get k v = Some (JNum n) -> 0 <= n < 2 ^ 64 -> or_default 0 (get_as as_u64 k v) = n.
Proof. intros Hg Hn. unfold get_as. rewrite Hg. by rewrite as_u64_num. Qed.

(** ** Properties *)

(** Resolving a command name: every name and alias of the table selects its own
    command; any other text selects the one command whose name it begins, and is an
    error when there is none or more than one. *)
Theorem find_cmd_exact `{Aes128} {IoError TomlError} (toml : str -> result (list RawConfig) TomlError)
    (rd : str -> result str IoError) (show : RouteConfigError IoError TomlError -> str) (lower : Z -> str)
    (version : str) (watch : host -> Z -> option str -> act unit) (name : str) :
  let cmds := CMDS toml rd show lower version watch in
  let found := find_cmd toml rd show lower version watch name in
  (forall c, c ∈ cmds -> name = c_name c \/ name ∈ c_aliases c -> found = Ok c) /\
  ((forall c, c ∈ cmds -> name <> c_name c /\ name ∉ c_aliases c) ->
   match found with
   | Ok c => List.filter (fun c => starts_with name (c_name c)) cmds = [c]
   | Err _ => length (List.filter (fun c => starts_with name (c_name c)) cmds) <> 1%nat
   end).
Proof.
  intros cmds found. split.
  - intros c Hc Hn. unfold found, find_cmd. erewrite find_unique; [done|apply names_NoDup|done|].
    apply exact_names. apply elem_of_cons. naive_solver.
  - intros Hno. unfold found, find_cmd. fold cmds. rewrite (find_none_Forall (exact name) cmds).
    + destruct (List.filter _ cmds) as [|c [|c' l]]; done.
    + apply list.Forall_forall. intros c Hc. destruct (exact name c) eqn:E; [|done].
      apply exact_names, elem_of_cons in E. destruct (Hno c Hc). naive_solver.
Qed.

(** What [watch] and [status] read is what the daemon counts: a sample taken of the
    [/stats] document of a daemon has the counters of the aggregate over its workers. *)
Theorem sample_reads_counters (slots : list WorkerStats) (uptime : Z) (now : Instant) :
  Forall stats_wf slots -> 0 <= uptime < 2 ^ 64 ->
  let s := aggregate slots in
  sample_from_value (build_stats_response slots uptime) now
  = mkSample now (rx_packets s) (forwarded s) (cid_routed s) (fallback_routed s) (cid_unroutable s) (retry_issued s).
Proof.
  intros Hs Hu s. pose proof (aggregate_wf _ Hs) as Hw. unfold sample_from_value, build_stats_response.
  rewrite !(sample_num (obj _) (lit "rx_packets") (rx_packets s)), !(sample_num (obj _) (lit "forwarded") (forwarded s)),
    !(sample_num (obj _) (lit "cid_routed") (cid_routed s)), !(sample_num (obj _) (lit "fallback_routed") (fallback_routed s)),
    !(sample_num (obj _) (lit "cid_unroutable") (cid_unroutable s))
    by (rewrite ?get_obj; reflexivity || apply u64_wrap || apply Hw).
  f_equal. rewrite get_obj. change (bt_get (lit "retry") _) with (Some (retry_view s)). cbv iota.
  rewrite (sample_num (retry_view s) (lit "issued") (retry_issued s)); [done| |apply Hw].
  unfold retry_view. by rewrite get_obj.
Qed.

(** ** Instances of the properties *)

#[local] Existing Instance xor_aes.

Definition example_find (name : str) : result Cmd str :=
  find_cmd (IoError := unit) (TomlError := unit) (fun _ => Ok []) (fun _ => Ok []) (fun _ => []) (fun _ => []) []
    (fun _ _ _ => ret tt) name.

(** The prefixes the help text gives, an alias, and the ambiguity it mentions. *)
Example find_prefixes :
  match example_find (lit "co"), example_find (lit "res"), example_find (lit "handoff"), example_find (lit "stat") with
  | Ok a, Ok b, Ok c, Err d => map c_name [a; b; c] = [lit "config"; lit "restart"; lit "restart"] /\
      d = lit "ambiguous command 'stat' (matches: status, stats)"
  | _, _, _, _ => False
  end.
Proof. vm_compute. split; reflexivity. Qed.

Lemma find_cmd_exact_witness : exists c, example_find (lit "usr1") = Ok c /\ c_name c = lit "dump-stats".
Proof.
  destruct (find_cmd_exact (IoError := unit) (TomlError := unit) (fun _ => Ok []) (fun _ => Ok []) (fun _ => []) (fun _ => [])
    [] (fun _ _ _ => ret tt) (lit "usr1")) as [Hf _].
  exists (plain_cmd (lit "dump-stats") [lit "usr1"] (lit "send SIGUSR1 (log a stats snapshot)") cmd_dump_stats).
  split; [|reflexivity]. apply Hf.
  - do 14 (apply elem_of_cons; right). apply elem_of_cons. by left.
  - right. by apply elem_of_cons; left.
Defined.

Lemma sample_reads_counters_witness :
  rx (sample_from_value (build_stats_response [record_rx stats_new 7; record_rx stats_new 5] 3) 0) = 12.
Proof.
  rewrite sample_reads_counters; [reflexivity| |lia].
  repeat constructor; vm_compute; intuition discriminate.
Defined.
