(* ===== verification/Float64.v ===== *)
(** * Double-precision numbers

    The [f64] of the source, as IEEE 754 binary64 numbers of the specification in the
    Standard Library, with the conversions and the text of [format!] with a precision.
    The theorems bound the error of each operation: a conversion of an integer below
    [2^53] is exact, and a sum or a quotient is off by at most [2^-53] of its value. *)

From Stdlib Require Import QArith Qpower Qabs Lqa.
From Stdlib Require Import Floats.SpecFloat.
From S2P Require Import Prelude Std Decimal.

#[local] Open Scope Z_scope.

(** ** Rounding *)

(** The integer nearest to [a / b], the even one of two. *)
Definition half_even (a b : Z) : Z :=
  let q := a / b in
  match 2 * (a mod b) ?= b with
  | Lt => q
  | Eq => if Z.even q then q else q + 1
  | Gt => q + 1
  end.

(** ** Numbers *)

Definition f64 := spec_float.

Definition f64_zero : f64 := S754_zero false.

(** [n as f64] of an unsigned integer. *)
Definition of_u64 (n : Z) : f64 := binary_normalize 53 1024 n 0 false.

Definition fadd (x y : f64) : f64 := SFadd 53 1024 x y.
Definition fdiv (x y : f64) : f64 := SFdiv 53 1024 x y.

(** [x >= y], and [x.max(y)] of two numbers. *)
Definition fge (x y : f64) : bool := SFleb y x.
Definition fmax (x y : f64) : f64 := if SFltb x y then y else x.

(** [Duration::as_secs_f64] *)
Definition as_secs_f64 (d : Duration) : f64 :=
  fadd (of_u64 (d / 1000000000)) (fdiv (of_u64 (d mod 1000000000)) (of_u64 1000000000)).

(** ** Text *)

(** The digits of a number of up to 309 of them, as many as the largest double has. *)
Definition fmt_int (n : Z) : str := fmt_dec_fuel 309 n [].

(** An integer of units [10^-p], as a decimal number with [p] digits after the point. *)
Definition fixed (p : nat) (n : Z) : str :=
  let u := 10 ^ Z.of_nat p in
  fmt_int (n / u) ++ (if Nat.eqb p 0 then [] else lit "." ++ fmt_0 p (n mod u)).

(** The value of a positive number in units of [10^-p]: the exact value, rounded. *)
Definition scaled (p : nat) (m : positive) (e : Z) : Z :=
  let u := Z.pos m * 10 ^ Z.of_nat p in
  if 0 <=? e then u * 2 ^ e else half_even u (2 ^ - e).

(** [format!("{:.p}", x)] *)
Definition fmt_f64 (p : nat) (x : f64) : str :=
  match x with
  | S754_zero s => (if s then lit "-" else []) ++ fixed p 0
  | S754_infinity s => (if s then lit "-" else []) ++ lit "inf"
  | S754_nan => lit "NaN"
  | S754_finite s m e => (if s then lit "-" else []) ++ fixed p (scaled p m e)
  end.

(** ** The steps of a rounding *)

(** Where [a / b] is between two integers. *)
Definition located (a b : Z) : location :=
  let r := a mod b in if r =? 0 then loc_Exact else loc_Inexact (2 * r ?= b).

Lemma half_even_located a b : 0 < b -> round_nearest_even (a / b) (located a b) = half_even a b.
Proof.
  intros Hb. unfold located, half_even. destruct (Z.eqb_spec (a mod b) 0) as [E|E].
  - rewrite E. destruct (Z.compare_spec (2 * 0) b); [lia|done|lia].
  - cbn [round_nearest_even]. destruct (2 * (a mod b) ?= b); done.
Qed.

Lemma half_even_error a b : 0 < b -> 2 * Z.abs (half_even a b * b - a) <= b.
Proof.
  intros Hb. unfold half_even. pose proof (Z.div_mod a b ltac:(lia)). pose proof (Z.mod_pos_bound a b Hb).
  destruct (Z.compare_spec (2 * (a mod b)) b); [destruct (Z.even (a / b))| |]; nia.
Qed.

Lemma half_even_bounds a b l u : 0 < b -> l * b <= a -> a <= u * b -> l <= half_even a b <= u.
Proof. intros Hb Hl Hu. pose proof (half_even_error a b Hb). nia. Qed.

Lemma new_location_located a b : 0 < b -> new_location b (a mod b) = located a b.
Proof.
  intros Hb. unfold new_location, new_location_even, new_location_odd, located.
  destruct (Z.even b) eqn:E; (destruct (Z.eqb_spec (a mod b) 0); [done|]); [done|]. f_equal.
  assert (2 * (a mod b) <> b) by (intros Eb; rewrite <- Eb, Z.even_mul in E; done).
  destruct (Z.compare_spec (2 * (a mod b) + 1) b), (Z.compare_spec (2 * (a mod b)) b); done || lia.
Qed.

Lemma loc_of_record m l : loc_of_shr_record (shr_record_of_loc m l) = l.
Proof. by destruct l as [|[]]. Qed.

Lemma shr_m_record m l : shr_m (shr_record_of_loc m l) = m.
Proof. by destruct l as [|[]]. Qed.

Definition record_of (a b : Z) : shr_record := shr_record_of_loc (a / b) (located a b).

Lemma shr_1_spec m r s : 0 <= m ->
  shr_1 (Build_shr_record m r s) = Build_shr_record (m / 2) (Z.odd m) (r || s).
Proof. intros Hm. destruct m as [|[p|p|]|p]; cbn [shr_1]; try done; try lia; rewrite <- Z.div2_div; done. Qed.

(** One place further: the bit shifted out and what was below it locate the quotient. *)
Lemma shr_1_record a b : 0 <= a -> 0 < b -> shr_1 (record_of a b) = record_of a (2 * b).
Proof.
  intros Ha Hb. pose proof (Z.div_pos a b Ha Hb) as Hq. pose proof (Z.mod_pos_bound a b Hb) as Hr.
  assert (a / (2 * b) = a / b / 2) as Eq by (rewrite Z.div_div by lia; f_equal; lia).
  assert (a mod (2 * b) = b * ((a / b) mod 2) + a mod b) as Er.
  { rewrite (Z.mul_comm 2 b), Z.rem_mul_r by lia. lia. }
  unfold record_of. rewrite Eq. unfold located. rewrite Er, Zmod_odd.
  destruct (Z.odd (a / b)) eqn:Eo; destruct (Z.eqb_spec (a mod b) 0) as [E0|E0];
    destruct (Z.compare_spec (2 * (a mod b)) b); try lia; cbn [shr_record_of_loc]; rewrite shr_1_spec, Eo by lia;
    match goal with |- context [?x =? 0] => destruct (Z.eqb_spec x 0); try lia end;
    cbn [shr_record_of_loc]; try done;
    match goal with |- context [?x ?= ?y] => destruct (Z.compare_spec x y); try lia; try done end.
Qed.

Lemma iter_shr p a b : 0 <= a -> 0 < b -> SpecFloat.iter_pos shr_1 p (record_of a b) = record_of a (2 ^ Z.pos p * b).
Proof.
  intros Ha. revert b. induction p as [p IH|p IH|]; intros b Hb; cbn [SpecFloat.iter_pos].
  - rewrite shr_1_record, IH, IH by lia. f_equal. rewrite (Pos2Z.inj_xI p), Z.pow_add_r, Z.pow_twice_r by lia. lia.
  - rewrite IH, IH by lia. f_equal. rewrite (Pos2Z.inj_xO p), Z.pow_twice_r by lia. lia.
  - by rewrite shr_1_record.
Qed.

Lemma shr_record a b e n : 0 <= a -> 0 < b -> 0 <= n -> shr (record_of a b) e n = (record_of a (2 ^ n * b), e + n).
Proof.
  intros Ha Hb Hn. destruct n as [|n|n]; [|by cbn [shr]; rewrite iter_shr|lia].
  cbn [shr]. rewrite Z.add_0_r. do 2 f_equal. lia.
Qed.

Lemma digits2_log2 p : Z.pos (digits2_pos p) = Z.log2 (Z.pos p) + 1.
Proof.
  induction p as [p IH|p IH|]; cbn [digits2_pos]; [| |done]; rewrite Pos2Z.inj_succ, IH.
  - rewrite (Pos2Z.inj_xI p), Z.log2_succ_double by lia. lia.
  - rewrite (Pos2Z.inj_xO p), Z.log2_double by lia. lia.
Qed.

Lemma Zdigits2_log2 m : 0 < m -> Zdigits2 m = Z.log2 m + 1.
Proof. intros Hm. destruct m as [|p|p]; [lia|apply digits2_log2|lia]. Qed.

(** In the range of normal numbers the exponent is chosen for 53 digits. *)
Lemma fexp_normal e : -1021 <= e -> fexp 53 1024 e = e - 53.
Proof. intros He. unfold fexp, emin. lia. Qed.

Lemma shr_fexp_record a b e :
  0 < b -> 2 ^ 52 * b <= a -> -1021 <= Z.log2 (a / b) + 1 + e ->
  let n := Z.log2 (a / b) - 52 in
  shr_fexp 53 1024 (a / b) e (located a b) = (record_of a (2 ^ n * b), e + n).
Proof.
  intros Hb Ha He n. assert (2 ^ 52 <= a / b) as Hq by (apply Z.div_le_lower_bound; lia).
  pose proof (Z.log2_le_mono _ _ Hq) as Hl. rewrite Z.log2_pow2 in Hl by lia.
  unfold shr_fexp. rewrite Zdigits2_log2 by lia. rewrite fexp_normal by lia.
  rewrite <- shr_record by (lia || nia). unfold record_of, n. f_equal. lia.
Qed.

Lemma located_1 a : located a 1 = loc_Exact.
Proof. unfold located. by rewrite Z.mod_1_r. Qed.

(** The second normalization, of an integer that may have become [2^53]. *)
Lemma shr_fexp_carry N e :
  2 ^ 52 <= N <= 2 ^ 53 -> -1021 <= e + 53 ->
  exists M k, shr_m (shr_fexp 53 1024 N e loc_Exact).1 = Z.pos M /\ (shr_fexp 53 1024 N e loc_Exact).2 = e + k /\
    0 <= k <= 1 /\ 2 ^ 52 <= Z.pos M < 2 ^ 53 /\ Z.pos M * 2 ^ k = N.
Proof.
  intros HN He. assert (52 <= Z.log2 N) by (rewrite <- (Z.log2_pow2 52) by lia; apply Z.log2_le_mono; lia).
  pose proof (shr_fexp_record N 1 e ltac:(lia) ltac:(lia)) as H1. rewrite Z.div_1_r, located_1 in H1.
  rewrite H1 by lia. cbn [fst snd]. unfold record_of. rewrite shr_m_record, Z.mul_1_r.
  destruct (Z.eq_dec N (2 ^ 53)) as [->|Hn]; [by exists (Z.to_pos (2 ^ 52)), 1|].
  assert (Z.log2 N = 52) as -> by (apply Z.log2_unique; lia).
  exists (Z.to_pos N), 0. change (2 ^ (52 - 52)) with 1. rewrite Z.div_1_r, Z2Pos.id by lia. lia.
Qed.

Lemma scale_bounds a b : 0 < b -> 2 ^ 52 * b <= a ->
  let n := Z.log2 (a / b) - 52 in 0 <= n /\ 2 ^ 52 * (2 ^ n * b) <= a <= 2 ^ 53 * (2 ^ n * b).
Proof.
  intros Hb Ha n. assert (2 ^ 52 <= a / b) as Hq by (apply Z.div_le_lower_bound; lia).
  pose proof (Z.log2_le_mono _ _ Hq) as Hl. rewrite Z.log2_pow2 in Hl by lia.
  destruct (Z.log2_spec (a / b)) as [H1 H2]; [lia|]. unfold n.
  replace (Z.log2 (a / b)) with (52 + (Z.log2 (a / b) - 52)) in H1 by lia.
  replace (Z.succ (Z.log2 (a / b))) with (53 + (Z.log2 (a / b) - 52)) in H2 by lia.
  rewrite Z.pow_add_r in H1, H2 by lia. pose proof (Z.div_mod a b ltac:(lia)). pose proof (Z.mod_pos_bound a b Hb).
  set (P := 2 ^ (Z.log2 (a / b) - 52)) in *. split; [lia|]. nia.
Qed.

(** Rounding a quotient of 53 digits or more: the result is finite and off by at
    most [2^-53] of the quotient. *)
Lemma round_aux_spec a b e :
  0 < b -> 2 ^ 52 * b <= a -> -1021 <= Z.log2 (a / b) + 1 + e <= 1022 ->
  exists M e', binary_round_aux 53 1024 false (a / b) e (located a b) = S754_finite false M e' /\
    e <= e' /\ 2 ^ 52 <= Z.pos M < 2 ^ 53 /\ Z.abs (Z.pos M * 2 ^ (e' - e) * b - a) * 2 ^ 53 <= a.
Proof.
  intros Hb Ha He. destruct (scale_bounds a b Hb Ha) as (Hn & Hlo & Hhi). set (n := Z.log2 (a / b) - 52) in *.
  assert (0 < 2 ^ n * b) as HB by (apply Z.mul_pos_pos; lia).
  pose proof (half_even_bounds a _ _ _ HB Hlo Hhi) as HN. pose proof (half_even_error a _ HB) as Herr.
  unfold binary_round_aux. rewrite shr_fexp_record by lia. fold n. cbv beta iota zeta.
  unfold record_of at 1 2. rewrite shr_m_record, loc_of_record, half_even_located by done.
  set (N := half_even a (2 ^ n * b)) in *.
  destruct (shr_fexp_carry N (e + n)) as (M & k & EM & Ek & Hk & HM & HMk); [lia|lia|].
  destruct (shr_fexp 53 1024 N (e + n) loc_Exact) as [r e'] eqn:Er. cbn [fst snd] in EM, Ek. rewrite EM, Ek.
  destruct (Z.leb_spec (e + n + k) (1024 - 53)); [|lia]. exists M, (e + n + k).
  split; [done|]. split; [lia|]. split; [done|].
  replace (e + n + k - e) with (k + n) by lia. rewrite Z.pow_add_r by lia.
  replace (Z.pos M * (2 ^ k * 2 ^ n) * b) with (N * (2 ^ n * b)) by (rewrite <- HMk; ring).
  change (2 ^ 53) with (2 ^ 52 * 2). nia.
Qed.

(** ** Values *)

Definition two (e : Z) : Q := Qpower 2 e.

(** The value of a finite number. *)
Definition fval (x : f64) : Q :=
  match x with
  | S754_finite s m e => inject_Z (if s then Z.neg m else Z.pos m) * two e
  | _ => 0
  end.

(** A positive number with all 53 digits. *)
Definition normal (x : f64) : Prop := exists m e, x = S754_finite false m e /\ 2 ^ 52 <= Z.pos m < 2 ^ 53.

(** [x] is within [k] parts of [2^53] of [v]. *)
Definition within (k : Q) (x v : Q) : Prop := (Qabs (x - v) <= v * (k * two (-53)))%Q.

Lemma two_pos e : (0 < two e)%Q.
Proof. apply Qpower_0_lt. done. Qed.

Lemma two_add a b : (two (a + b) == two a * two b)%Q.
Proof. apply Qpower_plus. done. Qed.

Lemma two_Z n : 0 <= n -> (two n == inject_Z (2 ^ n))%Q.
Proof. intros Hn. unfold two. by rewrite Zpower_Qpower by lia. Qed.

(** The bound of [round_aux_spec], read as one on values. *)
Lemma within_of_bound (M : positive) e e' a b :
  0 < b -> e <= e' -> Z.abs (Z.pos M * 2 ^ (e' - e) * b - a) * 2 ^ 53 <= a ->
  within 1 (inject_Z (Z.pos M) * two e') (inject_Z a / inject_Z b * two e).
Proof.
  intros Hb He H. unfold within. set (V := Z.pos M * 2 ^ (e' - e)) in *.
  assert (inject_Z (Z.pos M) * two e' == inject_Z V * two e)%Q as ->.
  { replace e' with (e' - e + e) at 1 by lia. rewrite two_add, two_Z by lia. unfold V. rewrite inject_Z_mult. ring. }
  assert (0 < inject_Z b)%Q as Hb' by (change 0%Q with (inject_Z 0); rewrite <- Zlt_Qlt; done).
  assert (inject_Z V * two e - inject_Z a / inject_Z b * two e
          == inject_Z (V * b - a) * (/ inject_Z b * two e))%Q as ->.
  { rewrite <- Z.add_opp_r, inject_Z_plus, inject_Z_opp, inject_Z_mult. field. lra. }
  assert (0 < / inject_Z b * two e)%Q as Hs.
  { apply Qmult_lt_0_compat; [by apply Qinv_lt_0_compat|apply two_pos]. }
  rewrite Qabs_Qmult, (Qabs_pos (_ * two e)) by lra.
  assert (inject_Z a / inject_Z b * two e * (1 * two (-53))
          == (inject_Z a * two (-53)) * (/ inject_Z b * two e))%Q as -> by (unfold Qdiv; ring).
  apply Qmult_le_compat_r; [|lra].
  assert (Qabs (inject_Z (V * b - a)) == inject_Z (Z.abs (V * b - a)))%Q as -> by done.
  assert (inject_Z (Z.abs (V * b - a)) == inject_Z (Z.abs (V * b - a) * 2 ^ 53) * two (-53))%Q as ->.
  { rewrite inject_Z_mult. change (inject_Z (2 ^ 53)) with (two 53). rewrite <- Qmult_assoc, <- two_add. change (two (53 + -53)) with 1%Q. ring. }
  apply Qmult_le_compat_r; [by rewrite <- Zle_Qle|apply Qlt_le_weak, two_pos].
Qed.

Lemma iter_xO m k : Z.pos (Pos.iter xO m k) = Z.pos m * 2 ^ Z.pos k.
Proof.
  induction k as [|k IH] using Pos.peano_ind; [cbn; lia|].
  rewrite Pos.iter_succ, Pos2Z.inj_succ, Z.pow_succ_r by lia. change (Z.pos (Pos.iter xO m k)~0) with (2 * Z.pos (Pos.iter xO m k)). lia.
Qed.

(** An integer with an exponent: rounded if it has more than 53 digits, and exact otherwise. *)
Lemma binary_round_spec m e :
  -1021 <= Z.log2 (Z.pos m) + 1 + e <= 1022 ->
  let x := binary_round 53 1024 false m e in
  normal x /\ within 1 (fval x) (inject_Z (Z.pos m) * two e) /\
  (Z.pos m < 2 ^ 53 -> (fval x == inject_Z (Z.pos m) * two e)%Q).
Proof.
  intros He x. unfold x, binary_round. rewrite digits2_log2, fexp_normal by lia.
  destruct (Z.log2_spec (Z.pos m)) as [Hlo Hhi]; [lia|]. pose proof (Z.log2_nonneg (Z.pos m)).
  assert (exists a k, 0 <= k /\ Z.pos a = Z.pos m * 2 ^ k /\ (k = 0 \/ k = 52 - Z.log2 (Z.pos m)) /\ 2 ^ 52 <= Z.pos a /\
    shl_align m e (Z.log2 (Z.pos m) + 1 + e - 53) = (a, e - k)) as (a & k & Hk & Ea & Hk' & Ha & ->).
  { unfold shl_align. change (IntDef.Z.sub ?a ?b) with (a - b).
    destruct (Z.log2 (Z.pos m) + 1 + e - 53 - e) as [|d|d] eqn:Ed.
    1,2: exists m, 0; rewrite Z.sub_0_r; split_and!; [lia|lia|lia| |done];
      etrans; [|exact Hlo]; apply Z.pow_le_mono_r; lia.
    exists (Pos.iter xO m d), (Z.pos d). rewrite iter_xO. split_and!; [lia|lia|lia| |f_equal; lia].
    replace (2 ^ 52) with (2 ^ Z.log2 (Z.pos m) * 2 ^ Z.pos d) by (rewrite <- Z.pow_add_r by lia; f_equal; lia). nia. }
  assert (Z.log2 (Z.pos a) = Z.log2 (Z.pos m) + k) as El by (rewrite Ea, Z.log2_mul_pow2; lia).
  pose proof (round_aux_spec (Z.pos a) 1 (e - k) eq_refl ltac:(lia)) as Hr. rewrite Z.div_1_r, located_1 in Hr.
  destruct Hr as (M & e' & -> & He' & HM & Hb); [lia|].
  assert (inject_Z (Z.pos a) / inject_Z 1 * two (e - k) == inject_Z (Z.pos m) * two e)%Q as Ev.
  { rewrite Ea, inject_Z_mult, <- two_Z by lia. transitivity (inject_Z (Z.pos m) * (two k * two (e - k)))%Q; [field|].
    rewrite <- two_add. replace (k + (e - k)) with e by lia. done. }
  split; [by exists M, e'|]. split.
  - pose proof (within_of_bound M (e - k) e' (Z.pos a) 1 eq_refl He' Hb) as Hw. unfold within in *.
    rewrite Ev in Hw. exact Hw.
  - intros Hm. assert (Z.pos a < 2 ^ 53) as Ha'.
    { destruct Hk' as [->| ->]; [lia|]. rewrite Ea. replace (2 ^ 53) with (2 ^ Z.succ (Z.log2 (Z.pos m)) * 2 ^ (52 - Z.log2 (Z.pos m)))
        by (rewrite <- Z.pow_add_r by lia; f_equal; lia). nia. }
    assert (Z.pos M * 2 ^ (e' - (e - k)) = Z.pos a) as EM by lia. rewrite <- Ev, <- EM. cbn [fval].
    rewrite inject_Z_mult, <- two_Z by lia. transitivity (inject_Z (Z.pos M) * (two (e' - (e - k)) * two (e - k)))%Q; [|field].
    rewrite <- two_add. by replace (e' - (e - k) + (e - k)) with e' by lia.
Qed.

(** ** Operations *)

Lemma two_lt_inv a b : (two a < two b)%Q -> a < b.
Proof. intros H. by apply (Qpower_lt_compat_l_inv 2). Qed.

(** The exponent of a number between two powers of two. *)
Lemma normal_exponent m e l u :
  2 ^ 52 <= Z.pos m < 2 ^ 53 -> (two l <= inject_Z (Z.pos m) * two e)%Q -> (inject_Z (Z.pos m) * two e <= two u)%Q ->
  l - 53 < e <= u - 52.
Proof.
  intros Hm Hl Hu. pose proof (two_pos e) as He.
  assert (inject_Z (Z.pos m) < two 53)%Q as H1 by (change (two 53) with (inject_Z (2 ^ 53)); rewrite <- Zlt_Qlt; lia).
  assert (two 52 <= inject_Z (Z.pos m))%Q as H2 by (change (two 52) with (inject_Z (2 ^ 52)); rewrite <- Zle_Qle; lia).
  assert (two l < two (53 + e))%Q by (rewrite two_add; eapply Qle_lt_trans; [exact Hl|]; by apply Qmult_lt_compat_r).
  assert (two (52 + e) <= two u)%Q by (rewrite two_add; eapply Qle_trans; [|exact Hu]; apply Qmult_le_compat_r; [done|lra]).
  assert (two (52 + e) < two (u + 1))%Q by (eapply Qle_lt_trans; [eassumption|]; rewrite two_add; change (two 1) with 2%Q; pose proof (two_pos u); lra).
  apply two_lt_inv in H, H3. lia.
Qed.

#[global] Instance within_proper : Proper (Qeq ==> Qeq ==> Qeq ==> iff) within.
Proof. intros k k' Hk x x' Hx v v' Hv. unfold within. by rewrite Hk, Hx, Hv. Qed.

(** A positive number far from the ends of the range. *)
Definition mild (x : f64) : Prop := normal x /\ (two (-100) <= fval x)%Q /\ (fval x <= two 100)%Q.

Lemma mild_inv x : mild x ->
  exists m e, x = S754_finite false m e /\ 2 ^ 52 <= Z.pos m < 2 ^ 53 /\ -153 < e <= 48.
Proof. intros ((m & e & -> & Hm) & Hl & Hu). exists m, e. by pose proof (normal_exponent m e (-100) 100 Hm Hl Hu). Qed.

Lemma of_u64_spec n : 0 < n < 2 ^ 64 ->
  normal (of_u64 n) /\ within 1 (fval (of_u64 n)) (inject_Z n) /\ (n < 2 ^ 53 -> (fval (of_u64 n) == inject_Z n)%Q).
Proof.
  intros Hn. destruct n as [|p|p]; [lia| |lia]. unfold of_u64, binary_normalize.
  assert (0 <= Z.log2 (Z.pos p) < 64) by (split; [apply Z.log2_nonneg|apply Z.log2_lt_pow2; lia]).
  destruct (binary_round_spec p 0) as (H1 & H2 & H3); [lia|].
  assert (inject_Z (Z.pos p) * two 0 == inject_Z (Z.pos p))%Q as E by (change (two 0) with 1%Q; ring).
  rewrite E in H2. split_and!; [done|done|]. intros Hp. by rewrite H3, E.
Qed.

Lemma fdiv_spec x y : mild x -> mild y ->
  normal (fdiv x y) /\ within 1 (fval (fdiv x y)) (fval x / fval y).
Proof.
  intros (m1 & e1 & -> & Hm1 & He1)%mild_inv (m2 & e2 & -> & Hm2 & He2)%mild_inv.
  assert (forall m, 2 ^ 52 <= Z.pos m < 2 ^ 53 -> Z.log2 (Z.pos m) = 52) as Hlog
    by (intros m Hm; apply Z.log2_unique; lia).
  set (a := Z.pos m1 * 2 ^ 53).
  assert (2 ^ 52 * Z.pos m2 <= a) as Ha by (unfold a; nia).
  assert (52 <= Z.log2 (a / Z.pos m2) <= 53) as Hd.
  { split; [apply Z.log2_le_pow2|cut (Z.log2 (a / Z.pos m2) < 54); [lia|apply Z.log2_lt_pow2]].
    1,3: apply Z.lt_le_trans with (2 ^ 52); [lia|]; apply Z.div_le_lower_bound; lia.
    - apply Z.div_le_lower_bound; lia.
    - apply Z.div_lt_upper_bound; unfold a; lia. }
  destruct (round_aux_spec a (Z.pos m2) (e1 - e2 - 53)) as (M & e' & Er & He' & HM & Hb); [lia|done|lia|].
  assert (fdiv (S754_finite false m1 e1) (S754_finite false m2 e2) = S754_finite false M e') as ->.
  { unfold fdiv, SFdiv, SFdiv_core_binary. cbn [xorb]. rewrite !Zdigits2_log2, !Hlog, fexp_normal by lia.
    change (IntDef.Z.min ?x ?y) with (Z.min x y). change (IntDef.Z.sub ?x ?y) with (x - y).
    replace (Z.min (52 + 1 + e1 - (52 + 1 + e2) - 53) (e1 - e2)) with (e1 - e2 - 53) by lia.
    replace (e1 - e2 - (e1 - e2 - 53)) with 53 by lia. cbv iota. rewrite Z.shiftl_mul_pow2 by lia. fold a.
    change (IntDef.Z.div_eucl a (Z.pos m2)) with (Z.div_eucl a (Z.pos m2)).
    pose proof (new_location_located a (Z.pos m2) eq_refl) as Hloc. unfold Z.modulo in Hloc. unfold Z.div in Er.
    destruct (Z.div_eucl a (Z.pos m2)) as [q r]. rewrite Hloc. exact Er. }
  split; [by exists M, e'|]. cbn [fval].
  pose proof (within_of_bound M _ e' a (Z.pos m2) eq_refl He' Hb) as Hw.
  assert (inject_Z a / inject_Z (Z.pos m2) * two (e1 - e2 - 53)
          == inject_Z (Z.pos m1) * two e1 / (inject_Z (Z.pos m2) * two e2))%Q as E.
  { unfold a. rewrite inject_Z_mult. change (inject_Z (2 ^ 53)) with (two 53).
    pose proof (two_pos e2). assert (~ inject_Z (Z.pos m2) == 0)%Q by done.
    assert (two e1 == two 53 * two (e1 - e2 - 53) * two e2)%Q as ->
      by (rewrite <- !two_add; by replace (53 + (e1 - e2 - 53) + e2) with e1 by lia).
    field. split; [lra|done]. }
  by rewrite E in Hw.
Qed.

Lemma shl_align_fst m e e' : e' <= e -> Z.pos (shl_align m e e').1 = Z.pos m * 2 ^ (e - e').
Proof.
  intros He. unfold shl_align. change (IntDef.Z.sub e' e) with (e' - e).
  destruct (e' - e) as [|d|d] eqn:E; [|lia|].
  - replace (e - e') with 0 by lia. cbn. lia.
  - cbn [fst]. rewrite iter_xO. do 2 f_equal. lia.
Qed.

Lemma fadd_spec x y : mild x -> mild y ->
  normal (fadd x y) /\ within 1 (fval (fadd x y)) (fval x + fval y).
Proof.
  intros (m1 & e1 & -> & Hm1 & He1)%mild_inv (m2 & e2 & -> & Hm2 & He2)%mild_inv.
  unfold fadd, SFadd, cond_Zopp. change (IntDef.Z.min e1 e2) with (Z.min e1 e2). set (ez := Z.min e1 e2).
  rewrite !shl_align_fst by lia. set (S := Z.pos m1 * 2 ^ (e1 - ez) + Z.pos m2 * 2 ^ (e2 - ez)).
  assert (forall d, 0 <= d < 201 -> 0 < 2 ^ d <= 2 ^ 200) as Hp
    by (intros d Hd; split; [lia|apply Z.pow_le_mono_r; lia]).
  pose proof (Hp (e1 - ez) ltac:(lia)). pose proof (Hp (e2 - ez) ltac:(lia)).
  assert (0 < S <= 2 ^ 254) as HS by (unfold S; change (2 ^ 254) with (2 ^ 54 * 2 ^ 200); nia).
  change (IntDef.Z.add (?a * ?b) (?c * ?d)) with (a * b + c * d). fold S.
  destruct S as [|s|s] eqn:ES; [lia| |lia].
  assert (0 <= Z.log2 (Z.pos s) <= 254) as Hl.
  { split; [apply Z.log2_nonneg|]. rewrite <- (Z.log2_pow2 254) by lia. apply Z.log2_le_mono; lia. }
  destruct (binary_round_spec s ez) as (H1 & H2 & _); [lia|]. cbn [binary_normalize].
  split; [exact H1|]. cbn [fval].
  assert (inject_Z (Z.pos s) * two ez == inject_Z (Z.pos m1) * two e1 + inject_Z (Z.pos m2) * two e2)%Q as E; [|by rewrite E in H2].
  rewrite <- ES. unfold S. rewrite inject_Z_plus, !inject_Z_mult, <- !two_Z by lia.
  replace e1 with (e1 - ez + ez) at 2 by lia. replace e2 with (e2 - ez + ez) at 2 by lia. rewrite !two_add. ring.
Qed.

(** The order of two positive numbers is that of their values. *)
Lemma SFcompare_normal x y : normal x -> normal y -> SFcompare x y = Some (fval x ?= fval y)%Q.
Proof.
  intros (m1 & e1 & -> & Hm1) (m2 & e2 & -> & Hm2). cbn [SFcompare fval].
  assert (forall a b e e', 2 ^ 52 <= Z.pos a < 2 ^ 53 -> 2 ^ 52 <= Z.pos b < 2 ^ 53 -> e < e' ->
    (inject_Z (Z.pos a) * two e < inject_Z (Z.pos b) * two e')%Q) as Hlt.
  { intros a b e e' Ha Hb He. assert (two e' == inject_Z (2 ^ (e' - e)) * two e)%Q as ->
      by (rewrite <- two_Z, <- two_add by lia; by replace (e' - e + e) with e' by lia).
    rewrite Qmult_assoc, <- inject_Z_mult. apply Qmult_lt_compat_r; [apply two_pos|]. rewrite <- Zlt_Qlt.
    assert (2 <= 2 ^ (e' - e)) by (apply (Z.pow_le_mono_r 2 1); lia). nia. }
  f_equal. change (IntDef.Z.compare e1 e2) with (e1 ?= e2). destruct (Z.compare_spec e1 e2) as [->|H|H].
  - symmetry. change (PosDef.Pos.compare_cont Eq m1 m2) with (Z.pos m1 ?= Z.pos m2).
    pose proof (two_pos e2). destruct (Z.compare_spec (Z.pos m1) (Z.pos m2)) as [E|L|L].
    + injection E as ->. by apply Qeq_alt.
    + rewrite <- Qlt_alt. apply Qmult_lt_compat_r; [done|]. by rewrite <- Zlt_Qlt.
    + rewrite <- Qgt_alt. apply Qmult_lt_compat_r; [done|]. by rewrite <- Zlt_Qlt.
  - symmetry. rewrite <- Qlt_alt. by apply Hlt.
  - symmetry. rewrite <- Qgt_alt. by apply Hlt.
Qed.

Lemma fge_spec x y : normal x -> normal y -> if fge x y then (fval y <= fval x)%Q else (fval x < fval y)%Q.
Proof.
  intros Hx Hy. unfold fge, SFleb. rewrite SFcompare_normal by done.
  destruct (Qcompare_spec (fval y) (fval x)) as [E|L|L]; [rewrite E; apply Qle_refl|by apply Qlt_le_weak|done].
Qed.

Lemma fmax_spec x y : normal x -> normal y ->
  normal (fmax x y) /\ (fval x <= fval (fmax x y))%Q /\ (fval y <= fval (fmax x y))%Q /\ (fmax x y = x \/ fmax x y = y).
Proof.
  intros Hx Hy. unfold fmax, SFltb. rewrite SFcompare_normal by done.
  destruct (Qcompare_spec (fval x) (fval y)) as [E|L|L]; split_and!; try done; try lra; auto.
Qed.

(** ** Durations *)

Lemma within_iff k x v :
  within k x v <-> (v - v * (k * two (-53)) <= x)%Q /\ (x <= v + v * (k * two (-53)))%Q.
Proof. unfold within. rewrite Qabs_Qle_condition. split; intros [H1 H2]; split; lra. Qed.

Lemma within_mono k k' x v : (0 <= v)%Q -> (k <= k')%Q -> within k x v -> within k' x v.
Proof.
  intros Hv Hk. unfold within. intros H. eapply Qle_trans; [exact H|]. pose proof (two_pos (-53)).
  rewrite !(Qmult_comm v). apply Qmult_le_compat_r; [|done]. apply Qmult_le_compat_r; [done|lra].
Qed.

Lemma mild_near x v k : normal x -> (0 <= k <= 8)%Q -> within k (fval x) v -> (two (-99) <= v)%Q -> (v <= two 99)%Q -> mild x.
Proof.
  intros Hx Hk Hw Hl Hu. split; [done|].
  assert (0 <= v)%Q as Hv by (pose proof (two_pos (-99)); lra).
  apply (within_mono k 8) in Hw; [|done|lra]. apply within_iff in Hw as [H1 H2].
  change (two (-53)) with (1 # 9007199254740992)%Q in H1, H2.
  assert (two (-100) == (1 # 2) * two (-99))%Q as -> by reflexivity.
  assert (two 100 == 2 * two 99)%Q as -> by reflexivity. split; lra.
Qed.

Lemma inject_Z_two_bounds n : 1 <= n < 2 ^ 99 -> (two (-99) <= inject_Z n)%Q /\ (inject_Z n <= two 99)%Q.
Proof.
  intros Hn. split.
  - eapply Qle_trans; [|rewrite <- Zle_Qle; apply Hn]. by vm_compute.
  - change (two 99) with (inject_Z (2 ^ 99)). rewrite <- Zle_Qle. lia.
Qed.

Lemma of_u64_mild n : 0 < n < 2 ^ 64 -> mild (of_u64 n).
Proof.
  intros Hn. destruct (of_u64_spec n Hn) as (H1 & H2 & _). destruct (inject_Z_two_bounds n); [lia|].
  by apply (mild_near _ (inject_Z n) 1).
Qed.

Definition secs_of (d : Duration) : Q := inject_Z d / inject_Z 1000000000.

(** The part below a second. *)
Lemma nanos_spec r : 0 < r < 1000000000 ->
  let y := fdiv (of_u64 r) (of_u64 1000000000) in mild y /\ within 1 (fval y) (secs_of r).
Proof.
  intros Hr y. destruct (fdiv_spec (of_u64 r) (of_u64 1000000000)) as [H1 H2]; [apply of_u64_mild; lia..|].
  destruct (of_u64_spec r) as (_ & _ & Er); [lia|]. rewrite Er in H2 by lia.
  destruct (of_u64_spec 1000000000) as (_ & _ & Eg); [lia|]. rewrite Eg in H2 by lia. fold (secs_of r) y in H2.
  split; [|done]. apply (mild_near _ (secs_of r) 1); [done|done|done| |].
  - apply Qle_shift_div_l; [done|]. apply Qle_trans with (inject_Z 1); [by vm_compute|].
    rewrite <- Zle_Qle. lia.
  - apply Qle_shift_div_r; [done|]. apply Qle_trans with (inject_Z 1000000000); [|by vm_compute]. rewrite <- Zle_Qle. lia.
Qed.

Lemma secs_split d : (secs_of d == inject_Z (d / 1000000000) + secs_of (d mod 1000000000))%Q.
Proof.
  unfold secs_of. rewrite (Z.div_mod d 1000000000) at 1 by lia. rewrite inject_Z_plus, inject_Z_mult. field.
Qed.

Lemma secs_of_nonneg d : 0 <= d -> (0 <= secs_of d)%Q.
Proof.
  intros Hd. apply Qle_shift_div_l; [done|]. rewrite Qmult_0_l. change 0%Q with (inject_Z 0). by rewrite <- Zle_Qle.
Qed.

Lemma secs_of_bounds d : 1 <= d < 2 ^ 53 * 1000000000 -> (two (-99) <= secs_of d)%Q /\ (secs_of d <= two 99)%Q.
Proof.
  intros Hd. unfold secs_of. split.
  - apply Qle_shift_div_l; [done|]. apply Qle_trans with (inject_Z 1); [by vm_compute|]. rewrite <- Zle_Qle. lia.
  - apply Qle_shift_div_r; [done|]. apply Qle_trans with (inject_Z (2 ^ 53 * 1000000000)); [|by vm_compute].
    rewrite <- Zle_Qle. lia.
Qed.

(** The seconds of a duration, off by at most three parts of [2^53]. *)
Lemma as_secs_f64_spec d : 0 < d < 2 ^ 53 * 1000000000 -> mild (as_secs_f64 d) /\ within 3 (fval (as_secs_f64 d)) (secs_of d).
Proof.
  intros Hd. cut (normal (as_secs_f64 d) /\ within 3 (fval (as_secs_f64 d)) (secs_of d)).
  { intros [H1 H2]. destruct (secs_of_bounds d); [lia|]. split; [|done]. by apply (mild_near _ (secs_of d) 3). }
  unfold as_secs_f64. pose proof (secs_split d) as Es.
  assert (0 <= d / 1000000000 < 2 ^ 53) as Hs by (split; [apply Z.div_pos|apply Z.div_lt_upper_bound]; lia).
  pose proof (Z.mod_pos_bound d 1000000000 eq_refl) as Hr.
  set (s := d / 1000000000) in *. set (r := d mod 1000000000) in *.
  assert (0 <= inject_Z s)%Q as Hs0 by (change 0%Q with (inject_Z 0); rewrite <- Zle_Qle; lia).
  destruct (Z.eq_dec s 0) as [E0|Hs1], (Z.eq_dec r 0) as [E1|Hr1].
  - exfalso. pose proof (Z.div_mod d 1000000000). lia.
  - rewrite E0 in *. destruct (nanos_spec r) as [Hm Hw]; [lia|]. rewrite Es, Qplus_0_l.
    destruct (mild_inv _ Hm) as (m & e & Ey & _). rewrite Ey in *. split; [apply Hm|].
    apply (within_mono 1); [apply secs_of_nonneg; lia|done|done].
  - rewrite E1 in *. destruct (of_u64_mild s) as [Hn _]; [lia|]. destruct (of_u64_spec s) as (_ & _ & Ev); [lia|].
    change (fdiv (of_u64 0) _) with f64_zero. destruct Hn as (m & e & Ey & Hm). rewrite Ey in *.
    change (fadd (S754_finite false m e) f64_zero) with (S754_finite false m e).
    split; [by exists m, e|]. rewrite Ev, Es by lia.
    assert (secs_of 0%Z == 0)%Q as -> by done. apply within_iff. change (two (-53)) with (1 # 9007199254740992)%Q. split; lra.
  - destruct (nanos_spec r) as [Hm Hw]; [lia|]. set (y := fdiv _ _) in *.
    destruct (fadd_spec (of_u64 s) y) as [Hn Ha]; [apply of_u64_mild; lia|done|]. split; [done|].
    destruct (of_u64_spec s) as (_ & _ & Ev); [lia|]. rewrite Ev in Ha by lia. rewrite Es.
    apply within_iff in Ha, Hw. apply within_iff. change (two (-53)) with (1 # 9007199254740992)%Q in *.
    pose proof (secs_of_nonneg r ltac:(lia)).
    destruct Ha, Hw. split; lra.
Qed.

(** ** Decimal text *)

Definition ten (p : nat) : Q := inject_Z (10 ^ Z.of_nat p).

Lemma ten_pos p : (0 < ten p)%Q.
Proof. unfold ten. change 0%Q with (inject_Z 0). rewrite <- Zlt_Qlt. lia. Qed.

(** The decimal number is off by at most half of its last place. *)
Lemma scaled_error p m e :
  (Qabs (inject_Z (scaled p m e) / ten p - fval (S754_finite false m e)) <= (1 # 2) / ten p)%Q.
Proof.
  pose proof (ten_pos p) as Ht. unfold scaled. cbn [fval]. destruct (Z.leb_spec 0 e) as [He|He].
  - assert (inject_Z (Z.pos m * 10 ^ Z.of_nat p * 2 ^ e) / ten p - inject_Z (Z.pos m) * two e == 0)%Q as ->.
    { rewrite !inject_Z_mult, two_Z by done. fold (ten p). field. lra. }
    change (Qabs 0) with 0%Q. apply Qle_shift_div_l; [done|]. lra.
  - set (u := Z.pos m * 10 ^ Z.of_nat p). set (b := 2 ^ - e). assert (0 < b) as Hb by (unfold b; lia).
    pose proof (half_even_error u b Hb) as Herr. set (h := half_even u b) in *.
    assert (0 < inject_Z b)%Q as Hb' by (change 0%Q with (inject_Z 0); by rewrite <- Zlt_Qlt).
    assert (two e * inject_Z b == 1)%Q as Eb.
    { unfold b. rewrite <- two_Z, <- two_add by lia. replace (e + - e) with 0 by lia. done. }
    assert (inject_Z h / ten p - inject_Z (Z.pos m) * two e == inject_Z (h * b - u) * (two e / ten p))%Q as ->.
    { unfold u. rewrite <- Z.add_opp_r, inject_Z_plus, inject_Z_opp, !inject_Z_mult. fold (ten p).
      transitivity (inject_Z h * (two e * inject_Z b) / ten p - inject_Z (Z.pos m) * two e)%Q; [rewrite Eb|]; field; lra. }
    pose proof (two_pos e). assert (0 < two e / ten p)%Q by (apply Qlt_shift_div_l; [done|lra]).
    rewrite Qabs_Qmult, (Qabs_pos (two e / ten p)) by lra.
    assert ((1 # 2) / ten p == (1 # 2) * inject_Z b * (two e / ten p))%Q as ->.
    { transitivity ((1 # 2) * (two e * inject_Z b) / ten p)%Q; [rewrite Eb|]; field; lra. }
    apply Qmult_le_compat_r; [|lra]. change (Qabs (inject_Z (h * b - u))) with (inject_Z (Z.abs (h * b - u))).
    rewrite Zle_Qle, inject_Z_mult in Herr. change (inject_Z 2) with 2%Q in Herr. lra.
Qed.

Lemma scaled_nonneg p m e : 0 <= scaled p m e.
Proof.
  unfold scaled. destruct (Z.leb_spec 0 e); [lia|].
  assert (1 <= 2 ^ - e) by lia. assert (0 < 10 ^ Z.of_nat p) by lia.
  apply (half_even_bounds _ _ 0 (Z.pos m * 10 ^ Z.of_nat p)); nia.
Qed.

(** The text has [p] digits after the point, and its digits are the number. *)
Lemma fixed_spec p n : 0 <= n < 10 ^ 309 -> (p <= 20)%nat ->
  exists a b, fixed p n = a ++ (if Nat.eqb p 0 then [] else lit ".") ++ b /\ a <> [] /\ length b = p /\
    Forall is_digit (a ++ b) /\ dec_val 0 (a ++ b) = n.
Proof.
  intros Hn Hp. set (u := 10 ^ Z.of_nat p). assert (0 < u) by (unfold u; lia).
  assert (0 <= n / u < 10 ^ 309) as Hq by (split; [apply Z.div_pos; lia|apply Z.div_lt_upper_bound; nia]).
  pose proof (Z.mod_pos_bound n u ltac:(lia)) as Hr. pose proof (Z.div_mod n u ltac:(lia)) as Hd.
  destruct (fmt_dec_fuel_spec 309 (n / u) []) as (a & Ea & Ha0 & Had & Hav); [change (Z.of_nat 309) with 309; lia|lia|].
  rewrite app_nil_r in Ea. exists a. unfold fixed, fmt_int. fold u. rewrite Ea. destruct (Nat.eqb_spec p 0) as [->|Hp0].
  - exists []. rewrite !app_nil_r. split_and!; try done. unfold u in *. change (10 ^ Z.of_nat 0) with 1 in *. lia.
  - destruct (fmt_0_spec p (n mod u)) as (Hl & Hbd & Hbv); [unfold u in *; lia|lia|].
    exists (fmt_0 p (n mod u)). split_and!; [done|done|done|by apply Forall_app|].
    rewrite dec_val_app, Hav, Hbv. unfold len. rewrite Hl. fold u. lia.
Qed.
