(* ===== verification/Watch.v ===== *)
(** * The sampling loop of [pesigitg-ctl watch]

    Models [rate], [watch_header] and the loop of [cmd_watch] in
    [pesigitg-control/src/main.rs], over the double-precision numbers of [Float64].
    What a round sees - the host, and the two readings of the clock - is a tick; the
    loop runs over the ticks of a session, and has no end of its own.  The theorems
    say which lines are printed, and how far a printed rate is from the quotient of
    the counters by the time. *)

From Stdlib Require Import QArith Qabs Lqa.
From Stdlib Require Import Floats.SpecFloat.
From S2P Require Import Prelude Std Common Text Json Decimal Stats Status Control ControlMain Float64.

#[local] Open Scope Z_scope.

(** ** Rates *)

Definition watch_rate (curr prev : Z) (dt_secs : f64) : str :=
  if rate_reset curr prev then lit "*"
  else
    let r := fdiv (of_u64 (curr - prev)) dt_secs in
    if fge r (of_u64 10000) then fmt_f64 0 r
    else if fge r (of_u64 100) then fmt_f64 1 r
    else fmt_f64 2 r.

(** The literal [1e-9]: the quotient is the double nearest to it. *)
Definition nano : f64 := fdiv (of_u64 1) (of_u64 1000000000).

Definition elapsed_secs (d : Duration) : f64 := fmax (as_secs_f64 d) nano.

(** ** Lines *)

(** [format!("{:>w$}")] *)
Definition lpad (w : nat) (s : str) : str := replicate (w - length s) 32 ++ s.

Definition widths : list nat := [10; 10; 10; 12; 10; 12]%nat.

Definition watch_line (elapsed : str) (cells : list str) : str :=
  pad 8 elapsed ++ concat (zip_with (fun w c => lit "  " ++ lpad w c) widths cells).

Definition watch_header : str :=
  watch_line (lit "elapsed")
    [lit "rx/s"; lit "fwd/s"; lit "cid/s"; lit "fallback/s"; lit "unrt/s"; lit "retry_iss/s"].

(** The six counters of a sample, in the order of the columns. *)
Definition counters (s : StatsSample) : list Z := [rx s; fwd s; cid s; fb s; unrt s; retry_iss s].

Definition watch_cells (prev : option StatsSample) (sample : StatsSample) : list str :=
  match prev with
  | None => replicate 6 (lit "-")
  | Some p =>
      let dt := elapsed_secs (duration_since (at_ sample) (at_ p)) in
      zip_with (fun c q => watch_rate c q dt) (counters sample) (counters p)
  end.

(** ** The loop *)

Record Tick := mkTick {
  k_host : host;
  (** [Instant::now()] after the answer, and the reading of [start.elapsed()] *)
  k_now : Instant;
  k_elapsed : Instant;
}.

Section watch.
  Context (target : option str) (start : Instant).

Definition elapsed_text (k : Tick) : str := fmt_dec (as_secs (duration_since (k_elapsed k) start)) ++ lit "s".

(** One round: the previous sample and the number of rows, before and after. *)
Definition watch_round (st : option StatsSample * Z) (k : Tick) : act (option StatsSample * Z) :=
  let '(prev, row) := st in
  let! r := query_endpoint (k_host k) target (lit "/stats") in
  let sample := sample_from_value r.2 (k_now k) in
  let! _ := println (watch_line (elapsed_text k) (watch_cells prev sample)) in
  let row := wrap64 (row + 1) in
  let! _ := (if row mod 20 =? 0 then println watch_header else ret tt) in
  ret (Some sample, row).

Fixpoint watch_rounds (st : option StatsSample * Z) (ticks : list Tick) : act (option StatsSample * Z) :=
  match ticks with
  | [] => ret st
  | k :: ticks => let! st := watch_round st k in watch_rounds st ticks
  end.

Definition watch_loop (ticks : list Tick) : act (option StatsSample * Z) :=
  let! _ := println watch_header in watch_rounds (None, 0) ticks.

End watch.

(** What the command table runs once the arguments are read, interrupted after the ticks. *)
Definition watch (start : Instant) (ticks : list Tick) (_ : host) (_ : Z) (target : option str) : act unit :=
  let! _ := watch_loop target start ticks in ret tt.

(** ** The accuracy of a rate *)

Lemma elapsed_secs_spec d : 0 <= d < 2 ^ 53 * 1000000000 ->
  mild (elapsed_secs d) /\ within 3 (fval (elapsed_secs d)) (secs_of (Z.max 1 d)).
Proof.
  intros Hd. unfold elapsed_secs. destruct (nanos_spec 1) as [Hn Hw]; [lia|]. fold nano in Hn, Hw.
  destruct (Z.eq_dec d 0) as [->|Hd0].
  { change (fmax (as_secs_f64 0) nano) with nano. split; [done|]. by apply (within_mono 1). }
  replace (Z.max 1 d) with d by lia. destruct (as_secs_f64_spec d) as [Hm Hx]; [lia|].
  destruct (fmax_spec (as_secs_f64 d) nano) as (_ & Hge & _ & [E|E]); [apply Hm|apply Hn|by rewrite E|].
  rewrite E in *. split; [done|].
  assert (secs_of 1%Z <= secs_of d)%Q as Hle.
  { unfold secs_of. apply Qmult_le_compat_r; [rewrite <- Zle_Qle; lia|done]. }
  assert (0 <= secs_of 1%Z)%Q by done. apply within_iff in Hx as [Hx _], Hw as [_ Hw].
  apply within_iff. change (two (-53)) with (1 # 9007199254740992)%Q in *.
  split; lra.
Qed.

(** A quotient of two numbers that are close to the exact ones. *)
Lemma quotient_close x t r n T :
  (0 < n)%Q -> (0 < T)%Q -> within 1 x n -> within 3 t T -> within 1 r (x / t) -> within 8 r (n / T).
Proof.
  intros Hn HT Hx Ht Hr. apply within_iff in Hx as [Hx1 Hx2], Ht as [Ht1 Ht2], Hr as [Hr1 Hr2]. apply within_iff.
  change (two (-53)) with (1 # 9007199254740992)%Q in *.
  assert (0 < t)%Q as Ht0 by lra. set (q := (n / T)%Q).
  assert (0 < q)%Q as Hq by (apply Qlt_shift_div_l; [done|lra]).
  assert (n == q * T)%Q as En by (unfold q; field; lra).
  assert (q * (T - T * (3 * (1 # 9007199254740992))) <= q * t)%Q as H1 by (apply Qmult_le_l; [done|lra]).
  assert (q * t <= q * (T + T * (3 * (1 # 9007199254740992))))%Q as H2 by (apply Qmult_le_l; [done|lra]).
  assert (x / t <= q * (1 + 5 * (1 # 9007199254740992)))%Q by (apply Qle_shift_div_r; [done|]; lra).
  assert (q * (1 - 5 * (1 # 9007199254740992)) <= x / t)%Q by (apply Qle_shift_div_l; [done|]; lra).
  split; lra.
Qed.

(** The exact rate, in events per second. *)
Definition exact_rate (n : Z) (d : Duration) : Q := inject_Z n / secs_of (Z.max 1 d).

Lemma rate_quotient n d : 0 < n < 2 ^ 64 -> 0 <= d < 2 ^ 53 * 1000000000 ->
  let r := fdiv (of_u64 n) (elapsed_secs d) in normal r /\ within 8 (fval r) (exact_rate n d).
Proof.
  intros Hn Hd r. destruct (elapsed_secs_spec d Hd) as [Hm Hw]. destruct (of_u64_spec n Hn) as (_ & Hx & _).
  destruct (fdiv_spec (of_u64 n) (elapsed_secs d)) as [Hr Hq]; [by apply of_u64_mild|done|]. split; [done|].
  eapply quotient_close; [| |exact Hx|exact Hw|exact Hq].
  - change 0%Q with (inject_Z 0). rewrite <- Zlt_Qlt. lia.
  - apply Qlt_shift_div_l; [done|]. rewrite Qmult_0_l. change 0%Q with (inject_Z 0). rewrite <- Zlt_Qlt. lia.
Qed.

(** The decimals that [rate] keeps: none from 10000 on, one from 100 on, two below. *)
Definition decimals (p : nat) (P : Z) : Prop :=
  match p with
  | 0%nat => 10000 <= P
  | 1%nat => 1000 <= P <= 100000
  | 2%nat => 0 <= P <= 10000
  | _ => False
  end.

(** [s] is a decimal number with [p] digits after the point whose digits are [P]. *)
Definition shows (s : str) (p : nat) (P : Z) : Prop :=
  exists a b, s = a ++ (if Nat.eqb p 0 then [] else lit ".") ++ b /\ a <> [] /\ length b = p /\
    Forall is_digit (a ++ b) /\ dec_val 0 (a ++ b) = P.

(** A text of a rate: off by at most half of its last place and [8 * 2^-53] of the rate. *)
Definition shows_rate (s : str) (n : Z) (d : Duration) : Prop :=
  exists p P, shows s p P /\ decimals p P /\
    (Qabs (inject_Z P / ten p - exact_rate n d) <= (1 # 2) / ten p + exact_rate n d * (8 * two (-53)))%Q.

(** The number in units of its last place, from a bound on the value. *)
Lemma units_bounds (P l u : Z) (v : Q) :
  (Qabs (inject_Z P - v) <= 1 # 2)%Q -> (inject_Z l <= v)%Q -> (v <= inject_Z u)%Q -> l <= P <= u.
Proof.
  intros H Hl Hu. apply Qabs_Qle_condition in H as [H1 H2].
  assert (inject_Z (2 * l) <= inject_Z (2 * P + 1))%Q as A by (rewrite inject_Z_plus, !inject_Z_mult; change (inject_Z 2) with 2%Q; change (inject_Z 1) with 1%Q; lra).
  assert (inject_Z (2 * P) <= inject_Z (2 * u + 1))%Q as B by (rewrite inject_Z_plus, !inject_Z_mult; change (inject_Z 2) with 2%Q; change (inject_Z 1) with 1%Q; lra).
  rewrite <- Zle_Qle in A, B. lia.
Qed.

(** Printing a number close to the rate, whose value is known to lie between two numbers of the last place. *)
Lemma fmt_close x n d p l u :
  normal x -> within 8 (fval x) (exact_rate n d) -> (p <= 20)%nat -> 0 <= l -> u < 10 ^ 309 ->
  (inject_Z l <= fval x * ten p)%Q -> (fval x * ten p <= inject_Z u)%Q ->
  exists P, shows (fmt_f64 p x) p P /\ l <= P <= u /\
    (Qabs (inject_Z P / ten p - exact_rate n d) <= (1 # 2) / ten p + exact_rate n d * (8 * two (-53)))%Q.
Proof.
  intros (m & e & -> & _) Hw Hp Hl0 Hu0 Hl Hu. exists (scaled p m e). pose proof (ten_pos p) as Ht.
  pose proof (scaled_error p m e) as He. set (P := scaled p m e) in *. set (v := fval _) in *.
  assert (l <= P <= u) as HP.
  { apply (units_bounds P l u (v * ten p)); [|done|done].
    assert (inject_Z P - v * ten p == (inject_Z P / ten p - v) * ten p)%Q as -> by (field; lra).
    rewrite Qabs_Qmult, (Qabs_pos (ten p)) by lra.
    assert (1 # 2 == (1 # 2) / ten p * ten p)%Q as -> by (field; lra). apply Qmult_le_compat_r; [done|lra]. }
  split; [|split; [done|]].
  - cbn [fmt_f64 app]. destruct (fixed_spec p P) as (a & b & H); [lia|done|]. by exists a, b.
  - assert (inject_Z P / ten p - exact_rate n d == (inject_Z P / ten p - v) + (v - exact_rate n d))%Q as -> by ring.
    eapply Qle_trans; [apply Qabs_triangle|]. by apply Qplus_le_compat.
Qed.

Lemma exact_rate_bounds n d : 0 <= n < 2 ^ 64 -> (0 <= exact_rate n d)%Q /\ (exact_rate n d <= inject_Z (2 ^ 64 * 1000000000))%Q.
Proof.
  intros Hn. unfold exact_rate. assert (0 < secs_of (Z.max 1 d))%Q as HT.
  { apply Qlt_shift_div_l; [done|]. rewrite Qmult_0_l. change 0%Q with (inject_Z 0). rewrite <- Zlt_Qlt. lia. }
  split.
  - apply Qle_shift_div_l; [done|]. rewrite Qmult_0_l. change 0%Q with (inject_Z 0). rewrite <- Zle_Qle. lia.
  - apply Qle_shift_div_r; [done|]. unfold secs_of. rewrite inject_Z_mult.
    assert (inject_Z (2 ^ 64) * inject_Z 1000000000 * (inject_Z (Z.max 1 d) / inject_Z 1000000000)
            == inject_Z (2 ^ 64 * Z.max 1 d))%Q as -> by (rewrite inject_Z_mult; field).
    rewrite <- Zle_Qle. lia.
Qed.

Lemma of_u64_exact n : 0 < n < 2 ^ 53 -> normal (of_u64 n) /\ (fval (of_u64 n) == inject_Z n)%Q.
Proof. intros Hn. destruct (of_u64_spec n) as (H1 & _ & H3); [lia|]. split; [done|]. apply H3. lia. Qed.

Lemma watch_rate_spec curr prev d :
  0 <= prev <= curr -> curr < 2 ^ 64 -> 0 <= d < 2 ^ 53 * 1000000000 ->
  shows_rate (watch_rate curr prev (elapsed_secs d)) (curr - prev) d.
Proof.
  intros Hc Hc' Hd. unfold watch_rate, rate_reset. destruct (Z.ltb_spec curr prev); [lia|].
  destruct (Z.eq_dec (curr - prev) 0) as [->|Hn].
  { destruct (elapsed_secs_spec d Hd) as [((m & e & -> & _) & _) _]. exists 2%nat, 0.
    split; [by exists (lit "0"), (lit "00"); split_and!; repeat constructor|]. split; [by split|].
    unfold exact_rate, Qdiv. rewrite !Qmult_0_l. by vm_compute. }
  destruct (rate_quotient (curr - prev) d) as [Hr Hw]; [lia|done|]. set (r := fdiv _ _) in *.
  destruct (exact_rate_bounds (curr - prev) d) as [He0 He1]; [lia|].
  assert (0 <= fval r)%Q as Hr0.
  { destruct Hr as (m & e & -> & _). cbn [fval]. pose proof (two_pos e).
    apply Qmult_le_0_compat; [done|lra]. }
  assert (fval r <= inject_Z (2 ^ 65 * 1000000000))%Q as Hr1.
  { apply within_iff in Hw as [_ Hw]. change (two (-53)) with (1 # 9007199254740992)%Q in Hw.
    rewrite inject_Z_mult in *. change (inject_Z (2 ^ 65)) with (2 * inject_Z (2 ^ 64))%Q. lra. }
  destruct (of_u64_exact 10000) as [N1 E1]; [lia|]. destruct (of_u64_exact 100) as [N2 E2]; [lia|].
  pose proof (fge_spec r (of_u64 10000) Hr N1) as G1. pose proof (fge_spec r (of_u64 100) Hr N2) as G2.
  destruct (fge r (of_u64 10000)); [clear G2|destruct (fge r (of_u64 100)); rewrite E2 in G2]; rewrite E1 in G1.
  - destruct (fmt_close r (curr - prev) d 0 10000 (2 ^ 65 * 1000000000)) as (P & H1 & H2 & H3); try done; try lia.
    1,2: change (ten 0) with 1%Q; lra.
    exists 0%nat, P. split; [done|]. by split; [apply H2|].
  - destruct (fmt_close r (curr - prev) d 1 1000 100000) as (P & H1 & H2 & H3); try done; try lia.
    1,2: change (ten 1) with 10%Q; unfold inject_Z in *; lra. by exists 1%nat, P.
  - destruct (fmt_close r (curr - prev) d 2 0 10000) as (P & H1 & H2 & H3); try done; try lia.
    1,2: change (ten 2) with 100%Q; unfold inject_Z in *; lra. by exists 2%nat, P.
Qed.

(** ** The lines of a session *)

Definition ask_stats (target : option str) (k : Tick) : act (ResolvedTarget * json) :=
  query_endpoint (k_host k) target (lit "/stats").

(** A round that was answered: what resolving the target printed, and the document. *)
Record Seen := mkSeen {
  s_tick : Tick;
  s_notes : list effect;
  s_doc : json;
}.

Definition answered (target : option str) (k : Tick) (s : Seen) : Prop :=
  s_tick s = k /\ exists rt, ask_stats target k = (s_notes s, Ok (rt, s_doc s)).

Definition sample_of (s : Seen) : StatsSample := sample_from_value (s_doc s) (k_now (s_tick s)).

(** Round [i] after round [i - 1]. *)
Definition round_lines (start : Instant) (seen : list Seen) (i : nat) (s : Seen) : list effect :=
  let prev := match i with O => None | S j => sample_of <$> seen !! j end in
  s_notes s ++ Println (watch_line (elapsed_text start (s_tick s)) (watch_cells prev (sample_of s)))
  :: (if Z.of_nat (S i) mod 20 =? 0 then [Println watch_header] else []).

Definition session_lines (start : Instant) (seen : list Seen) : list effect :=
  Println watch_header :: concat (imap (round_lines start seen) seen).

Lemma bind_ret_l {A B} (a : A) (f : A -> act B) : bind (ret a) f = f a.
Proof. unfold bind, ret. cbn. by destruct (f a). Qed.

Lemma bind_bind {A B C} (m : act A) (f : A -> act B) (g : B -> act C) :
  bind (bind m f) g = bind m (fun a => bind (f a) g).
Proof.
  unfold bind. destruct m as [es [a|e]]; cbn; [|done]. destruct (f a) as [es' [b|e]]; cbn; [|done].
  by rewrite app_assoc.
Qed.

Lemma watch_rounds_app target start st l l' :
  watch_rounds target start st (l ++ l') = (let! st := watch_rounds target start st l in watch_rounds target start st l').
Proof.
  revert st. induction l as [|k l IH]; intros st; cbn [app watch_rounds]; [by rewrite bind_ret_l|].
  rewrite bind_bind. unfold bind at 1 3. destruct (watch_round target start st k) as [es [st'|e]]; cbn [fst snd]; [|done].
  by rewrite IH.
Qed.

Lemma round_lines_app start seen more i s :
  (i <= length seen)%nat -> round_lines start (seen ++ more) i s = round_lines start seen i s.
Proof.
  intros Hi. unfold round_lines. destruct i as [|j]; [done|]. by rewrite lookup_app_l by lia.
Qed.

Lemma lines_snoc start seen s :
  concat (imap (round_lines start (seen ++ [s])) (seen ++ [s]))
  = concat (imap (round_lines start seen) seen) ++ round_lines start seen (length seen) s.
Proof.
  rewrite imap_app, concat_app. f_equal.
  - f_equal. apply imap_ext. intros i x Hx. apply round_lines_app. apply lookup_lt_Some in Hx. lia.
  - cbn. rewrite Nat.add_0_r, app_nil_r. by apply round_lines_app.
Qed.

Lemma watch_round_answered target start k s prev row :
  answered target k s ->
  watch_round target start (prev, row) k
  = (s_notes s ++ Println (watch_line (elapsed_text start k) (watch_cells prev (sample_of s)))
       :: (if wrap64 (row + 1) mod 20 =? 0 then [Println watch_header] else []),
     Ok (Some (sample_of s), wrap64 (row + 1))).
Proof.
  intros [<- [rt Hq]]. unfold ask_stats in Hq. unfold watch_round, sample_of. rewrite Hq. unfold bind, println, emit, ret.
  cbn [fst snd]. by destruct (wrap64 (row + 1) mod 20 =? 0).
Qed.

(** What a session prints while it is answered, and the state it is in. *)
Lemma watch_rounds_answered target start ticks seen :
  Forall2 (answered target) ticks seen -> len ticks < 2 ^ 64 ->
  watch_rounds target start (None, 0) ticks
  = (concat (imap (round_lines start seen) seen), Ok (sample_of <$> last seen, len ticks)).
Proof.
  revert ticks. induction seen as [|s seen IH] using rev_ind; intros ticks HF Hl.
  { apply Forall2_nil_inv_r in HF as ->. done. }
  apply Forall2_app_inv_r in HF as (l & l' & HF & Hs & ->).
  apply Forall2_cons_inv_r in Hs as (k & l'' & Hk & Hnil & ->). apply Forall2_nil_inv_r in Hnil as ->.
  pose proof (Forall2_length _ _ _ HF) as Hlen.
  rewrite watch_rounds_app, IH by (done || llia). rewrite lines_snoc, last_snoc. unfold bind at 1. cbn [fst snd watch_rounds].
  rewrite (watch_round_answered _ _ _ s) by done. unfold bind, ret. cbn [fst snd]. rewrite app_nil_r.
  assert (wrap64 (len l + 1) = Z.of_nat (S (length seen))) as Ew 
    by (unfold wrap64, len in *; rewrite length_app in Hl; cbn [length] in Hl; rewrite Z.mod_small; lia).
  rewrite Ew. f_equal; [|do 2 f_equal; unfold len; rewrite length_app; simpl; lia].
  f_equal. unfold round_lines. destruct Hk as [-> _]. do 4 f_equal.
  destruct seen as [|s0 seen] using rev_ind; [done|]. rewrite last_snoc, length_app, Nat.add_comm. cbn [length Nat.add].
  rewrite lookup_app_r, Nat.sub_diag by lia. done.
Qed.

(** The lines of a session whose requests are answered, and its end at the first that is not. *)
Theorem watch_session_exact (target : option str) (start : Instant) (ticks : list Tick) (seen : list Seen) :
  Forall2 (answered target) ticks seen -> len ticks < 2 ^ 64 ->
  watch_loop target start ticks = (session_lines start seen, Ok (sample_of <$> last seen, len ticks)) /\
  (forall k es e more, ask_stats target k = (es, Err e) ->
     watch_loop target start (ticks ++ k :: more) = (session_lines start seen ++ es, Err e)).
Proof.
  intros HF Hl. unfold watch_loop. split; [by rewrite (watch_rounds_answered _ _ _ seen)|].
  intros k es e more Hk. rewrite watch_rounds_app, (watch_rounds_answered _ _ _ seen) by done.
  unfold bind at 2. cbn [fst snd watch_rounds]. unfold watch_round, ask_stats in *. rewrite Hk. done.
Qed.

(** The counters of the daemon in the order of the columns. *)
Definition columns (slots : list WorkerStats) : list Z :=
  let s := aggregate slots in
  [rx_packets s; forwarded s; cid_routed s; fallback_routed s; cid_unroutable s; retry_issued s].

(** A cell for a counter that was [q] and is [c]. *)
Definition cell_ok (d : Duration) (cell : str) (qc : Z * Z) : Prop :=
  if qc.2 <? qc.1 then cell = lit "*" else shows_rate cell (qc.2 - qc.1) d.

Lemma watch_cells_ok p s :
  Forall (fun n => 0 <= n < 2 ^ 64) (counters p ++ counters s) ->
  duration_since (at_ s) (at_ p) < 2 ^ 53 * 1000000000 ->
  Forall2 (cell_ok (duration_since (at_ s) (at_ p))) (watch_cells (Some p) s) (zip (counters p) (counters s)).
Proof.
  intros Hu Hd. unfold watch_cells. set (d := duration_since _ _) in *.
  assert (0 <= d) as Hd0 by (unfold d, duration_since; lia).
  assert (forall q c, 0 <= q < 2 ^ 64 -> 0 <= c < 2 ^ 64 -> cell_ok d (watch_rate c q (elapsed_secs d)) (q, c)) as Hcell.
  { intros q c Hq Hc. unfold cell_ok. cbn [fst snd]. destruct (Z.ltb_spec c q) as [L|L].
    - unfold watch_rate, rate_reset. by destruct (Z.ltb_spec c q); [|lia].
    - apply watch_rate_spec; lia. }
  apply Forall_app in Hu as [Hp Hs]. unfold counters in *. cbn [zip zip_with].
  rewrite !Forall_cons in Hp, Hs. repeat constructor; apply Hcell; tauto.
Qed.

Lemma sample_counters slots up now :
  Forall stats_wf slots -> 0 <= up < 2 ^ 64 ->
  counters (sample_from_value (build_stats_response slots up) now) = columns slots.
Proof. intros Hs Hu. by rewrite sample_reads_counters. Qed.

Lemma columns_u64 slots : Forall stats_wf slots -> Forall (fun n => 0 <= n < 2 ^ 64) (columns slots).
Proof.
  intros Hs. pose proof (aggregate_wf _ Hs) as Hw. unfold columns. repeat constructor; try apply Hw; apply u64_wrap.
Qed.

Lemma session_line start seen i s s' :
  seen !! i = Some s -> seen !! S i = Some s' ->
  Println (watch_line (elapsed_text start (s_tick s')) (watch_cells (Some (sample_of s)) (sample_of s')))
  ∈ session_lines start seen.
Proof.
  intros Hs Hs'. apply elem_of_cons. right. apply list_elem_of_In, in_concat.
  exists (round_lines start seen (S i) s'). split.
  - apply list_elem_of_In, list_elem_of_lookup. exists (S i). by rewrite list_lookup_imap, Hs'.
  - apply in_or_app. right. left. unfold round_lines. by rewrite Hs.
Qed.

(** ** Properties *)

(** C36. What an operator reads off [watch] is what the daemon forwards: between two
    rounds answered with the daemon's [/stats] documents, the later round prints a
    line whose six cells show the traffic of the time between them.  A cell is a star
    when the counter went backwards, as after a restart; otherwise it is a decimal
    number with the decimals its size calls for, and it is off the quotient of the
    counted events by the elapsed seconds by at most half of its last place and eight
    parts in [2^53] of the rate, for counters of the full 64 bits. *)
Theorem watch_reports_traffic (target : option str) (start : Instant) (ticks : list Tick) (seen : list Seen)
    (i : nat) (s s' : Seen) (slots slots' : list WorkerStats) (up up' : Z) :
  Forall2 (answered target) ticks seen -> len ticks < 2 ^ 64 -> seen !! i = Some s -> seen !! S i = Some s' ->
  s_doc s = build_stats_response slots up -> s_doc s' = build_stats_response slots' up' ->
  Forall stats_wf slots -> Forall stats_wf slots' -> 0 <= up < 2 ^ 64 -> 0 <= up' < 2 ^ 64 ->
  let d := duration_since (k_now (s_tick s')) (k_now (s_tick s)) in
  d < 2 ^ 53 * 1000000000 ->
  exists cells,
    Println (watch_line (elapsed_text start (s_tick s')) cells) ∈ (watch_loop target start ticks).1 /\
    Forall2 (cell_ok d) cells (zip (columns slots) (columns slots')).
Proof.
  intros HF Hl Hs Hs' Ed Ed' Hw Hw' Hu Hu' d Hd.
  exists (watch_cells (Some (sample_of s)) (sample_of s')). split.
  - destruct (watch_session_exact target start ticks seen HF Hl) as [-> _]. by eapply session_line.
  - assert (counters (sample_of s) = columns slots) as Ec by (unfold sample_of; rewrite Ed; by apply sample_counters).
    assert (counters (sample_of s') = columns slots') as Ec' by (unfold sample_of; rewrite Ed'; by apply sample_counters).
    rewrite <- Ec, <- Ec'. apply (watch_cells_ok (sample_of s) (sample_of s')); [|done].
    rewrite Ec, Ec'. apply Forall_app. split; by apply columns_u64.
Qed.

(** The table is aligned: a line has the width of the header as long as its cells fit their columns. *)
Theorem watch_line_width (elapsed : str) (cells : list str) :
  (length elapsed <= 8)%nat -> Forall2 (fun w c => (length c <= w)%nat) widths cells ->
  length (watch_line elapsed cells) = length watch_header.
Proof.
  intros He HF. unfold watch_line, pad. rewrite !length_app, length_replicate.
  assert (forall ws, Forall2 (fun w c => (length c <= w)%nat) ws cells ->
    length (concat (zip_with (fun w c => lit "  " ++ lpad w c) ws cells)) = sum_list (map (fun w => 2 + w)%nat ws)) as Hw.
  { clear HF. induction cells as [|c cs IH]; intros ws HF.
    - by apply Forall2_nil_inv_r in HF as ->.
    - apply Forall2_cons_inv_r in HF as (w & ws' & Hc & HF & ->). cbn [zip_with concat map sum_list_with].
      rewrite length_app, IH by done. unfold lpad. rewrite !length_app, length_replicate.
      change (length (lit "  ")) with 2%nat. cbn. lia. }
  rewrite Hw by done. change (length watch_header) with (8 + 76)%nat. cbn. lia.
Qed.

(** ** Instances of the properties *)

(** One daemon on eth0 that answers every request with the same document. *)
Definition stats_host (slots : list WorkerStats) (up : Z) : host :=
  mkHost (Some [(Some (lit "pesigitgd-eth0.pid"), Some (lit "150"))]) (Some [Some (lit "status-eth0.sock")])
    (Some [Some (lit "150")]) (fun _ => Some (lit "pesigitgd" ++ [10])) (fun _ => None) (fun _ _ => None)
    (fun _ => None) (fun _ => Ok []) (fun _ _ => Reply (build_stats_response slots up)).

Definition early : list WorkerStats := [record_rx stats_new 7].
Definition later : list WorkerStats := [record_rx stats_new 1507].

(** Two rounds, a second and a half apart. *)
Definition two_ticks : list Tick :=
  [mkTick (stats_host early 3) 0 0; mkTick (stats_host later 5) 1500000000 1500000001].

Definition two_seen (notes : list effect) : list Seen :=
  [mkSeen (mkTick (stats_host early 3) 0 0) notes (build_stats_response early 3);
   mkSeen (mkTick (stats_host later 5) 1500000000 1500000001) notes (build_stats_response later 5)].

Lemma watch_reports_traffic_witness :
  exists cells,
    Println (watch_line (lit "1s") cells) ∈ (watch_loop (Some (lit "eth0")) 0 two_ticks).1 /\
    Forall2 (cell_ok 1500000000) cells (zip (columns early) (columns later)).
Proof.
  apply (watch_reports_traffic (Some (lit "eth0")) 0 two_ticks (two_seen []) 0
    (mkSeen (mkTick (stats_host early 3) 0 0) [] (build_stats_response early 3))
    (mkSeen (mkTick (stats_host later 5) 1500000000 1500000001) [] (build_stats_response later 5)) early later 3 5);
    try reflexivity; try lia.
  - repeat constructor; eexists; vm_compute; reflexivity.
  - repeat constructor; vm_compute; intuition discriminate.
  - repeat constructor; vm_compute; intuition discriminate.
Defined.

(** Without a target every request names the instance it selects, so that line is
    printed before every row and not only above the table. *)
Example watch_repeats_instance :
  (watch_loop None 0 two_ticks).1
  = map Println
      [watch_header; lit "eth0 (pid 150)"; watch_line (lit "0s") (replicate 6 (lit "-")); lit "eth0 (pid 150)";
       watch_line (lit "1s") [lit "1000.0"; lit "0.00"; lit "0.00"; lit "0.00"; lit "0.00"; lit "0.00"]].
Proof. vm_compute. reflexivity. Qed.
