(* ===== verification/PidFile.v ===== *)
(** * The pid file

    Models [pesigitg-daemon/src/pidfile.rs]: [PidFile::create] (open and truncate,
    lock, write) and its [Drop] (remove, then unlock), as the steps of several
    processes that start, exit and crash on one path.  A path names an inode; an
    advisory lock belongs to an inode and is released when its holder ends. *)

From stdpp Require Import gmap.
From S2P Require Import Prelude Std Common Decimal Text Control.

Inductive proc :=
| Opened (ino : nat)
| Locked (ino : nat)
| Running (ino : nat)
| Removed (ino : nat)
| Refused
| Gone.

Record fs := mkFs {
  dir : option nat;              (* the inode the path names *)
  texts : gmap nat str;
  locks : gmap nat Z;
  procs : gmap Z proc;
}.

(** Writing at the start of a file leaves what is behind. *)
Definition overwrite (old new : str) : str := new ++ drop (length new) old.

(** The inode a process has locked and may still crash with. *)
Definition holder (x : proc) : option nat := match x with Locked i | Running i => Some i | _ => None end.

Inductive label := LOpen | LLock | LRefuse | LWrite | LRemove | LUnlock | LCrash.

Inductive step : fs -> label -> fs -> Prop :=
| s_open_new p ino s :
    procs s !! p = None -> dir s = None -> texts s !! ino = None ->
    step s LOpen (mkFs (Some ino) (<[ino := []]> (texts s)) (locks s) (<[p := Opened ino]> (procs s)))
| s_open p ino s :
    procs s !! p = None -> dir s = Some ino ->
    step s LOpen (mkFs (dir s) (<[ino := []]> (texts s)) (locks s) (<[p := Opened ino]> (procs s)))
| s_lock p ino s :
    procs s !! p = Some (Opened ino) -> locks s !! ino = None ->
    step s LLock (mkFs (dir s) (texts s) (<[ino := p]> (locks s)) (<[p := Locked ino]> (procs s)))
| s_refuse p q ino s :
    procs s !! p = Some (Opened ino) -> locks s !! ino = Some q ->
    step s LRefuse (mkFs (dir s) (texts s) (locks s) (<[p := Refused]> (procs s)))
| s_write p ino t s :
    procs s !! p = Some (Locked ino) -> texts s !! ino = Some t ->
    step s LWrite (mkFs (dir s) (<[ino := overwrite t (fmt_dec p)]> (texts s)) (locks s)
                     (<[p := Running ino]> (procs s)))
| s_remove p ino s :
    procs s !! p = Some (Running ino) ->
    step s LRemove (mkFs None (texts s) (locks s) (<[p := Removed ino]> (procs s)))
| s_unlock p ino s :
    procs s !! p = Some (Removed ino) ->
    step s LUnlock (mkFs (dir s) (texts s) (delete ino (locks s)) (<[p := Gone]> (procs s)))
| s_crash p x ino s :
    procs s !! p = Some x -> holder x = Some ino ->
    step s LCrash (mkFs (dir s) (texts s) (delete ino (locks s)) (<[p := Gone]> (procs s))).

Definition fs_start : fs := mkFs None ∅ ∅ ∅.

(** Runs whose labels all satisfy [P]. *)
Inductive run (P : label -> Prop) : fs -> Prop :=
| run_nil : run P fs_start
| run_snoc s l s' : run P s -> P l -> step s l s' -> run P s'.

(** ** Lemmas *)

Definition no_removal (l : label) : Prop := l <> LRemove.
Definition no_exit (l : label) : Prop := l <> LRemove /\ l <> LCrash.

(** The inode a process has open. *)
Definition ino_of (x : proc) : option nat :=
  match x with Opened i | Locked i | Running i | Removed i => Some i | _ => None end.

(** Without removals there is one inode, and its lock has the one holder. *)
Record excl (s : fs) : Prop := {
  ex_one : forall p x ino, procs s !! p = Some x -> ino_of x = Some ino -> dir s = Some ino;
  ex_lock : forall p x ino, procs s !! p = Some x -> holder x = Some ino -> locks s !! ino = Some p;
  ex_live : forall p ino, procs s !! p <> Some (Removed ino);
}.

Lemma holder_ino x ino : holder x = Some ino -> ino_of x = Some ino.
Proof. by destruct x. Qed.

Lemma excl_insert s d t lk p x :
  excl s -> (forall i, x <> Removed i) ->
  (forall q y i, procs s !! q = Some y -> ino_of y = Some i -> d = Some i) ->
  (forall i, ino_of x = Some i -> d = Some i) ->
  (forall q y i, q <> p -> procs s !! q = Some y -> holder y = Some i -> lk !! i = Some q) ->
  (forall i, holder x = Some i -> lk !! i = Some p) ->
  excl (mkFs d t lk (<[p := x]> (procs s))).
Proof.
  intros [H1 H2 H3] Hx Hd Hdx Hl Hlx. constructor; cbn [dir locks procs].
  - intros q y i [[<- <-]|[_ Hq]]%lookup_insert_Some Hy; eauto.
  - intros q y i [[<- <-]|[? Hq]]%lookup_insert_Some Hy; eauto.
  - intros q i [[_ Hr]|[_ Hq]]%lookup_insert_Some; [by apply (Hx i)|by apply (H3 q i)].
Qed.

Lemma excl_step s l s' : excl s -> no_removal l -> step s l s' -> excl s'.
Proof.
  intros Hex Hl Hst. pose proof Hex as [H1 H2 H3].
  destruct Hst as [p ino s Hp Hd Ht|p ino s Hp Hd|p ino s Hp Hlk|p q ino s Hp Hlk|p ino t s Hp Ht|p ino s Hp|p ino s Hp|p x ino s Hp Hh];
    [| | | | |done|by destruct (H3 p ino)|]; apply excl_insert; try done; eauto.
  - intros q y i Hq Hy. pose proof (H1 q y i Hq Hy). congruence.
  - intros i [= <-]. done.
  - intros q y i _ Hq Hy. pose proof (H1 q y i Hq (holder_ino _ _ Hy)) as Hi. rewrite (H1 p _ ino Hp eq_refl) in Hi.
    injection Hi as ->. rewrite (H2 q y i Hq Hy) in Hlk. done.
  - intros i [= <-]. apply lookup_insert_eq.
  - intros q y i Hne Hq Hy. pose proof (H1 q y i Hq (holder_ino _ _ Hy)) as Hi. rewrite (H1 p _ ino Hp (holder_ino _ _ Hh)) in Hi.
    injection Hi as ->. pose proof (H2 q y i Hq Hy). pose proof (H2 p _ i Hp Hh). congruence.
Qed.

Lemma excl_run P s : (forall l, P l -> no_removal l) -> run P s -> excl s.
Proof.
  intros HP. induction 1 as [|s l s' _ IH Hl Hst]; [|by eapply excl_step; [..|exact Hst]; auto].
  constructor; cbn; intros; by simplify_map_eq.
Qed.

(** While nobody has ended, the file holds the pid of the process that has it, or
    nothing. *)
Definition blank (s : fs) (ino : nat) : Prop := texts s !! ino = None (A := str) \/ texts s !! ino = Some ([] : str).

Record texts_ok (s : fs) : Prop := {
  to_held : forall p x ino, procs s !! p = Some x -> holder x = Some ino ->
     blank s ino \/ (x = Running ino /\ texts s !! ino = Some (fmt_dec p));
  to_free : forall ino, (forall p x, procs s !! p = Some x -> holder x <> Some ino) -> blank s ino;
}.

Lemma texts_open s d ino p :
  texts_ok s -> procs s !! p = None ->
  texts_ok (mkFs d (<[ino := []]> (texts s)) (locks s) (<[p := Opened ino]> (procs s))).
Proof.
  intros [T1 T2] Hp. constructor; unfold blank; cbn [texts procs].
  - intros q x i [[<- <-]|[_ Hq]]%lookup_insert_Some Hx; [done|].
    destruct (decide (i = ino)) as [->|Hne]; [left; right; apply lookup_insert_eq|]. rewrite !lookup_insert_ne by done.
    by apply T1.
  - intros i Hi. destruct (decide (i = ino)) as [->|Hne]; [right; apply lookup_insert_eq|]. rewrite !lookup_insert_ne by done.
    apply T2. intros q x Hq. apply (Hi q). rewrite lookup_insert_ne; [done|]. congruence.
Qed.

Lemma texts_step s l s' : excl s -> texts_ok s -> no_exit l -> step s l s' -> texts_ok s'.
Proof.
  intros [H1 H2 H3] HT [Hl1 Hl2] Hst. pose proof HT as [T1 T2].
  destruct Hst as [p ino s Hp Hd Ht|p ino s Hp Hd|p ino s Hp Hlk|p q ino s Hp Hlk|p ino t s Hp Ht|p ino s Hp|p ino s Hp|p x ino s Hp Hh];
    try done; try (by destruct (H3 p ino)); try (by apply texts_open); constructor; unfold blank; cbn [texts procs].
  - intros q x i [[<- <-]|[_ Hq]]%lookup_insert_Some Hx; [|by apply T1]. injection Hx as <-. left. apply T2.
    intros q x Hq Hx. rewrite (H2 q x ino Hq Hx) in Hlk. done.
  - intros i Hi. apply T2. intros q x Hq. destruct (decide (q = p)) as [->|Hne]; [by simplify_map_eq|].
    apply (Hi q). by rewrite lookup_insert_ne.
  - intros q' x i [[<- <-]|[_ Hq]]%lookup_insert_Some Hx; [done|by apply T1].
  - intros i Hi. apply T2. intros q' x Hq. destruct (decide (q' = p)) as [->|Hne]; [by simplify_map_eq|].
    apply (Hi q'). by rewrite lookup_insert_ne.
  - assert (t = []) as -> by (destruct (T1 p _ ino Hp eq_refl) as [[Hb|Hb]|[Hb _]]; [by rewrite Hb in Ht|rewrite Hb in Ht; by injection Ht|done]).
    intros q x i [[<- <-]|[Hne Hq]]%lookup_insert_Some Hx.
    + injection Hx as <-. right. split; [done|]. rewrite lookup_insert_eq. unfold overwrite. rewrite drop_nil. by rewrite app_nil_r.
    + assert (i <> ino) as Hi.
      { intros ->. pose proof (H2 q x _ Hq Hx) as Ha. pose proof (H2 p _ _ Hp eq_refl) as Hb. congruence. }
      rewrite !lookup_insert_ne by done. by apply T1.
  - intros i Hi. assert (i <> ino) as Hne by (intros ->; eapply (Hi p); [apply lookup_insert_eq|done]).
    rewrite !lookup_insert_ne by done. apply T2. intros q x Hq. destruct (decide (q = p)) as [->|Hq'].
    + simplify_map_eq. congruence.
    + apply (Hi q). by rewrite lookup_insert_ne.
Qed.

Lemma texts_run s : run no_exit s -> texts_ok s.
Proof.
  induction 1 as [|s l s' Hr IH Hl Hst].
  { constructor; [|intros ino _; left; apply lookup_empty]. intros p x ino Hp. by apply (lookup_empty_Some (M := gmap Z) p x) in Hp. }
  eapply texts_step; [|exact IH|exact Hl|exact Hst]. eapply excl_run; [|exact Hr]. by intros ? [? _].
Qed.

(** ** Properties *)

(** C29. As long as no instance ends in good order, the pid file admits one instance: in
    every interleaving of starts and crashes two processes never both run.  While none
    has ended at all, the control tool reads from the file the pid of the running
    instance, or no pid. *)
Theorem pidfile_exclusive (s : fs) :
  (run no_removal s -> forall (p q : Z) (i j : nat), procs s !! p = Some (Running i) -> procs s !! q = Some (Running j) -> p = q) /\
  (run no_exit s -> forall (p : Z) (i : nat) (t : str), 0 <= p < 2 ^ 32 -> procs s !! p = Some (Running i) -> texts s !! i = Some t ->
     parse_u32 (trim t) = Some p \/ parse_u32 (trim t) = None).
Proof.
  split.
  - intros Hr p q i j Hp Hq. pose proof (excl_run no_removal s (fun _ H => H) Hr) as [H1 H2 _].
    pose proof (H1 p _ i Hp eq_refl). pose proof (H1 q _ j Hq eq_refl). pose proof (H2 p _ i Hp eq_refl).
    pose proof (H2 q _ j Hq eq_refl). congruence.
  - intros Hr p i t Hpr Hp Ht. destruct (to_held _ (texts_run s Hr) p _ i Hp eq_refl) as [[?|Hb]|[_ Hb]];
      [congruence| |]; rewrite Hb in Ht; injection Ht as <-; [by right|left].
    rewrite trim_id; [by apply parse_u32_fmt_dec|]. destruct (fmt_dec_spec p) as (_ & Hd & _); [lia|].
    eapply Forall_impl; [exact Hd|]. unfold is_digit, is_whitespace. intros c Hc. lia.
Qed.

(** ** Where exclusion and the contents are lost *)

(** The state after a list of moves, for concrete runs. *)
Inductive move := MOpen (p : Z) | MLock (p : Z) | MWrite (p : Z) | MRemove (p : Z) | MUnlock (p : Z) | MCrash (p : Z).

Definition do_move (s : fs) (m : move) : option (label * fs) :=
  match m with
  | MOpen p =>
      match procs s !! p, dir s with
      | None, Some ino => Some (LOpen, mkFs (dir s) (<[ino := []]> (texts s)) (locks s) (<[p := Opened ino]> (procs s)))
      | None, None =>
          let ino := fresh (dom (texts s)) in
          Some (LOpen, mkFs (Some ino) (<[ino := []]> (texts s)) (locks s) (<[p := Opened ino]> (procs s)))
      | _, _ => None
      end
  | MLock p =>
      match procs s !! p with
      | Some (Opened ino) =>
          match locks s !! ino with
          | None => Some (LLock, mkFs (dir s) (texts s) (<[ino := p]> (locks s)) (<[p := Locked ino]> (procs s)))
          | Some _ => Some (LRefuse, mkFs (dir s) (texts s) (locks s) (<[p := Refused]> (procs s)))
          end
      | _ => None
      end
  | MWrite p =>
      match procs s !! p with
      | Some (Locked ino) =>
          let? t := texts s !! ino in
          Some (LWrite, mkFs (dir s) (<[ino := overwrite t (fmt_dec p)]> (texts s)) (locks s) (<[p := Running ino]> (procs s)))
      | _ => None
      end
  | MRemove p =>
      match procs s !! p with
      | Some (Running ino) => Some (LRemove, mkFs None (texts s) (locks s) (<[p := Removed ino]> (procs s)))
      | _ => None
      end
  | MUnlock p =>
      match procs s !! p with
      | Some (Removed ino) => Some (LUnlock, mkFs (dir s) (texts s) (delete ino (locks s)) (<[p := Gone]> (procs s)))
      | _ => None
      end
  | MCrash p =>
      match procs s !! p with
      | Some (Running ino) => Some (LCrash, mkFs (dir s) (texts s) (delete ino (locks s)) (<[p := Gone]> (procs s)))
      | _ => None
      end
  end.

Lemma do_move_step s m l s' : do_move s m = Some (l, s') -> step s l s'.
Proof.
  destruct m as [p|p|p|p|p|p]; cbn [do_move]; destruct (procs s !! p) as [x|] eqn:Ep; try done.
  - destruct (dir s) as [ino|] eqn:Ed; intros [= <- <-]; [rewrite <- Ed; by apply s_open|].
    apply s_open_new; [done|done|]. apply not_elem_of_dom, is_fresh.
  - destruct x; try done. destruct (locks s !! ino) as [q|] eqn:El; intros [= <- <-]; [by eapply s_refuse|by apply s_lock].
  - destruct x; try done. destruct (texts s !! ino) as [t|] eqn:Et; [|done]. intros [= <- <-]. by apply s_write.
  - destruct x; try done. intros [= <- <-]. by eapply s_remove.
  - destruct x; try done. intros [= <- <-]. by apply s_unlock.
  - destruct x; try done. intros [= <- <-]. by eapply s_crash.
Qed.

Fixpoint moves (s : fs) (ms : list move) : option fs :=
  match ms with
  | [] => Some s
  | m :: r => let? (_, s') := do_move s m in moves s' r
  end.

(** The labels of a list of moves without removals. *)
Definition removes (m : move) : bool := match m with MRemove _ => true | _ => false end.

Lemma do_move_label s m l s' : do_move s m = Some (l, s') -> removes m = false -> no_removal l.
Proof.
  unfold no_removal. destruct m; cbn [do_move removes]; try done; intros H _; repeat case_match; simplify_eq; try done.
Qed.

Lemma moves_run P s ms s' :
  (forall s m l s', In m ms -> do_move s m = Some (l, s') -> P l) ->
  run P s -> moves s ms = Some s' -> run P s'.
Proof.
  revert s. induction ms as [|m ms IH]; intros s HP Hr; cbn [moves]; [by intros [= <-]|].
  destruct (do_move s m) as [[l s1]|] eqn:E; [|done]. apply IH; [intros; eapply HP; [by right|done]|].
  eapply run_snoc; [exact Hr|by eapply HP; [left|]|by apply do_move_step in E].
Qed.

Lemma moves_reach {A} P ms (f : fs -> A) (a : A) :
  (forall s m l s', In m ms -> do_move s m = Some (l, s') -> P l) ->
  f <$> moves fs_start ms = Some a -> exists s, run P s /\ f s = a.
Proof.
  intros HP. destruct (moves fs_start ms) as [s|] eqn:E; [|done]. intros [= <-]. exists s. split; [|done].
  eapply moves_run; [exact HP|apply run_nil|exact E].
Qed.

(** Three runs the exclusion does not cover.  An instance opens the file, the running
    one removes it and unlocks, and the first locks the inode that no name leads to;
    a third creates the file anew: two instances run.  An instance that is refused has
    emptied the file of the running one.  An instance that opened the file before the
    running one wrote its pid and crashed writes its own shorter pid over it: the file
    names neither. *)
Theorem pidfile_gaps :
  (exists s p q i j, run (fun _ => True) s /\ p <> q /\
     procs s !! p = Some (Running i) /\ procs s !! q = Some (Running j)) /\
  (exists s p q i, run (fun _ => True) s /\ procs s !! p = Some (Running i) /\ procs s !! q = Some Refused /\
     dir s = Some i /\ texts s !! i = Some []) /\
  (exists s p i, run (fun _ => True) s /\ procs s !! p = Some (Running i) /\ dir s = Some i /\
     texts s !! i = Some (lit "67845")).
Proof.
  split; [|split].
  - destruct (moves_reach (fun _ => True) [MOpen 1; MLock 1; MWrite 1; MOpen 2; MRemove 1; MUnlock 1; MLock 2; MWrite 2;
      MOpen 3; MLock 3; MWrite 3] (fun s => (procs s !! 2, procs s !! 3)) (Some (Running 0), Some (Running 1)))
      as (s & Hr & [= H2 H3]); [done|by vm_compute|]. by exists s, 2, 3, 0%nat, 1%nat.
  - destruct (moves_reach (fun _ => True) [MOpen 1; MLock 1; MWrite 1; MOpen 2; MLock 2] (fun s => (procs s !! 1, procs s !! 2, dir s, texts s !! 0%nat))
      (Some (Running 0), Some Refused, Some 0%nat, Some [])) as (s & Hr & [= H1 H2 Hd Ht]); [done|by vm_compute|].
    by exists s, 1, 2, 0%nat.
  - destruct (moves_reach (fun _ => True) [MOpen 12345; MLock 12345; MOpen 678; MWrite 12345; MCrash 12345; MLock 678; MWrite 678]
      (fun s => (procs s !! 678, dir s, texts s !! 0%nat)) (Some (Running 0), Some 0%nat, Some (lit "67845")))
      as (s & Hr & [= H1 Hd Ht]); [done|by vm_compute|]. by exists s, 678, 0%nat.
Qed.

Lemma pidfile_exclusive_witness :
  exists s : fs, procs s !! 7 = Some (Running 0) /\ procs s !! 8 = Some Refused /\
    forall (q : Z) (j : nat), procs s !! q = Some (Running j) -> 7 = q.
Proof.
  destruct (moves_reach no_removal [MOpen 7; MLock 7; MWrite 7; MOpen 8; MLock 8] (fun s => (procs s !! 7, procs s !! 8))
    (Some (Running 0), Some Refused)) as (s & Hr & [= H7 H8]); [|by vm_compute|].
  - intros s m l s' Hm Hs. eapply do_move_label; [exact Hs|]. cbn in Hm. by destruct_or?; subst.
  - exists s. split_and!; [done|done|]. intros q j. exact (proj1 (pidfile_exclusive s) Hr 7 q 0%nat j H7).
Defined.
