(* ===== verification/Rings.v ===== *)
(** * AF_XDP rings

    Models the rings of [pesigitg-daemon/src/xdp_adopt.rs] shared with the kernel:
    [produce] and [consume] with their wrapping 32-bit indices, and the socket
    operations built on them.  The rings are shown to implement bounded FIFO
    queues, first for the operations run alone and then for [produce] interleaved
    with a kernel that consumes at any point between its memory accesses. *)

From S2P Require Import Prelude Std.

Record Ring (T : Type) := mkRing {
  producer : Z;
  consumer : Z;
  descs : list T;
  size : Z;
  mask : Z;
}.
Arguments mkRing {_}.
Arguments producer {_}.
Arguments consumer {_}.
Arguments descs {_}.
Arguments size {_}.
Arguments mask {_}.

(** [a.wrapping_add(b)] on [u32]. *)
Definition wadd32 (a b : Z) : Z := wrap32 (a + b).

Section ring.
  Context {T : Type}.

(** The loop of [produce]: entry [i] goes to the slot of [prod + i]. *)
Fixpoint write_slots (ds : list T) (mask prod i : Z) (entries : list T) : rs (list T) :=
  match entries with
  | [] => Done ds
  | e :: rest =>
      let* ds := set_at ds (Z.land (wadd32 prod i) mask) e in
      write_slots ds mask prod (i + 1) rest
  end.

(** The number of entries [produce] has room for. *)
Definition produce_room (r : Ring T) (prod cons : Z) (entries : list T) : Z :=
  let free := wsub32 (size r) (wsub32 prod cons) in Z.min free (len entries).

Definition produce (r : Ring T) (entries : list T) : rs (Ring T * Z) :=
  match entries with
  | [] => Done (r, 0)
  | _ =>
      let n := produce_room r (producer r) (consumer r) entries in
      let* ds := write_slots (descs r) (mask r) (producer r) 0 (take (Z.to_nat n) entries) in
      Done (mkRing (wadd32 (producer r) n) (consumer r) ds (size r) (mask r), n)
  end.

(** The loop of [consume], reading the slots of [cons + i]. *)
Fixpoint read_slots (ds : list T) (mask cons i : Z) (n : nat) : rs (list T) :=
  match n with
  | O => Done []
  | S n =>
      let* e := idx ds (Z.land (wadd32 cons i) mask) in
      let* rest := read_slots ds mask cons (i + 1) n in
      Done (e :: rest)
  end.

(** [consume] into a slice of the given length: the entries read. *)
Definition consume (r : Ring T) (out_len : Z) : rs (Ring T * list T) :=
  if out_len =? 0 then Done (r, [])
  else
    let available := wsub32 (producer r) (consumer r) in
    let n := Z.min available out_len in
    let* out := read_slots (descs r) (mask r) (consumer r) 0 (Z.to_nat n) in
    Done (mkRing (producer r) (wadd32 (consumer r) n) (descs r) (size r) (mask r), out).

(** ** The abstraction

    [P] and [C] count every entry ever produced and consumed; the indices are
    their low 32 bits. *)

Record ring_repr (r : Ring T) (P C : Z) : Prop := {
  rr_size : exists k, 0 <= k <= 31 /\ size r = 2 ^ k;
  rr_mask : mask r = size r - 1;
  rr_descs : len (descs r) = size r;
  rr_prod : producer r = wrap32 P;
  rr_cons : consumer r = wrap32 C;
  rr_order : 0 <= C <= P;
  rr_bound : P - C <= size r;
}.

Definition cell `{Inhabited T} (r : Ring T) (j : Z) : T := elt (descs r) (j mod size r).

(** The entries between two counts. *)
Definition window `{Inhabited T} (r : Ring T) (a b : Z) : list T :=
  map (fun i => cell r (a + Z.of_nat i)) (seq 0 (Z.to_nat (b - a))).

Context `{Inhabited T}.

Lemma size_bounds r P C : ring_repr r P C -> 0 < size r <= 2 ^ 31.
Proof.
  intros [(k & Hk & ->) _ _ _ _ _ _]. split; [apply Z.pow_pos_nonneg; lia|].
  apply Z.pow_le_mono_r; lia.
Qed.

(** A slot index: masking the wrapped count is the count modulo the size. *)
Lemma slot_index r P C x j :
  ring_repr r P C -> x = wrap32 j -> forall i, Z.land (wadd32 x i) (mask r) = (j + i) mod size r.
Proof.
  intros [(k & Hk & Hs) Hm _ _ _ _ _] -> i. unfold wadd32, wrap32.
  rewrite Z.add_mod_idemp_l by lia. rewrite Hm, Hs.
  replace (2 ^ k - 1) with (Z.ones k) by (rewrite Z.ones_equiv; lia).
  rewrite Z.land_ones by lia. replace (2 ^ 32) with (2 ^ k * 2 ^ (32 - k)).
  - rewrite Z.rem_mul_r by (apply Z.pow_nonzero || apply Z.pow_pos_nonneg; lia).
    rewrite Z.mul_comm, Z.mod_add by (apply Z.pow_nonzero; lia). apply Z.mod_mod, Z.pow_nonzero; lia.
  - rewrite <- Z.pow_add_r by lia. f_equal. lia.
Qed.

Lemma wsub32_counts a b x y :
  0 <= a - b < 2 ^ 32 -> x = wrap32 a -> y = wrap32 b -> wsub32 x y = a - b.
Proof.
  intros Hab -> ->. unfold wsub32, wrap32. rewrite <- Zminus_mod. by apply Z.mod_small.
Qed.

Lemma window_length r a b : length (window r a b) = Z.to_nat (b - a).
Proof. unfold window. by rewrite length_map, length_seq. Qed.

Lemma window_lookup r a b (i : nat) :
  Z.of_nat i < b - a -> window r a b !! i = Some (cell r (a + Z.of_nat i)).
Proof.
  intros Hi. unfold window. change (map ?f ?l) with (f <$> l). rewrite list_lookup_fmap.
  rewrite lookup_seq_lt by lia. done.
Qed.

Lemma window_split r a b c :
  a <= b <= c -> window r a c = window r a b ++ window r b c.
Proof.
  intros Habc. unfold window. replace (Z.to_nat (c - a)) with (Z.to_nat (b - a) + Z.to_nat (c - b))%nat by lia.
  rewrite seq_app, map_app, (Nat.add_comm 0), <- fmap_add_seq. apply (f_equal (app _)).
  change (map ?f (?g <$> ?l)) with (f <$> (g <$> l)). rewrite <- list_fmap_compose.
  apply list_fmap_ext. intros i x _. simpl. f_equal. lia.
Qed.

(** Two counts less than a lap apart use different slots. *)
Lemma slots_differ s i j : 0 < s -> i < j < i + s -> i mod s <> j mod s.
Proof.
  intros Hs Hij Heq. assert (Hm : (j - i) mod s = 0).
  { rewrite Zminus_mod, Heq, Z.sub_diag. apply Z.mod_0_l. lia. }
  rewrite Z.mod_small in Hm by lia. lia.
Qed.

(** Rings that differ only in the slots. *)
Definition with_descs (r : Ring T) (ds : list T) : Ring T :=
  mkRing (producer r) (consumer r) ds (size r) (mask r).

Lemma cell_write r P C j e :
  ring_repr r P C -> forall x, cell (with_descs r (<[Z.to_nat (j mod size r) := e]> (descs r))) x =
    if x mod size r =? j mod size r then e else cell r x.
Proof.
  intros Hr x. pose proof (size_bounds _ _ _ Hr). unfold cell, with_descs. cbn [descs size].
  pose proof (Z.mod_pos_bound x (size r) ltac:(lia)). pose proof (Z.mod_pos_bound j (size r) ltac:(lia)).
  pose proof (rr_descs _ _ _ Hr) as Hl. unfold elt. case_goal.
  - assert (x mod size r = j mod size r) as -> by lia. rewrite list_lookup_total_insert_eq; [done|].
    unfold len in Hl. lia.
  - rewrite list_lookup_total_insert_ne; [done|lia].
Qed.

Lemma window_same r r' a b :
  (forall x, a <= x < b -> cell r' x = cell r x) -> window r' a b = window r a b.
Proof.
  intros Hc. apply list_eq. intros i. destruct (decide (Z.of_nat i < b - a)) as [Hi|Hi].
  - rewrite !window_lookup by done. f_equal. apply Hc. lia.
  - rewrite !lookup_ge_None_2 by (rewrite window_length; lia). done.
Qed.

Lemma window_one r a : window r a (a + 1) = [cell r a].
Proof.
  unfold window. replace (Z.to_nat (a + 1 - a)) with 1%nat by lia. simpl. by rewrite Z.add_0_r.
Qed.

Lemma with_descs_repr r P C ds : ring_repr r P C -> len ds = size r -> ring_repr (with_descs r ds) P C.
Proof. intros [] Hl. by constructor. Qed.

(** Writing past the produced entries extends the window. *)
Lemma write_slots_spec r P C i entries :
  ring_repr r P C -> 0 <= i -> P - C + i + len entries <= size r ->
  exists ds, write_slots (descs r) (mask r) (producer r) i entries = Done ds /\
    ring_repr (with_descs r ds) P C /\
    window (with_descs r ds) C (P + i + len entries) = window r C (P + i) ++ entries.
Proof.
  revert r i. induction entries as [|e entries IH]; intros r i Hr Hi Hl; cbn [write_slots].
  { exists (descs r). rewrite len_nil, Z.add_0_r, app_nil_r. by destruct r. }
  rewrite len_cons in Hl |- *. pose_len. pose proof (size_bounds _ _ _ Hr) as Hsz.
  rewrite (slot_index r P C _ P Hr (rr_prod _ _ _ Hr)).
  pose proof (Z.mod_pos_bound (P + i) (size r) ltac:(lia)).
  rewrite set_at_in by (rewrite (rr_descs _ _ _ Hr); lia).
  set (ds1 := <[_ := e]> (descs r)). set (r1 := with_descs r ds1).
  assert (Hr1 : ring_repr r1 P C).
  { apply with_descs_repr; [done|]. unfold ds1. rewrite len_insert. apply Hr. }
  destruct (IH r1 (i + 1) Hr1) as (ds & Hw & Hrd & Hwin); [lia|done..|simpl; lia|].
  exists ds. split; [exact Hw|]. split; [exact Hrd|].
  replace (P + i + (1 + len entries)) with (P + (i + 1) + len entries) by lia.
  change (with_descs r ds) with (with_descs r1 ds). rewrite Hwin.
  pose proof (rr_order _ _ _ Hr).
  rewrite Z.add_assoc, (window_split r1 C (P + i)), window_one by lia.
  rewrite <- app_assoc. cbn [app]. f_equal.
  - apply window_same. intros x Hx. unfold r1, ds1. rewrite (cell_write r P C) by done.
    case_goal; [|done]. exfalso. apply (slots_differ (size r) x (P + i)); lia.
  - f_equal. unfold r1, ds1. rewrite (cell_write r P C) by done. case_goal; [done|lia].
Qed.

Lemma read_slots_spec r P C i n :
  ring_repr r P C ->
  read_slots (descs r) (mask r) (consumer r) i n = Done (window r (C + i) (C + i + Z.of_nat n)).
Proof.
  intros Hr. revert i. induction n as [|n IH]; intros i; cbn [read_slots].
  { unfold window. by replace (Z.to_nat (C + i + Z.of_nat 0 - (C + i))) with 0%nat by lia. }
  pose proof (size_bounds _ _ _ Hr) as Hsz. rewrite (slot_index r P C _ C Hr (rr_cons _ _ _ Hr)).
  pose proof (Z.mod_pos_bound (C + i) (size r) ltac:(lia)).
  rewrite idx_in by (rewrite (rr_descs _ _ _ Hr); lia). rewrite IH. f_equal.
  rewrite (window_split r (C + i) (C + i + 1)), window_one by lia. cbn [app].
  replace (C + (i + 1)) with (C + i + 1) by lia.
  by replace (C + i + Z.of_nat (S n)) with (C + i + 1 + Z.of_nat n) by lia.
Qed.

(** What is in the ring. *)
Definition contents (r : Ring T) (P C : Z) : list T := window r C P.

Lemma produce_spec r P C entries :
  ring_repr r P C ->
  exists r', let n := Z.min (size r - (P - C)) (len entries) in
    produce r entries = Done (r', n) /\ ring_repr r' (P + n) C /\ size r' = size r /\
    contents r' (P + n) C = contents r P C ++ take (Z.to_nat n) entries.
Proof.
  intros Hr. pose proof (size_bounds _ _ _ Hr) as Hsz.
  pose proof (rr_order _ _ _ Hr). pose proof (rr_bound _ _ _ Hr). unfold produce, contents.
  destruct entries as [|e entries].
  { exists r. cbv zeta. change (len (@nil T)) with 0. replace (Z.min _ 0) with 0 by lia.
    rewrite Z.add_0_r, app_nil_r. done. }
  set (es := e :: entries). pose_len. set (n := Z.min (size r - (P - C)) (len es)).
  assert (produce_room r (producer r) (consumer r) es = n) as ->.
  { unfold produce_room.
    rewrite (wsub32_counts P C (producer r) (consumer r)); [|lia|apply (rr_prod _ _ _ Hr)|apply (rr_cons _ _ _ Hr)].
    unfold wsub32, wrap32. by rewrite Z.mod_small by lia. }
  assert (Htk : len (take (Z.to_nat n) es) = n) by (rewrite len_take; lia).
  destruct (write_slots_spec r P C 0 (take (Z.to_nat n) es) Hr) as (ds & -> & Hrd & Hwin); [lia|lia|].
  rewrite Htk, !Z.add_0_r in Hwin. eexists. split; [done|].
  assert (Hw' : forall r2 a b, descs r2 = ds -> size r2 = size r -> window r2 a b = window (with_descs r ds) a b).
  { intros r2 a b Hd Hs. unfold window, cell. by rewrite Hd, Hs. }
  split; [|split; [done|]].
  - destruct Hrd as [? ? ? Hp ? ? ?]. constructor; try done; cbn in *; [|lia|lia].
    rewrite Hp. unfold wadd32, wrap32. by rewrite Z.add_mod_idemp_l by lia.
  - by rewrite Hw'.
Qed.

Lemma consume_spec r P C out_len :
  ring_repr r P C -> 0 <= out_len ->
  exists r' out, let n := Z.min (P - C) out_len in
    consume r out_len = Done (r', out) /\ ring_repr r' P (C + n) /\ len out = n /\
    contents r P C = out ++ contents r' P (C + n).
Proof.
  intros Hr Ho. pose proof (size_bounds _ _ _ Hr) as Hsz.
  pose proof (rr_order _ _ _ Hr). pose proof (rr_bound _ _ _ Hr). unfold consume, contents. case_goal.
  { exists r, []. cbv zeta. replace (Z.min (P - C) out_len) with 0 by lia. rewrite Z.add_0_r. done. }
  rewrite (wsub32_counts P C (producer r) (consumer r)); [|lia|apply (rr_prod _ _ _ Hr)|apply (rr_cons _ _ _ Hr)]. set (n := Z.min (P - C) out_len).
  rewrite (read_slots_spec r P C 0 _ Hr), Z.add_0_r, Z2Nat.id by lia.
  eexists _, _. split; [done|]. split; [|split].
  - destruct Hr as [? ? ? ? Hc ? ?]. constructor; try done; cbn in *; [|lia|lia].
    rewrite Hc. unfold wadd32, wrap32. by rewrite Z.add_mod_idemp_l by lia.
  - unfold len. rewrite window_length. lia.
  - by rewrite (window_split r C (C + n)) by lia.
Qed.

(** ** Producing while the kernel consumes *)

(** Where the producer is between its memory accesses. *)
Inductive pc :=
| PIdle
| PLoaded (prod : Z) (entries : list T)
| PWriting (prod n i : Z) (entries : list T).

Record pstate := mkP {
  p_ring : Ring T;
  p_pc : pc;
  accepted : list T;
  received : list T;
}.

(** One access of [produce], or the kernel taking [m] entries. *)
Inductive pstep : pstate -> pstate -> Prop :=
| step_load_producer r es acc rcv :
    es <> [] ->
    pstep (mkP r PIdle acc rcv) (mkP r (PLoaded (producer r) es) acc rcv)
| step_load_consumer r prod es acc rcv :
    pstep (mkP r (PLoaded prod es) acc rcv)
          (mkP r (PWriting prod (produce_room r prod (consumer r) es) 0 es) acc rcv)
| step_write r prod n i es e ds acc rcv :
    i < n -> es !! Z.to_nat i = Some e ->
    set_at (descs r) (Z.land (wadd32 prod i) (mask r)) e = Done ds ->
    pstep (mkP r (PWriting prod n i es) acc rcv) (mkP (with_descs r ds) (PWriting prod n (i + 1) es) acc rcv)
| step_publish r prod n es acc rcv :
    pstep (mkP r (PWriting prod n n es) acc rcv)
          (mkP (mkRing (wadd32 prod n) (consumer r) (descs r) (size r) (mask r)) PIdle
               (acc ++ take (Z.to_nat n) es) rcv)
| step_kernel r pc m out acc rcv :
    0 < m <= wsub32 (producer r) (consumer r) ->
    read_slots (descs r) (mask r) (consumer r) 0 (Z.to_nat m) = Done out ->
    pstep (mkP r pc acc rcv)
          (mkP (mkRing (producer r) (wadd32 (consumer r) m) (descs r) (size r) (mask r)) pc acc (rcv ++ out)).

Inductive psteps : pstate -> pstate -> Prop :=
| psteps_refl s : psteps s s
| psteps_step s1 s2 s3 : psteps s1 s2 -> pstep s2 s3 -> psteps s1 s3.

Definition pc_ok (r : Ring T) (P C : Z) (p : pc) : Prop :=
  match p with
  | PIdle => True
  | PLoaded prod _ => prod = wrap32 P
  | PWriting prod n i es =>
      prod = wrap32 P /\ 0 <= i <= n /\ n <= len es /\ P - C + n <= size r /\
      window r C (P + i) = window r C P ++ take (Z.to_nat i) es
  end.

Definition pinv (s : pstate) : Prop :=
  exists P C, ring_repr (p_ring s) P C /\ pc_ok (p_ring s) P C (p_pc s) /\
    accepted s = received s ++ contents (p_ring s) P C.

Lemma room_bound r P C prod es :
  ring_repr r P C -> prod = wrap32 P ->
  0 <= produce_room r prod (consumer r) es <= len es /\
  P - C + produce_room r prod (consumer r) es <= size r.
Proof.
  intros Hr ->. pose proof (size_bounds _ _ _ Hr). pose proof (rr_order _ _ _ Hr).
  pose proof (rr_bound _ _ _ Hr). unfold produce_room.
  rewrite (wsub32_counts P C (wrap32 P) (consumer r)); [|lia|done|apply (rr_cons _ _ _ Hr)].
  unfold wsub32, wrap32. rewrite Z.mod_small by lia. pose_len. lia.
Qed.

(** A write keeps what is in the ring and adds to what is being prepared. *)
Lemma pinv_write r P C prod n i es e ds :
  ring_repr r P C -> pc_ok r P C (PWriting prod n i es) -> i < n -> es !! Z.to_nat i = Some e ->
  set_at (descs r) (Z.land (wadd32 prod i) (mask r)) e = Done ds ->
  ring_repr (with_descs r ds) P C /\ pc_ok (with_descs r ds) P C (PWriting prod n (i + 1) es) /\
  contents (with_descs r ds) P C = contents r P C.
Proof.
  intros Hr (Hp & Hi & Hn & Hroom & Hwin) Hin He Hset. pose proof (size_bounds _ _ _ Hr).
  pose proof (rr_order _ _ _ Hr). rewrite (slot_index r P C _ P Hr Hp) in Hset.
  pose proof (Z.mod_pos_bound (P + i) (size r) ltac:(lia)).
  rewrite set_at_in in Hset by (rewrite (rr_descs _ _ _ Hr); lia). injection Hset as <-.
  set (r1 := with_descs r _).
  assert (Hsame : forall b, b <= P + i -> window r1 C b = window r C b).
  { intros b Hb. apply window_same. intros x Hx. unfold r1. rewrite (cell_write r P C) by done.
    case_goal; [|done]. exfalso. apply (slots_differ (size r) x (P + i)); lia. }
  split; [apply with_descs_repr; [done|rewrite len_insert; apply Hr]|].
  split; [|apply Hsame; lia]. split; [done|]. split; [lia|]. split; [done|]. split; [done|].
  rewrite Z.add_assoc, (window_split r1 C (P + i)), window_one, !Hsame, Hwin by lia.
  unfold r1. rewrite (cell_write r P C), Z.eqb_refl by done. rewrite <- app_assoc. f_equal.
  replace (Z.to_nat (i + 1)) with (S (Z.to_nat i)) by lia. by rewrite (take_S_r _ _ e).
Qed.

Lemma pinv_publish r P C prod n es :
  ring_repr r P C -> pc_ok r P C (PWriting prod n n es) ->
  let r' := mkRing (wadd32 prod n) (consumer r) (descs r) (size r) (mask r) in
  ring_repr r' (P + n) C /\ contents r' (P + n) C = contents r P C ++ take (Z.to_nat n) es.
Proof.
  intros Hr (-> & Hi & Hn & Hroom & Hwin) r'. split; [|exact Hwin].
  destruct Hr as [? ? ? ? ? ? ?]. constructor; try done; cbn in *; [|lia|lia].
  unfold wadd32, wrap32. by rewrite Z.add_mod_idemp_l by lia.
Qed.

Lemma pinv_kernel r P C p m out :
  ring_repr r P C -> pc_ok r P C p -> 0 < m <= wsub32 (producer r) (consumer r) ->
  read_slots (descs r) (mask r) (consumer r) 0 (Z.to_nat m) = Done out ->
  let r' := mkRing (producer r) (wadd32 (consumer r) m) (descs r) (size r) (mask r) in
  ring_repr r' P (C + m) /\ pc_ok r' P (C + m) p /\ contents r P C = out ++ contents r' P (C + m).
Proof.
  intros Hr Hp Hm Hout r'. pose proof (size_bounds _ _ _ Hr). pose proof (rr_order _ _ _ Hr).
  pose proof (rr_bound _ _ _ Hr).
  rewrite (wsub32_counts P C (producer r) (consumer r)) in Hm;
    [|lia|apply (rr_prod _ _ _ Hr)|apply (rr_cons _ _ _ Hr)].
  rewrite (read_slots_spec r P C 0 _ Hr), Z.add_0_r, Z2Nat.id in Hout by lia. injection Hout as <-.
  split; [|split].
  - destruct Hr as [? ? ? ? Hc ? ?]. constructor; try done; cbn in *; [|lia|lia].
    rewrite Hc. unfold wadd32, wrap32. by rewrite Z.add_mod_idemp_l by lia.
  - destruct p as [|prod es|prod n i es]; [done|done|]. destruct Hp as (Hpr & Hi & Hn & Hroom & Hwin).
    split; [done|]. split; [done|]. split; [done|]. split; [cbn; lia|].
    change (window r' ?a ?b) with (window r a b).
    rewrite (window_split r C (C + m) (P + i)), (window_split r C (C + m) P), <- app_assoc in Hwin by lia.
    by apply app_inv_head in Hwin.
  - unfold contents. change (window r' ?a ?b) with (window r a b). apply window_split. lia.
Qed.

Lemma pstep_inv s s' : pstep s s' -> pinv s -> pinv s'.
Proof.
  intros Hstep (P & C & Hr & Hp & Hacc). destruct Hstep; cbn [p_ring p_pc accepted received] in *.
  - exists P, C. split; [done|]. split; [apply (rr_prod _ _ _ Hr)|done].
  - exists P, C. split; [done|]. split; [|done].
    destruct (room_bound r P C prod es Hr Hp) as [Hb1 Hb2].
    split; [done|]. split; [lia|]. split; [lia|]. split; [done|]. by rewrite Z.add_0_r, app_nil_r.
  - edestruct pinv_write as (Hr' & Hp' & Hc'); [done..|].
    exists P, C. split; [done|]. split; [done|]. cbn. by rewrite Hc'.
  - edestruct pinv_publish as (Hr' & Hc'); [done..|].
    exists (P + n), C. split; [done|]. split; [done|]. cbn. by rewrite Hacc, Hc', app_assoc.
  - edestruct pinv_kernel as (Hr' & Hp' & Hc'); [done..|].
    exists P, (C + m). split; [done|]. split; [done|]. cbn. by rewrite Hacc, Hc', <- app_assoc.
Qed.

Lemma psteps_inv s s' : psteps s s' -> pinv s -> pinv s'.
Proof. induction 1; eauto using pstep_inv. Qed.

End ring.

(** ** A bounded queue *)

Inductive ring_op (T : Type) := Produce (entries : list T) | Consume (out_len : nat).
Arguments Produce {_}.
Arguments Consume {_}.

(** What an operation answers: the number taken in, or the entries given out. *)
Inductive ring_answer (T : Type) := Took (n : Z) | Gave (out : list T).
Arguments Took {_}.
Arguments Gave {_}.

Fixpoint run_ring {T} (ops : list (ring_op T)) (r : Ring T) : rs (list (ring_answer T)) :=
  match ops with
  | [] => Done []
  | Produce es :: rest =>
      let* (r, n) := produce r es in
      let* answers := run_ring rest r in Done (Took n :: answers)
  | Consume k :: rest =>
      let* (r, out) := consume r (Z.of_nat k) in
      let* answers := run_ring rest r in Done (Gave out :: answers)
  end.

Fixpoint run_queue {T} (capacity : nat) (ops : list (ring_op T)) (q : list T) : list (ring_answer T) :=
  match ops with
  | [] => []
  | Produce es :: rest =>
      let es' := take (capacity - length q) es in
      Took (len es') :: run_queue capacity rest (q ++ es')
  | Consume k :: rest => Gave (take k q) :: run_queue capacity rest (drop k q)
  end.

Definition ring_new {T} (k : nat) (x : T) : Ring T :=
  mkRing 0 0 (replicate (2 ^ k) x) (2 ^ Z.of_nat k) (2 ^ Z.of_nat k - 1).

Section queue.
  Context {T : Type} `{Inhabited T}.

Lemma ring_new_repr k (x : T) : (k <= 31)%nat -> ring_repr (ring_new k x) 0 0.
Proof.
  intros Hk. unfold ring_new. assert (0 < 2 ^ Z.of_nat k) by (apply Z.pow_pos_nonneg; lia).
  constructor; cbn; try done; try lia.
  - exists (Z.of_nat k). split; [lia|done].
  - rewrite len_replicate. by rewrite Nat2Z.inj_pow.
Qed.

Lemma contents_length (r : Ring T) P C : ring_repr r P C -> length (contents r P C) = Z.to_nat (P - C).
Proof. intros Hr. apply window_length. Qed.

Lemma run_ring_queue ops (r : Ring T) P C :
  ring_repr r P C ->
  run_ring ops r = Done (run_queue (Z.to_nat (size r)) ops (contents r P C)).
Proof.
  revert r P C. induction ops as [|[es|k] ops IH]; intros r P C Hr; cbn [run_ring run_queue]; [done|..];
    pose proof (size_bounds _ _ _ Hr); pose proof (rr_order _ _ _ Hr); pose proof (rr_bound _ _ _ Hr);
    pose proof (contents_length _ _ _ Hr) as Hl.
  - destruct (produce_spec r P C es Hr) as (r' & -> & Hr' & Hs' & Hc'). cbv zeta in *. pose_len.
    set (n := Z.min (size r - (P - C)) (len es)) in *.
    rewrite (IH r' (P + n) C Hr'), Hs', Hc', Hl.
    assert (take (Z.to_nat (size r) - Z.to_nat (P - C)) es = take (Z.to_nat n) es) as ->.
    { destruct (decide (len es <= size r - (P - C))).
      - rewrite !take_ge by (unfold len in *; lia). done.
      - f_equal. lia. }
    by replace (len (take (Z.to_nat n) es)) with n by (rewrite len_take; lia).
  - destruct (consume_spec r P C (Z.of_nat k) Hr) as (r' & out & Hc & Hr' & Ho & Hsplit); [lia|].
    assert (size r' = size r) as Hs'.
    { revert Hc. unfold consume. repeat case_goal; try done; by intros [= <- <-]. }
    rewrite Hc. cbv zeta in *. rewrite (IH r' _ _ Hr'), Hs'. f_equal.
    set (n := Z.min (P - C) (Z.of_nat k)) in *. pose proof (contents_length _ _ _ Hr') as Hl'.
    assert (length out = Z.to_nat n) as Hol by (unfold len in Ho; lia).
    rewrite Hsplit. f_equal.
    + f_equal. destruct (decide (Z.of_nat k <= P - C)).
      * rewrite take_app_length' by lia. done.
      * rewrite take_ge; [|rewrite length_app; lia].
        rewrite (nil_length_inv (contents r' P (C + n))) by lia. by rewrite app_nil_r.
    + f_equal. destruct (decide (Z.of_nat k <= P - C)).
      * rewrite drop_app_length' by lia. done.
      * rewrite drop_ge by (rewrite length_app; lia). apply nil_length_inv. lia.
Qed.

End queue.

(** ** Socket operations *)

Record xdp_desc := mkDesc { addr : Z; desc_len : Z; options : Z }.

#[global] Instance xdp_desc_inhabited : Inhabited xdp_desc := populate (mkDesc 0 0 0).

Record AdoptedSocket := mkSocket {
  rx : Ring xdp_desc;
  tx : Ring xdp_desc;
  fill : Ring Z;
  comp : Ring Z;
}.

(** [poll_rc] is what [poll] returns; the wakeup calls change no ring. *)
Definition poll_recv (s : AdoptedSocket) (n poll_rc : Z) : rs (AdoptedSocket * list xdp_desc) :=
  if poll_rc <=? 0 then Done (s, [])
  else let* (r, out) := consume (rx s) n in Done (mkSocket r (tx s) (fill s) (comp s), out).

Definition transmit (s : AdoptedSocket) (ds : list xdp_desc) : rs (AdoptedSocket * Z) :=
  let* (r, n) := produce (tx s) ds in Done (mkSocket (rx s) r (fill s) (comp s), n).

Definition refill_descs (s : AdoptedSocket) (ds : list xdp_desc) : rs (AdoptedSocket * Z) :=
  let* (r, n) := produce (fill s) (map addr ds) in Done (mkSocket (rx s) (tx s) r (comp s), n).

(** The descriptors written to the scratch slice and how many were refilled. *)
Definition complete_descs (s : AdoptedSocket) (scratch_len : Z) : rs (AdoptedSocket * list xdp_desc * Z) :=
  let* (c, addrs) := consume (comp s) scratch_len in
  let descs := map (fun a => mkDesc a 0 0) addrs in
  if 0 <? len addrs then
    let* (f, n) := produce (fill s) addrs in
    Done (mkSocket (rx s) (tx s) f c, descs, n)
  else Done (mkSocket (rx s) (tx s) (fill s) c, descs, 0).

(** ** Properties *)

(** C7.  The rings are bounded FIFO queues: any sequence of produce and consume
    operations on a ring of any power-of-two size answers exactly as a list of
    that capacity does, also when the 32-bit indices wrap around. *)
Theorem ring_refines_queue {T} `{Inhabited T} (ops : list (ring_op T)) (r : Ring T) (P C : Z) :
  ring_repr r P C -> run_ring ops r = Done (run_queue (Z.to_nat (size r)) ops (contents r P C)).
Proof. apply run_ring_queue. Qed.

(** A ring of four slots whose indices are about to wrap. *)
Definition wrapping_ring : Ring Z := mkRing (2 ^ 32 - 1) (2 ^ 32 - 1) [0; 0; 0; 0] 4 3.

Lemma ring_refines_queue_witness :
  run_ring [Produce [1; 2; 3]; Consume 2; Produce [4; 5; 6; 7]; Consume 9] wrapping_ring
  = Done [Took 3; Gave [1; 2]; Took 3; Gave [3; 4; 5; 6]].
Proof.
  rewrite (ring_refines_queue _ wrapping_ring (2 ^ 32 - 1) (2 ^ 32 - 1)); [reflexivity|].
  constructor; try reflexivity; try (simpl; lia). exists 2. split; [lia|reflexivity].
Defined.

(** C18.  Producing while the kernel consumes.  However the memory accesses of
    [produce] interleave with the kernel taking entries, what the kernel has
    received followed by what the ring still holds is exactly what the calls
    accepted, in order; the ring never holds more than its size; and the next
    slot write is always in range, so no entry the kernel has not taken is lost. *)
Theorem ring_concurrent_fifo {T} `{Inhabited T} (s0 s : pstate (T := T)) (P0 C0 : Z) :
  ring_repr (p_ring s0) P0 C0 -> p_pc s0 = PIdle ->
  accepted s0 = received s0 ++ contents (p_ring s0) P0 C0 ->
  psteps s0 s ->
  exists P C, ring_repr (p_ring s) P C /\
    accepted s = received s ++ contents (p_ring s) P C /\ len (contents (p_ring s) P C) <= size (p_ring s) /\
    (forall prod n i es, p_pc s = PWriting prod n i es -> i < n -> exists s', pstep s s').
Proof.
  intros Hr Hpc Hacc Hsteps.
  destruct (psteps_inv s0 s Hsteps) as (P & C & Hr' & Hp' & Hacc').
  { exists P0, C0. by rewrite Hpc. }
  pose proof (rr_order _ _ _ Hr'). pose proof (rr_bound _ _ _ Hr').
  exists P, C. split; [done|]. split; [done|]. split.
  { unfold len. rewrite contents_length by done. lia. }
  intros prod n i es Hw Hin. destruct s as [r p acc rcv]. cbn in *. subst p.
  destruct Hp' as (Hprod & Hi & Hn & Hroom & _). pose proof (size_bounds _ _ _ Hr').
  destruct (lookup_lt_is_Some_2 es (Z.to_nat i)) as [e He]; [unfold len in Hn; lia|].
  destruct (set_at (descs r) (Z.land (wadd32 prod i) (mask r)) e) as [ds|] eqn:Es.
  - eexists. by eapply step_write.
  - revert Es. rewrite (slot_index r P C _ P Hr' Hprod).
    pose proof (Z.mod_pos_bound (P + i) (size r) ltac:(lia)).
    by rewrite set_at_in by (rewrite (rr_descs _ _ _ Hr'); lia).
Qed.

Definition example_pstate : pstate := mkP wrapping_ring PIdle [] [].

(** One entry written, the kernel waiting, and the entry published and taken. *)
Definition example_taken : pstate :=
  mkP (mkRing 0 0 [0; 0; 0; 7] 4 3) PIdle [7] [7].

Lemma example_psteps : psteps example_pstate example_taken.
Proof.
  eapply psteps_step; [eapply psteps_step; [eapply psteps_step; [eapply psteps_step;
    [eapply psteps_step; [apply psteps_refl|]|]|]|]|].
  - by apply (step_load_producer wrapping_ring [7]).
  - apply step_load_consumer.
  - eapply (step_write wrapping_ring _ _ _ _ 7); [done|done|vm_compute; reflexivity].
  - apply (step_publish (with_descs wrapping_ring [0; 0; 0; 7]) (2 ^ 32 - 1) 1 [7]).
  - apply (step_kernel (mkRing 0 (2 ^ 32 - 1) [0; 0; 0; 7] 4 3) PIdle 1 [7]);
      [vm_compute; split; [reflexivity|discriminate]|vm_compute; reflexivity].
Qed.

Lemma ring_concurrent_fifo_witness :
  exists P C, ring_repr (mkRing 0 0 [0; 0; 0; 7] 4 3) P C /\
    [7] = [7] ++ contents (mkRing 0 0 [0; 0; 0; 7] 4 3) P C.
Proof.
  destruct (ring_concurrent_fifo example_pstate example_taken (2 ^ 32 - 1) (2 ^ 32 - 1))
    as (P & C & Hr & Hc & _).
  - constructor; try reflexivity; try (simpl; lia). exists 2. split; [lia|reflexivity].
  - reflexivity.
  - reflexivity.
  - apply example_psteps.
  - exists P, C. split; [exact Hr|exact Hc].
Defined.
