(* ===== verification/RingConsume.v ===== *)
(** * Consuming while the kernel produces

    The other side of [Rings]: the receive and completion rings of
    [pesigitg-daemon/src/xdp_adopt.rs], where the kernel produces and [Ring::consume]
    takes entries.  A step is one memory access of [consume], or the kernel writing a
    free slot or moving its index. *)

From S2P Require Import Prelude Std Rings.

Section consume.
  Context {T : Type} `{Inhabited T}.

(** Where the consumer is between its memory accesses. *)
Inductive cpc :=
| CIdle
| CLoaded (from out_len : Z)
| CReading (from n i : Z) (out : list T).

Record cstate := mkC {
  c_ring : Ring T;
  c_pc : cpc;
  published : list T;
  taken : list T;
}.

Definition free_slots (r : Ring T) : Z := wsub32 (size r) (wsub32 (producer r) (consumer r)).

Inductive cstep : cstate -> cstate -> Prop :=
| cstep_load_consumer r out_len pub got :
    0 < out_len ->
    cstep (mkC r CIdle pub got) (mkC r (CLoaded (consumer r) out_len) pub got)
| cstep_load_producer r from out_len pub got :
    cstep (mkC r (CLoaded from out_len) pub got)
          (mkC r (CReading from (Z.min (wsub32 (producer r) from) out_len) 0 []) pub got)
| cstep_read r from n i out e pub got :
    i < n -> idx (descs r) (Z.land (wadd32 from i) (mask r)) = Done e ->
    cstep (mkC r (CReading from n i out) pub got) (mkC r (CReading from n (i + 1) (out ++ [e])) pub got)
| cstep_release r from n out pub got :
    cstep (mkC r (CReading from n n out) pub got)
          (mkC (mkRing (producer r) (wadd32 from n) (descs r) (size r) (mask r)) CIdle pub (got ++ out))
| cstep_kernel_write r pc j e ds pub got :
    0 <= j < free_slots r -> set_at (descs r) (Z.land (wadd32 (producer r) j) (mask r)) e = Done ds ->
    cstep (mkC r pc pub got) (mkC (with_descs r ds) pc pub got)
| cstep_kernel_publish r pc m es pub got :
    0 < m <= free_slots r -> read_slots (descs r) (mask r) (producer r) 0 (Z.to_nat m) = Done es ->
    cstep (mkC r pc pub got)
          (mkC (mkRing (wadd32 (producer r) m) (consumer r) (descs r) (size r) (mask r)) pc (pub ++ es) got).

Inductive csteps : cstate -> cstate -> Prop :=
| csteps_refl s : csteps s s
| csteps_step s1 s2 s3 : csteps s1 s2 -> cstep s2 s3 -> csteps s1 s3.

(** ** The invariant *)

Definition cpc_ok (r : Ring T) (P C : Z) (p : cpc) : Prop :=
  match p with
  | CIdle => True
  | CLoaded from out_len => from = wrap32 C /\ 0 < out_len
  | CReading from n i out =>
      from = wrap32 C /\ 0 <= i <= n /\ n <= P - C /\ out = window r C (C + i)
  end.

Definition cinv (s : cstate) : Prop :=
  exists P C, ring_repr (c_ring s) P C /\ cpc_ok (c_ring s) P C (c_pc s) /\
    published s = taken s ++ contents (c_ring s) P C.

Lemma free_slots_eq (r : Ring T) P C : ring_repr r P C -> free_slots r = size r - (P - C).
Proof.
  intros Hr. pose proof (size_bounds _ _ _ Hr). pose proof (rr_order _ _ _ Hr). pose proof (rr_bound _ _ _ Hr).
  unfold free_slots.
  rewrite (wsub32_counts P C (producer r) (consumer r)); [|lia|apply (rr_prod _ _ _ Hr)|apply (rr_cons _ _ _ Hr)].
  unfold wsub32, wrap32. by rewrite Z.mod_small by lia.
Qed.

(** Reading from any index that stands for a count. *)
Lemma read_slots_at (r : Ring T) P C x X i n :
  ring_repr r P C -> x = wrap32 X ->
  read_slots (descs r) (mask r) x i n = Done (window r (X + i) (X + i + Z.of_nat n)).
Proof.
  intros Hr Hx. revert i. induction n as [|n IH]; intros i; cbn [read_slots].
  { unfold window. by replace (Z.to_nat (X + i + Z.of_nat 0 - (X + i))) with 0%nat by lia. }
  pose proof (size_bounds _ _ _ Hr). rewrite (slot_index r P C _ X Hr Hx).
  pose proof (Z.mod_pos_bound (X + i) (size r) ltac:(lia)).
  rewrite idx_in by (rewrite (rr_descs _ _ _ Hr); lia). rewrite IH. f_equal.
  rewrite (window_split r (X + i) (X + i + 1)), window_one by lia. cbn [app].
  replace (X + (i + 1)) with (X + i + 1) by lia.
  by replace (X + i + Z.of_nat (S n)) with (X + i + 1 + Z.of_nat n) by lia.
Qed.

Lemma cinv_read (r : Ring T) P C from n i out e :
  ring_repr r P C -> cpc_ok r P C (CReading from n i out) -> i < n ->
  idx (descs r) (Z.land (wadd32 from i) (mask r)) = Done e ->
  cpc_ok r P C (CReading from n (i + 1) (out ++ [e])).
Proof.
  intros Hr (Hc & Hi & Hn & ->) Hin He. pose proof (size_bounds _ _ _ Hr). rewrite (slot_index r P C _ C Hr Hc) in He.
  pose proof (Z.mod_pos_bound (C + i) (size r) ltac:(lia)).
  rewrite idx_in in He by (rewrite (rr_descs _ _ _ Hr); lia). injection He as <-.
  split; [done|]. split; [lia|]. split; [done|].
  by rewrite Z.add_assoc, (window_split r C (C + i) (C + i + 1)), window_one by lia.
Qed.

(** A write to a free slot changes nothing that is published. *)
Lemma cinv_kernel_write (r : Ring T) P C p j e ds :
  ring_repr r P C -> cpc_ok r P C p -> 0 <= j < free_slots r ->
  set_at (descs r) (Z.land (wadd32 (producer r) j) (mask r)) e = Done ds ->
  ring_repr (with_descs r ds) P C /\ cpc_ok (with_descs r ds) P C p /\
  contents (with_descs r ds) P C = contents r P C.
Proof.
  intros Hr Hp Hj Hset. pose proof (size_bounds _ _ _ Hr). pose proof (rr_order _ _ _ Hr).
  rewrite (free_slots_eq r P C Hr) in Hj. rewrite (slot_index r P C _ P Hr (rr_prod _ _ _ Hr)) in Hset.
  pose proof (Z.mod_pos_bound (P + j) (size r) ltac:(lia)).
  rewrite set_at_in in Hset by (rewrite (rr_descs _ _ _ Hr); lia). injection Hset as <-.
  set (r1 := with_descs r _).
  assert (Hsame : forall b, b <= P -> window r1 C b = window r C b).
  { intros b Hb. apply window_same. intros x Hx. unfold r1. rewrite (cell_write r P C) by done.
    case_goal; [|done]. exfalso. apply (slots_differ (size r) x (P + j)); lia. }
  split; [apply with_descs_repr; [done|rewrite len_insert; apply Hr]|]. split; [|apply Hsame; lia].
  destruct p as [|from l|from n i out]; [done|done|]. destruct Hp as (Hc & Hi & Hn & ->).
  split; [done|]. split; [done|]. split; [done|]. symmetry. apply Hsame. lia.
Qed.

Lemma cinv_kernel_publish (r : Ring T) P C p m es :
  ring_repr r P C -> cpc_ok r P C p -> 0 < m <= free_slots r ->
  read_slots (descs r) (mask r) (producer r) 0 (Z.to_nat m) = Done es ->
  let r' := mkRing (wadd32 (producer r) m) (consumer r) (descs r) (size r) (mask r) in
  ring_repr r' (P + m) C /\ cpc_ok r' (P + m) C p /\ contents r' (P + m) C = contents r P C ++ es.
Proof.
  intros Hr Hp Hm Hes r'. rewrite (free_slots_eq r P C Hr) in Hm. pose proof (rr_order _ _ _ Hr).
  rewrite (read_slots_at r P C _ P 0 _ Hr (rr_prod _ _ _ Hr)), Z.add_0_r, Z2Nat.id in Hes by lia. injection Hes as <-.
  split; [|split].
  - destruct Hr as [? ? ? Hpr ? ? ?]. constructor; try done; cbn in *; [|lia|lia].
    rewrite Hpr. unfold wadd32, wrap32. by rewrite Z.add_mod_idemp_l by lia.
  - destruct p as [|from l|from n i out]; [done|done|]. destruct Hp as (Hc & Hi & Hn & ->).
    split; [done|]. split; [done|]. split; [lia|done].
  - unfold contents. change (window r' ?a ?b) with (window r a b). apply window_split. lia.
Qed.

Lemma cinv_release (r : Ring T) P C from n out :
  ring_repr r P C -> cpc_ok r P C (CReading from n n out) ->
  let r' := mkRing (producer r) (wadd32 from n) (descs r) (size r) (mask r) in
  ring_repr r' P (C + n) /\ contents r P C = out ++ contents r' P (C + n).
Proof.
  intros Hr (-> & Hi & Hn & ->) r'. split.
  - destruct Hr as [? ? ? ? Hc ? ?]. constructor; try done; cbn in *; [|lia|lia].
    unfold wadd32, wrap32. by rewrite Z.add_mod_idemp_l by lia.
  - unfold contents. change (window r' ?a ?b) with (window r a b). apply window_split. lia.
Qed.

Lemma cstep_inv s s' : cstep s s' -> cinv s -> cinv s'.
Proof.
  intros Hstep (P & C & Hr & Hp & Hpub). destruct Hstep; cbn [c_ring c_pc published taken] in *.
  - exists P, C. split; [done|]. split; [|done]. split; [apply (rr_cons _ _ _ Hr)|done].
  - exists P, C. split; [done|]. split; [|done]. destruct Hp as [-> Ho]. pose proof (rr_order _ _ _ Hr).
    pose proof (rr_bound _ _ _ Hr). pose proof (size_bounds _ _ _ Hr).
    rewrite (wsub32_counts P C (producer r) (wrap32 C)); [|lia|apply (rr_prod _ _ _ Hr)|done].
    split; [done|]. split; [lia|]. split; [lia|]. unfold window. by rewrite Z.add_0_r, Z.sub_diag.
  - exists P, C. split; [done|]. split; [by eapply cinv_read|done].
  - destruct (cinv_release r P C from n out Hr Hp) as [Hr' Hc'].
    exists P, (C + n). split; [done|]. split; [done|]. cbn. by rewrite Hpub, Hc', <- app_assoc.
  - edestruct cinv_kernel_write as (Hr' & Hp' & Hc'); [done..|].
    exists P, C. split; [done|]. split; [done|]. cbn. by rewrite Hc'.
  - edestruct cinv_kernel_publish as (Hr' & Hp' & Hc'); [done..|].
    exists (P + m), C. split; [done|]. split; [done|]. cbn. by rewrite Hpub, Hc', app_assoc.
Qed.

Lemma csteps_inv s s' : csteps s s' -> cinv s -> cinv s'.
Proof. induction 1; eauto using cstep_inv. Qed.

End consume.

(** ** Properties *)

(** C19.  Consuming while the kernel produces.  However the memory accesses of [consume]
    interleave with the kernel writing free slots and publishing them, what the calls
    returned followed by what the ring still holds is exactly what the kernel
    published, in order; what a call has read so far is the front of the ring, which
    the kernel cannot overwrite before the call ends; and the next read is always in
    range. *)
Theorem consume_concurrent_fifo {T} `{Inhabited T} (s0 s : cstate (T := T)) (P0 C0 : Z) :
  ring_repr (c_ring s0) P0 C0 -> c_pc s0 = CIdle ->
  published s0 = taken s0 ++ contents (c_ring s0) P0 C0 ->
  csteps s0 s ->
  exists P C, ring_repr (c_ring s) P C /\ published s = taken s ++ contents (c_ring s) P C /\
    (forall from n i out, c_pc s = CReading from n i out ->
       out `prefix_of` contents (c_ring s) P C /\ (i < n -> exists s', cstep s s')).
Proof.
  intros Hr Hpc Hpub Hsteps. destruct (csteps_inv s0 s Hsteps) as (P & C & Hr' & Hp' & Hpub').
  { exists P0, C0. by rewrite Hpc. }
  exists P, C. split; [done|]. split; [done|]. intros from n i out Hc. rewrite Hc in Hp'.
  destruct Hp' as (Hf & Hi & Hn & ->). pose proof (size_bounds _ _ _ Hr'). split.
  - exists (window (c_ring s) (C + i) P). apply window_split. lia.
  - intros Hin. destruct s as [r p pub got]. cbn in *. subst p.
    pose proof (Z.mod_pos_bound (C + i) (size r) ltac:(lia)).
    eexists. eapply cstep_read; [done|]. rewrite (slot_index r P C _ C Hr' Hf).
    apply idx_in. rewrite (rr_descs _ _ _ Hr'). lia.
Qed.

Definition example_cstate : cstate := mkC wrapping_ring CIdle [] [].

(** The kernel writes and publishes an entry; a call reads it while the kernel is
    already writing the next. *)
Definition example_read : cstate :=
  mkC (mkRing 0 (2 ^ 32 - 1) [8; 0; 0; 7] 4 3) (CReading (2 ^ 32 - 1) 1 1 [7]) [7] [].

Lemma example_csteps : csteps example_cstate example_read.
Proof.
  eapply csteps_step; [eapply csteps_step; [eapply csteps_step; [eapply csteps_step; [eapply csteps_step;
    [eapply csteps_step; [apply csteps_refl|]|]|]|]|]|].
  - apply (cstep_kernel_write wrapping_ring CIdle 0 7 [0; 0; 0; 7]); [vm_compute; split; [discriminate|reflexivity]|].
    vm_compute. reflexivity.
  - apply (cstep_kernel_publish (with_descs wrapping_ring [0; 0; 0; 7]) CIdle 1 [7]);
      [vm_compute; split; [reflexivity|discriminate]|vm_compute; reflexivity].
  - by apply (cstep_load_consumer _ 64).
  - apply cstep_load_producer.
  - apply (cstep_kernel_write (mkRing 0 (2 ^ 32 - 1) [0; 0; 0; 7] 4 3) _ 0 8 [8; 0; 0; 7]);
      [vm_compute; split; [discriminate|reflexivity]|vm_compute; reflexivity].
  - apply (cstep_read (mkRing 0 (2 ^ 32 - 1) [8; 0; 0; 7] 4 3) (2 ^ 32 - 1) 1 0 [] 7); [lia|vm_compute; reflexivity].
Qed.

Lemma consume_concurrent_fifo_witness :
  exists P C, ring_repr (mkRing 0 (2 ^ 32 - 1) [8; 0; 0; 7] 4 3) P C /\
    [7] = contents (mkRing 0 (2 ^ 32 - 1) [8; 0; 0; 7] 4 3) P C.
Proof.
  destruct (consume_concurrent_fifo example_cstate example_read (2 ^ 32 - 1) (2 ^ 32 - 1)) as (P & C & Hr & Hc & _).
  - constructor; try reflexivity; try (simpl; lia). exists 2. split; [lia|reflexivity].
  - reflexivity.
  - reflexivity.
  - apply example_csteps.
  - exists P, C. split; [exact Hr|exact Hc].
Defined.
