(* ===== verification/Wakeup.v ===== *)
(** * Waking the kernel

    The system calls of an adopted socket around its rings ([Ring::needs_wakeup],
    [wakeup_recvfrom] and [wakeup_sendto] of [pesigitg-daemon/src/xdp_adopt.rs]): each
    operation of [Rings] with the calls it makes.  A flags word is what the kernel has
    in the ring when the operation loads it; the answers of the calls are arguments. *)

From S2P Require Import Prelude Std Rings.

Definition XDP_RING_NEED_WAKEUP : Z := 1.

(** [flags & XDP_RING_NEED_WAKEUP != 0] *)
Definition needs_wakeup (flags : Z) : bool := negb (Z.land flags XDP_RING_NEED_WAKEUP =? 0).

Definition EAGAIN : Z := 11.
Definition EBUSY : Z := 16.
Definition ENOBUFS : Z := 105.

(** [wakeup_recvfrom] and [wakeup_sendto]: what the call returned, and [errno]. *)
Definition wakeup_result (rc errno : Z) : result unit Z :=
  if rc <? 0 then
    if (errno =? EAGAIN) || (errno =? ENOBUFS) || (errno =? EBUSY) then Ok tt else Err errno
  else Ok tt.

Inductive call := Recvfrom | Sendto | Poll (timeout_ms : Z).

Definition poke (c : call) (flags : Z) : list call := if needs_wakeup flags then [c] else [].

Definition poll_recv_calls (s : AdoptedSocket) (n timeout_ms fill_flags poll_rc : Z)
    : rs (AdoptedSocket * list xdp_desc * list call) :=
  let* (s, out) := poll_recv s n poll_rc in
  Done (s, out, poke Recvfrom fill_flags ++ [Poll timeout_ms]).

Definition transmit_calls (s : AdoptedSocket) (ds : list xdp_desc) (tx_flags : Z) : rs (AdoptedSocket * Z * list call) :=
  let* (s, n) := transmit s ds in
  Done (s, n, if 0 <? n then poke Sendto tx_flags else []).

Definition refill_calls (s : AdoptedSocket) (ds : list xdp_desc) (fill_flags : Z) : rs (AdoptedSocket * Z * list call) :=
  let* (s, n) := refill_descs s ds in
  Done (s, n, if 0 <? n then poke Recvfrom fill_flags else []).

Definition complete_calls (s : AdoptedSocket) (scratch_len fill_flags : Z)
    : rs (AdoptedSocket * list xdp_desc * Z * list call) :=
  let* (s, descs, n) := complete_descs s scratch_len in
  Done (s, descs, n, if (0 <? len descs) && (0 <? n) then poke Recvfrom fill_flags else []).

(** The flag is the lowest bit of the word. *)
Lemma needs_wakeup_odd flags : needs_wakeup flags = Z.odd flags.
Proof.
  unfold needs_wakeup, XDP_RING_NEED_WAKEUP. change 1 with (Z.ones 1). rewrite Z.land_ones by lia.
  change (2 ^ 1) with 2. rewrite Zmod_odd. by destruct (Z.odd flags).
Qed.

Lemma poke_cases c flags room n :
  (if 0 <? Z.min room n then poke c flags else []) = if (0 <? room) && (0 <? n) && Z.odd flags then [c] else [].
Proof.
  unfold poke. rewrite needs_wakeup_odd.
  destruct (Z.ltb_spec 0 (Z.min room n)), (Z.ltb_spec 0 room), (Z.ltb_spec 0 n); cbn [andb]; try lia;
    by destruct (Z.odd flags).
Qed.

(** A batch that enters the ring while the kernel asks for it is followed by exactly
    one call, and no other is: a full ring and an empty batch cost no system call. *)
Theorem transmit_wakes (s : AdoptedSocket) (P C : Z) (ds : list xdp_desc) (flags : Z) :
  ring_repr (tx s) P C ->
  let room := size (tx s) - (P - C) in
  exists s', transmit_calls s ds flags
    = Done (s', Z.min room (len ds), if (0 <? room) && (0 <? len ds) && Z.odd flags then [Sendto] else []) /\
    transmit s ds = Done (s', Z.min room (len ds)).
Proof.
  intros Hr room. destruct (produce_spec (tx s) P C ds Hr) as (r' & Hp & _).
  exists (mkSocket (rx s) r' (fill s) (comp s)). unfold transmit_calls, transmit. rewrite Hp. fold room. split; [|done].
  by rewrite poke_cases.
Qed.

(** A refill is the same on the fill ring; recycling completed frames pokes the kernel for them. *)
Theorem refill_wakes (s : AdoptedSocket) (P C : Z) (ds : list xdp_desc) (flags : Z) :
  ring_repr (fill s) P C ->
  let room := size (fill s) - (P - C) in
  exists s', refill_calls s ds flags
    = Done (s', Z.min room (len ds), if (0 <? room) && (0 <? len ds) && Z.odd flags then [Recvfrom] else []) /\
    refill_descs s ds = Done (s', Z.min room (len ds)).
Proof.
  intros Hr room. destruct (produce_spec (fill s) P C (map addr ds) Hr) as (r' & Hp & _).
  assert (len (map addr ds) = len ds) as El by (unfold len; by rewrite length_map). rewrite El in Hp.
  exists (mkSocket (rx s) (tx s) r' (comp s)). unfold refill_calls, refill_descs. rewrite Hp. fold room. split; [|done].
  by rewrite poke_cases.
Qed.
