(* ===== verification/SocketSetup.v ===== *)
(** * Setting up and adopting an AF_XDP socket

    Models the construction half of [pesigitg-daemon/src/xdp_adopt.rs]: the system
    calls of [bootstrap] and [adopt] in their order, the sizes of the mappings, and
    the part of the memory a frame view covers.  Whether a call succeeds, the offsets
    the kernel reports and the page size are parameters. *)

From S2P Require Import Prelude Std Common Rings.

Definition DEFAULT_FRAME_COUNT : Z := 4096.
Definition DEFAULT_CHUNK_SIZE : Z := 2048.
Definition XDP_UMEM_PGOFF_FILL_RING : Z := 0x100000000.
Definition XDP_UMEM_PGOFF_COMPLETION_RING : Z := 0x180000000.
Definition XDP_PGOFF_RX_RING : Z := 0.
Definition XDP_PGOFF_TX_RING : Z := 0x80000000.
Definition XDP_COPY : Z := 2.
Definition XDP_ZEROCOPY : Z := 4.
Definition XDP_USE_NEED_WAKEUP : Z := 8.

Record xdp_ring_offset := mkOffset {
  o_producer : Z;
  o_consumer : Z;
  o_desc : Z;
  o_flags : Z;
}.

Record xdp_mmap_offsets := mkOffsets {
  off_rx : xdp_ring_offset;
  off_tx : xdp_ring_offset;
  off_fr : xdp_ring_offset;
  off_cr : xdp_ring_offset;
}.

Inductive ring_option := RxRing | TxRing | FillRing | CompletionRing.

Inductive call :=
| CSocket
| CMemfdCreate
| CFtruncate (len : Z)
| CMmapUmem (len : Z)
| CSetUmemReg (len chunk_size : Z)
| CSetRing (r : ring_option) (size : Z)
| CGetMmapOffsets
| CMmapRing (pgoff map_len : Z)
| CIfIndex (interface : str)
| CBind (flags ifindex queue_id : Z).

Inductive setup_error := NotPowerOfTwo (frame_count : Z) | CallFailed (c : call).

(** What a socket keeps: the mappings and where it is bound. *)
Record Mapped := mkMapped {
  m_umem_len : Z;
  m_fill : Z;
  m_comp : Z;
  m_rx : Z;
  m_tx : Z;
  m_ring_size : Z;
  m_chunk_size : Z;
  m_ifindex : Z;
  m_queue_id : Z;
}.

(** Sizes of the entries: an address and a descriptor. *)
Definition SIZEOF_U64 : Z := 8.
Definition SIZEOF_XDP_DESC : Z := 16.

Definition is_power_of_two (n : Z) : bool := (0 <? n) && (Z.land n (n - 1) =? 0).

Definition div_ceil (a b : Z) : Z := (a + b - 1) / b.

(** The length of a ring's mapping: up to the end of its entries and of its three
    words, in whole pages. *)
Definition ring_map_len (page : Z) (off : xdp_ring_offset) (size sizeof : Z) : Z :=
  let desc_end := o_desc off + size * sizeof in
  let map_len := Z.max desc_end (o_producer off + 4) in
  let map_len := Z.max map_len (o_consumer off + 4) in
  let map_len := Z.max map_len (o_flags off + 4) in
  div_ceil map_len page * page.

Section setup.
  Context (succeeds : call -> bool) (offsets : xdp_mmap_offsets) (page ifindex_of : Z).

(** The calls made so far, and the value or the error. *)
Definition sys (A : Type) : Type := list call * result A setup_error.

Definition invoke {A} (c : call) (k : unit -> sys A) : sys A :=
  if succeeds c then let '(cs, r) := k tt in (c :: cs, r) else ([c], Err (CallFailed c)).

Definition umem_mmap {A} (len : Z) (k : unit -> sys A) : sys A := invoke (CMmapUmem len) k.

Definition umem_create {A} (len : Z) (k : unit -> sys A) : sys A :=
  invoke CMemfdCreate (fun _ => invoke (CFtruncate len) (fun _ => umem_mmap len k)).

Definition ring_mmap {A} (pgoff : Z) (off : xdp_ring_offset) (size sizeof : Z) (k : Z -> sys A) : sys A :=
  let map_len := ring_map_len page off size sizeof in
  invoke (CMmapRing pgoff map_len) (fun _ => k map_len).

(** The four rings, mapped in the same order on both paths. *)
Definition map_rings {A} (ring_size : Z) (k : Z -> Z -> Z -> Z -> sys A) : sys A :=
  ring_mmap XDP_UMEM_PGOFF_FILL_RING (off_fr offsets) ring_size SIZEOF_U64 (fun fill =>
  ring_mmap XDP_UMEM_PGOFF_COMPLETION_RING (off_cr offsets) ring_size SIZEOF_U64 (fun comp =>
  ring_mmap XDP_PGOFF_RX_RING (off_rx offsets) ring_size SIZEOF_XDP_DESC (fun rx =>
  ring_mmap XDP_PGOFF_TX_RING (off_tx offsets) ring_size SIZEOF_XDP_DESC (fun tx => k fill comp rx tx)))).

Definition bootstrap (interface : str) (queue_id frame_count chunk_size : Z) (zerocopy : bool) : sys Mapped :=
  if negb (is_power_of_two frame_count) then ([], Err (NotPowerOfTwo frame_count))
  else
    invoke CSocket (fun _ =>
    let umem_len := frame_count * chunk_size in
    umem_create umem_len (fun _ =>
    invoke (CSetUmemReg umem_len chunk_size) (fun _ =>
    let ring_size := frame_count in
    invoke (CSetRing FillRing ring_size) (fun _ =>
    invoke (CSetRing CompletionRing ring_size) (fun _ =>
    invoke (CSetRing RxRing ring_size) (fun _ =>
    invoke (CSetRing TxRing ring_size) (fun _ =>
    invoke CGetMmapOffsets (fun _ =>
    map_rings ring_size (fun fill comp rx tx =>
    invoke (CIfIndex interface) (fun _ =>
    let flags := Z.lor XDP_USE_NEED_WAKEUP (if zerocopy then XDP_ZEROCOPY else XDP_COPY) in
    invoke (CBind flags ifindex_of queue_id) (fun _ =>
    ([], Ok (mkMapped umem_len fill comp rx tx ring_size chunk_size ifindex_of queue_id))))))))))))).

Definition adopt (ifindex queue_id frame_count chunk_size : Z) : sys Mapped :=
  if negb (is_power_of_two frame_count) then ([], Err (NotPowerOfTwo frame_count))
  else
    let umem_len := frame_count * chunk_size in
    umem_mmap umem_len (fun _ =>
    invoke CGetMmapOffsets (fun _ =>
    let ring_size := frame_count in
    map_rings ring_size (fun fill comp rx tx =>
    ([], Ok (mkMapped umem_len fill comp rx tx ring_size chunk_size ifindex queue_id))))).

End setup.

(** The range of the memory that [frame_mut] makes a slice of. *)
Definition frame_mut (m : Mapped) (d : xdp_desc) : Z * Z := (addr d, addr d + m_chunk_size m).

(** ** Lemmas *)

(** The calls that map memory or read the offsets: what survives in no descriptor. *)
Definition maps (c : call) : bool :=
  match c with CMmapUmem _ | CGetMmapOffsets | CMmapRing _ _ => true | _ => false end.

Lemma div_ceil_bounds a b : 0 < b -> a <= div_ceil a b * b < a + b.
Proof.
  intros Hb. unfold div_ceil. pose proof (Z.div_mod (a + b - 1) b ltac:(lia)).
  pose proof (Z.mod_pos_bound (a + b - 1) b Hb). nia.
Qed.

Lemma invoke_ok {A} ok c (k : unit -> sys A) cs a :
  invoke ok c k = (cs, Ok a) -> exists cs', cs = c :: cs' /\ k tt = (cs', Ok a).
Proof. unfold invoke. destruct (ok c); [|done]. destruct (k tt) as [cs' r]. intros [= <- ->]. eauto. Qed.

Lemma ring_mmap_ok {A} ok page pgoff off size sizeof (k : Z -> sys A) cs a :
  ring_mmap ok page pgoff off size sizeof k = (cs, Ok a) ->
  exists cs', cs = CMmapRing pgoff (ring_map_len page off size sizeof) :: cs' /\
    k (ring_map_len page off size sizeof) = (cs', Ok a).
Proof. by intros (cs' & -> & ?)%invoke_ok; eauto. Qed.

Ltac run_calls := repeat match goal with
  | H : invoke _ _ _ = (_, Ok _) |- _ => apply invoke_ok in H as (? & -> & H)
  | H : ring_mmap _ _ _ _ _ _ _ = (_, Ok _) |- _ => apply ring_mmap_ok in H as (? & -> & H)
  end.

(** ** Properties *)

(** Rehydrating a socket repeats exactly the mapping calls of its creation.  If
    [bootstrap] returned a socket, then [adopt] on the same interface index, queue and
    sizes makes, in order, the calls of [bootstrap] that map memory or read the ring
    offsets and no other, and with none of them refused returns a socket with the
    same mappings; every word and entry of a ring lies inside its mapping, which is a
    whole number of pages. *)
Theorem adopt_repeats_mapping (ok1 ok2 : call -> bool) (offsets : xdp_mmap_offsets) (page ifindex : Z)
    (interface : str) (queue_id frame_count chunk_size : Z) (zerocopy : bool) (cs1 : list call) (m1 : Mapped) :
  0 < page ->
  bootstrap ok1 offsets page ifindex interface queue_id frame_count chunk_size zerocopy = (cs1, Ok m1) ->
  (forall c, maps c = true -> ok2 c = true) ->
  adopt ok2 offsets page ifindex queue_id frame_count chunk_size = (List.filter maps cs1, Ok m1) /\
  Forall (fun '(map_len, off, sizeof) =>
      (forall i, 0 <= i < frame_count -> o_desc off + i * sizeof + sizeof <= map_len) /\
      o_producer off + 4 <= map_len /\ o_consumer off + 4 <= map_len /\ o_flags off + 4 <= map_len /\
      map_len mod page = 0)
    [(m_fill m1, off_fr offsets, SIZEOF_U64); (m_comp m1, off_cr offsets, SIZEOF_U64);
     (m_rx m1, off_rx offsets, SIZEOF_XDP_DESC); (m_tx m1, off_tx offsets, SIZEOF_XDP_DESC)].
Proof.
  intros Hp Hb Hok. unfold bootstrap in Hb. unfold adopt. destruct (is_power_of_two frame_count); [|done].
  cbn [negb] in *. unfold umem_create, umem_mmap, map_rings in Hb. run_calls. injection Hb as <- <-.
  unfold umem_mmap, map_rings, ring_mmap, invoke. rewrite !Hok by done. split; [done|].
  assert (forall off sizeof, 0 < sizeof ->
    (forall i, 0 <= i < frame_count -> o_desc off + i * sizeof + sizeof <= ring_map_len page off frame_count sizeof) /\
    o_producer off + 4 <= ring_map_len page off frame_count sizeof /\
    o_consumer off + 4 <= ring_map_len page off frame_count sizeof /\
    o_flags off + 4 <= ring_map_len page off frame_count sizeof /\
    ring_map_len page off frame_count sizeof mod page = 0) as Hr.
  { intros off sizeof Hz. unfold ring_map_len. set (top := Z.max (Z.max (Z.max _ _) _) _).
    pose proof (div_ceil_bounds top page Hp). rewrite Z_mod_mult. split; [|lia]. intros i Hi.
    assert (i * sizeof + sizeof <= frame_count * sizeof) by nia. lia. }
  repeat constructor; by apply Hr.
Qed.

(** The slice of a frame view starts at the descriptor's address and has the length of
    a whole chunk.  It stays inside the memory for addresses up to the start of the
    last chunk; for an address inside the last chunk, as the kernel reports for a
    packet behind its headroom, it ends beyond the mapping by that distance. *)
Theorem frame_view_overruns (m : Mapped) (i headroom dlen opts : Z) :
  m_umem_len m = m_ring_size m * m_chunk_size m -> 0 < m_chunk_size m -> 0 <= i < m_ring_size m ->
  0 <= headroom < m_chunk_size m ->
  (frame_mut m (mkDesc (i * m_chunk_size m + headroom) dlen opts)).2 <= m_umem_len m
  <-> i + 1 < m_ring_size m \/ headroom = 0.
Proof.
  intros Hm Hc Hi Hh. unfold frame_mut. cbn [snd addr]. rewrite Hm.
  destruct (decide (i + 1 < m_ring_size m)) as [Hl|Hl].
  - split; [by left|]. intros _. assert ((i + 2) * m_chunk_size m <= m_ring_size m * m_chunk_size m) by nia. lia.
  - assert (m_ring_size m = i + 1) as -> by lia. split; [right; lia|]. intros [?| ->]; lia.
Qed.

(** ** Instances of the properties *)

Definition ex_offsets : xdp_mmap_offsets :=
  let o := mkOffset 0 64 320 128 in mkOffsets o o o o.

Lemma adopt_repeats_mapping_witness :
  (adopt (fun _ => true) ex_offsets 4096 3 1 DEFAULT_FRAME_COUNT DEFAULT_CHUNK_SIZE).2
  = Ok (mkMapped 8388608 36864 36864 69632 69632 4096 2048 3 1).
Proof.
  destruct (adopt_repeats_mapping (fun _ => true) (fun _ => true) ex_offsets 4096 3 (lit "eth0") 1 DEFAULT_FRAME_COUNT
    DEFAULT_CHUNK_SIZE true
    (bootstrap (fun _ => true) ex_offsets 4096 3 (lit "eth0") 1 DEFAULT_FRAME_COUNT DEFAULT_CHUNK_SIZE true).1
    (mkMapped 8388608 36864 36864 69632 69632 4096 2048 3 1) eq_refl) as [-> _];
    [vm_compute; reflexivity|done|reflexivity].
Defined.
