(* ===== verification/SocketLife.v ===== *)
(** * What an AF_XDP socket owns

    Models ownership in [pesigitg-daemon/src/xdp_adopt.rs]: the descriptors and
    mappings that [bootstrap] and [adopt] acquire, what an early return drops, the
    [Drop] impls of [Ring] and [Umem], and [detach] with [Umem::into_fd].  The calls
    are those of [SocketSetup]; a local is released when its scope ends, in reverse
    order, and the fields of a struct in the order of their declaration. *)

From stdpp Require Import gmap.
From S2P Require Import Prelude Std Common SocketSetup.

(** ** Resources *)

Inductive resource := OwnSocket | OwnMemfd | OwnUmem | OwnRing (r : ring_option).

#[global] Instance ring_option_eq_dec : EqDecision ring_option.
Proof. solve_decision. Defined.
#[global] Instance resource_eq_dec : EqDecision resource.
Proof. solve_decision. Defined.

Inductive action := Acquire (r : resource) | Release (r : resource).

(** The resources held; a second acquisition or release of one is an error. *)
Definition act_on (held : list resource) (a : action) : option (list resource) :=
  match a with
  | Acquire r => if bool_decide (r ∈ held) then None else Some (r :: held)
  | Release r => if bool_decide (r ∈ held) then Some (List.filter (fun x => negb (bool_decide (x = r))) held) else None
  end.

Fixpoint act_all (acts : list action) (held : list resource) : option (list resource) :=
  match acts with
  | [] => Some held
  | a :: acts => held' ← act_on held a; act_all acts held'
  end.

(** ** Acquiring *)

Definition ring_of (pgoff : Z) : ring_option :=
  if pgoff =? XDP_UMEM_PGOFF_FILL_RING then FillRing
  else if pgoff =? XDP_UMEM_PGOFF_COMPLETION_RING then CompletionRing
  else if pgoff =? XDP_PGOFF_RX_RING then RxRing else TxRing.

(** What a call that succeeds makes its caller own. *)
Definition owned_by (c : call) : option resource :=
  match c with
  | CSocket => Some OwnSocket
  | CMemfdCreate => Some OwnMemfd
  | CMmapUmem _ => Some OwnUmem
  | CMmapRing pgoff _ => Some (OwnRing (ring_of pgoff))
  | _ => None
  end.

(** The actions of a run of calls, where the caller already owns [args]: the last
    call of a failed run acquired nothing, and all locals are dropped. *)
Definition scope (args : list resource) (run : sys Mapped) : list action :=
  match run with
  | (cs, Ok _) => map Acquire (omap owned_by cs)
  | (cs, Err _) =>
      let locals := omap owned_by (removelast cs) in
      map Acquire locals ++ map Release (rev locals ++ rev args)
  end.

(** ** Releasing *)

(** [Drop] of the socket: its descriptor, the memory and its descriptor, the rings. *)
Definition drop_umem : list action := [Release OwnUmem; Release OwnMemfd].
Definition drop_ring (r : ring_option) : list action := [Release (OwnRing r)].
Definition drop_rings : list action := drop_ring RxRing ++ drop_ring TxRing ++ drop_ring FillRing ++ drop_ring CompletionRing.
Definition drop_socket : list action := Release OwnSocket :: drop_umem ++ drop_rings.

(** [Umem::into_fd] unmaps the memory and keeps its descriptor. *)
Definition into_fd : list action := [Release OwnUmem].
Definition detach : list action := into_fd ++ drop_rings.

(** Everything a socket owns, and what survives it for the handoff. *)
Definition whole : list resource :=
  [OwnRing TxRing; OwnRing RxRing; OwnRing CompletionRing; OwnRing FillRing; OwnUmem; OwnMemfd; OwnSocket].
Definition handed_over : list resource := [OwnMemfd; OwnSocket].

(** ** Lemmas *)

Section life.
  Context (ok : call -> bool) (offsets : xdp_mmap_offsets) (page ifindex : Z).

(** The result of a run as far as ownership goes. *)
Definition held_after (r : result Mapped setup_error) : list resource :=
  match r with Ok _ => whole | Err _ => [] end.

Lemma bootstrap_scope interface queue_id frame_count chunk_size zerocopy :
  let run := bootstrap ok offsets page ifindex interface queue_id frame_count chunk_size zerocopy in
  act_all (scope [] run) [] = Some (held_after run.2).
Proof.
  unfold bootstrap. destruct (is_power_of_two frame_count); [|done]. cbn [negb].
  unfold umem_create, umem_mmap, map_rings, ring_mmap, invoke.
  do 16 (destruct (ok _); [|reflexivity]). reflexivity.
Qed.

Lemma adopt_scope queue_id frame_count chunk_size :
  let run := adopt ok offsets page ifindex queue_id frame_count chunk_size in
  act_all (scope [OwnSocket; OwnMemfd] run) handed_over = Some (held_after run.2).
Proof.
  unfold adopt. destruct (is_power_of_two frame_count); [|done]. cbn [negb].
  unfold umem_mmap, map_rings, ring_mmap, invoke.
  do 6 (destruct (ok _); [|reflexivity]). reflexivity.
Qed.

End life.

Lemma act_all_app a b held : act_all (a ++ b) held = held' ← act_all a held; act_all b held'.
Proof.
  revert held. induction a as [|x a IH]; intros held; cbn; [done|]. destruct (act_on held x); [apply IH|done].
Qed.

(** ** Properties *)


