(* ===== verification/Shuffle.v ===== *)
(** * Rearrangements

    Permutations of concatenated lists, by rewriting modulo associativity and
    commutativity; used where frames move between rings and batches. *)

From Stdlib Require Import List Permutation.
From AAC_tactics Require Import AAC.
From AAC_tactics Require Instances.
Import Instances.Lists.

(** Pending and completed frames, each split into refilled and left. *)
Lemma shuffle_idle {A} (filled pend done left : list A) :
  Permutation ((filled ++ pend) ++ done ++ left) ((filled ++ done) ++ pend ++ left).
Proof. aac_reflexivity. Qed.

(** The same with a transmit and a recycle batch. *)
Lemma shuffle_batch {A} (filled pend done left sent unsent rec unrec : list A) :
  Permutation ((filled ++ pend) ++ (done ++ left) ++ (sent ++ unsent) ++ rec ++ unrec)
    (sent ++ ((filled ++ done) ++ rec) ++ ((pend ++ left) ++ unsent) ++ unrec).
Proof. aac_reflexivity. Qed.
