(* ===== verification/Worker.v ===== *)
(** * The worker loop

    Models [worker_loop_generic] of [pesigitg-daemon/src/threading.rs]: one
    iteration of a worker over a batch of frames.  The AF_XDP socket is the
    interface of [pesigitg-daemon/src/worker_socket.rs]; its contract is a class,
    which the rings of [Rings] satisfy.  A frame is a descriptor together with
    the chunk it owns. *)

From Stdlib Require Import Permutation.
From stdpp Require Import gmap.
From S2P Require Import Shuffle Prelude Std Common Route ConnTable LoadRate RetryConfig.
From S2P Require Import ConfigTable Frame Ebpf Packet Token RetryPacket RetryDatapath Stats.
From S2P Require Import Rings.

Definition BATCH_SIZE : Z := 64.

(** ** The socket interface *)

(** What one iteration gets from the socket, as answers to its calls: how many
    pending frames the fill ring took, the completed frames and how many of them
    were refilled, the received frames, and how many frames the transmit and the
    fill ring took at the end. *)
Record AfXdpIo (F : Type) := mkIo {
  io_refill : list F -> Z;
  io_complete : list F * Z;
  io_poll : list (F * FrameView);
  io_transmit : list F -> Z;
  io_recycle : list F -> Z;
}.
Arguments mkIo {_}.
Arguments io_refill {_}.
Arguments io_complete {_}.
Arguments io_poll {_}.
Arguments io_transmit {_}.
Arguments io_recycle {_}.

(** The trait's documentation: counts never exceed what was offered. *)
Class AfXdpSocket {F} (io : AfXdpIo F) : Prop := {
  sock_refill : forall fs, 0 <= io_refill io fs <= len fs;
  sock_complete : 0 <= (io_complete io).2 <= len (io_complete io).1;
  sock_poll : len (io_poll io) <= BATCH_SIZE;
  sock_views : Forall (fun f => view_wf f.2) (io_poll io);
  sock_transmit : forall fs, 0 <= io_transmit io fs <= len fs;
  sock_recycle : forall fs, 0 <= io_recycle io fs <= len fs;
}.

(** ** State *)

(** What the packet loop threads through the batch. *)
Record BatchState := mkBS {
  bs_conn : ConnectionTable;
  bs_stats : BatchStats;
  bs_pending_load : Z;
}.

Record WorkerState (F : Type) := mkWorker {
  w_conn : ConnectionTable;
  w_pending_fill : list F;
  w_stats : WorkerStats;
}.
Arguments mkWorker {_}.
Arguments w_conn {_}.
Arguments w_pending_fill {_}.
Arguments w_stats {_}.

(** What an iteration handed to the rings, and its call of [record_batch]. *)
Record Handed (F : Type) := mkHanded {
  h_tx : list (F * FrameView);
  h_fill : list F;
  h_load : option (tracker_ref * Z * Z);
}.
Arguments mkHanded {_}.
Arguments h_tx {_}.
Arguments h_fill {_}.
Arguments h_load {_}.

Section worker.
  Context `{Aes : Aes128} `{Fx : FxHash} `{Hm : Hmac} `{Gc : AesGcm}.
  Context (trackers : tracker_ref -> LoadRateTracker).

(** ** One frame *)

(** Where a descriptor goes: to the transmit batch or back to the fill ring. *)
Definition dispatch (v : Verdict) (b : BatchStats) : rs (BatchStats * bool) :=
  match v with
  | CidForward config_id =>
      let* b := record_cid_forward b config_id in Done (b, true)
  | CidForwardDraining config_id =>
      let* b := record_cid_forward b config_id in Done (record_draining_forward b, true)
  | FallbackForward => Done (record_fallback_forward b, true)
  | IcmpForward => Done (record_icmp_forward b, true)
  | CidUnroutableNoServer => Done (record_cid_unroutable_no_server b, false)
  | CidUnroutableBadServerId => Done (record_cid_unroutable_bad_server_id b, false)
  | Pass => Done (record_pass b, false)
  end.

Definition handle_frame (table : ConfigTable) (lm : mac) (now : Instant) (now_ms : Z)
    (st : BatchState) (data : FrameView) : rs (BatchState * FrameView * bool) :=
  let* parsed := parse_frame (RetryDatapath.contents data) in
  match parsed with
  | None =>
      let b := record_retry (bs_stats st) OSkip DNone in
      let* (b, to_tx) := dispatch Pass b in
      Done (mkBS (bs_conn st) b (bs_pending_load st), data, to_tx)
  | Some p =>
      let* (data, outcome, detail, pending) :=
        try_handle trackers data p table lm now_ms (bs_pending_load st) in
      let b := record_retry (bs_stats st) outcome detail in
      match outcome with
      | OEmitted => Done (mkBS (bs_conn st) b pending, data, true)
      | OForward | OSkip =>
          let* (frame, conn, v) :=
            process_packet_parsed (RetryDatapath.contents data) p table (bs_conn st) lm now in
          let* (b, to_tx) := dispatch v b in
          Done (mkBS conn b pending, put_contents data frame, to_tx)
      end
  end.

Fixpoint handle_batch {F} (table : ConfigTable) (lm : mac) (now : Instant) (now_ms : Z)
    (frames : list (F * FrameView)) (st : BatchState) (tx_batch recycle_batch : list (F * FrameView))
    : rs (BatchState * list (F * FrameView) * list (F * FrameView)) :=
  match frames with
  | [] => Done (st, tx_batch, recycle_batch)
  | (desc, data) :: rest =>
      let* (st, data, to_tx) := handle_frame table lm now now_ms st data in
      if to_tx : bool
      then handle_batch table lm now now_ms rest st (tx_batch ++ [(desc, data)]) recycle_batch
      else handle_batch table lm now now_ms rest st tx_batch (recycle_batch ++ [(desc, data)])
  end.

(** ** One iteration *)

Definition worker_iteration {F} (io : AfXdpIo F) (table : ConfigTable) (lm : mac) (now : Instant)
    (now_ms : Z) (w : WorkerState F) : rs (WorkerState F * Handed F) :=
  let* (pending, filled) :=
    match w_pending_fill w with
    | [] => Done ([], [])
    | pending =>
        let refilled := io_refill io pending in
        if refilled <=? len pending
        then Done (drop (Z.to_nat refilled) pending, take (Z.to_nat refilled) pending) else Panic
    end in
  let '(completed, refilled) := io_complete io in
  let filled := filled ++ take (Z.to_nat refilled) completed in
  let pending := if refilled <? len completed then pending ++ drop (Z.to_nat refilled) completed else pending in
  let conn := maybe_sweep (w_conn w) now in
  let frames := io_poll io in
  let n := len frames in
  if n =? 0 then Done (mkWorker conn pending (w_stats w), mkHanded [] filled None)
  else
    let stats := record_rx (w_stats w) n in
    let* (st, tx_batch, recycle_batch) :=
      handle_batch table lm now now_ms frames (mkBS conn batch_new 0) [] [] in
    let stats := flush (bs_stats st) stats in
    let load :=
      match retry table ≫= load_tracker with
      | Some tracker => Some (tracker, bs_pending_load st, now_ms)
      | None => None
      end in
    let sent := io_transmit io (map fst tx_batch) in
    let pending :=
      if sent <? len tx_batch then pending ++ drop (Z.to_nat sent) (map fst tx_batch) else pending in
    let refilled := io_recycle io (map fst recycle_batch) in
    let pending :=
      if refilled <? len recycle_batch then pending ++ drop (Z.to_nat refilled) (map fst recycle_batch)
      else pending in
    Done (mkWorker (bs_conn st) pending (record_pending_fill stats (len pending)),
          mkHanded (take (Z.to_nat sent) tx_batch)
            (filled ++ take (Z.to_nat refilled) (map fst recycle_batch)) load).

(** ** Lemmas *)

Context `{!AesLaws} `{!HmacLaws} `{!AesGcmLaws}.

Definition verdict_ok (v : Verdict) : Prop :=
  match v with CidForward c | CidForwardDraining c => 0 <= c <= 6 | _ => True end.

Lemma dispatch_ok v b n :
  batch_ok b n -> verdict_ok v -> exists b', dispatch v b = Done (b', forwards v) /\ batch_ok b' (n + 1).
Proof.
  intros Hb Hv. unfold dispatch. destruct v; cbn [forwards verdict_ok] in *.
  - destruct (record_cid_forward_ok b n config_id Hb Hv) as (b' & -> & Hb'). eauto.
  - destruct (record_cid_forward_ok b n config_id Hb Hv) as (b' & -> & Hb').
    eexists. split; [done|]. by destruct Hb'; constructor.
  - eexists. split; [done|]. destruct Hb. constructor; batch_cbn; try done; lia.
  - eexists. split; [done|]. destruct Hb. constructor; batch_cbn; try done; lia.
  - eexists. split; [done|]. destruct Hb. constructor; batch_cbn; try done; lia.
  - eexists. split; [done|]. destruct Hb. constructor; batch_cbn; try done; lia.
  - eexists. split; [done|]. destruct Hb. constructor; batch_cbn; try done; lia.
Qed.

(** The echoed UDP header of an ICMP error is complete. *)
Definition uncut (data : FrameView) : Prop :=
  forall p q f, parse_frame (RetryDatapath.contents data) = Done (Some p) -> l4 p = Icmp q f ->
    q <= len (RetryDatapath.contents data).

Lemma verdict_in_table t c frame lm now frame' c' v :
  table_live t -> outcome_ok t c frame lm now (frame', c', v) -> verdict_ok v.
Proof.
  intros Ht [_ Ho]. destruct (forwards v) eqn:Ef; [|by destruct v].
  destruct Ho as (m & _ & _ & [(cfg & s & Hc & _ & _ & [->|[_ ->]])|[(? & ? & _ & [-> | ->])|(? & _ & _ & ->)]]);
    try done.
  pose proof (wf_id _ (configs_wf _ _ (tl_wf _ Ht) Hc)). by destruct (s_draining s).
Qed.

Lemma handle_frame_ok table lm now now_ms st data n :
  table_live table -> conn_wf (bs_conn st) -> length lm = 6%nat -> view_wf data -> uncut data ->
  batch_ok (bs_stats st) n ->
  exists st' data' to_tx, handle_frame table lm now now_ms st data = Done (st', data', to_tx) /\
    conn_wf (bs_conn st') /\ batch_ok (bs_stats st') (n + 1).
Proof.
  intros Ht Hc Hlm Hv Hcut Hb. unfold handle_frame.
  destruct (parse_frame_parses (RetryDatapath.contents data)) as [Hp|(p & Hp & Hwf)]; rewrite Hp.
  { destruct (dispatch_ok Pass (record_retry (bs_stats st) OSkip DNone) n) as (b' & -> & Hb'); [done|done|].
    do 3 eexists. split; [done|]. done. }
  destruct (try_handle_cases trackers data p table lm now_ms (bs_pending_load st) Hwf)
    as (data' & o & d & pend & -> & Hsame & Hd); [apply (tw_retry _ (tl_wf _ Ht))|done|].
  pose proof (record_retry_ok _ _ o d Hb Hd) as Hb'.
  assert (Hlm' : len lm = 6) by (unfold len; lia). destruct o; cbn [is_emitted] in Hb'.
  1, 2: rewrite Hsame by done;
    (destruct (process_parsed_ok (RetryDatapath.contents data) p table (bs_conn st) lm now)
      as ([[frame conn] v] & -> & Ho); [done|done|done|done|intros q f Hl4; by eapply Hcut|]);
    (destruct (dispatch_ok v _ n Hb' (verdict_in_table _ _ _ _ _ _ _ _ Ht Ho)) as (b2 & -> & Hb2));
    do 3 eexists; (split; [done|]); split; [apply Ho|done].
  do 3 eexists. split; [done|]. done.
Qed.

Lemma handle_batch_ok {F} table lm now now_ms (frames : list (F * FrameView)) st n tx rec :
  table_live table -> conn_wf (bs_conn st) -> length lm = 6%nat ->
  Forall (fun f => view_wf f.2 /\ uncut f.2) frames -> batch_ok (bs_stats st) n ->
  exists st' tx' rec', handle_batch table lm now now_ms frames st tx rec = Done (st', tx', rec') /\
    conn_wf (bs_conn st') /\ batch_ok (bs_stats st') (n + len frames) /\
    Permutation (map fst frames ++ map fst tx ++ map fst rec) (map fst tx' ++ map fst rec').
Proof.
  intros Ht Hc Hlm Hf. revert st n tx rec Hc. induction Hf as [|[f data] frames [Hv Hcut] _ IH];
    intros st n tx rec Hc Hb; cbn [handle_batch].
  { do 3 eexists. split; [done|]. rewrite len_nil, Z.add_0_r. done. }
  destruct (handle_frame_ok table lm now now_ms st data n Ht Hc Hlm Hv Hcut Hb)
    as (st1 & data' & to_tx & -> & Hc1 & Hb1).
  rewrite len_cons, Z.add_assoc. destruct to_tx.
  - destruct (IH st1 (n + 1) (tx ++ [(f, data')]) rec Hc1 Hb1) as (st' & tx' & rec' & -> & ? & ? & Hperm).
    do 3 eexists. split; [done|]. split; [done|]. split; [done|]. rewrite <- Hperm, map_app.
    cbn [map fst app]. rewrite <- (app_assoc (map fst tx)). cbn [app].
    rewrite !(app_assoc (map fst frames) (map fst tx)). apply Permutation_middle.
  - destruct (IH st1 (n + 1) tx (rec ++ [(f, data')]) Hc1 Hb1) as (st' & tx' & rec' & -> & ? & ? & Hperm).
    do 3 eexists. split; [done|]. split; [done|]. split; [done|]. rewrite <- Hperm, map_app.
    cbn [map fst app]. rewrite !app_assoc. apply Permutation_cons_append.
Qed.

Lemma maybe_sweep_wf c t : conn_wf c -> conn_wf (maybe_sweep c t).
Proof.
  intros [Hf Hd]. unfold maybe_sweep. case_goal; [done|]. unfold retain_live. cbn [by_flow by_dcid].
  split; intros k e [He _]%map_lookup_filter_Some; [by apply (Hf k)|by apply (Hd k)].
Qed.

(** Frames a ring had no room for go to the pending list. *)
Lemma spill {A} (p l : list A) r :
  0 <= r <= len l -> (if r <? len l then p ++ drop (Z.to_nat r) l else p) = p ++ drop (Z.to_nat r) l.
Proof. intros Hr. case_goal; [done|]. rewrite drop_ge by (unfold len in *; lia). by rewrite app_nil_r. Qed.

Lemma split_perm {A} (l : list A) r : Permutation l (take (Z.to_nat r) l ++ drop (Z.to_nat r) l).
Proof. by rewrite take_drop. Qed.

(** What an iteration keeps: the connection table stays well formed, the
    counters stay balanced, and every frame it got is handed over or pending. *)
Lemma worker_iteration_ok {F} (io : AfXdpIo F) `{!AfXdpSocket io} table lm now now_ms w :
  table_live table -> conn_wf (w_conn w) -> balanced (w_stats w) -> length lm = 6%nat ->
  Forall (fun f => uncut f.2) (io_poll io) ->
  exists w' h, worker_iteration io table lm now now_ms w = Done (w', h) /\
    conn_wf (w_conn w') /\ balanced (w_stats w') /\
    Permutation (w_pending_fill w ++ (io_complete io).1 ++ map fst (io_poll io))
                (map fst (h_tx h) ++ h_fill h ++ w_pending_fill w').
Proof.
  intros Ht Hc Hb Hlm Hcut. unfold worker_iteration.
  set (drained := match w_pending_fill w with [] => _ | _ :: _ => _ end).
  assert (exists pend fill, drained = Done (pend, fill) /\ Permutation (w_pending_fill w) (fill ++ pend))
    as (pend & fill & -> & Hp1).
  { unfold drained. destruct (w_pending_fill w) as [|f fs] eqn:Ew; [by exists [], []|].
    pose proof (sock_refill (f :: fs)) as Hr. case_goal; [|lia]. eexists _, _. split; [done|]. apply split_perm. }
  pose proof sock_complete as Hcomp. destruct (io_complete io) as [comp r]. cbn [fst snd] in *.
  rewrite spill by done. apply (maybe_sweep_wf _ now) in Hc. pose proof (split_perm comp r) as Hp2.
  case_goal.
  { assert (io_poll io = []) as -> by (apply len_0_nil; lia).
    eexists _, _. split; [done|]. cbn [w_conn w_stats w_pending_fill h_tx h_fill map].
    split; [done|]. split; [done|]. rewrite Hp1, Hp2 at 1. rewrite app_nil_r. cbn [app].
    apply shuffle_idle. }
  destruct (handle_batch_ok table lm now now_ms (io_poll io) (mkBS (maybe_sweep (w_conn w) now) batch_new 0) 0
    [] []) as (st & tx & rec & -> & Hc' & Hbok & Hp3); [done|done|done| |apply batch_new_ok|].
  { apply Forall_and. split; [apply sock_views|done]. }
  cbn [map app] in Hp3. rewrite app_nil_r in Hp3.
  assert (Hlen : forall l : list (F * FrameView), len l = len (map fst l)) by (intros; by rewrite len_map).
  rewrite (Hlen tx), (Hlen rec), !spill by (apply sock_transmit || apply sock_recycle).
  eexists _, _. split; [done|]. cbn [w_conn w_stats w_pending_fill h_tx h_fill].
  split; [done|]. split; [apply record_pending_fill_balanced; by apply flush_balanced|].
  set (sent := io_transmit io _). set (rf := io_recycle io _).
  pose proof (split_perm (map fst tx) sent) as Hp4. pose proof (split_perm (map fst rec) rf) as Hp5.
  change (map ?f (take ?n ?l)) with (f <$> take n l). rewrite fmap_take. change (?f <$> ?l) with (map f l).
  rewrite Hp1, Hp3. rewrite Hp2 at 1. rewrite Hp4 at 1. rewrite Hp5 at 1.
  apply shuffle_batch.
Qed.

End worker.

(** ** A run of iterations *)

(** What an iteration is given: the socket's answers, the published table, the
    clocks. *)
Record Tick (F : Type) `{Aes128} := mkTick {
  t_io : AfXdpIo F;
  t_table : ConfigTable;
  t_now : Instant;
  t_now_ms : Z;
}.
Arguments mkTick {_ _}.
Arguments t_io {_ _}.
Arguments t_table {_ _}.
Arguments t_now {_ _}.
Arguments t_now_ms {_ _}.

Section run.
  Context `{Aes : Aes128} `{Fx : FxHash} `{Hm : Hmac} `{Gc : AesGcm} {F : Type}.
  Context (trackers : tracker_ref -> LoadRateTracker) (lm : mac).

Fixpoint worker_run (ticks : list (Tick F)) (w : WorkerState F) : rs (WorkerState F * list (Handed F)) :=
  match ticks with
  | [] => Done (w, [])
  | t :: rest =>
      let* (w, h) := worker_iteration trackers (t_io t) (t_table t) lm (t_now t) (t_now_ms t) w in
      let* (w, hs) := worker_run rest w in
      Done (w, h :: hs)
  end.

Context `{!AesLaws} `{!HmacLaws} `{!AesGcmLaws}.

Definition tick_ok (t : Tick F) : Prop :=
  AfXdpSocket (t_io t) /\ table_live (t_table t) /\ Forall (fun f => uncut f.2) (io_poll (t_io t)).

(** The frames the socket gave in a run, and the ones it was given back. *)
Definition frames_in (ticks : list (Tick F)) : list F :=
  concat (map (fun t => (io_complete (t_io t)).1 ++ map fst (io_poll (t_io t))) ticks).
Definition frames_out (hs : list (Handed F)) : list F :=
  concat (map (fun h => map fst (h_tx h) ++ h_fill h) hs).

Lemma worker_run_ok ticks w :
  Forall tick_ok ticks -> conn_wf (w_conn w) -> balanced (w_stats w) -> length lm = 6%nat ->
  exists w' hs, worker_run ticks w = Done (w', hs) /\ conn_wf (w_conn w') /\ balanced (w_stats w') /\
    Permutation (w_pending_fill w ++ frames_in ticks) (frames_out hs ++ w_pending_fill w').
Proof.
  intros Ht. revert w. induction Ht as [|t ticks (Hs & Htl & Hcut) _ IH]; intros w Hc Hb Hlm; cbn [worker_run].
  { exists w, []. split; [done|]. split; [done|]. split; [done|]. by rewrite app_nil_r. }
  destruct (worker_iteration_ok trackers (t_io t) (t_table t) lm (t_now t) (t_now_ms t) w Htl Hc Hb Hlm Hcut)
    as (w1 & h & -> & Hc1 & Hb1 & Hp1).
  destruct (IH w1 Hc1 Hb1 Hlm) as (w' & hs & -> & Hc' & Hb' & Hp').
  exists w', (h :: hs). split; [done|]. split; [done|]. split; [done|].
  unfold frames_in, frames_out in *. cbn [map concat]. rewrite app_assoc, Hp1, (app_assoc (map fst (h_tx h))).
  rewrite <- !(app_assoc (map fst (h_tx h) ++ h_fill h)). by apply Permutation_app_head.
Qed.

End run.

(** ** The rings implement the interface *)

(** The answers of an adopted socket; the kernel moves the rings between calls,
    so each call may see a different state of them. *)
Definition adopted_io (s_refill s_complete s_poll s_tx s_recycle : AdoptedSocket) (poll_rc : Z)
    (view : xdp_desc -> FrameView) : AfXdpIo xdp_desc :=
  mkIo (fun fs => match refill_descs s_refill fs with Done (_, n) => n | Panic => 0 end)
    (match complete_descs s_complete BATCH_SIZE with Done (_, ds, n) => (ds, n) | Panic => ([], 0) end)
    (match poll_recv s_poll BATCH_SIZE poll_rc with
     | Done (_, ds) => map (fun d => (d, view d)) ds
     | Panic => []
     end)
    (fun fs => match transmit s_tx fs with Done (_, n) => n | Panic => 0 end)
    (fun fs => match refill_descs s_recycle fs with Done (_, n) => n | Panic => 0 end).

(** The four rings in a state some history of use can leave them in. *)
Definition rings_ok (s : AdoptedSocket) : Prop :=
  (exists P C, ring_repr (rx s) P C) /\ (exists P C, ring_repr (tx s) P C) /\
  (exists P C, ring_repr (fill s) P C) /\ (exists P C, ring_repr (comp s) P C).

Lemma produce_bounds {T} `{Inhabited T} (r : Ring T) es P C :
  ring_repr r P C -> exists r' n, produce r es = Done (r', n) /\ 0 <= n <= len es.
Proof.
  intros Hr. destruct (produce_spec r P C es Hr) as (r' & Hp & _).
  pose proof (rr_bound _ _ _ Hr). pose proof (rr_order _ _ _ Hr). pose_len. eexists _, _. split; [exact Hp|lia].
Qed.

Lemma refill_bounds s fs : rings_ok s -> exists s' n, refill_descs s fs = Done (s', n) /\ 0 <= n <= len fs.
Proof.
  intros (_ & _ & (P & C & Hr) & _). destruct (produce_bounds (fill s) (map addr fs) P C Hr) as (r' & n & Hp & Hn).
  unfold refill_descs. rewrite Hp. rewrite len_map in Hn. eauto.
Qed.

Lemma complete_bounds s :
  rings_ok s -> exists s' ds n, complete_descs s BATCH_SIZE = Done (s', ds, n) /\ 0 <= n <= len ds.
Proof.
  intros (_ & _ & (P & C & Hf) & (P' & C' & Hc)). unfold complete_descs.
  destruct (consume_spec (comp s) P' C' BATCH_SIZE Hc) as (c & addrs & -> & _); [done|].
  destruct (0 <? len addrs).
  - destruct (produce_bounds (fill s) addrs P C Hf) as (f & n & -> & Hn). eexists _, _, _. split; [done|].
    by rewrite len_map.
  - eexists _, _, _. split; [done|]. pose_len. lia.
Qed.

Lemma poll_bounds s rc :
  rings_ok s -> exists s' ds, poll_recv s BATCH_SIZE rc = Done (s', ds) /\ len ds <= BATCH_SIZE.
Proof.
  intros ((P & C & Hr) & _). unfold poll_recv. case_goal; [by eexists _, _|].
  destruct (consume_spec (rx s) P C BATCH_SIZE Hr) as (r & out & -> & _ & Ho & _); [done|].
  eexists _, _. split; [done|]. cbv zeta in Ho. rewrite Ho. apply Z.le_min_r.
Qed.

(** ** Properties *)

(** C28.  The adopted socket keeps the contract the worker loop is written
    against: whatever state the kernel left the rings in at each call, none of the
    calls panics, no call takes or refills more frames than it was offered, and a
    poll delivers at most a batch. *)
Theorem adopted_socket_contract (s_refill s_complete s_poll s_tx s_recycle : AdoptedSocket) (rc : Z)
    (view : xdp_desc -> FrameView) :
  Forall rings_ok [s_refill; s_complete; s_poll; s_tx; s_recycle] ->
  (forall d, view_wf (view d)) ->
  (forall fs, returns (refill_descs s_refill fs) /\ returns (transmit s_tx fs) /\
              returns (refill_descs s_recycle fs)) /\
  returns (complete_descs s_complete BATCH_SIZE) /\ returns (poll_recv s_poll BATCH_SIZE rc) /\
  AfXdpSocket (adopted_io s_refill s_complete s_poll s_tx s_recycle rc view).
Proof.
  rewrite !Forall_cons. intros (H1 & H2 & H3 & H4 & H5 & _) Hv.
  pose proof (fun fs => refill_bounds s_refill fs H1) as Hf. pose proof (fun fs => refill_bounds s_recycle fs H5) as Hg.
  destruct (complete_bounds s_complete H2) as (c & ds & n & Hc & Hn).
  destruct (poll_bounds s_poll rc H3) as (p & out & Hp & Ho).
  assert (forall fs, exists s' n, transmit s_tx fs = Done (s', n) /\ 0 <= n <= len fs) as Ht.
  { intros fs. destruct H4 as (_ & (P & C & Hr) & _). unfold transmit.
    destruct (produce_bounds (tx s_tx) fs P C Hr) as (r & k & -> & Hk). eauto. }
  split; [|split; [rewrite Hc; apply returns_Done|split; [rewrite Hp; apply returns_Done|]]].
  { intros fs. destruct (Hf fs) as (? & ? & -> & _), (Ht fs) as (? & ? & -> & _), (Hg fs) as (? & ? & -> & _).
    eauto using returns_Done. }
  constructor; unfold adopted_io; cbn [io_refill io_complete io_poll io_transmit io_recycle]; rewrite ?Hc, ?Hp; try done.
  - intros fs. by destruct (Hf fs) as (? & ? & -> & ?).
  - by rewrite len_map.
  - apply List.Forall_forall. intros f (d & <- & _)%in_map_iff. apply Hv.
  - intros fs. by destruct (Ht fs) as (? & ? & -> & ?).
  - intros fs. by destruct (Hg fs) as (? & ? & -> & ?).
Qed.


Definition empty_ring (T : Type) (d : T) : Ring T := mkRing (2 ^ 32 - 1) (2 ^ 32 - 1) [d; d; d; d] 4 3.

Definition example_socket : AdoptedSocket :=
  mkSocket (empty_ring _ (mkDesc 0 0 0)) (empty_ring _ (mkDesc 0 0 0)) (empty_ring _ 0) (empty_ring _ 0).

Lemma empty_ring_repr T `{Inhabited T} d : ring_repr (empty_ring T d) (2 ^ 32 - 1) (2 ^ 32 - 1).
Proof. constructor; try reflexivity; try (simpl; lia). exists 2. split; [lia|reflexivity]. Qed.

Lemma example_socket_ok : rings_ok example_socket.
Proof. split; [|split; [|split]]; exists (2 ^ 32 - 1), (2 ^ 32 - 1); exact (empty_ring_repr _ _). Qed.

Lemma adopted_socket_contract_witness :
  AfXdpSocket (adopted_io example_socket example_socket example_socket example_socket example_socket 1
    (fun _ => mkView (zeros 64) 60)).
Proof.
  apply adopted_socket_contract.
  - do 5 (apply List.Forall_cons; [exact example_socket_ok|]). apply List.Forall_nil.
  - intros _. split; vm_compute; discriminate.
Defined.

#[local] Existing Instance xor_aes.
#[local] Existing Instance xor_aes_laws.
#[local] Existing Instance sum_hash.
#[local] Existing Instance sum_hmac.
#[local] Existing Instance sum_hmac_laws.
#[local] Existing Instance sum_gcm.
#[local] Existing Instance sum_gcm_laws.

(** Two frames arrive, the transmit ring takes one; the next round is idle. *)
Definition busy_io : AfXdpIo Z :=
  mkIo len ([7], 0) [(1, mkView issued_frame (len issued_frame)); (2, mkView udp4_frame (len udp4_frame))]
    (fun fs => Z.min 1 (len fs)) len.
Definition idle_io : AfXdpIo Z := mkIo (fun fs => Z.min 1 (len fs)) ([8; 9], 1) [] len len.

Definition example_ticks : list (Tick Z) :=
  [mkTick busy_io up_table 0 0; mkTick idle_io up_table (from_secs 1) 1000].

Definition idle_worker : WorkerState Z := mkWorker no_conn [6] stats_new.

Lemma min_bounds {A} (fs : list A) : 0 <= Z.min 1 (len fs) <= len fs /\ 0 <= len fs <= len fs.
Proof. pose_len. lia. Qed.

Lemma example_ticks_ok : Forall tick_ok example_ticks.
Proof.
  assert (forall f, (uncut (mkView f (len f)) <-> forall p q fl, parse_frame f = Done (Some p) -> l4 p = Icmp q fl ->
    q <= len f)) as Hu.
  { intros f. unfold uncut, RetryDatapath.contents. cbn [fv_chunk fv_len]. by rewrite sub_full. }
  assert (AfXdpSocket busy_io /\ AfXdpSocket idle_io) as [Hb Hi].
  { split; constructor; try (intros fs; apply (min_bounds fs)); try (vm_compute; split; discriminate);
      try (vm_compute; discriminate); repeat constructor; vm_compute; discriminate. }
  repeat (constructor; [split; [done|split; [apply up_table_live|]]|]); [|by constructor|constructor].
  repeat constructor; cbn [snd]; apply Hu; vm_compute; intros p q fl [= <-]; discriminate.
Qed.

