(* ===== verification/Threading.v ===== *)
(** * Worker counts and core placement

    Models the planning half of [pesigitg-daemon/src/threading.rs]: how many
    workers are started and which core each one is pinned to, from the NIC's queue
    count and the topology files of sysfs.  Directories and files are arguments,
    and so are the two readings of the number of cores, which the code takes at
    two places. *)

From stdpp Require Import gmap.
From S2P Require Import Prelude Std Decimal.

(** ** Topology files *)

(** One part of a cpulist. *)
Definition cpulist_part (part : str) : list Z :=
  let part := trim part in
  if len part =? 0 then []
  else
    match split_once 45 part with
    | Some (lo, hi) =>
        match parse_usize lo, parse_usize hi with
        | Some lo, Some hi => seqZ lo (hi + 1 - lo)
        | _, _ => []
        end
    | None => match parse_usize part with Some cpu => [cpu] | None => [] end
    end.

Definition parse_cpulist (s : str) : list Z := concat (map cpulist_part (split 44 s)).

Definition build_cpu_numa_map (entries : list (Z * str)) : gmap Z Z :=
  foldl (fun m e => foldl (fun m cpu => <[cpu := e.1]> m) m (parse_cpulist e.2)) ∅ entries.

(** A directory of sysfs: the names of its entries and, for each, the text of the
    file of interest below it, if it can be read. *)
Definition directory := list (str * option str).

(** The entries named [prefix] followed by a number, with a readable file. *)
Fixpoint numbered (prefix : str) (parse : str -> option Z) (dir : directory) : list (Z * str) :=
  match dir with
  | [] => []
  | (name, file) :: dir =>
      match strip_prefix prefix name ≫= parse, file with
      | Some n, Some text => (n, trim text) :: numbered prefix parse dir
      | _, _ => numbered prefix parse dir
      end
  end.

Definition read_cpu_numa_map_from (node_root : option directory) : gmap Z Z :=
  match node_root with
  | None => ∅
  | Some dir => build_cpu_numa_map (numbered (lit "node") parse_i32 dir)
  end.

Definition is_smt_primary (cpu : Z) (siblings_list : str) : bool :=
  match parse_cpulist siblings_list with
  | [] => false
  | c :: cs => foldl Z.min c cs =? cpu
  end.

Definition read_smt_primaries_from (cpu_root : option directory) : gset Z :=
  match cpu_root with
  | None => ∅
  | Some dir =>
      foldl (fun s e => if is_smt_primary e.1 e.2 then s ∪ {[e.1]} else s) ∅
        (numbered (lit "cpu") parse_usize dir)
  end.

(** ** Placement *)

Definition order_primaries_first (cpus : list (Z * Z * bool)) : list (Z * Z) :=
  let primaries := List.filter (fun c => c.2) cpus in
  let siblings := List.filter (fun c => negb c.2) cpus in
  map fst (primaries ++ siblings).

Definition pick_numa_local_cores (nic_numa : Z) (cpus : list (Z * Z)) (queue_count : Z) : list Z :=
  let local := map fst (List.filter (fun c => c.2 =? nic_numa) cpus) in
  let remote := map fst (List.filter (fun c => negb (c.2 =? nic_numa)) cpus) in
  take (Z.to_nat queue_count) (local ++ remote).

(** What the host answers: the interface's [numa_node] file, the node and the CPU
    directory. *)
Record Topology := mkTopology {
  nic_numa_file : option str;
  node_root : option directory;
  cpu_root : option directory;
}.

Definition nic_node (t : Topology) : Z :=
  default 0 (nic_numa_file t ≫= fun s => parse_i32 (trim s)).

Definition cpu_node (t : Topology) (cpu : Z) : Z := default 0 (read_cpu_numa_map_from (node_root t) !! cpu).

Definition is_primary (t : Topology) (cpu : Z) : bool :=
  let primaries := read_smt_primaries_from (cpu_root t) in
  bool_decide (primaries = ∅) || bool_decide (cpu ∈ primaries).

Definition select_cores (t : Topology) (num_cores queue_count : Z) : list Z :=
  let cpus_with_smt := map (fun cpu => (cpu, cpu_node t cpu, is_primary t cpu)) (seqZ 0 num_cores) in
  pick_numa_local_cores (nic_node t) (order_primaries_first cpus_with_smt) queue_count.

(** ** Planning *)

Definition resolve_thread_count (hw_queues requested available_cores : Z) : Z :=
  Z.min (Z.min requested hw_queues) (wrap32 available_cores).

Inductive plan_error := NoWorkers (hw_queues requested available_cores : Z).

Definition non_zero_worker_count (hw_queues requested available_cores : Z) : result Z plan_error :=
  let count := resolve_thread_count hw_queues requested available_cores in
  if count =? 0 then Err (NoWorkers hw_queues requested available_cores) else Ok count.

Record ThreadConfig := mkThread {
  queue_id : Z;
  core_id : Z;
}.

Fixpoint assign (numa_cores : list Z) (queues : list Z) : rs (list ThreadConfig) :=
  match queues with
  | [] => Done []
  | i :: queues =>
      let* core := idx numa_cores i in
      let* rest := assign numa_cores queues in
      Done (mkThread i core :: rest)
  end.

(** [hw] is the answer of [get_hw_queues]; [cores1] and [cores2] are what the two
    calls of [num_cores] return. *)
Definition plan_threads (t : Topology) (hw : option (Z * Z)) (cores1 cores2 : Z) (max_threads : option Z)
    : rs (result (list ThreadConfig) plan_error) :=
  let '(hw_queues, _) := default (1, 1) hw in
  let requested := default hw_queues max_threads in
  match non_zero_worker_count hw_queues requested cores1 with
  | Err e => Done (Err e)
  | Ok count =>
      let numa_cores := select_cores t cores2 count in
      let* cfgs := assign numa_cores (seqZ 0 count) in Done (Ok cfgs)
  end.

(** ** Lemmas *)

(** The cores in the order they are used: on the NIC's node before the others,
    and within a node first threads of a physical core before their siblings, by
    increasing number. *)
Definition rank (t : Topology) (cpu : Z) : Z :=
  (if cpu_node t cpu =? nic_node t then 0 else 2) + (if is_primary t cpu then 0 else 1).

Definition placement (t : Topology) (num_cores : Z) : list Z :=
  concat (map (fun r => List.filter (fun cpu => rank t cpu =? r) (seqZ 0 num_cores)) [0; 1; 2; 3]).

Lemma filter_map_comp {A B} (f : A -> B) (p : B -> bool) (l : list A) :
  List.filter p (map f l) = map f (List.filter (fun a => p (f a)) l).
Proof. induction l as [|a l IH]; simpl; [done|]. destruct (p (f a)); simpl; by rewrite IH. Qed.

Lemma filter_filter_andb {A} (p q r : A -> bool) (l : list A) :
  (forall a, r a = q a && p a) -> List.filter p (List.filter q l) = List.filter r l.
Proof.
  intros Hr. induction l as [|a l IH]; simpl; [done|]. rewrite (Hr a).
  destruct (q a); simpl; [destruct (p a)|]; by rewrite IH.
Qed.

Lemma filter_split_perm {A} (p : A -> bool) (l : list A) :
  Permutation (List.filter p l ++ List.filter (fun a => negb (p a)) l) l.
Proof.
  induction l as [|a l IH]; simpl; [done|]. destruct (p a); simpl; [by constructor|].
  rewrite <- Permutation_middle. by constructor.
Qed.

Lemma order_primaries_eq (node : Z -> Z) (prim : Z -> bool) (l : list Z) :
  order_primaries_first (map (fun cpu => (cpu, node cpu, prim cpu)) l)
  = map (fun cpu => (cpu, node cpu)) (List.filter prim l ++ List.filter (fun cpu => negb (prim cpu)) l).
Proof. unfold order_primaries_first. by rewrite !filter_map_comp, !map_app, !map_map. Qed.

Lemma pick_eq (node : Z -> Z) (nic count : Z) (l : list Z) :
  pick_numa_local_cores nic (map (fun cpu => (cpu, node cpu)) l) count
  = take (Z.to_nat count) (List.filter (fun cpu => node cpu =? nic) l
                           ++ List.filter (fun cpu => negb (node cpu =? nic)) l).
Proof. unfold pick_numa_local_cores. by rewrite !filter_map_comp, !map_map, !map_id. Qed.

Lemma select_cores_placement t n count :
  select_cores t n count = take (Z.to_nat count) (placement t n).
Proof.
  unfold select_cores, placement. rewrite order_primaries_eq, pick_eq. f_equal. cbn [map concat].
  rewrite !List.filter_app, app_nil_r, <- app_assoc.
  f_equal; [|f_equal; [|f_equal]]; apply filter_filter_andb; intros c; unfold rank;
    by destruct (is_primary t c), (cpu_node t c =? nic_node t).
Qed.

Lemma placement_perm t n : Permutation (placement t n) (seqZ 0 n).
Proof.
  set (near := List.filter (fun c => cpu_node t c =? nic_node t) (seqZ 0 n)).
  set (far := List.filter (fun c => negb (cpu_node t c =? nic_node t)) (seqZ 0 n)).
  assert (placement t n = (List.filter (is_primary t) near ++ List.filter (fun c => negb (is_primary t c)) near)
                          ++ List.filter (is_primary t) far ++ List.filter (fun c => negb (is_primary t c)) far) as ->.
  { unfold placement. cbn [map concat]. rewrite app_nil_r, <- app_assoc.
    f_equal; [|f_equal; [|f_equal]]; symmetry; apply filter_filter_andb; intros c; unfold rank;
      by destruct (is_primary t c), (cpu_node t c =? nic_node t). }
  rewrite !filter_split_perm. apply filter_split_perm.
Qed.

Lemma len_placement t n : 0 <= n -> len (placement t n) = n.
Proof. intros. unfold len. rewrite (Permutation_length (placement_perm t n)), length_seqZ. lia. Qed.

Lemma assign_spec cores k i :
  0 <= i <= len cores ->
  match assign cores (seqZ i (Z.of_nat k)) with
  | Panic => len cores < i + Z.of_nat k
  | Done cfgs => i + Z.of_nat k <= len cores /\ map queue_id cfgs = seqZ i (Z.of_nat k) /\
                 map core_id cfgs = sub cores i (i + Z.of_nat k)
  end.
Proof.
  revert i. induction k as [|k IH]; intros i Hi.
  { simpl. split; [lia|]. split; [done|]. by rewrite Z.add_0_r, sub_nil. }
  rewrite seqZ_cons by lia. cbn [assign]. replace (Z.pred (Z.of_nat (S k))) with (Z.of_nat k) by lia.
  unfold Z.succ. destruct (decide (i = len cores)) as [->|].
  { unfold idx. rewrite (proj2 (lookup_ge_None _ _)) by (unfold len; lia). case_goal; lia. }
  rewrite idx_in by lia. specialize (IH (i + 1) ltac:(lia)).
  destruct (assign cores _) as [cfgs|]; [|lia].
  destruct IH as (Hl & Hq & Hc). split; [lia|]. cbn [map queue_id core_id]. rewrite Hq, Hc. split; [done|].
  rewrite (sub_succ cores i) by lia. do 2 f_equal. lia.
Qed.

(** ** Properties *)

(** C35.  The plan of the workers on every host.  There are as many as the least
    of the requested number, the NIC's queues and the cores; none is an error.
    Worker [i] serves queue [i]; the cores are distinct cores of the host, the
    first ones in the order of [placement].  The only panic is a host whose core
    count, read again for the placement, has fallen below the number of workers. *)
Theorem plan_threads_exact (t : Topology) (hw : option (Z * Z)) (cores1 cores2 : Z) (max_threads : option Z) :
  0 <= (default (1, 1) hw).1 -> 0 <= default 0 max_threads -> 0 <= cores2 ->
  let hw_queues := (default (1, 1) hw).1 in
  let count := Z.min (Z.min (default hw_queues max_threads) hw_queues) (cores1 mod 2 ^ 32) in
  match plan_threads t hw cores1 cores2 max_threads with
  | Panic => cores2 < count
  | Done (Err _) => count = 0
  | Done (Ok cfgs) =>
      0 < count <= cores2 /\ map queue_id cfgs = seqZ 0 count /\
      map core_id cfgs = take (Z.to_nat count) (placement t cores2) /\
      NoDup (map core_id cfgs) /\ Forall (fun c => 0 <= c < cores2) (map core_id cfgs)
  end.
Proof.
  intros Hh Hm Hc. cbv zeta. unfold plan_threads, non_zero_worker_count, resolve_thread_count, wrap32.
  destruct (default (1, 1) hw) as [hwq mx]. cbn [fst] in *.
  assert (0 <= default hwq max_threads) by (by destruct max_threads).
  pose proof (Z.mod_pos_bound cores1 (2 ^ 32) eq_refl). set (count := Z.min (Z.min _ _) _).
  assert (0 <= count) by lia. destruct (count =? 0) eqn:E; [lia|]. rewrite select_cores_placement.
  pose proof (placement_perm t cores2) as Hp. pose proof (len_placement t cores2 Hc) as Hl.
  pose proof (assign_spec (take (Z.to_nat count) (placement t cores2)) (Z.to_nat count) 0) as Ha.
  rewrite Z2Nat.id, len_take, Hl, Z.add_0_l in Ha by lia. specialize (Ha ltac:(lia)).
  destruct (assign _ _) as [cfgs|]; [|lia]. destruct Ha as (Hn & Hq & Hk).
  rewrite sub_full in Hk by (rewrite len_take; lia). rewrite Hq, Hk. split; [lia|]. split; [done|]. split; [done|].
  assert (Hall : NoDup (placement t cores2) /\ Forall (fun c => 0 <= c < cores2) (placement t cores2)).
  { split; [rewrite Hp; apply NoDup_seqZ|]. apply list.Forall_forall. intros c Hin.
    rewrite Hp, elem_of_seqZ in Hin. lia. }
  rewrite <- (take_drop (Z.to_nat count) (placement t cores2)), NoDup_app, Forall_app in Hall. tauto.
Qed.

(** Four cores, the NIC on node 1 with cores 2 and 3, which share a physical core
    with 0 and 1. *)
Definition example_topology : Topology :=
  mkTopology (Some (lit "1")) (Some [(lit "node0", Some (lit "0-1")); (lit "node1", Some (lit "2,3"))])
    (Some [(lit "cpu0", Some (lit "0,2")); (lit "cpu1", Some (lit "1")); (lit "cpu2", Some (lit "0,2"));
           (lit "cpu3", Some (lit "3")); (lit "cpufreq", None)]).

Lemma plan_threads_exact_witness :
  plan_threads example_topology (Some (8, 8)) 4 4 (Some 3)
  = Done (Ok [mkThread 0 3; mkThread 1 2; mkThread 2 0]) /\
  [3; 2; 0] = take 3 (placement example_topology 4).
Proof.
  split; [vm_compute; reflexivity|].
  pose proof (plan_threads_exact example_topology (Some (8, 8)) 4 4 (Some 3)
    ltac:(vm_compute; discriminate) ltac:(vm_compute; discriminate) ltac:(vm_compute; discriminate)) as H.
  replace (plan_threads example_topology (Some (8, 8)) 4 4 (Some 3))
    with (Done (Ok (E := plan_error) [mkThread 0 3; mkThread 1 2; mkThread 2 0])) in H by (vm_compute; reflexivity).
  exact (proj1 (proj2 (proj2 H))).
Defined.
