(* ===== verification/Handoff.v ===== *)
(** * Handing sockets to the next process

    Models [pesigitg-daemon/src/fdstore.rs]: on a handoff the AF_XDP sockets and
    their memory are given to systemd's descriptor store under names that carry
    the queue, and the next process pairs them up again.  A descriptor is the
    open file it stands for.  The messages to systemd (crate [sd_notify]) are the
    output of the export; whether one is accepted is an argument. *)

From stdpp Require Import gmap.
From S2P Require Import Prelude Std Decimal Text.

Definition SOCK_SUFFIX : str := lit "-sock".
Definition UMEM_SUFFIX : str := lit "-umem".
Definition NAME_PREFIX : str := lit "pesigitg-q".

Definition sock_name (queue_id : Z) : str := NAME_PREFIX ++ fmt_dec queue_id ++ SOCK_SUFFIX.
Definition umem_name (queue_id : Z) : str := NAME_PREFIX ++ fmt_dec queue_id ++ UMEM_SUFFIX.

Inductive FdKind := Sock | Umem.

Definition parse_name (name : str) : option (Z * FdKind) :=
  let? body := strip_prefix NAME_PREFIX name in
  match strip_suffix SOCK_SUFFIX body with
  | Some qid => let? q := parse_u32 qid in Some (q, Sock)
  | None =>
      match strip_suffix UMEM_SUFFIX body with
      | Some qid => let? q := parse_u32 qid in Some (q, Umem)
      | None => None
      end
  end.

(** An open file. *)
Definition fd := Z.

(** ** Taking over *)

(** The loop over what systemd passes: the last descriptor of a name wins, and
    one with another name is closed. *)
Definition sort_fd (m : gmap Z fd * gmap Z fd) (entry : fd * str) : gmap Z fd * gmap Z fd :=
  let '(socks, umems) := m in
  match parse_name entry.2 with
  | Some (qid, Sock) => (<[qid := entry.1]> socks, umems)
  | Some (qid, Umem) => (socks, <[qid := entry.1]> umems)
  | None => (socks, umems)
  end.

(** The pairing loop, over the entries of [socks] in the map's order. *)
Fixpoint pair_fds (socks : list (Z * fd)) (umems : gmap Z fd) (by_queue : gmap Z (fd * fd))
    : gmap Z (fd * fd) :=
  match socks with
  | [] => by_queue
  | (qid, sock) :: socks =>
      match umems !! qid with
      | Some umem => pair_fds socks (delete qid umems) (<[qid := (sock, umem)]> by_queue)
      | None => pair_fds socks umems by_queue
      end
  end.

Definition inherit_from_systemd {E} (entries : result (list (fd * str)) E) : result (gmap Z (fd * fd)) E :=
  match entries with
  | Err e => Err e
  | Ok entries =>
      let '(socks, umems) := foldl sort_fd (∅, ∅) entries in
      Ok (pair_fds (map_to_list socks) umems ∅)
  end.

(** ** Handing over *)

Section handoff.
  Context (accepts : fd * str -> bool).

(** One message per descriptor; the second is not sent if the first fails. *)
Definition send_one (queue_id : Z) (sock umem : fd) : list (fd * str) * bool :=
  let m1 := (sock, sock_name queue_id) in
  let m2 := (umem, umem_name queue_id) in
  if accepts m1 then (if accepts m2 then ([m1; m2], true) else ([m1], false)) else ([], false).

(** What systemd stored, and the number of exported queues or the queue at which
    the export failed. *)
Fixpoint export_loop (fds : list (Z * fd * fd)) (stored : list (fd * str)) (exported : Z)
    : list (fd * str) * result Z Z :=
  match fds with
  | [] => (stored, Ok exported)
  | (qid, sock, umem) :: fds =>
      let '(sent, ok) := send_one qid sock umem in
      if ok then export_loop fds (stored ++ sent) (exported + 1) else (stored ++ sent, Err qid)
  end.

Definition export_to_systemd (notify_socket : bool) (fds : list (Z * fd * fd)) : list (fd * str) * result Z Z :=
  if notify_socket then export_loop fds [] 0 else ([], Ok 0).

End handoff.

(** ** Lemmas *)

(** *** Names *)

Lemma parse_sock_name q : 0 <= q < 2 ^ 32 -> parse_name (sock_name q) = Some (q, Sock).
Proof.
  intros Hq. unfold parse_name, sock_name. rewrite strip_prefix_app. cbn -[strip_suffix SOCK_SUFFIX UMEM_SUFFIX fmt_dec].
  rewrite strip_suffix_app, parse_u32_fmt_dec by done. done.
Qed.

Lemma parse_umem_name q : 0 <= q < 2 ^ 32 -> parse_name (umem_name q) = Some (q, Umem).
Proof.
  intros Hq. unfold parse_name, umem_name. rewrite strip_prefix_app. cbn -[strip_suffix SOCK_SUFFIX UMEM_SUFFIX fmt_dec].
  assert (strip_suffix SOCK_SUFFIX (fmt_dec q ++ UMEM_SUFFIX) = None) as ->.
  { unfold strip_suffix. rewrite rev_app_distr. reflexivity. }
  rewrite strip_suffix_app, parse_u32_fmt_dec by done. done.
Qed.

(** *** Sorting and pairing *)

Definition of_kind (sock : bool) (e : fd * str) : option (Z * fd) :=
  match parse_name e.2 with
  | Some (q, Sock) => if sock then Some (q, e.1) else None
  | Some (q, Umem) => if sock then None else Some (q, e.1)
  | None => None
  end.

Lemma sort_fds_eq entries S0 U0 :
  foldl sort_fd (S0, U0) entries
  = (list_to_map (rev (omap (of_kind true) entries)) ∪ S0, list_to_map (rev (omap (of_kind false) entries)) ∪ U0).
Proof.
  revert S0 U0. induction entries as [|e entries IH]; intros S0 U0; cbn [foldl].
  { simpl. by rewrite !(left_id_L ∅ (∪)). }
  rewrite (surjective_pairing (sort_fd (S0, U0) e)), IH. cbn [omap list_omap].
  assert (of_kind true e = match parse_name e.2 with Some (q, Sock) => Some (q, e.1) | _ => None end) as ->
    by (unfold of_kind; by destruct (parse_name e.2) as [[? []]|]).
  assert (of_kind false e = match parse_name e.2 with Some (q, Umem) => Some (q, e.1) | _ => None end) as ->
    by (unfold of_kind; by destruct (parse_name e.2) as [[? []]|]).
  unfold sort_fd. destruct (parse_name e.2) as [[q []]|]; [| |done];
    cbn [fst snd rev]; rewrite list_to_map_app; simpl; by rewrite insert_empty, <- (assoc_L (∪)), insert_union_singleton_l.
Qed.

Lemma sort_fds_perm entries stored :
  Permutation entries stored ->
  NoDup (map fst (omap (of_kind true) stored)) -> NoDup (map fst (omap (of_kind false) stored)) ->
  foldl sort_fd (∅, ∅) entries
  = (list_to_map (omap (of_kind true) stored), list_to_map (omap (of_kind false) stored)).
Proof.
  intros Hp H1 H2. rewrite sort_fds_eq, !(right_id_L ∅ (∪)).
  f_equal; symmetry; apply list_to_map_proper; try done; by rewrite <- Permutation_rev, Hp.
Qed.

Lemma pair_fds_lookup socks umems by_queue q :
  NoDup (map fst socks) ->
  pair_fds socks umems by_queue !! q
  = match (list_to_map socks : gmap Z fd) !! q, umems !! q with
    | Some s, Some u => Some (s, u)
    | _, _ => by_queue !! q
    end.
Proof.
  revert umems by_queue. induction socks as [|[q' s] socks IH]; intros umems by_queue Hn; simpl; [done|].
  apply NoDup_cons in Hn as [Hq Hn].
  assert ((list_to_map socks : gmap Z fd) !! q' = None) as Hno by (by apply not_elem_of_list_to_map).
  destruct (umems !! q') as [u|] eqn:Hu; rewrite IH by done; destruct (decide (q = q')) as [->|Hne].
  - by rewrite Hno, Hu, !lookup_insert_eq.
  - by rewrite lookup_delete_ne, !lookup_insert_ne by done.
  - by rewrite Hno, Hu, lookup_insert_eq.
  - by rewrite lookup_insert_ne by done.
Qed.

(** The queues of a list with both descriptors, the socket or the memory. *)
Definition both (f : Z * fd * fd) : Z * (fd * fd) := (f.1.1, (f.1.2, f.2)).
Definition its_sock (f : Z * fd * fd) : Z * fd := f.1.
Definition its_umem (f : Z * fd * fd) : Z * fd := (f.1.1, f.2).

Lemma pair_lookup F X q :
  match (list_to_map (map its_sock (F ++ X)) : gmap Z fd) !! q, (list_to_map (map its_umem F) : gmap Z fd) !! q with
  | Some s, Some u => Some (s, u)
  | _, _ => None
  end = (list_to_map (map both F) : gmap Z (fd * fd)) !! q.
Proof.
  induction F as [|[[q' s] u] F IH]; simpl; [by destruct (_ !! q)|].
  destruct (decide (q = q')) as [->|]; [by rewrite !lookup_insert_eq|by rewrite !lookup_insert_ne].
Qed.

(** *** Export *)

Definition messages (f : Z * fd * fd) : list (fd * str) :=
  [(f.1.2, sock_name f.1.1); (f.2, umem_name f.1.1)].

(** The export stops at the first message that is refused: the queues before it
    are stored, and perhaps the socket of the queue at which it stopped. *)
Lemma export_loop_spec accepts fds stored n :
  exists (F X : list (Z * fd * fd)) (extra : list (fd * str)) (r : result Z Z),
    export_loop accepts fds stored n = (stored ++ concat (map messages F) ++ extra, r) /\
    (exists rest, fds = F ++ X ++ rest) /\
    extra = map (fun f => (f.1.2, sock_name f.1.1)) X /\ (length X <= 1)%nat /\
    match r with Ok m => F = fds /\ m = n + len fds | Err q => exists f, fds !! length F = Some f /\ f.1.1 = q end.
Proof.
  revert stored n. induction fds as [|[[q s] u] fds IH]; intros stored n; cbn [export_loop].
  { exists [], [], [], (Ok n). rewrite app_nil_r. repeat split; [by exists []|simpl; lia|]. llia. }
  unfold send_one. destruct (accepts (s, sock_name q)); [destruct (accepts (u, umem_name q))|].
  - destruct (IH (stored ++ [(s, sock_name q); (u, umem_name q)]) (n + 1)) as (F & X & ex & r & -> & [rest Hrest] & He & Hl & Hr).
    exists ((q, s, u) :: F), X, ex, r. split; [by rewrite <- app_assoc|].
    split; [exists rest; by rewrite Hrest at 1|].
    split; [done|]. split; [done|]. destruct r as [m|q']; [|done]. destruct Hr as [HF ->].
    split; [by rewrite HF|]. rewrite len_cons. lia.
  - exists [], [(q, s, u)], [(s, sock_name q)], (Err q). split; [done|]. split; [by exists fds|].
    split; [done|]. split; [simpl; lia|]. by exists (q, s, u).
  - exists [], [], [], (Err q). split; [done|]. split; [by exists ((q, s, u) :: fds)|].
    split; [done|]. split; [simpl; lia|]. by exists (q, s, u).
Qed.

Lemma of_kind_sock sock q s :
  0 <= q < 2 ^ 32 -> of_kind sock (s, sock_name q) = if sock then Some (q, s) else None.
Proof. intros. unfold of_kind. cbn [snd fst]. by rewrite parse_sock_name. Qed.

Lemma of_kind_umem sock q u :
  0 <= q < 2 ^ 32 -> of_kind sock (u, umem_name q) = if sock then None else Some (q, u).
Proof. intros. unfold of_kind. cbn [snd fst]. by rewrite parse_umem_name. Qed.

Lemma of_kind_messages sock F :
  Forall (fun f : Z * fd * fd => 0 <= f.1.1 < 2 ^ 32) F ->
  omap (of_kind sock) (concat (map messages F)) = map (if sock then its_sock else its_umem) F.
Proof.
  induction 1 as [|[[q s] u] F Hq _ IH]; [done|]. cbn [fst] in Hq. cbn [map concat]. rewrite omap_app, IH.
  unfold messages. cbn [omap list_omap fst snd]. rewrite of_kind_sock, of_kind_umem by done. by destruct sock.
Qed.

Lemma of_kind_half sock X :
  Forall (fun f : Z * fd * fd => 0 <= f.1.1 < 2 ^ 32) X ->
  omap (of_kind sock) (map (fun f => (f.1.2, sock_name f.1.1)) X) = if sock then map its_sock X else [].
Proof.
  induction 1 as [|[[q s] u] X Hq _ IH]; [by destruct sock|]. cbn [fst] in Hq.
  rewrite map_cons. cbn [omap list_omap fst snd]. rewrite of_kind_sock, IH by done. by destruct sock.
Qed.

(** ** Properties *)

(** C34.  A handoff restores exactly the exported queues.  Let a process export
    sockets of distinct queues and let systemd accept any prefix of the messages
    and pass on what it stored, in any order.  The export reports success exactly
    if everything was accepted, and otherwise the queue at which it stopped; the
    next process gets, for each queue before that one and for no other, the
    socket and the memory of that queue, a lone socket being dropped. *)
Theorem handoff_roundtrip {E} (accepts : fd * str -> bool) (fds : list (Z * fd * fd))
    (stored entries : list (fd * str)) (r : result Z Z) :
  Forall (fun f => 0 <= f.1.1 < 2 ^ 32) fds -> NoDup (map (fun f => f.1.1) fds) ->
  export_to_systemd accepts true fds = (stored, r) -> Permutation entries stored ->
  exists k, (k <= length fds)%nat /\
    match r with
    | Ok n => n = len fds /\ k = length fds
    | Err q => exists f, fds !! k = Some f /\ f.1.1 = q
    end /\
    inherit_from_systemd (E := E) (Ok entries) = Ok (list_to_map (map both (take k fds))).
Proof.
  intros Hq Hn He Hp. unfold export_to_systemd in He.
  destruct (export_loop_spec accepts fds [] 0) as (F & X & ex & r' & He' & [rest Hf] & -> & _ & Hr).
  rewrite He in He'. injection He' as -> <-.
  assert (Forall (fun f : Z * fd * fd => 0 <= f.1.1 < 2 ^ 32) F /\ Forall (fun f : Z * fd * fd => 0 <= f.1.1 < 2 ^ 32) X) as [HF HX].
  { rewrite Hf, !Forall_app in Hq. tauto. }
  assert (NoDup (map (fun f : Z * fd * fd => f.1.1) (F ++ X))) as Hn'.
  { rewrite Hf, app_assoc, map_app in Hn. by apply NoDup_app in Hn as (? & _). }
  exists (length F). split; [rewrite Hf, length_app; lia|]. split.
  { destruct r as [m|q]; [|done]. destruct Hr as [HFe ->]. split; [done|]. by rewrite HFe. }
  unfold inherit_from_systemd. rewrite (sort_fds_perm entries _ Hp); rewrite !omap_app, !of_kind_messages, !of_kind_half by done.
  - f_equal. apply map_eq. intros q. rewrite pair_fds_lookup by apply NoDup_fst_map_to_list.
    rewrite list_to_map_to_list, lookup_empty, app_nil_r, <- map_app.
    rewrite Hf, take_app_length. apply pair_lookup.
  - by rewrite <- map_app, map_map.
  - rewrite app_nil_r, map_map. rewrite map_app in Hn'. by apply NoDup_app in Hn' as (? & _).
Qed.

Lemma handoff_roundtrip_witness :
  inherit_from_systemd (E := unit) (Ok (rev (export_to_systemd (fun m => negb (m.1 =? 14)) true [(0, 11, 12); (7, 13, 14)]).1))
  = Ok {[0 := (11, 12)]}.
Proof.
  destruct (handoff_roundtrip (E := unit) (fun m => negb (m.1 =? 14)) [(0, 11, 12); (7, 13, 14)]
    (export_to_systemd (fun m => negb (m.1 =? 14)) true [(0, 11, 12); (7, 13, 14)]).1
    (rev (export_to_systemd (fun m => negb (m.1 =? 14)) true [(0, 11, 12); (7, 13, 14)]).1) (Err 7))
    as (k & Hk & (f & Hf & Hq) & ->).
  - repeat constructor; simpl; lia.
  - by apply (bool_decide_unpack _).
  - vm_compute. reflexivity.
  - symmetry. apply Permutation_rev.
  - destruct k as [|[|k]]; [injection Hf as <-; discriminate Hq|reflexivity|discriminate Hf].
Defined.
