(* ===== verification/Pool.v ===== *)
(** * The worker pool and the handoff between generations

    Models the life of the worker threads in [pesigitg-daemon/src/threading.rs]
    ([spawn], [worker_loop], [worker_loop_adopt], the two shutdowns and the health
    count), [detach_for_fdstore] of [worker_socket.rs], and how [main] composes them
    with [fdstore.rs] from one process to the next.  Whether a system call of a thread
    succeeds is a parameter. *)

From stdpp Require Import gmap.
From S2P Require Import Prelude Std Common Text Decimal Json Threading Handoff Status.

(** ** Workers *)

(** Whether the calls of a thread succeed. *)
Record Fate := mkFate {
  f_pin : bool;
  f_create : bool;
  f_ifindex : bool;
  f_adopt : bool;
  f_register : bool;
}.

(** The two kinds of socket a worker can hold. *)
Inductive Socket := FreshSocket | Rehydrated (sockfd umem_fd : fd).

Definition detach_for_fdstore (s : Socket) : option (fd * fd) :=
  match s with FreshSocket => None | Rehydrated sock umem => Some (sock, umem) end.

(** The socket the thread enters the hot loop with, or nothing if it returned
    early.  The loop itself ends only when the shutdown flag is set. *)
Definition worker_loop (f : Fate) : option Socket :=
  if f_create f then if f_register f then Some FreshSocket else None else None.

Definition worker_loop_adopt (f : Fate) (sockfd umem_fd : fd) : option Socket :=
  if f_ifindex f then
    if f_adopt f then if f_register f then Some (Rehydrated sockfd umem_fd) else None else None
  else None.

Definition worker_thread (f : Fate) (inherited_pair : option (fd * fd)) : option Socket :=
  if f_pin f then
    match inherited_pair with
    | Some (sockfd, umem_fd) => worker_loop_adopt f sockfd umem_fd
    | None => worker_loop f
    end
  else None.

(** ** The pool *)

(** A worker whose socket is [None] has finished. *)
Record Worker := mkWorker { w_queue : Z; w_socket : option Socket }.

(** The workers, and the inherited descriptors nobody asked for. *)
Fixpoint spawn (fate : Z -> Fate) (threads : list ThreadConfig) (by_queue : gmap Z (fd * fd))
    : list Worker * gmap Z (fd * fd) :=
  match threads with
  | [] => ([], by_queue)
  | tc :: threads =>
      let q := queue_id tc in
      let w := mkWorker q (worker_thread (fate q) (by_queue !! q)) in
      let '(ws, rest) := spawn fate threads (delete q by_queue) in
      (w :: ws, rest)
  end.

Definition is_finished (w : Worker) : bool := match w_socket w with None => true | Some _ => false end.

Definition dead_queues (ws : list Worker) : list Z := map w_queue (List.filter is_finished ws).

Definition health_new (ws : list Worker) : WorkerHealth := mkWorkerHealth (len ws) (len ws).

Definition refresh_health (ws : list Worker) (h : WorkerHealth) : WorkerHealth :=
  mkWorkerHealth (len (List.filter (fun w => negb (is_finished w)) ws)) (expected h).

(** What a worker sends when it leaves the loop. *)
Definition offered (w : Worker) : list (Z * fd * fd) :=
  match w_socket w with
  | Some s => match detach_for_fdstore s with Some (sock, umem) => [(w_queue w, sock, umem)] | None => [] end
  | None => []
  end.

(** The triples in the channel once every worker is joined: those offered, in the
    order in which the threads sent them. *)
Definition shutdown_for_handoff (ws : list Worker) (received : list (Z * fd * fd)) : Prop :=
  Permutation received (concat (map offered ws)).

(** ** Generations *)

(** One process, from the descriptors systemd passes to those it holds afterwards.
    After a handoff systemd has what it had and what was stored, and may have
    dropped descriptors it had; after another exit nothing was added. *)
Inductive generation (store store' : list (fd * str)) (ws : list Worker) : Prop :=
| gen_handoff threads fate by_queue rest received accepts notify_socket stored r :
    inherit_from_systemd (E := unit) (Ok store) = Ok by_queue ->
    spawn fate threads by_queue = (ws, rest) ->
    shutdown_for_handoff ws received ->
    export_to_systemd accepts notify_socket received = (stored, r) ->
    (forall e, e ∈ stored -> e ∈ store') ->
    (forall e, e ∈ store' -> e ∈ store \/ e ∈ stored) ->
    generation store store' ws
| gen_cold threads fate by_queue rest :
    inherit_from_systemd (E := unit) (Ok store) = Ok by_queue ->
    spawn fate threads by_queue = (ws, rest) ->
    (forall e, e ∈ store' -> e ∈ store) ->
    generation store store' ws.

Inductive generations : list (fd * str) -> list (fd * str) -> list (list Worker) -> Prop :=
| gens_nil store : generations store store []
| gens_cons store store1 store2 ws wss :
    generation store store1 ws -> generations store1 store2 wss -> generations store store2 (ws :: wss).

(** ** Lemmas *)

(** Every entry is a descriptor of its queue, [S q] or [U q]. *)
Definition entry_of (S U : Z -> fd) (e : fd * str) : Prop :=
  exists q, 0 <= q < 2 ^ 32 /\ (e = (S q, sock_name q) \/ e = (U q, umem_name q)).

(** Every socket of the workers is fresh or has the descriptors of its queue. *)
Definition worker_of (S U : Z -> fd) (w : Worker) : Prop :=
  match w_socket w with
  | Some (Rehydrated sock umem) => sock = S (w_queue w) /\ umem = U (w_queue w) /\ 0 <= w_queue w < 2 ^ 32
  | _ => True
  end.

Definition held (S U : Z -> fd) (store : list (fd * str)) (q : Z) : Prop :=
  (S q, sock_name q) ∈ store /\ (U q, umem_name q) ∈ store.

Lemma entry_kind S U e sock q f :
  entry_of S U e -> of_kind sock e = Some (q, f) ->
  f = (if sock then S q else U q) /\ 0 <= q < 2 ^ 32 /\ e = (f, (if sock : bool then sock_name q else umem_name q)).
Proof.
  intros (q' & Hq & [->| ->]); [rewrite of_kind_sock by done|rewrite of_kind_umem by done]; destruct sock; try done;
    by intros [= <- <-].
Qed.

(** The map of the descriptors of one kind that sorting makes. *)
Lemma sorted_lookup S U store sock q :
  Forall (entry_of S U) store ->
  match (list_to_map (rev (omap (of_kind sock) store)) : gmap Z fd) !! q with
  | Some f => f = (if sock then S q else U q) /\ 0 <= q < 2 ^ 32 /\
      (f, (if sock : bool then sock_name q else umem_name q)) ∈ store
  | None => 0 <= q < 2 ^ 32 -> ((if sock then S q else U q), (if sock : bool then sock_name q else umem_name q)) ∉ store
  end.
Proof.
  intros Hs. rewrite list.Forall_forall in Hs. destruct (_ !! q) as [f|] eqn:E.
  - apply elem_of_list_to_map_2 in E. apply list_elem_of_In, in_rev, list_elem_of_In, list_elem_of_omap in E as (e & He & Hk).
    destruct (entry_kind S U e sock q f (Hs e He) Hk) as (-> & Hq & ->). done.
  - intros Hq Hin. apply not_elem_of_list_to_map in E. apply E. apply list_elem_of_fmap.
    exists (q, if sock then S q else U q). split; [done|]. apply list_elem_of_In. rewrite <- in_rev. apply list_elem_of_In.
    apply list_elem_of_omap. eexists. split; [exact Hin|]. by destruct sock; [rewrite of_kind_sock|rewrite of_kind_umem].
Qed.

Lemma inherit_lookup S U store by_queue q :
  Forall (entry_of S U) store -> inherit_from_systemd (E := unit) (Ok store) = Ok by_queue -> 0 <= q < 2 ^ 32 ->
  by_queue !! q = if decide (held S U store q) then Some (S q, U q) else None.
Proof.
  intros Hs. unfold inherit_from_systemd. rewrite sort_fds_eq, !(right_id_L ∅ (∪)). intros [= <-] Hq.
  rewrite pair_fds_lookup, list_to_map_to_list, lookup_empty by apply NoDup_fst_map_to_list.
  pose proof (sorted_lookup S U store true q Hs) as H1. pose proof (sorted_lookup S U store false q Hs) as H2.
  cbv iota in H1, H2. unfold held. destruct (_ !! q) as [s|]; [|destruct (decide _); [|done]; exfalso; tauto].
  destruct (_ !! q) as [u|]; [|destruct (decide _); [|done]; exfalso; tauto].
  destruct H1 as (-> & _ & ?), H2 as (-> & _ & ?). by rewrite decide_True.
Qed.

Lemma inherit_range S U store by_queue q p :
  Forall (entry_of S U) store -> inherit_from_systemd (E := unit) (Ok store) = Ok by_queue ->
  by_queue !! q = Some p -> 0 <= q < 2 ^ 32.
Proof.
  intros Hs. unfold inherit_from_systemd. rewrite sort_fds_eq, !(right_id_L ∅ (∪)). intros [= <-].
  rewrite pair_fds_lookup, list_to_map_to_list, lookup_empty by apply NoDup_fst_map_to_list.
  pose proof (sorted_lookup S U store true q Hs) as H1. destruct (_ !! q) as [s|]; [|done]. intros _. apply H1.
Qed.

Lemma spawn_socket fate threads m ws rest w sock umem :
  spawn fate threads m = (ws, rest) -> w ∈ ws -> w_socket w = Some (Rehydrated sock umem) ->
  m !! w_queue w = Some (sock, umem).
Proof.
  revert m ws. induction threads as [|tc threads IH]; intros m ws; cbn [spawn].
  { intros [= <- _]. by intros ?%elem_of_nil. }
  destruct (spawn fate threads _) as [ws1 rest1] eqn:E. intros [= <- <-] [->|Hw]%elem_of_cons Hs.
  - cbn in *. unfold worker_thread in Hs. destruct (f_pin _); [|done].
    destruct (m !! queue_id tc) as [[s u]|]; unfold worker_loop, worker_loop_adopt in Hs; repeat case_match; congruence.
  - specialize (IH _ _ E Hw Hs). by apply lookup_delete_Some in IH as [_ ?].
Qed.

Lemma spawn_thread fate threads m ws rest tc :
  NoDup (map queue_id threads) -> spawn fate threads m = (ws, rest) -> tc ∈ threads ->
  mkWorker (queue_id tc) (worker_thread (fate (queue_id tc)) (m !! queue_id tc)) ∈ ws.
Proof.
  revert m ws. induction threads as [|tc' threads IH]; intros m ws Hn; cbn [spawn]; [by intros _ ?%elem_of_nil|].
  apply NoDup_cons in Hn as [Hq Hn]. destruct (spawn fate threads _) as [ws1 rest1] eqn:E.
  intros [= <- <-] [->|Htc]%elem_of_cons; [by left|right].
  specialize (IH _ _ Hn E Htc). rewrite lookup_delete_ne in IH; [done|].
  intros Heq. apply Hq. rewrite Heq. by apply list_elem_of_fmap_2.
Qed.

Lemma spawn_worker_of S U store by_queue fate threads ws rest :
  Forall (entry_of S U) store -> inherit_from_systemd (E := unit) (Ok store) = Ok by_queue ->
  spawn fate threads by_queue = (ws, rest) -> Forall (worker_of S U) ws.
Proof.
  intros Hs Hi Hsp. apply list.Forall_forall. intros w Hw. unfold worker_of.
  destruct (w_socket w) as [[|sock umem]|] eqn:E; [done| |done].
  pose proof (spawn_socket _ _ _ _ _ _ _ _ Hsp Hw E) as Hl.
  assert (0 <= w_queue w < 2 ^ 32) as Hq by (by eapply inherit_range).
  rewrite (inherit_lookup S U store) in Hl by done. destruct (decide _); [|done]. by injection Hl as <- <-.
Qed.

Lemma offered_elem ws x :
  x ∈ concat (map offered ws) <->
  exists w sock umem, w ∈ ws /\ w_socket w = Some (Rehydrated sock umem) /\ x = (w_queue w, sock, umem).
Proof.
  rewrite list_elem_of_In, in_concat. split.
  - intros (l & (w & <- & Hw)%in_map_iff & Hx). unfold offered in Hx.
    destruct (w_socket w) as [[|sock umem]|] eqn:E; cbn in Hx; [done| |done]. destruct Hx as [<-|[]].
    exists w, sock, umem. by rewrite list_elem_of_In.
  - intros (w & sock & umem & Hw & Hs & ->). exists (offered w). split.
    + apply in_map. by apply list_elem_of_In.
    + unfold offered. rewrite Hs. by left.
Qed.

Lemma messages_elem F e :
  e ∈ concat (map messages F) <-> exists f, f ∈ F /\ (e = (f.1.2, sock_name f.1.1) \/ e = (f.2, umem_name f.1.1)).
Proof.
  rewrite list_elem_of_In, in_concat. split.
  - intros (l & (f & <- & Hf)%in_map_iff & He). exists f. rewrite list_elem_of_In. split; [done|].
    destruct He as [<-|[<-|[]]]; auto.
  - intros (f & Hf%list_elem_of_In & He). exists (messages f). split; [by apply in_map|].
    destruct He as [->| ->]; [by left|right; by left].
Qed.

(** What is exported is a descriptor of an offered triple; with nothing refused, all
    of them are exported. *)
Lemma export_elem accepts notify fds stored r e :
  export_to_systemd accepts notify fds = (stored, r) -> e ∈ stored ->
  exists f, f ∈ fds /\ (e = (f.1.2, sock_name f.1.1) \/ e = (f.2, umem_name f.1.1)).
Proof.
  unfold export_to_systemd. destruct notify; [|intros [= <- _]; by intros ?%elem_of_nil].
  destruct (export_loop_spec accepts fds [] 0) as (F & X & ex & r' & -> & [tl ->] & -> & _).
  cbn [app]. intros [= <- _] [Hf|Hx]%elem_of_app.
  - apply messages_elem in Hf as (f & Hf & He). exists f. split; [by apply elem_of_app; left|done].
  - apply list_elem_of_fmap in Hx as (f & -> & Hf). exists f. split; [|by left].
    apply elem_of_app. right. apply elem_of_app. by left.
Qed.

Lemma export_all fds stored r f :
  export_to_systemd (fun _ => true) true fds = (stored, r) -> f ∈ fds ->
  (f.1.2, sock_name f.1.1) ∈ stored /\ (f.2, umem_name f.1.1) ∈ stored.
Proof.
  cbn [export_to_systemd]. assert (forall l st n, exists m, export_loop (fun _ => true) l st n = (st ++ concat (map messages l), Ok m)) as Hl.
  { induction l as [|[[q s] u] l IH]; intros st n; cbn [export_loop send_one map concat]; [exists n; by rewrite app_nil_r|].
    destruct (IH (st ++ [(s, sock_name q); (u, umem_name q)]) (n + 1)) as [m ->]. exists m. by rewrite <- app_assoc. }
  destruct (Hl fds [] 0) as [m ->]. intros [= <- _] Hf. cbn [app]. rewrite !messages_elem. split; exists f; auto.
Qed.

Lemma generation_entries S U store store' ws :
  generation store store' ws -> Forall (entry_of S U) store ->
  Forall (entry_of S U) store' /\ Forall (worker_of S U) ws.
Proof.
  intros Hg Hs. destruct Hg as [threads fate by_queue rest received accepts notify stored r Hi Hsp Hr He _ Hst|threads fate by_queue rest Hi Hsp Hst];
    pose proof (spawn_worker_of S U _ _ _ _ _ _ Hs Hi Hsp) as Hw; (split; [|done]); apply list.Forall_forall; intros e Hin;
    rewrite list.Forall_forall in Hs; [|by apply Hs, Hst].
  destruct (Hst e Hin) as [?|Hin']; [by apply Hs|]. destruct (export_elem _ _ _ _ _ _ He Hin') as (f & Hf & Hname).
  rewrite Hr in Hf. apply offered_elem in Hf as (w & sock & umem & Hww & Hsock & ->).
  rewrite list.Forall_forall in Hw. specialize (Hw w Hww). unfold worker_of in Hw. rewrite Hsock in Hw.
  destruct Hw as (-> & -> & Hq). by exists (w_queue w).
Qed.

(** ** Properties *)

(** C11.  A queue keeps its socket and memory through any number of restarts.  If what
    systemd holds at first are descriptors of their queues, then in every later
    process, whatever calls fail and however each process ends, a worker either made a
    fresh socket or has the descriptors of its own queue; and what systemd holds are
    still descriptors of their queues. *)
Theorem handoff_generations (S U : Z -> fd) (store store' : list (fd * str)) (wss : list (list Worker)) :
  generations store store' wss -> Forall (entry_of S U) store ->
  Forall (entry_of S U) store' /\ Forall (Forall (worker_of S U)) wss.
Proof.
  induction 1 as [store|store store1 store2 ws wss Hg _ IH]; intros Hs; [done|].
  destruct (generation_entries _ _ _ _ _ Hg Hs) as [Hs1 Hw]. destruct (IH Hs1) as [Hs2 Hws]. split; [done|]. by constructor.
Qed.

(** A handoff in which nothing fails passes a queue on: if systemd holds the two
    descriptors of a planned queue, its worker runs on them, and after the handoff
    systemd holds them again. *)
Theorem handoff_keeps_queue (S U : Z -> fd) (store stored : list (fd * str)) (threads : list ThreadConfig)
    (fate : Z -> Fate) (by_queue rest : gmap Z (fd * fd)) (ws : list Worker) (received : list (Z * fd * fd))
    (r : result Z Z) (q : Z) :
  Forall (entry_of S U) store -> 0 <= q < 2 ^ 32 -> held S U store q ->
  NoDup (map queue_id threads) -> q ∈ map queue_id threads -> fate q = mkFate true true true true true ->
  inherit_from_systemd (E := unit) (Ok store) = Ok by_queue -> spawn fate threads by_queue = (ws, rest) ->
  shutdown_for_handoff ws received -> export_to_systemd (fun _ => true) true received = (stored, r) ->
  mkWorker q (Some (Rehydrated (S q) (U q))) ∈ ws /\ held S U stored q.
Proof.
  intros Hs Hq Hheld Hn (tc & -> & Htc)%list_elem_of_fmap Hf Hi Hsp Hr He.
  pose proof (spawn_thread _ _ _ _ _ _ Hn Hsp Htc) as Hw.
  rewrite Hf, (inherit_lookup S U store) in Hw by done. rewrite decide_True in Hw by done.
  split; [exact Hw|]. destruct (export_all received stored r (queue_id tc, S (queue_id tc), U (queue_id tc)) He) as [? ?]; [|done].
  rewrite Hr. apply offered_elem. eexists _, _, _. split; [exact Hw|done].
Qed.

(** No process ever runs on descriptors of an earlier one unless systemd held some
    before the first: a fresh socket is not detached, and nothing else starts the
    chain.  The comments of [main] expect a pair of descriptors per queue. *)
Theorem descriptors_never_start (store' : list (fd * str)) (wss : list (list Worker)) :
  generations [] store' wss ->
  store' = [] /\ Forall (Forall (fun w => w_socket w = None \/ w_socket w = Some FreshSocket)) wss.
Proof.
  remember [] as store eqn:Hst. induction 1 as [store|store store1 store2 ws wss Hg Hgs IH]; [done|]. subst store.
  assert (Forall (fun w => w_socket w = None \/ w_socket w = Some FreshSocket) ws /\ store1 = []) as [Hws ->].
  2: { destruct (IH eq_refl) as [-> Hwss]. split; [done|]. by constructor. }
  assert (Hfr : forall threads fate by_queue rest, inherit_from_systemd (E := unit) (Ok []) = Ok by_queue ->
    spawn fate threads by_queue = (ws, rest) -> Forall (fun w => w_socket w = None \/ w_socket w = Some FreshSocket) ws).
  { intros threads fate bq rest [= <-] Hsp. apply list.Forall_forall. intros w Hw.
    destruct (w_socket w) as [[|s u]|] eqn:E; [by right| |by left].
    pose proof (spawn_socket _ _ _ _ _ _ _ _ Hsp Hw E) as Hl. vm_compute in Hl. done. }
  destruct Hg as [threads fate bq rest received accepts notify stored r Hi Hsp Hr He _ Hst|threads fate bq rest Hi Hsp Hst];
    (split; [by eapply Hfr|]); destruct store1 as [|e st]; [done| |done|].
  - destruct (Hst e ltac:(by left)) as [?%elem_of_nil|Hin]; [done|].
    destruct (export_elem _ _ _ _ _ _ He Hin) as (f & Hf & _). rewrite Hr in Hf.
    apply offered_elem in Hf as (w & s & u & Hw & Hsock & _). specialize (Hfr _ _ _ _ Hi Hsp).
    rewrite list.Forall_forall in Hfr. destruct (Hfr w Hw); congruence.
  - pose proof (Hst e ltac:(by left)) as Hin. by apply elem_of_nil in Hin.
Qed.

(** The published count and the list of dead queues agree: [/health] is "ok" exactly
    if the main loop finds no dead queue. *)
Lemma health_dead ws h uptime :
  expected h = len ws ->
  alive (refresh_health ws h) + len (dead_queues ws) = len ws /\ 
  (get (lit "status") (build_health_response (refresh_health ws h) uptime) = Some (JStr (lit "ok")) <-> dead_queues ws = []).
Proof.
  intros Hh. assert (alive (refresh_health ws h) + len (dead_queues ws) = len ws) as Hsum.
  { unfold dead_queues. cbn [alive refresh_health]. clear Hh. induction ws as [|w ws IH]; [done|]. cbn [List.filter].
    destruct (is_finished w); cbn [negb map]; rewrite ?len_cons; lia. }
  split; [done|]. cbn [get build_health_response obj]. unfold build_health_response. cbn [expected refresh_health].
  rewrite Hh. destruct (len ws <=? alive (refresh_health ws h)) eqn:E; cbn.
  - split; [|done]. intros _. destruct (dead_queues ws); [done|]. rewrite len_cons in Hsum. pose_len. lia.
  - split; [done|]. intros Hd. rewrite Hd in Hsum. change (len []) with 0 in Hsum. lia.
Qed.

(** ** Instances of the properties *)

(** Queue [q] has descriptors [10 + 2 * q] and [11 + 2 * q]. *)
Definition ex_sock (q : Z) : fd := 10 + 2 * q.
Definition ex_umem (q : Z) : fd := 11 + 2 * q.
Definition ex_store : list (fd * str) := [(13, umem_name 1); (12, sock_name 1)].
Definition ex_threads : list ThreadConfig := [mkThread 0 4; mkThread 1 5].
Definition ex_fate (q : Z) : Fate := mkFate true true true true true.
Definition ex_workers : list Worker := [mkWorker 0 (Some FreshSocket); mkWorker 1 (Some (Rehydrated 12 13))].

Lemma ex_store_ok : Forall (entry_of ex_sock ex_umem) ex_store.
Proof. constructor; [|constructor; [|done]]; exists 1; (split; [lia|]); [by right|by left]. Qed.

Lemma ex_generation : generation ex_store (rev ex_store) ex_workers.
Proof.
  eapply (gen_handoff _ _ _ ex_threads ex_fate {[1 := (12, 13)]} ∅ [(1, 12, 13)] (fun _ => true) true); try reflexivity.
  - unfold shutdown_for_handoff. reflexivity.
  - intros e. cbn. set_solver.
  - intros e. cbn. set_solver.
Qed.

Lemma handoff_generations_witness :
  Forall (Forall (worker_of ex_sock ex_umem)) [ex_workers].
Proof.
  apply (handoff_generations ex_sock ex_umem ex_store (rev ex_store) [ex_workers]); [|exact ex_store_ok].
  eapply gens_cons; [exact ex_generation|constructor].
Defined.

Lemma handoff_keeps_queue_witness :
  mkWorker 1 (Some (Rehydrated 12 13)) ∈ ex_workers /\ held ex_sock ex_umem (rev ex_store) 1.
Proof.
  apply (handoff_keeps_queue ex_sock ex_umem ex_store (rev ex_store) ex_threads ex_fate {[1 := (12, 13)]} ∅
           ex_workers [(1, 12, 13)] (Ok 1) 1); try reflexivity.
  - exact ex_store_ok.
  - lia.
  - split; cbn; set_solver.
  - apply (bool_decide_unpack _). vm_compute. done.
  - cbn. set_solver.
  - unfold shutdown_for_handoff. reflexivity.
Defined.
