(* ===== verification/Threads.v ===== *)
(** * The worker threads and their shutdown

    Models the threads of [pesigitg-daemon/src/threading.rs] as they run beside the
    main thread: [WorkerPool::spawn], the entry points [worker_loop] and
    [worker_loop_adopt] around the hot loop, and the two shutdowns.  The shutdown
    flag is read with a relaxed load, so a worker has its own view of it, which
    follows the store at some later time.  A step is taken by one thread, and the
    label of the step says by which.  [Pool] has what a single thread does; here are
    the interleavings. *)

From stdpp Require Import gmap.
From S2P Require Import Prelude Std Threading Handoff Pool.

(** ** Threads *)

(** Where a thread is: before or in its set-up, at the test of the loop, in the body
    of the loop, out of the loop, returned, or ended by a panic. *)
Inductive Phase :=
| Starting (f : Fate) (inherited_pair : option (fd * fd))
| AtTest (s : Socket)
| Iterating (s : Socket)
| OutOfLoop (s : Socket)
| Returned
| Panicked.

Record Thread := mkTh {
  th_queue : Z;
  th_seen : bool;
  th_phase : Phase;
}.

Definition goto (t : Thread) (p : Phase) : Thread := mkTh (th_queue t) (th_seen t) p.

Definition th_finished (t : Thread) : bool :=
  match th_phase t with Returned | Panicked => true | _ => false end.

(** What a thread sends on the channel when it has left the loop. *)
Definition send_detached (q : Z) (s : Socket) : list (Z * fd * fd) :=
  match detach_for_fdstore s with Some (sock, umem) => [(q, sock, umem)] | None => [] end.

Definition thread_step (t : Thread) : option (Thread * list (Z * fd * fd)) :=
  match th_phase t with
  | Starting f p =>
      Some (goto t (match worker_thread f p with Some s => AtTest s | None => Returned end), [])
  | AtTest s => Some (goto t (if th_seen t then OutOfLoop s else Iterating s), [])
  | Iterating s => Some (goto t (AtTest s), [])
  | OutOfLoop s => Some (goto t Returned, send_detached (th_queue t) s)
  | Returned | Panicked => None
  end.

(** Set-up and the loop body can panic: a poisoned lock, an index out of range.  The
    thread ends alone where panics unwind (debug and test builds); the release
    profile aborts the process, so its executions have no such step. *)
Definition crash (t : Thread) : option Thread :=
  match th_phase t with
  | Starting _ _ | Iterating _ => Some (goto t Panicked)
  | _ => None
  end.

(** ** The pool and the main thread *)

(** The main thread serves, joins the workers from the first on, or has the result. *)
Inductive Main :=
| Serving
| Joining (handoff : bool) (joined : nat)
| Stopped (handoff : bool) (received : list (Z * fd * fd)).

Record Sys := mkSys {
  sy_shutdown : bool;
  sy_workers : list Thread;
  sy_channel : list (Z * fd * fd);
  sy_main : Main;
}.

Fixpoint start (fate : Z -> Fate) (threads : list ThreadConfig) (by_queue : gmap Z (fd * fd)) : list Thread :=
  match threads with
  | [] => []
  | tc :: threads =>
      let q := queue_id tc in
      mkTh q false (Starting (fate q) (by_queue !! q)) :: start fate threads (delete q by_queue)
  end.

Definition start_pool (fate : Z -> Fate) (threads : list ThreadConfig) (by_queue : gmap Z (fd * fd)) : Sys :=
  mkSys false (start fate threads by_queue) [] Serving.

(** Nobody moves; worker [i] moves, sees the flag, or panics; the main thread calls
    [shutdown] or [shutdown_for_handoff], or moves on in it. *)
Inductive Label :=
| Idle
| Sched (i : nat)
| See (i : nat)
| Crash (i : nat)
| Stop (handoff : bool)
| MainStep.

Definition set_worker (s : Sys) (i : nat) (t : Thread) (out : list (Z * fd * fd)) : Sys :=
  mkSys (sy_shutdown s) (<[i := t]> (sy_workers s)) (sy_channel s ++ out) (sy_main s).

Definition sys_step (l : Label) (s : Sys) : option Sys :=
  match l with
  | Idle => Some s
  | Sched i => t ← sy_workers s !! i; r ← thread_step t; Some (set_worker s i r.1 r.2)
  | See i =>
      t ← sy_workers s !! i;
      if sy_shutdown s then Some (set_worker s i (mkTh (th_queue t) true (th_phase t)) []) else None
  | Crash i => t ← sy_workers s !! i; t' ← crash t; Some (set_worker s i t' [])
  | Stop handoff =>
      match sy_main s with
      | Serving => Some (mkSys true (sy_workers s) (sy_channel s) (Joining handoff 0))
      | _ => None
      end
  | MainStep =>
      match sy_main s with
      | Joining handoff n =>
          match sy_workers s !! n with
          | Some t =>
              if th_finished t then Some (mkSys (sy_shutdown s) (sy_workers s) (sy_channel s) (Joining handoff (S n))) else None
          | None => Some (mkSys (sy_shutdown s) (sy_workers s) [] (Stopped handoff (if handoff then sy_channel s else [])))
          end
      | _ => None
      end
  end.

(** The queues whose thread is finished, as the main loop asks once per round. *)
Definition dead_threads (s : Sys) : list Z := map th_queue (List.filter th_finished (sy_workers s)).

Fixpoint run_labels (ls : list Label) (s : Sys) : option Sys :=
  match ls with
  | [] => Some s
  | l :: ls => s' ← sys_step l s; run_labels ls s'
  end.

(** ** Executions *)

Definition execution (l : nat -> Label) (e : nat -> Sys) : Prop :=
  forall n, sys_step (l n) (e n) = Some (e (S n)).

(** The scheduler runs every thread that can run, and a relaxed store becomes visible
    in finite time. *)
Record fair (l : nat -> Label) (e : nat -> Sys) : Prop := {
  fair_worker : forall i n, exists m, (n <= m)%nat /\
    (l m = Sched i \/ forall t, sy_workers (e m) !! i = Some t -> th_finished t = true);
  fair_main : forall n, exists m, (n <= m)%nat /\ (l m = MainStep \/ sys_step MainStep (e m) = None);
  fair_flag : forall i n, sy_shutdown (e n) = true ->
    exists m, (n <= m)%nat /\ forall t, sy_workers (e m) !! i = Some t -> th_seen t = true \/ th_finished t = true;
}.

(** ** Steps *)

(** What a step can do to one thread: run it, show it the flag, or make it panic. *)
Inductive moves (flag : bool) (t : Thread) : Thread -> list (Z * fd * fd) -> Prop :=
| mv_run t' out : thread_step t = Some (t', out) -> moves flag t t' out
| mv_see : flag = true -> moves flag t (mkTh (th_queue t) true (th_phase t)) []
| mv_crash t' : crash t = Some t' -> moves flag t t' [].

Lemma step_cases l s s' :
  sys_step l s = Some s' ->
  s' = s \/
  (exists i t t' out, sy_workers s !! i = Some t /\ moves (sy_shutdown s) t t' out /\ s' = set_worker s i t' out) \/
  (exists handoff, l = Stop handoff /\ sy_main s = Serving /\
     s' = mkSys true (sy_workers s) (sy_channel s) (Joining handoff 0)) \/
  (exists handoff n t, l = MainStep /\ sy_main s = Joining handoff n /\ sy_workers s !! n = Some t /\
     th_finished t = true /\ s' = mkSys (sy_shutdown s) (sy_workers s) (sy_channel s) (Joining handoff (S n))) \/
  (exists handoff n, l = MainStep /\ sy_main s = Joining handoff n /\ sy_workers s !! n = None /\
     s' = mkSys (sy_shutdown s) (sy_workers s) [] (Stopped handoff (if handoff then sy_channel s else []))).
Proof.
  destruct l as [|i|i|i|h|]; cbn [sys_step].
  - intros [= <-]. by left.
  - intros (t & Ht & ([t' out] & Hr & [= <-])%bind_Some)%bind_Some. right; left.
    exists i, t, t', out. split; [done|]. split; [by constructor|done].
  - intros (t & Ht & Hs)%bind_Some. destruct (sy_shutdown s) eqn:Ef; [|done]. injection Hs as <-. right; left.
    eexists i, t, _, []. split; [done|]. split; [by constructor|done].
  - intros (t & Ht & (t' & Hc & [= <-])%bind_Some)%bind_Some. right; left.
    exists i, t, t', []. split; [done|]. split; [by apply mv_crash|done].
  - destruct (sy_main s) eqn:Em; [|done..]. intros [= <-]. right; right; left. eauto.
  - destruct (sy_main s) as [|h n|] eqn:Em; [done| |done].
    destruct (sy_workers s !! n) as [t|] eqn:Et; [destruct (th_finished t) eqn:Ef; [|done]|]; intros [= <-].
    + do 3 right; left. exists h, n, t. done.
    + do 4 right. exists h, n. done.
Qed.

(** ** What the pool keeps *)

(** How far a thread is, against the worker it was spawned as. *)
Definition tracks (w : Worker) (t : Thread) : Prop :=
  w_queue w = th_queue t /\
  match th_phase t with
  | Starting f p => w_socket w = worker_thread f p
  | AtTest s | Iterating s => w_socket w = Some s
  | OutOfLoop s => w_socket w = Some s /\ th_seen t = true
  | Returned => w_socket w = None \/ th_seen t = true
  | Panicked => True
  end.

(** What a thread has sent. *)
Definition sent (w : Worker) (t : Thread) : list (Z * fd * fd) :=
  match th_phase t with Returned => offered w | _ => [] end.

Definition sent_by (ws : list Worker) (ts : list Thread) : list (Z * fd * fd) := concat (zip_with sent ws ts).

Lemma moves_tracks flag w t t' out :
  moves flag t t' out -> tracks w t -> tracks w t' /\ sent w t ++ out ≡ₚ sent w t' /\
  (th_finished t = true -> th_finished t' = true).
Proof.
  unfold tracks, sent, th_finished. intros [? ? Hr|Hf|? Hc] [Hq Hp].
  - unfold thread_step in Hr. destruct (th_phase t) as [f p|s|s|s| |] eqn:E; try done; injection Hr as <- <-; cbn.
    + destruct (worker_thread f p) as [s|]; cbn; [done|]. unfold offered. rewrite Hp. cbn. by split; [split; [|left]|].
    + by destruct (th_seen t) eqn:Es.
    + done.
    + destruct Hp as [Hp Hs]. unfold offered, send_detached. rewrite Hp, Hq. by split; [split; [|right]|].
  - cbn. rewrite app_nil_r. destruct (th_phase t); split; try done; (split; [done|]); try (by right); naive_solver.
  - unfold crash in Hc. destruct (th_phase t) eqn:E; try done; by injection Hc as <-.
Qed.

Lemma moves_seen flag t t' out : moves flag t t' out -> th_seen t' = true -> th_seen t = true \/ flag = true.
Proof.
  intros [? ? Hr|Hf|? Hc]; [left|by right|left].
  - unfold thread_step in Hr. by destruct (th_phase t); try done; injection Hr as <- _.
  - unfold crash in Hc. by destruct (th_phase t); try done; injection Hc as <-.
Qed.

Lemma sent_by_insert ws ts i t t' out :
  ts !! i = Some t -> Forall2 tracks ws ts -> (forall w, tracks w t -> sent w t ++ out ≡ₚ sent w t') ->
  sent_by ws (<[i := t']> ts) ≡ₚ sent_by ws ts ++ out.
Proof.
  intros Hi Hf Hw. revert i Hi. unfold sent_by.
  induction Hf as [|w t0 ws ts Ht _ IH]; intros [|i] Hi; try done; cbn in *.
  - injection Hi as ->. rewrite <- (Hw w Ht), <- !app_assoc. apply Permutation_app_head, Permutation_app_comm.
  - rewrite IH by done. by rewrite app_assoc.
Qed.

Record pool_inv (ws : list Worker) (s : Sys) : Prop := {
  pi_tracks : Forall2 tracks ws (sy_workers s);
  pi_flag : sy_shutdown s = false <-> sy_main s = Serving;
  pi_seen : sy_shutdown s = false -> Forall (fun t => th_seen t = false) (sy_workers s);
  pi_main :
    match sy_main s with
    | Serving => sy_channel s ≡ₚ sent_by ws (sy_workers s)
    | Joining _ n => sy_channel s ≡ₚ sent_by ws (sy_workers s) /\ (n <= length (sy_workers s))%nat /\
        forall i t, (i < n)%nat -> sy_workers s !! i = Some t -> th_finished t = true
    | Stopped handoff r =>
        sy_channel s = [] /\ Forall (fun t => th_finished t = true) (sy_workers s) /\
        r ≡ₚ (if handoff then sent_by ws (sy_workers s) else [])
    end;
}.

(** A finished thread does nothing but see the flag. *)
Lemma moves_finished flag t t' out :
  moves flag t t' out -> th_finished t = true -> out = [] /\ th_phase t' = th_phase t.
Proof.
  unfold th_finished. intros [? ? Hr|Hf|? Hc]; [|done|].
  - unfold thread_step in Hr. by destruct (th_phase t).
  - unfold crash in Hc. by destruct (th_phase t).
Qed.

Lemma step_worker_inv ws s i t t' out :
  pool_inv ws s -> sy_workers s !! i = Some t -> moves (sy_shutdown s) t t' out ->
  pool_inv ws (set_worker s i t' out).
Proof.
  intros [Ht Hfl Hs Hm] Hi Hmv.
  assert (Hsent : sent_by ws (<[i := t']> (sy_workers s)) ≡ₚ sent_by ws (sy_workers s) ++ out).
  { eapply sent_by_insert; [done..|]. intros w Hw. by eapply moves_tracks. }
  assert (Hfin : th_finished t = true -> th_finished t' = true).
  { intros Hf. destruct (moves_finished _ _ _ _ Hmv Hf) as [_ Hp]. unfold th_finished in *. by rewrite Hp. }
  constructor; cbn [set_worker sy_workers sy_shutdown sy_main sy_channel].
  - destruct (Forall2_lookup_r _ _ _ _ _ Ht Hi) as (w & Hw & Htr).
    rewrite <- (list_insert_id ws i w) by done. apply Forall2_insert; [done|]. by eapply moves_tracks.
  - done.
  - intros Hfalse. specialize (Hs Hfalse). apply Forall_insert; [done|]. destruct (th_seen t') eqn:E; [|done].
    destruct (moves_seen _ _ _ _ Hmv E) as [E'|]; [|congruence].
    by rewrite (proj1 (Forall_lookup _ _) Hs i t Hi) in E'.
  - destruct (sy_main s) as [|h n|h r].
    + by rewrite Hsent, Hm.
    + destruct Hm as (Hc & Hn & Hj). rewrite Hsent, Hc, length_insert. split; [done|]. split; [done|].
      intros j u Hj' Hu. apply list_lookup_insert_Some in Hu as [(<- & <- & _)|[_ Hu]]; [by eapply Hfin, Hj|by eapply Hj].
    + destruct Hm as (Hc & Hall & Hr). pose proof (proj1 (Forall_lookup _ _) Hall i t Hi) as Hf.
      destruct (moves_finished _ _ _ _ Hmv Hf) as [-> _]. rewrite app_nil_r in *.
      split; [done|]. split; [by apply Forall_insert; [|apply Hfin]|]. destruct h; by rewrite ?Hsent.
Qed.

Lemma step_inv ws l s s' : sys_step l s = Some s' -> pool_inv ws s -> pool_inv ws s'.
Proof.
  intros [->|[(i & t & t' & out & Hi & Hmv & ->)|[(h & _ & Hm & ->)|[(h & n & t & _ & Hm & Hn & Hf & ->)|
    (h & n & _ & Hm & Hn & ->)]]]]%step_cases Hinv; [done|by eapply step_worker_inv|..];
    destruct Hinv as [Ht Hfl Hs Hmain]; rewrite Hm in *; constructor; cbn; try done.
  - split; [done|]. split; [lia|]. intros i t Hi. lia.
  - by rewrite Hfl.
  - destruct Hmain as (Hc & Hlen & Hj). split; [done|]. apply lookup_lt_Some in Hn as Hlt. split; [lia|].
    intros i u Hi Hu. destruct (decide (i = n)) as [->|]; [congruence|]. apply (Hj i); [lia|done].
  - by rewrite Hfl.
  - destruct Hmain as (Hc & Hlen & Hj). apply lookup_ge_None in Hn. split; [done|]. split.
    + apply Forall_lookup. intros i t Hi. apply (Hj i); [|done]. apply lookup_lt_Some in Hi. lia.
    + by destruct h.
Qed.

Lemma start_spawn fate threads by_queue :
  Forall2 tracks (spawn fate threads by_queue).1 (start fate threads by_queue) /\
  Forall (fun t => th_seen t = false) (start fate threads by_queue) /\
  sent_by (spawn fate threads by_queue).1 (start fate threads by_queue) = [].
Proof.
  revert by_queue. induction threads as [|tc threads IH]; intros m; cbn [spawn start]; [done|].
  destruct (IH (delete (queue_id tc) m)) as (H1 & H2 & H3). destruct (spawn fate threads _) as [ws rest].
  cbn in *. split; [by constructor|]. split; [by constructor|]. done.
Qed.

Lemma start_inv fate threads by_queue :
  pool_inv (spawn fate threads by_queue).1 (start_pool fate threads by_queue).
Proof.
  destruct (start_spawn fate threads by_queue) as (H1 & H2 & H3).
  constructor; cbn; [done..|]. by rewrite H3.
Qed.

(** ** Ranks *)

(** The steps a thread has left once it has seen the flag. *)
Definition thread_rank (t : Thread) : nat :=
  match th_phase t with
  | Returned | Panicked => 0
  | p => if th_seen t
         then match p with Starting _ _ => 4 | Iterating _ => 3 | AtTest _ => 2 | _ => 1 end
         else 5
  end.

Definition main_rank (s : Sys) : nat :=
  match sy_main s with
  | Serving => length (sy_workers s) + 2
  | Joining _ n => length (sy_workers s) - n + 1
  | Stopped _ _ => 0
  end.

Definition rank (s : Sys) : nat := sum_list_with thread_rank (sy_workers s) + main_rank s.

Definition lowered (s s' : Sys) : Prop :=
  Forall2 (fun t t' => (thread_rank t' <= thread_rank t)%nat) (sy_workers s) (sy_workers s') /\
  (main_rank s' <= main_rank s)%nat.

#[local] Instance lowered_preorder : PreOrder lowered.
Proof.
  split.
  - intros s. split; [|done]. by apply Forall_Forall2_diag, Forall_true.
  - intros s1 s2 s3 [H1 M1] [H2 M2]. split; [|lia]. revert H2. clear M1 M2.
    generalize (sy_workers s3). induction H1 as [|t1 t2 l1 l2 ? _ IH]; intros l3 H2; inversion H2; subst; constructor; [lia|auto].
Qed.

Lemma sum_ranks ts ts' :
  Forall2 (fun t t' => (thread_rank t' <= thread_rank t)%nat) ts ts' ->
  (sum_list_with thread_rank ts' <= sum_list_with thread_rank ts)%nat.
Proof. induction 1; cbn; lia. Qed.

Lemma lowered_rank s s' : lowered s s' -> (rank s' <= rank s)%nat.
Proof. intros [Ht Hm]. apply sum_ranks in Ht. unfold rank. lia. Qed.

Lemma lowered_thread s s' i t t' :
  lowered s s' -> sy_workers s !! i = Some t -> sy_workers s' !! i = Some t' ->
  (thread_rank t' < thread_rank t)%nat -> (rank s' < rank s)%nat.
Proof.
  intros [Ht Hm] Hi Hi' Hlt. enough (sum_list_with thread_rank (sy_workers s') <
    sum_list_with thread_rank (sy_workers s))%nat by (unfold rank; lia). clear Hm.
  revert i Hi Hi'. induction Ht as [|u u' us us' Hu Hus IH]; intros [|i] Hi Hi'; try done; cbn in *.
  - injection Hi as ->. injection Hi' as ->. apply sum_ranks in Hus. lia.
  - specialize (IH i Hi Hi'). lia.
Qed.

Lemma moves_rank flag t t' out : moves flag t t' out -> (thread_rank t' <= thread_rank t)%nat.
Proof.
  unfold thread_rank. intros [? ? Hr|_|? Hc]; cbn.
  - unfold thread_step in Hr. destruct (th_phase t) as [f p|s|s|s| |]; try done; injection Hr as <- _; cbn;
      try (destruct (worker_thread f p)); destruct (th_seen t); cbn; lia.
  - destruct (th_phase t); destruct (th_seen t); cbn; lia.
  - unfold crash in Hc. destruct (th_phase t); try done; injection Hc as <-; cbn; lia.
Qed.

(** A thread that has seen the flag gets nearer its end whenever it runs. *)
Lemma run_rank t t' out :
  thread_step t = Some (t', out) -> th_seen t = true -> (thread_rank t' < thread_rank t)%nat.
Proof.
  unfold thread_rank, thread_step. intros Hr Hs. destruct (th_phase t) as [f p|s|s|s| |]; try done;
    injection Hr as <- _; cbn; rewrite ?Hs; try (destruct (worker_thread f p)); cbn; rewrite ?Hs; lia.
Qed.

Lemma set_worker_lowered s i t t' out :
  sy_workers s !! i = Some t -> (thread_rank t' <= thread_rank t)%nat -> lowered s (set_worker s i t' out).
Proof.
  intros Hi Hr. split; [|by unfold main_rank; cbn; rewrite length_insert]. cbn.
  rewrite <- (list_insert_id (sy_workers s) i t) at 1 by done. apply Forall2_insert; [|done].
  by apply Forall_Forall2_diag, Forall_true.
Qed.

Lemma step_lowered l s s' : sys_step l s = Some s' -> lowered s s'.
Proof.
  intros [->|[(i & t & t' & out & Hi & Hmv & ->)|[(h & _ & Hm & ->)|[(h & n & t & _ & Hm & Hn & Hf & ->)|
    (h & n & _ & Hm & Hn & ->)]]]]%step_cases; [done|eapply set_worker_lowered, moves_rank; done|..];
    (split; [by apply Forall_Forall2_diag, Forall_true|]); unfold main_rank; rewrite Hm; cbn; lia.
Qed.

(** The main thread gets on whenever it runs. *)
Lemma main_lowers s s' : sys_step MainStep s = Some s' -> (rank s' < rank s)%nat.
Proof.
  cbn [sys_step]. unfold rank, main_rank. destruct (sy_main s) as [|h n|] eqn:Em; [done| |done].
  destruct (sy_workers s !! n) as [t|] eqn:Et; [destruct (th_finished t); [|done]|]; intros [= <-]; cbn;
    [apply lookup_lt_Some in Et|]; lia.
Qed.

Lemma rank_0 s : rank s = 0%nat -> exists handoff r, sy_main s = Stopped handoff r.
Proof. unfold rank, main_rank. destruct (sy_main s) as [| |h r]; [lia|lia|eauto]. Qed.

Lemma finished_rank t : th_finished t = true <-> thread_rank t = 0%nat.
Proof. unfold th_finished, thread_rank. destruct (th_phase t), (th_seen t); done. Qed.

(** ** Executions *)

(** What can always be lowered is 0 in the end. *)
Lemma descends (r : nat -> nat) n0 :
  (forall n, (n0 <= n)%nat -> r n <> 0%nat -> exists m, (n <= m)%nat /\ (r m < r n)%nat) ->
  exists N, (n0 <= N)%nat /\ r N = 0%nat.
Proof.
  intros Hr. cut (forall k n, (n0 <= n)%nat -> (r n <= k)%nat -> exists N, (n0 <= N)%nat /\ r N = 0%nat).
  { intros Hk. by apply (Hk (r n0) n0). }
  induction k as [|k IH]; intros n Hn Hk; [exists n; lia|].
  destruct (decide (r n = 0%nat)) as [|Hnz]; [by exists n|].
  destruct (Hr n Hn Hnz) as (m & Hm & Hlt). apply (IH m); lia.
Qed.

Section executions.
  Context (l : nat -> Label) (e : nat -> Sys) (Hexec : execution l e).

Lemma exec_mono (R : Sys -> Sys -> Prop) `{!PreOrder R} n m :
  (forall lab s s', sys_step lab s = Some s' -> R s s') -> (n <= m)%nat -> R (e n) (e m).
Proof.
  intros HR. induction 1 as [|m _ IH]; [done|]. etransitivity; [exact IH|]. exact (HR _ _ _ (Hexec m)).
Qed.

Lemma exec_lowered n m : (n <= m)%nat -> lowered (e n) (e m).
Proof. apply (exec_mono lowered). intros lab s s'. apply step_lowered. Qed.

Lemma exec_inv ws n : pool_inv ws (e 0) -> pool_inv ws (e n).
Proof. intros H0. induction n as [|n IH]; [done|]. by eapply step_inv. Qed.

(** The threads are the same, and the flag stays set. *)
Lemma exec_worker n m i t :
  (n <= m)%nat -> sy_workers (e n) !! i = Some t ->
  exists t', sy_workers (e m) !! i = Some t' /\ (thread_rank t' <= thread_rank t)%nat.
Proof. intros [Hf _]%exec_lowered Hi. by apply (Forall2_lookup_l _ _ _ _ _ Hf Hi). Qed.

Definition kind (s : Sys) : option bool :=
  match sy_main s with Serving => None | Joining h _ | Stopped h _ => Some h end.

Lemma exec_kind n m h :
  (n <= m)%nat -> kind (e n) = Some h -> sy_shutdown (e n) = true ->
  kind (e m) = Some h /\ sy_shutdown (e m) = true.
Proof.
  intros Hle Hk Hs. induction Hle as [|m _ [IHk IHs]]; [done|]. pose proof (Hexec m) as Hst.
  apply step_cases in Hst as [->|[(i & t & t' & out & _ & _ & ->)|[(h' & _ & Hm & ->)|[(h' & k & t & _ & Hm & _ & _ & ->)|
    (h' & k & _ & Hm & _ & ->)]]]]; [done|done|..]; unfold kind in *; rewrite Hm in IHk; cbn; naive_solver.
Qed.

Context (Hfair : fair l e).

(** A thread that is not finished after the flag is set gets nearer its end. *)
Lemma worker_progress n i t :
  sy_shutdown (e n) = true -> sy_workers (e n) !! i = Some t -> th_finished t = false ->
  exists m, (n <= m)%nat /\ (rank (e m) < rank (e n))%nat.
Proof.
  intros Hflag Hi Hnf. assert (Hpos : thread_rank t <> 0%nat) by (intros E%finished_rank; congruence).
  assert (Hlow : forall m t', (n <= m)%nat -> sy_workers (e m) !! i = Some t' -> (thread_rank t' < thread_rank t)%nat ->
    exists m, (n <= m)%nat /\ (rank (e m) < rank (e n))%nat).
  { intros m t' Hm Hi' Hlt. exists m. split; [done|]. by eapply lowered_thread; [apply exec_lowered| | |]. }
  destruct (th_seen t) eqn:Hseen.
  - destruct (fair_worker _ _ Hfair i n) as (m & Hm & Hsched).
    destruct (exec_worker n m i t Hm Hi) as (t' & Hi' & Hle).
    destruct (th_finished t') eqn:Ef; [apply finished_rank in Ef; apply (Hlow m t'); [done|done|lia]|].
    destruct Hsched as [Hl|Hfin]; [|rewrite (Hfin t' Hi') in Ef; done].
    pose proof (Hexec m) as Hst. rewrite Hl in Hst. cbn [sys_step] in Hst. rewrite Hi' in Hst. cbn in Hst.
    apply bind_Some in Hst as ([t2 out] & Hrun & [= He]).
    assert (Hi2 : sy_workers (e (S m)) !! i = Some t2).
    { rewrite <- He. cbn. apply list_lookup_insert_eq. by eapply lookup_lt_Some. }
    destruct (th_seen t') eqn:Es; [apply run_rank in Hrun; [|done]; apply (Hlow (S m) t2); [lia|done|lia]|].
    exfalso. unfold thread_rank in Hle, Hpos. unfold th_finished in Hnf, Ef. rewrite Hseen, Es in Hle.
    destruct (th_phase t); try done; destruct (th_phase t'); try done; lia.
  - destruct (fair_flag _ _ Hfair i n Hflag) as (m & Hm & Hsee).
    destruct (exec_worker n m i t Hm Hi) as (t' & Hi' & _). apply (Hlow m t' Hm Hi').
    unfold thread_rank, th_finished in *. destruct (Hsee t' Hi') as [Es|Ef].
    + rewrite Hseen, Es. destruct (th_phase t); try done; destruct (th_phase t'); lia.
    + rewrite Hseen. destruct (th_phase t); try done; destruct (th_phase t'); try done; lia.
Qed.

Lemma shutdown_progress ws n :
  pool_inv ws (e n) -> sy_shutdown (e n) = true -> rank (e n) <> 0%nat ->
  exists m, (n <= m)%nat /\ (rank (e m) < rank (e n))%nat.
Proof.
  intros Hinv Hflag Hnz.
  destruct (decide (Forall (fun t => th_finished t = true) (sy_workers (e n)))) as [Hall|Hsome].
  2: { apply not_Forall_Exists, Exists_exists in Hsome as (t & Hin & Hnf); [|apply _].
       apply list_elem_of_lookup in Hin as [i Hi]. apply not_true_is_false in Hnf. by eapply worker_progress. }
  destruct (fair_main _ _ Hfair n) as (m & Hm & Hmain).
  destruct (decide (rank (e m) < rank (e n))%nat) as [|Hnlt]; [by exists m|].
  assert (Hfin : forall i t, sy_workers (e m) !! i = Some t -> th_finished t = true).
  { intros i t Hi. destruct (exec_lowered n m Hm) as [Hf _].
    destruct (Forall2_lookup_r _ _ _ _ _ Hf Hi) as (t0 & Hi0 & Hle). cbn in Hle.
    pose proof (proj1 (Forall_lookup _ _) Hall i t0 Hi0) as E. apply finished_rank in E. apply finished_rank. lia. }
  assert (exists s', sys_step MainStep (e m) = Some s') as [s' Hs'].
  { destruct (kind (e n)) as [h|] eqn:Ek.
    2: { unfold kind in Ek. destruct (sy_main (e n)) eqn:Em; try done. by rewrite (proj2 (pi_flag _ _ Hinv) Em) in Hflag. }
    destruct (exec_kind n m h Hm Ek Hflag) as [Hk _]. unfold kind in Hk. cbn [sys_step].
    destruct (sy_main (e m)) as [|h' k|h' r] eqn:Em; [done| |].
    - destruct (sy_workers (e m) !! k) as [t|] eqn:Et; [rewrite (Hfin k t Et)|]; eauto.
    - exfalso. apply Hnlt. assert (rank (e m) = 0%nat); [|lia]. unfold rank, main_rank. rewrite Em, Nat.add_0_r.
      clear -Hfin. induction (sy_workers (e m)) as [|t ts IH]; [done|]. cbn.
      rewrite (proj1 (finished_rank t) (Hfin 0%nat t eq_refl)). apply IH. intros i. apply (Hfin (S i)). }
  destruct Hmain as [Hl|Hno]; [|congruence]. exists (S m). split; [lia|].
  pose proof (Hexec m) as Hst. rewrite Hl in Hst. apply main_lowers in Hst.
  pose proof (lowered_rank _ _ (exec_lowered n m Hm)). lia.
Qed.

End executions.

Lemma shutdown_ends (fate : Z -> Fate) (threads : list ThreadConfig) (by_queue : gmap Z (fd * fd))
    (l : nat -> Label) (e : nat -> Sys) (n0 : nat) (handoff : bool) :
  e 0%nat = start_pool fate threads by_queue -> execution l e -> fair l e -> l n0 = Stop handoff ->
  let ws := (spawn fate threads by_queue).1 in
  exists N r, (n0 < N)%nat /\ sy_main (e N) = Stopped handoff r /\
    Forall (fun t => th_finished t = true) (sy_workers (e N)) /\
    (handoff = false -> r = []) /\
    (handoff = true -> r ≡ₚ sent_by ws (sy_workers (e N))) /\
    (handoff = true -> Forall (fun t => th_phase t <> Panicked) (sy_workers (e N)) -> shutdown_for_handoff ws r).
Proof.
  intros H0 Hexec Hfair Hstop ws. pose proof (start_inv fate threads by_queue) as Hinv. rewrite <- H0 in Hinv.
  assert (Hn : forall n, pool_inv ws (e n)) by (intros n; by apply (exec_inv l)).
  pose proof (Hexec n0) as Hst. rewrite Hstop in Hst. cbn [sys_step] in Hst.
  destruct (sy_main (e n0)) eqn:Em; [|done..]. injection Hst as Hst.
  assert (Hk : kind (e (S n0)) = Some handoff /\ sy_shutdown (e (S n0)) = true) by by rewrite <- Hst.
  destruct Hk as [Hk Hflag].
  destruct (descends (fun n => rank (e n)) (S n0)) as (N & HN & Hr).
  { intros n Hle Hnz. apply (shutdown_progress l e Hexec Hfair ws n (Hn n)); [|done].
    by apply (exec_kind l e Hexec (S n0) n handoff). }
  destruct (rank_0 _ Hr) as (h & r & Hmain).
  destruct (exec_kind l e Hexec (S n0) N handoff HN Hk Hflag) as [HkN _]. unfold kind in HkN. rewrite Hmain in HkN.
  injection HkN as ->. pose proof (pi_main _ _ (Hn N)) as Hm. rewrite Hmain in Hm. destruct Hm as (_ & Hall & Hp).
  exists N, r. split; [lia|]. split; [done|]. split; [done|].
  split; [intros ->; by apply Permutation_nil_r in Hp|]. split; [by intros ->|]. intros -> Hnp.
  unfold shutdown_for_handoff. rewrite Hp. unfold sent_by.
  pose proof (pi_tracks _ _ (Hn N)) as Htr. revert Hnp Hall. clear -Htr.
  induction Htr as [|w t us ts Hwt _ IH]; [done|]. rewrite !Forall_cons. intros [Hp Hnp] [Hf Hall]. cbn [map zip_with concat].
  rewrite <- (IH Hnp Hall). unfold sent, th_finished in *. by destruct (th_phase t).
Qed.

(** ** Properties *)

(** C16.  A shutdown ends: in every fair execution of a spawned pool, whatever system calls
    of the workers fail, whichever of them panic and whenever they see the relaxed
    store, the call of [shutdown] or [shutdown_for_handoff] returns.  All threads are
    finished by then.  A shutdown discards what the workers sent; a handoff returns,
    in some order, the descriptors of every worker that did not panic, and without
    panics exactly what [Pool.shutdown_for_handoff] says. *)
Theorem shutdown_completes (fate : Z -> Fate) (threads : list ThreadConfig) (by_queue : gmap Z (fd * fd))
    (l : nat -> Label) (e : nat -> Sys) (n0 : nat) (handoff : bool) :
  e 0%nat = start_pool fate threads by_queue -> execution l e -> fair l e -> l n0 = Stop handoff ->
  let ws := (spawn fate threads by_queue).1 in
  exists N r, (n0 < N)%nat /\ sy_main (e N) = Stopped handoff r /\
    Forall (fun t => th_finished t = true) (sy_workers (e N)) /\
    (handoff = false -> r = []) /\
    (handoff = true -> r ≡ₚ sent_by ws (sy_workers (e N))) /\
    (handoff = true -> Forall (fun t => th_phase t <> Panicked) (sy_workers (e N)) -> shutdown_for_handoff ws r).
Proof. exact (shutdown_ends fate threads by_queue l e n0 handoff). Qed.


(** The watch over the workers raises no false alarm: as long as no shutdown was
    asked for, a thread the main loop finds dead failed to set up its socket or
    panicked, and no other thread has sent its descriptors away. *)
Theorem dead_before_shutdown (fate : Z -> Fate) (threads : list ThreadConfig) (by_queue : gmap Z (fd * fd))
    (ls : list Label) (s : Sys) :
  run_labels ls (start_pool fate threads by_queue) = Some s -> sy_main s = Serving ->
  sy_channel s = [] /\
  Forall2 (fun w t => w_queue w = th_queue t /\
      (th_finished t = true -> w_socket w = None \/ th_phase t = Panicked))
    (spawn fate threads by_queue).1 (sy_workers s).
Proof.
  intros Hrun Hm. set (ws := (spawn fate threads by_queue).1).
  assert (Hinv : pool_inv ws s).
  { pose proof (start_inv fate threads by_queue) as Hs. revert Hrun Hs. generalize (start_pool fate threads by_queue).
    clear Hm. induction ls as [|l ls IH]; intros s0; cbn [run_labels]; [by intros [= ->]|].
    intros (s1 & Hs1 & Hr)%bind_Some H0. eapply IH; [done|]. by eapply step_inv. }
  destruct Hinv as [Htr Hfl Hseen Hmain]. rewrite Hm in Hmain. specialize (Hseen (proj2 Hfl Hm)).
  assert (Hone : forall w t, tracks w t -> th_seen t = false ->
    (th_finished t = true -> w_socket w = None \/ th_phase t = Panicked) /\ sent w t = []).
  { intros w t [_ Hp] Hs. unfold th_finished, sent, offered. destruct (th_phase t); try done; [|by split; [right|]].
    destruct Hp as [-> |]; [|congruence]. by split; [left|]. }
  split.
  - apply Permutation_nil_r. rewrite Hmain. apply Permutation_refl'. revert Hseen. clear -Htr Hone. unfold sent_by.
    induction Htr as [|w t us ts Hwt _ IH]; [done|]. intros [Hs Hss]%Forall_cons. cbn.
    rewrite (proj2 (Hone w t Hwt Hs)). by apply IH.
  - revert Hseen. clear -Htr Hone. induction Htr as [|w t us ts Hwt _ IH]; [constructor|].
    intros [Hs Hss]%Forall_cons. constructor; [|by apply IH]. split; [apply Hwt|]. by apply Hone.
Qed.

(** ** Instances of the properties *)

(** Two workers, one on inherited descriptors; both run before the handoff. *)
Definition ex_labels : list Label :=
  [Sched 0; Sched 1; Sched 1; Stop true; Sched 1; See 1; Sched 1; Sched 1; See 0; Sched 0; Sched 0; MainStep; MainStep; MainStep].

Definition ex_label (n : nat) : Label := default Idle (ex_labels !! n).

Definition ex_sys (n : nat) : Sys :=
  default (start_pool ex_fate ex_threads {[1 := (12, 13)]})
    (run_labels (take n ex_labels) (start_pool ex_fate ex_threads {[1 := (12, 13)]})).

Lemma ex_execution : execution ex_label ex_sys.
Proof.
  intros n. do 14 (destruct n as [|n]; [vm_compute; reflexivity|]).
  unfold ex_label, ex_sys. rewrite !take_ge by (cbn; lia). by rewrite lookup_ge_None_2 by (cbn; lia).
Qed.

Lemma ex_end n : (14 <= n)%nat -> ex_sys n = ex_sys 14.
Proof. intros Hn. unfold ex_sys. by rewrite !take_ge by (cbn; lia). Qed.

Lemma ex_fair : fair ex_label ex_sys.
Proof.
  assert (Hw : forall i t, sy_workers (ex_sys 14) !! i = Some t -> th_finished t = true).
  { intros [|[|i]] t; vm_compute; [by intros [= <-]..|done]. }
  split.
  - intros i n. exists (n + 14)%nat. split; [lia|]. right. rewrite ex_end by lia. apply Hw.
  - intros n. exists (n + 14)%nat. split; [lia|]. right. rewrite ex_end by lia. reflexivity.
  - intros i n _. exists (n + 14)%nat. split; [lia|]. rewrite ex_end by lia. intros t Ht. right. by apply (Hw i).
Qed.

Lemma shutdown_completes_witness :
  exists N r, sy_main (ex_sys N) = Stopped true r /\ r ≡ₚ sent_by ex_workers (sy_workers (ex_sys N)).
Proof.
  destruct (shutdown_completes ex_fate ex_threads {[1 := (12, 13)]} ex_label ex_sys 3 true)
    as (N & r & _ & Hm & _ & _ & Hr & _).
  - reflexivity.
  - exact ex_execution.
  - exact ex_fair.
  - reflexivity.
  - exists N, r. split; [exact Hm|exact (Hr eq_refl)].
Defined.

Lemma ex_no_panic n : Forall (fun t => th_phase t <> Panicked) (sy_workers (ex_sys n)).
Proof.
  do 14 (destruct n as [|n]; [vm_compute; repeat constructor; discriminate|]).
  rewrite ex_end by lia. vm_compute. repeat constructor; discriminate.
Qed.


Lemma dead_before_shutdown_witness :
  exists s, run_labels [Sched 1; Crash 0] (start_pool ex_fate ex_threads ∅) = Some s /\ sy_channel s = [].
Proof.
  eexists. split; [vm_compute; reflexivity|].
  eapply (dead_before_shutdown ex_fate ex_threads ∅ [Sched 1; Crash 0]); vm_compute; reflexivity.
Defined.

(** Both descriptors arrive when nothing fails. *)
Lemma ex_handoff : sy_main (ex_sys 14) = Stopped true [(1, 12, 13)].
Proof. vm_compute. reflexivity. Qed.
