(* ===== verification/Loader.v ===== *)
(** * The XDP loader

    Models [pesigitg-daemon/src/ebpf.rs]: adopting a pinned install or booting from
    scratch, bringing the PORTS map in line with the configuration, and what the
    handle removes when it is dropped.  The kernel and the aya crate are an
    interface, [Bpf]; what the theorems use of them is [BpfLaws] and, for the room in
    the map, [PortsRoom]. *)

From stdpp Require Import gmap.
From S2P Require Import Prelude Std Common Text Handoff.

Definition PIN_ROOT : str := lit "/sys/fs/bpf/pesigitg".
Definition LINK_PIN_NAME : str := lit "link".
Definition XSKS_MAP_NAME : str := lit "XSKS".
Definition PORTS_MAP_NAME : str := lit "PORTS".

(** [Path::join]: an absolute path replaces. *)
Definition path_join (root name : str) : str :=
  if starts_with (lit "/") name then name else root ++ lit "/" ++ name.

Definition pin_root_for (interface : str) : str := path_join PIN_ROOT interface.

(** ** The kernel *)

(** Every call has the kernel's state before and after; [None] is success where
    nothing is returned, and [true] in an error of [remove_file] is [NotFound]. *)
Class Bpf (K : Type) := {
  Link : Type;
  MapRef : Type;
  Obj : Type;
  Prog : Type;
  SysErr : Type;
  path_exists : K -> str -> bool;
  create_dir_all : str -> K -> K * option SysErr;
  remove_file : str -> K -> K * option bool;
  remove_dir : str -> K -> K;
  link_from_pin : str -> K -> K * option Link;
  map_from_pin : str -> K -> K * option MapRef;
  (* the object file, its maps pinned by name under the root *)
  load_file : str -> str -> K -> K * option Obj;
  load_bytes : list byte -> str -> K -> K * option Obj;
  program_mut : Obj -> str -> option Prog;
  is_xdp : Prog -> bool;
  prog_load : Prog -> K -> K * option SysErr;
  (* attach in driver mode, take the link, as an FdLink, pin it: four calls *)
  prog_attach : Prog -> str -> K -> K * option Z;
  take_link : Prog -> Z -> K -> K * option Z;
  fd_link : Z -> K -> K * option Z;
  pin_link : Z -> str -> K -> K * option Link;
  take_map : Obj -> str -> option MapRef;
  (* what the values release when they go out of scope *)
  drop_obj : Obj -> K -> K;
  drop_link : Link -> K -> K;
  drop_map : MapRef -> K -> K;
  (* the PORTS and XSKS maps *)
  is_hash : MapRef -> bool;
  is_xsk : MapRef -> bool;
  map_keys : MapRef -> K -> list (option Z);
  map_remove : MapRef -> Z -> K -> K * option SysErr;
  map_insert : MapRef -> Z -> Z -> K -> K * option SysErr;
  xsk_set : MapRef -> Z -> fd -> K -> K * option SysErr;
}.

Inductive load_error :=
| CreateDir (root : str)
| LoadObject
| NoEmbedded
| NoProgram
| NotXdp
| ProgLoad
| ProgAttach
| TakeLink
| NotFdLink
| PinLink
| NoMap (name : str)
| OpenLink
| OpenMap (name : str)
| WrapPorts
| RemovePort (port : Z)
| InsertPort (port : Z)
| WrapXsks
| RegisterXsk (queue : Z).

Record EbpfHandle K `{Bpf K} := mkHandle {
  h_xsks : MapRef;
  h_ports : MapRef;
  h_link : Link;
  h_pin_root : str;
  h_handoff : bool;
}.
Arguments mkHandle {K _} _ _ _ _ _.
Arguments h_xsks {K _} _.
Arguments h_ports {K _} _.
Arguments h_link {K _} _.
Arguments h_pin_root {K _} _.
Arguments h_handoff {K _} _.

Section loader.
  Context {K : Type} `{Bpf K}.

(** Results of fallible steps, with the cleanup that leaving early runs. *)
Definition io (A : Type) : Type := K -> K * result A load_error.

Definition ret {A} (a : A) : io A := fun k => (k, Ok a).
Definition throw {A} (e : load_error) : io A := fun k => (k, Err e).
Definition bind {A B} (m : io A) (f : A -> io B) : io B :=
  fun k => match m k with (k, Ok a) => f a k | (k, Err e) => (k, Err e) end.
Definition on_err {A} (m : io A) (cleanup : K -> K) : io A :=
  fun k => match m k with (k, Ok a) => (k, Ok a) | (k, Err e) => (cleanup k, Err e) end.

Definition want {A} (e : load_error) (call : K -> K * option A) : io A :=
  fun k => match call k with (k, Some a) => (k, Ok a) | (k, None) => (k, Err e) end.
Definition must {E} (e : load_error) (call : K -> K * option E) : io unit :=
  fun k => match call k with (k, None) => (k, Ok tt) | (k, Some _) => (k, Err e) end.
Definition given {A} (e : load_error) (o : option A) : io A := match o with Some a => ret a | None => throw e end.

(** ** Ports *)

(** The order in which a hash set is traversed. *)
  Context (order : gset Z -> list Z).

Fixpoint each (step : Z -> io unit) (ports : list Z) : io unit :=
  match ports with
  | [] => ret tt
  | p :: ports => bind (step p) (fun _ => each step ports)
  end.

Definition reconcile_ports (m : MapRef) (configured : list Z) : io unit :=
  if negb (is_hash m) then throw WrapPorts
  else
    let configured_set : gset Z := list_to_set configured in
    fun k =>
      let live : gset Z := list_to_set (omap id (map_keys m k)) in
      bind (each (fun port => must (RemovePort port) (map_remove m port)) (order (live ∖ configured_set)))
        (fun _ => each (fun port => must (InsertPort port) (map_insert m port 1)) (order (configured_set ∖ live))) k.

(** ** The handle *)

Definition register_xsk (h : EbpfHandle K) (queue_id : Z) (socket_fd : fd) : io unit :=
  if negb (is_xsk (h_xsks h)) then throw WrapXsks
  else must (RegisterXsk queue_id) (xsk_set (h_xsks h) queue_id socket_fd).

Definition set_handoff (h : EbpfHandle K) : EbpfHandle K :=
  mkHandle (h_xsks h) (h_ports h) (h_link h) (h_pin_root h) true.

Definition PIN_NAMES : list str := [LINK_PIN_NAME; XSKS_MAP_NAME; PORTS_MAP_NAME].

Fixpoint unpin (pin_root : str) (names : list str) (k : K) : K :=
  match names with
  | [] => k
  | name :: names => unpin pin_root names (remove_file (path_join pin_root name) k).1
  end.

(** [Drop::drop]. *)
Definition handle_drop (h : EbpfHandle K) (k : K) : K :=
  if h_handoff h then k else remove_dir (h_pin_root h) (unpin (h_pin_root h) PIN_NAMES k).

(** A handle going out of scope: [Drop::drop], then its fields. *)
Definition drop_handle (h : EbpfHandle K) (k : K) : K :=
  drop_link (h_link h) (drop_map (h_ports h) (drop_map (h_xsks h) (handle_drop h k))).

(** ** Loading *)

Definition cold_boot_ebpf (embedded : list byte) (path : option str) (interface : str) (ports : list Z)
    (pin_root : str) : io (EbpfHandle K) :=
  bind (must (CreateDir pin_root) (create_dir_all pin_root)) (fun _ =>
  bind (match path with
        | Some p => want LoadObject (load_file p pin_root)
        | None => if bool_decide (embedded = []) then throw NoEmbedded else want LoadObject (load_bytes embedded pin_root)
        end) (fun ebpf =>
  bind (on_err
    (bind (given NoProgram (program_mut ebpf (lit "pesigitg"))) (fun program =>
     if negb (is_xdp program) then throw NotXdp else
     bind (must ProgLoad (prog_load program)) (fun _ =>
     bind (want ProgAttach (prog_attach program interface)) (fun link_id =>
     bind (want TakeLink (take_link program link_id)) (fun owned_link =>
     bind (want NotFdLink (fd_link owned_link)) (fun fd_link =>
     bind (want PinLink (pin_link fd_link (path_join pin_root LINK_PIN_NAME))) (fun pinned =>
     on_err
       (bind (given (NoMap XSKS_MAP_NAME) (take_map ebpf XSKS_MAP_NAME)) (fun xsks =>
        on_err
          (bind (given (NoMap PORTS_MAP_NAME) (take_map ebpf PORTS_MAP_NAME)) (fun ports_map =>
           ret (mkHandle xsks ports_map pinned pin_root false)))
          (drop_map xsks)))
       (drop_link pinned))))))))
    (drop_obj ebpf)) (fun handle =>
  on_err
    (bind (reconcile_ports (h_ports handle) ports) (fun _ k => (drop_obj ebpf k, Ok handle)))
    (fun k => drop_obj ebpf (drop_handle handle k))))).

Definition adopt_ebpf (pin_root : str) (ports : list Z) : io (EbpfHandle K) :=
  bind (want OpenLink (link_from_pin (path_join pin_root LINK_PIN_NAME))) (fun pinned =>
  bind (on_err
    (bind (want (OpenMap XSKS_MAP_NAME) (map_from_pin (path_join pin_root XSKS_MAP_NAME))) (fun xsks_data =>
     on_err
       (bind (want (OpenMap PORTS_MAP_NAME) (map_from_pin (path_join pin_root PORTS_MAP_NAME))) (fun ports_data =>
        ret (mkHandle xsks_data ports_data pinned pin_root false)))
       (drop_map xsks_data)))
    (drop_link pinned)) (fun handle =>
  on_err (bind (reconcile_ports (h_ports handle) ports) (fun _ => ret handle)) (drop_handle handle))).

Definition clear_stale_pins (pin_root : str) (k : K) : K := unpin pin_root PIN_NAMES k.

Definition load_ebpf (embedded : list byte) (path : option str) (interface : str) (ports : list Z)
    : io (EbpfHandle K) :=
  let pin_root := pin_root_for interface in
  fun k =>
    if path_exists k (path_join pin_root LINK_PIN_NAME) then
      match adopt_ebpf pin_root ports k with
      | (k, Ok handle) => (k, Ok handle)
      | (k, Err _) => cold_boot_ebpf embedded path interface ports pin_root (clear_stale_pins pin_root k)
      end
    else cold_boot_ebpf embedded path interface ports pin_root k.

End loader.

(** ** What the kernel promises *)

(** [pins] are the files below the pin root and [entries] the contents of a map.
    Removing a file removes that one; nothing else the loader calls removes one,
    and pinning a link creates its file.  Calls on a map that succeed do what they
    say to it, releasing other values does not touch it. *)
Class BpfLaws (K : Type) `{Bpf K} := {
  pins : K -> gset str;
  entries : K -> MapRef -> gmap Z Z;
  exists_pin : forall k p, path_exists k p = bool_decide (p ∈ pins k);
  remove_pin : forall p k, match remove_file p k with
    | (k', None) => pins k' = pins k ∖ {[p]}
    | (k', Some nf) => pins k' = pins k /\ (nf = true <-> p ∉ pins k)
    end;
  remove_dir_pins : forall p k, pins (remove_dir p k) = pins k;
  create_dir_pins : forall p k, pins k ⊆ pins (create_dir_all p k).1;
  load_file_pins : forall f p k, pins k ⊆ pins (load_file f p k).1;
  load_bytes_pins : forall b p k, pins k ⊆ pins (load_bytes b p k).1;
  prog_load_pins : forall g k, pins k ⊆ pins (prog_load g k).1;
  prog_attach_pins : forall g i k, pins k ⊆ pins (prog_attach g i k).1;
  take_link_pins : forall g l k, pins k ⊆ pins (take_link g l k).1;
  fd_link_pins : forall l k, pins k ⊆ pins (fd_link l k).1;
  pin_link_pins : forall l p k, pins k ⊆ pins (pin_link l p k).1;
  pin_link_pin : forall l p k, (pin_link l p k).2 <> None -> p ∈ pins (pin_link l p k).1;
  open_link_pins : forall p k, pins (link_from_pin p k).1 = pins k;
  open_map_pins : forall p k, pins (map_from_pin p k).1 = pins k;
  drop_obj_pins : forall o k, pins (drop_obj o k) = pins k;
  drop_link_pins : forall l k, pins (drop_link l k) = pins k;
  drop_map_pins : forall m k, pins (drop_map m k) = pins k;
  drop_obj_entries : forall o k, entries (drop_obj o k) = entries k;
  keys_entries : forall m k, list_to_set (omap id (map_keys m k)) = dom (entries k m);
  map_remove_ok : forall m p k, (map_remove m p k).2 = None ->
    entries (map_remove m p k).1 m = delete p (entries k m);
  map_insert_ok : forall m p v k, (map_insert m p v k).2 = None ->
    entries (map_insert m p v k).1 m = <[p := v]> (entries k m);
  map_remove_pins : forall m p k, pins (map_remove m p k).1 = pins k;
  map_insert_pins : forall m p v k, pins (map_insert m p v k).1 = pins k;
}.

(** A hash map of [MAX_PORTS] entries: removing a key that is there succeeds, and
    inserting a new key succeeds exactly if there is room. *)
Class PortsRoom (K : Type) `{BpfLaws K} := {
  room_remove : forall m p k, p ∈ dom (entries k m) -> (map_remove m p k).2 = None;
  room_insert : forall m p v k, p ∉ dom (entries k m) ->
    ((map_insert m p v k).2 = None <-> Z.of_nat (size (entries k m)) < MAX_PORTS);
}.

(** ** Lemmas *)

Section lemmas.
  Context {K : Type} `{BpfLaws K}.

Lemma bind_ok {A B} (m : io A) (f : A -> io B) (k k' : K) b :
  bind m f k = (k', Ok b) <-> exists k1 a, m k = (k1, Ok a) /\ f a k1 = (k', Ok b).
Proof.
  unfold bind. destruct (m k) as [k1 [a|e]]; split; [eauto| |done|]; intros (? & ? & Heq & Hf); [|done].
  by injection Heq as <- <-.
Qed.

Lemma on_err_ok {A} (m : io A) c (k k' : K) (a : A) : on_err m c k = (k', Ok a) <-> m k = (k', Ok a).
Proof. unfold on_err. by destruct (m k) as [k1 [a1|e]]. Qed.

Lemma want_ok {A} e (call : K -> K * option A) k k' a : want e call k = (k', Ok a) <-> call k = (k', Some a).
Proof. unfold want. destruct (call k) as [k1 [a1|]]; split; congruence. Qed.

Lemma must_ok {E} e (call : K -> K * option E) k k' u : must e call k = (k', Ok u) <-> call k = (k', None).
Proof. destruct u. unfold must. destruct (call k) as [k1 [a1|]]; split; congruence. Qed.

Lemma given_ok {A} e (o : option A) (k k' : K) a : given e o k = (k', Ok a) <-> k' = k /\ o = Some a.
Proof. unfold given. destruct o as [b|]; cbn; unfold ret, throw; [|by split; [|intros [_ ?]]]. split; [by intros [= -> ->]|by intros [-> [= ->]]]. Qed.

Lemma removes_ok m ps k k' :
  each (fun p => must (RemovePort p) (map_remove m p)) ps k = (k', Ok tt) ->
  pins k' = pins k /\ forall p, entries k' m !! p = if decide (p ∈ ps) then None else entries k m !! p.
Proof.
  revert k. induction ps as [|q ps IH]; intros k; cbn [each]; [intros [= <-]; set_solver|].
  rewrite bind_ok. intros (k1 & [] & Hq%must_ok & Hk). destruct (IH _ Hk) as [Hp He].
  pose proof (map_remove_ok m q k) as Hr. pose proof (map_remove_pins m q k) as Hpr. rewrite Hq in Hr, Hpr. cbn in Hr, Hpr.
  split; [congruence|]. intros p. rewrite He, Hr by done. destruct (decide (p = q)) as [->|Hne].
  - rewrite lookup_delete_eq, (decide_True (P := q ∈ q :: ps)) by (by left). by destruct (decide _).
  - rewrite lookup_delete_ne by done. do 2 destruct (decide _); set_solver.
Qed.

Lemma inserts_ok m ps k k' :
  each (fun p => must (InsertPort p) (map_insert m p 1)) ps k = (k', Ok tt) ->
  pins k' = pins k /\ forall p, entries k' m !! p = if decide (p ∈ ps) then Some 1 else entries k m !! p.
Proof.
  revert k. induction ps as [|q ps IH]; intros k; cbn [each]; [intros [= <-]; set_solver|].
  rewrite bind_ok. intros (k1 & [] & Hq%must_ok & Hk). destruct (IH _ Hk) as [Hp He].
  pose proof (map_insert_ok m q 1 k) as Hr. pose proof (map_insert_pins m q 1 k) as Hpr. rewrite Hq in Hr, Hpr. cbn in Hr, Hpr.
  split; [congruence|]. intros p. rewrite He, Hr by done. destruct (decide (p = q)) as [->|Hne].
  - rewrite lookup_insert_eq, (decide_True (P := q ∈ q :: ps)) by (by left). by destruct (decide _).
  - rewrite lookup_insert_ne by done. do 2 destruct (decide _); set_solver.
Qed.

Lemma unpin_pins root names k :
  (forall p k, (remove_file p k).2 <> Some false) ->
  forall p, p ∈ pins (unpin root names k) -> p ∈ pins k /\ p ∉ map (path_join root) names.
Proof.
  intros Hrm. revert k. induction names as [|n names IH]; intros k p; cbn [unpin map]; [set_solver|].
  intros [Hp Hn]%IH. pose proof (remove_pin (path_join root n) k) as Hr. specialize (Hrm (path_join root n) k).
  destruct (remove_file _ k) as [k1 [[]|]]; cbn in *; [|done|set_solver].
  destruct Hr as [Hr Hnf]. rewrite Hr in Hp. split; [done|]. apply not_elem_of_cons. split; [|done].
  intros ->. by apply Hnf.
Qed.

Lemma drop_handoff_pins h k : pins (drop_handle (set_handoff h) k) = pins k.
Proof. unfold drop_handle. by rewrite drop_link_pins, !drop_map_pins. Qed.

Lemma drop_cold_pins h k :
  (forall p k, (remove_file p k).2 <> Some false) -> h_handoff h = false ->
  forall name, name ∈ PIN_NAMES -> path_join (h_pin_root h) name ∉ pins (drop_handle h k).
Proof.
  intros Hrm Hh name Hn. unfold drop_handle. rewrite drop_link_pins, !drop_map_pins.
  unfold handle_drop. rewrite Hh, remove_dir_pins. intros [_ Hp]%unpin_pins; [|done]. apply Hp.
  by apply list_elem_of_fmap_2.
Qed.

  Context (order : gset Z -> list Z) (order_ok : forall X, order X ≡ₚ elements X).

Lemma order_elem X p : p ∈ order X <-> p ∈ X.
Proof. by rewrite order_ok, elem_of_elements. Qed.

Lemma order_nodup X : NoDup (order X).
Proof. rewrite order_ok. apply NoDup_elements. Qed.

(** A port that was there keeps its entry, a new one gets 1, and others go. *)
Lemma reconcile_ok m configured k k' :
  reconcile_ports order m configured k = (k', Ok tt) ->
  pins k' = pins k /\
  forall p, entries k' m !! p = if decide (p ∈ configured) then Some (default 1 (entries k m !! p)) else None.
Proof.
  unfold reconcile_ports. destruct (is_hash m); [|done]. cbn [negb]. rewrite keys_entries, bind_ok.
  intros (k1 & [] & [Hp1 H1]%removes_ok & [Hp2 H2]%inserts_ok). split; [congruence|]. intros p. rewrite H2, H1.
  destruct (entries k m !! p) as [v|] eqn:Ev.
  - assert (p ∈ dom (entries k m)) by (apply elem_of_dom; eauto). cbn.
    repeat destruct (decide _); rewrite ?order_elem in *; set_solver.
  - assert (p ∉ dom (entries k m)) by (by apply not_elem_of_dom). cbn.
    repeat destruct (decide _); rewrite ?order_elem in *; set_solver.
Qed.

(** What both ways of loading return. *)
Definition loaded (root : str) (ports : list Z) (h : EbpfHandle K) (k : K) : Prop :=
  h_pin_root h = root /\ h_handoff h = false /\ path_join root LINK_PIN_NAME ∈ pins k /\
  forall p, is_Some (entries k (h_ports h) !! p) <-> p ∈ ports.

Lemma reconcile_loaded m configured k k' :
  reconcile_ports order m configured k = (k', Ok tt) ->
  pins k' = pins k /\ forall p, is_Some (entries k' m !! p) <-> p ∈ configured.
Proof.
  intros [Hp He]%reconcile_ok. split; [done|]. intros p. rewrite He. destruct (decide _); [naive_solver|].
  split; [by intros [? ?]|done].
Qed.

Lemma adopt_loaded root ports k k' h :
  path_join root LINK_PIN_NAME ∈ pins k -> adopt_ebpf order root ports k = (k', Ok h) -> loaded root ports h k'.
Proof.
  intros Hl. unfold adopt_ebpf. rewrite bind_ok. intros (k1 & l & H1%want_ok & Hk1).
  apply bind_ok in Hk1 as (k2 & h' & Hh%on_err_ok & Hrec%on_err_ok).
  apply bind_ok in Hh as (k3 & xs & Hx%want_ok & Hh%on_err_ok). apply bind_ok in Hh as (k4 & po & Hpo%want_ok & [= <- <-]).
  apply bind_ok in Hrec as (k5 & [] & [Hp He]%reconcile_loaded & [= <- <-]).
  split; [done|]. split; [done|]. split; [|exact He]. rewrite Hp.
  pose proof (open_link_pins (path_join root LINK_PIN_NAME) k) as P1. rewrite H1 in P1. cbn in P1.
  pose proof (open_map_pins (path_join root XSKS_MAP_NAME) k1) as P2. rewrite Hx in P2. cbn in P2.
  pose proof (open_map_pins (path_join root PORTS_MAP_NAME) k3) as P3. rewrite Hpo in P3. cbn in P3. congruence.
Qed.

Lemma cold_boot_loaded embedded path interface ports root k k' h :
  cold_boot_ebpf order embedded path interface ports root k = (k', Ok h) -> loaded root ports h k'.
Proof.
  unfold cold_boot_ebpf. rewrite bind_ok. intros (k1 & _ & _ & Hk). apply bind_ok in Hk as (k2 & ebpf & _ & Hk).
  apply bind_ok in Hk as (k3 & h' & Hh%on_err_ok & Hrec%on_err_ok).
  apply bind_ok in Hh as (k4 & g & [-> _]%given_ok & Hh). destruct (is_xdp g); [|done]. cbn [negb] in Hh.
  apply bind_ok in Hh as (k5 & [] & _ & Hh). apply bind_ok in Hh as (k6 & i & _ & Hh).
  apply bind_ok in Hh as (k7 & ol & _ & Hh). apply bind_ok in Hh as (k8 & fl & _ & Hh).
  apply bind_ok in Hh as (k9 & pinned & Hpin%want_ok & Hh%on_err_ok).
  apply bind_ok in Hh as (k10 & xs & [-> _]%given_ok & Hh%on_err_ok).
  apply bind_ok in Hh as (k11 & po & [-> _]%given_ok & [= <- <-]).
  apply bind_ok in Hrec as (k12 & [] & [Hp He]%reconcile_loaded & [= <- <-]).
  split; [done|]. split; [done|]. rewrite drop_obj_pins, drop_obj_entries. split; [|exact He]. rewrite Hp.
  pose proof (pin_link_pin fl (path_join root LINK_PIN_NAME) k8) as Hin. rewrite Hpin in Hin. by apply Hin.
Qed.

End lemmas.

Section room.
  Context {K : Type} `{PortsRoom K}.

Lemma removes_run m ps k :
  NoDup ps -> (forall p, p ∈ ps -> p ∈ dom (entries k m)) ->
  exists k', each (fun p => must (RemovePort p) (map_remove m p)) ps k = (k', Ok tt).
Proof.
  intros Hn. revert k. induction Hn as [|q ps Hq _ IH]; intros k Hd; cbn [each]; [by exists k|].
  pose proof (room_remove m q k (Hd q ltac:(by left))) as Hr. pose proof (map_remove_ok m q k Hr) as He.
  unfold bind, must. destruct (map_remove m q k) as [k1 o]. cbn in Hr, He. subst o. apply IH.
  intros p Hp. rewrite He, dom_delete_L. apply elem_of_difference. split; [apply Hd; by right|set_solver].
Qed.

Lemma inserts_run m ps k :
  NoDup ps -> (forall p, p ∈ ps -> p ∉ dom (entries k m)) -> Z.of_nat (size (entries k m)) <= MAX_PORTS ->
  ((each (fun p => must (InsertPort p) (map_insert m p 1)) ps k).2 = Ok tt
   <-> Z.of_nat (size (entries k m) + length ps) <= MAX_PORTS).
Proof.
  intros Hn. revert k. induction Hn as [|q ps Hq _ IH]; intros k Hd Hs; cbn [each length].
  { split; [intros _; by rewrite Nat.add_0_r|done]. }
  pose proof (room_insert m q 1 k (Hd q ltac:(by left))) as Hr. pose proof (map_insert_ok m q 1 k) as He.
  unfold bind, must. destruct (map_insert m q 1 k) as [k1 o]. cbn [fst snd] in Hr, He.
  destruct o as [e|]; cbn [snd]; [split; [done|]; intros Hl; assert (Some e = None) by (apply Hr; lia); done|].
  rewrite IH, (He eq_refl), map_size_insert_None; [lia|apply not_elem_of_dom, Hd; by left| |].
  - intros p Hp. rewrite (He eq_refl), dom_insert_L. apply not_elem_of_union. split; [set_solver|apply Hd; by right].
  - rewrite (He eq_refl), map_size_insert_None by (apply not_elem_of_dom, Hd; by left).
    assert (Z.of_nat (size (entries k m)) < MAX_PORTS) by (by apply Hr). lia.
Qed.

End room.

(** ** Properties *)


(** Stale ports are removed before new ones are inserted, so reconciling never
    runs out of room on the way: with a map of MAX_PORTS entries it succeeds exactly if
    the configured ports fit, however many other ports the map holds and in whatever
    order the sets are traversed. *)
Theorem reconcile_room {K} `{PortsRoom K} (order : gset Z -> list Z) (m : MapRef) (configured : list Z) (k : K) :
  (forall X, order X ≡ₚ elements X) -> is_hash m = true -> Z.of_nat (size (entries k m)) <= MAX_PORTS ->
  ((reconcile_ports order m configured k).2 = Ok tt
   <-> Z.of_nat (size (list_to_set configured : gset Z)) <= MAX_PORTS).
Proof.
  intros Hord Hm Hs. unfold reconcile_ports. rewrite Hm. cbv beta zeta iota delta [negb]. rewrite keys_entries.
  set (conf := list_to_set configured). set (live := dom (entries k m)).
  destruct (removes_run m (order (live ∖ conf)) k) as [k1 Hk1]; [by apply order_nodup| |].
  { intros p. rewrite (order_elem order Hord). set_solver. }
  unfold bind. rewrite Hk1. apply removes_ok in Hk1 as [_ He].
  assert (dom (entries k1 m) = live ∩ conf) as Hd1.
  { apply set_eq. intros p. rewrite elem_of_dom, He, elem_of_intersection. destruct (decide (p ∈ order _)) as [Hp|Hp];
      rewrite (order_elem order Hord), elem_of_difference in Hp.
    - split; [by intros [? ?]|tauto].
    - rewrite <- elem_of_dom. fold live. destruct (decide (p ∈ conf)); tauto. }
  assert (Hsz : size (entries k1 m) = size (live ∩ conf)) by (by rewrite <- Hd1, size_dom).
  assert (Hle : (size (live ∩ conf) <= size (entries k m))%nat) by (rewrite <- size_dom; apply subseteq_size; set_solver).
  assert (Hun : size conf = (size (live ∩ conf) + size (conf ∖ live))%nat).
  { rewrite <- size_union by set_solver. f_equal. apply set_eq. intros p. destruct (decide (p ∈ live)); set_solver. }
  rewrite inserts_run; [|by apply order_nodup| |].
  - rewrite Hsz, (Permutation_length (Hord _)). fold (size (conf ∖ live)). rewrite Hun. done.
  - intros p. rewrite (order_elem order Hord), Hd1. set_solver.
  - rewrite Hsz. lia.
Qed.

(** ** A kernel *)

(** One interface, with one PORTS map; the XSKS map is not looked at. *)
Record toy := mkToy { toy_pins : list str; toy_ports : gmap Z Z }.

Definition toy_open (p : str) (k : toy) : toy * option unit :=
  (k, if bool_decide (p ∈ toy_pins k) then Some tt else None).

#[local] Instance toy_bpf : Bpf toy := {
  Link := unit; MapRef := unit; Obj := unit; Prog := unit; SysErr := unit;
  path_exists k p := bool_decide (p ∈ toy_pins k);
  create_dir_all _ k := (k, None);
  remove_file p k :=
    if bool_decide (p ∈ toy_pins k) then (mkToy (List.filter (fun q => negb (bool_decide (q = p))) (toy_pins k)) (toy_ports k), None) else (k, Some true);
  remove_dir _ k := k;
  link_from_pin := toy_open;
  map_from_pin := toy_open;
  load_file _ root k := (k, Some tt);
  load_bytes _ root k :=
    (mkToy ([path_join root XSKS_MAP_NAME; path_join root PORTS_MAP_NAME] ++ toy_pins k)
       (if bool_decide (path_join root PORTS_MAP_NAME ∈ toy_pins k) then toy_ports k else ∅), Some tt);
  program_mut _ _ := Some tt;
  is_xdp _ := true;
  prog_load _ k := (k, None);
  prog_attach _ _ k := (k, Some 3);
  take_link _ l k := (k, Some l);
  fd_link l k := (k, Some l);
  pin_link _ p k := (mkToy (p :: toy_pins k) (toy_ports k), Some tt);
  take_map _ _ := Some tt;
  drop_obj _ k := k;
  drop_link _ k := k;
  drop_map _ k := k;
  is_hash _ := true;
  is_xsk _ := true;
  map_keys _ k := map Some (elements (dom (toy_ports k)));
  map_remove _ p k := (mkToy (toy_pins k) (delete p (toy_ports k)), None);
  map_insert _ p v k :=
    if bool_decide (p ∈ dom (toy_ports k)) || (Z.of_nat (size (toy_ports k)) <? MAX_PORTS)
    then (mkToy (toy_pins k) (<[p := v]> (toy_ports k)), None) else (k, Some tt);
  xsk_set _ _ _ k := (k, None);
}.

#[local] Instance toy_laws : BpfLaws toy.
Proof.
  refine {| pins := fun k => list_to_set (toy_pins k); entries := fun k _ => toy_ports k |}; cbn; try done; try set_solver.
  - intros k p. apply bool_decide_ext. by rewrite elem_of_list_to_set.
  - intros p k. case_bool_decide as Hp; [|by rewrite elem_of_list_to_set]. apply set_eq. intros q. cbn.
    rewrite elem_of_difference, !elem_of_list_to_set, elem_of_singleton, !list_elem_of_In, filter_In.
    by rewrite negb_true_iff, bool_decide_eq_false.
  - intros _ k. assert (omap id (map Some (elements (dom (toy_ports k)))) = elements (dom (toy_ports k))) as ->;
      [|by rewrite list_to_set_elements_L].
    induction (elements _) as [|x l IH]; [done|]. cbn. by rewrite IH.
  - intros _ p v k. by destruct (_ || _).
  - intros _ p v k. by destruct (_ || _).
Defined.

#[local] Instance toy_room : PortsRoom toy.
Proof.
  split; [done|]. intros m p v k Hp. cbn in *. rewrite bool_decide_eq_false_2 by done. cbn [orb].
  destruct (Z.ltb_spec (Z.of_nat (size (toy_ports k))) MAX_PORTS); cbn; split; try done; lia.
Defined.

Definition toy_order (X : gset Z) : list Z := elements X.

(** A handoff restart from ports 443 and 80 to 443 and 8443. *)
Definition toy_first : toy * result (EbpfHandle toy) load_error :=
  load_ebpf toy_order [0x7f]%u8 None (lit "eth0") [443; 80] (mkToy [] ∅).

Definition toy_second : toy * result (EbpfHandle toy) load_error :=
  load_ebpf toy_order [] None (lit "eth0") [443; 8443] toy_first.1.

Definition toy_handle : EbpfHandle toy := @mkHandle toy toy_bpf tt tt tt (pin_root_for (lit "eth0")) false.
Definition toy_map : MapRef := tt.


Lemma reconcile_room_witness :
  (reconcile_ports toy_order toy_map [443; 8443; 443] toy_first.1).2 = Ok tt.
Proof.
  apply (reconcile_room toy_order toy_map [443; 8443; 443] toy_first.1); [done|done|vm_compute; discriminate|].
  vm_compute. discriminate.
Defined.
