(* ===== verification/Aes.v ===== *)
(** * AES-128 as the standard defines it

    The routing code takes the block cipher from crate [aes], behind the class
    [Route.Aes128].  This file gives the cipher of FIPS 197 and proves the laws
    ([Route.AesLaws]) for it, so that every theorem that assumes them holds of the
    cipher that runs, and the published vectors can be evaluated. *)

From Stdlib Require Import Btauto.
From S2P Require Import Prelude Std Common Route.

(** ** Statements about all bytes, by evaluation *)

Definition all_bytes : list byte := map b8 (seqZ 0 256).

Lemma all_bytes_spec (b : byte) : b ∈ all_bytes.
Proof.
  apply list_elem_of_fmap. exists (u8 b). split; [by rewrite b8_u8|].
  apply elem_of_seqZ. pose proof (u8_range b). lia.
Qed.

Definition every (p : byte -> bool) : bool := forallb p all_bytes.

Lemma every_spec (p : byte -> bool) : every p = true -> forall b, p b = true.
Proof.
  unfold every. rewrite forallb_forall. intros H b. apply H, list_elem_of_In, all_bytes_spec.
Qed.

Definition byte_eqb (a b : byte) : bool := u8 a =? u8 b.

Lemma byte_eqb_eq (a b : byte) : byte_eqb a b = true -> a = b.
Proof. unfold byte_eqb. intros H%Z.eqb_eq. by apply u8_inj. Qed.

(** ** Sums of bytes *)

Lemma bxor_comm (a b : byte) : bxor a b = bxor b a.
Proof. unfold bxor. by rewrite Z.lxor_comm. Qed.

Lemma bxor_assoc (a b c : byte) : bxor a (bxor b c) = bxor (bxor a b) c.
Proof. apply u8_inj. rewrite !u8_bxor. symmetry. apply Z.lxor_assoc. Qed.

Lemma bxor_self (a : byte) : bxor a a = 0%u8.
Proof. apply u8_inj. rewrite u8_bxor. apply Z.lxor_nilpotent. Qed.

Lemma bxor_0_l (a : byte) : bxor 0%u8 a = a.
Proof. apply u8_inj. rewrite u8_bxor. apply Z.lxor_0_l. Qed.

Lemma bxor_0_r (a : byte) : bxor a 0%u8 = a.
Proof. rewrite bxor_comm. apply bxor_0_l. Qed.

Lemma bxor_left_comm (a b c : byte) : bxor a (bxor b c) = bxor b (bxor a c).
Proof. rewrite !bxor_assoc. f_equal. apply bxor_comm. Qed.

Definition sum4 (a b c d : byte) : byte := bxor a (bxor b (bxor c d)).

(** Four sums of four, by rows and by columns. *)
Lemma sum4_transpose a0 a1 a2 a3 b0 b1 b2 b3 c0 c1 c2 c3 d0 d1 d2 d3 :
  sum4 (sum4 a0 a1 a2 a3) (sum4 b0 b1 b2 b3) (sum4 c0 c1 c2 c3) (sum4 d0 d1 d2 d3) =
  sum4 (sum4 a0 b0 c0 d0) (sum4 a1 b1 c1 d1) (sum4 a2 b2 c2 d2) (sum4 a3 b3 c3 d3).
Proof.
  unfold sum4. apply u8_inj. rewrite !u8_bxor. apply Z.bits_inj. intros n.
  rewrite !Z.lxor_spec. btauto.
Qed.

(** ** The field

    [xtime] doubles in GF(2^8); the constants of the column mixing are sums of
    doublings. *)

Definition xtime (b : byte) : byte :=
  let d := 2 * u8 b in if u8 b <? 128 then b8 d else b8 (Z.lxor d 0x11b).

Definition m2 : byte -> byte := xtime.
Definition m3 (b : byte) : byte := bxor (xtime b) b.
Definition m9 (b : byte) : byte := bxor (xtime (xtime (xtime b))) b.
Definition m11 (b : byte) : byte := bxor (xtime (xtime (xtime b))) (bxor (xtime b) b).
Definition m13 (b : byte) : byte := bxor (xtime (xtime (xtime b))) (bxor (xtime (xtime b)) b).
Definition m14 (b : byte) : byte :=
  bxor (xtime (xtime (xtime b))) (bxor (xtime (xtime b)) (xtime b)).

(** A map of bytes that respects sums. *)
Class Additive (f : byte -> byte) : Prop := additive : forall a b, f (bxor a b) = bxor (f a) (f b).

#[export] Instance xtime_additive : Additive xtime.
Proof.
  assert (H : every (fun a => every (fun b =>
    byte_eqb (xtime (bxor a b)) (bxor (xtime a) (xtime b)))) = true) by (vm_compute; reflexivity).
  intros a b. apply byte_eqb_eq.
  apply (every_spec _ (every_spec _ H a) b).
Qed.

#[export] Instance id_additive : Additive (fun b => b).
Proof. by intros a b. Qed.

#[export] Instance comp_additive f g : Additive f -> Additive g -> Additive (fun b => f (g b)).
Proof. intros Hf Hg a b. by rewrite (Hg a b), (Hf _ _). Qed.

#[export] Instance sum_additive f g :
  Additive f -> Additive g -> Additive (fun b => bxor (f b) (g b)).
Proof.
  intros Hf Hg a b. rewrite (Hf a b), (Hg a b), <-!bxor_assoc. f_equal. apply bxor_left_comm.
Qed.

#[export] Instance m2_additive : Additive m2 := xtime_additive.
#[export] Instance m3_additive : Additive m3.
Proof. unfold m3. apply _. Qed.
#[export] Instance m9_additive : Additive m9.
Proof. unfold m9. apply _. Qed.
#[export] Instance m11_additive : Additive m11.
Proof. unfold m11. apply _. Qed.
#[export] Instance m13_additive : Additive m13.
Proof. unfold m13. apply _. Qed.
#[export] Instance m14_additive : Additive m14.
Proof. unfold m14. apply _. Qed.

Lemma additive_sum4 f `{!Additive f} a b c d : f (sum4 a b c d) = sum4 (f a) (f b) (f c) (f d).
Proof. unfold sum4. by rewrite !(additive (f := f)). Qed.

(** ** The tables of FIPS 197 *)

Definition SBOX : list byte :=
  [0x63; 0x7c; 0x77; 0x7b; 0xf2; 0x6b; 0x6f; 0xc5; 0x30; 0x01; 0x67; 0x2b; 0xfe; 0xd7; 0xab; 0x76;
   0xca; 0x82; 0xc9; 0x7d; 0xfa; 0x59; 0x47; 0xf0; 0xad; 0xd4; 0xa2; 0xaf; 0x9c; 0xa4; 0x72; 0xc0;
   0xb7; 0xfd; 0x93; 0x26; 0x36; 0x3f; 0xf7; 0xcc; 0x34; 0xa5; 0xe5; 0xf1; 0x71; 0xd8; 0x31; 0x15;
   0x04; 0xc7; 0x23; 0xc3; 0x18; 0x96; 0x05; 0x9a; 0x07; 0x12; 0x80; 0xe2; 0xeb; 0x27; 0xb2; 0x75;
   0x09; 0x83; 0x2c; 0x1a; 0x1b; 0x6e; 0x5a; 0xa0; 0x52; 0x3b; 0xd6; 0xb3; 0x29; 0xe3; 0x2f; 0x84;
   0x53; 0xd1; 0x00; 0xed; 0x20; 0xfc; 0xb1; 0x5b; 0x6a; 0xcb; 0xbe; 0x39; 0x4a; 0x4c; 0x58; 0xcf;
   0xd0; 0xef; 0xaa; 0xfb; 0x43; 0x4d; 0x33; 0x85; 0x45; 0xf9; 0x02; 0x7f; 0x50; 0x3c; 0x9f; 0xa8;
   0x51; 0xa3; 0x40; 0x8f; 0x92; 0x9d; 0x38; 0xf5; 0xbc; 0xb6; 0xda; 0x21; 0x10; 0xff; 0xf3; 0xd2;
   0xcd; 0x0c; 0x13; 0xec; 0x5f; 0x97; 0x44; 0x17; 0xc4; 0xa7; 0x7e; 0x3d; 0x64; 0x5d; 0x19; 0x73;
   0x60; 0x81; 0x4f; 0xdc; 0x22; 0x2a; 0x90; 0x88; 0x46; 0xee; 0xb8; 0x14; 0xde; 0x5e; 0x0b; 0xdb;
   0xe0; 0x32; 0x3a; 0x0a; 0x49; 0x06; 0x24; 0x5c; 0xc2; 0xd3; 0xac; 0x62; 0x91; 0x95; 0xe4; 0x79;
   0xe7; 0xc8; 0x37; 0x6d; 0x8d; 0xd5; 0x4e; 0xa9; 0x6c; 0x56; 0xf4; 0xea; 0x65; 0x7a; 0xae; 0x08;
   0xba; 0x78; 0x25; 0x2e; 0x1c; 0xa6; 0xb4; 0xc6; 0xe8; 0xdd; 0x74; 0x1f; 0x4b; 0xbd; 0x8b; 0x8a;
   0x70; 0x3e; 0xb5; 0x66; 0x48; 0x03; 0xf6; 0x0e; 0x61; 0x35; 0x57; 0xb9; 0x86; 0xc1; 0x1d; 0x9e;
   0xe1; 0xf8; 0x98; 0x11; 0x69; 0xd9; 0x8e; 0x94; 0x9b; 0x1e; 0x87; 0xe9; 0xce; 0x55; 0x28; 0xdf;
   0x8c; 0xa1; 0x89; 0x0d; 0xbf; 0xe6; 0x42; 0x68; 0x41; 0x99; 0x2d; 0x0f; 0xb0; 0x54; 0xbb; 0x16]%u8.

Definition INV_SBOX : list byte :=
  [0x52; 0x09; 0x6a; 0xd5; 0x30; 0x36; 0xa5; 0x38; 0xbf; 0x40; 0xa3; 0x9e; 0x81; 0xf3; 0xd7; 0xfb;
   0x7c; 0xe3; 0x39; 0x82; 0x9b; 0x2f; 0xff; 0x87; 0x34; 0x8e; 0x43; 0x44; 0xc4; 0xde; 0xe9; 0xcb;
   0x54; 0x7b; 0x94; 0x32; 0xa6; 0xc2; 0x23; 0x3d; 0xee; 0x4c; 0x95; 0x0b; 0x42; 0xfa; 0xc3; 0x4e;
   0x08; 0x2e; 0xa1; 0x66; 0x28; 0xd9; 0x24; 0xb2; 0x76; 0x5b; 0xa2; 0x49; 0x6d; 0x8b; 0xd1; 0x25;
   0x72; 0xf8; 0xf6; 0x64; 0x86; 0x68; 0x98; 0x16; 0xd4; 0xa4; 0x5c; 0xcc; 0x5d; 0x65; 0xb6; 0x92;
   0x6c; 0x70; 0x48; 0x50; 0xfd; 0xed; 0xb9; 0xda; 0x5e; 0x15; 0x46; 0x57; 0xa7; 0x8d; 0x9d; 0x84;
   0x90; 0xd8; 0xab; 0x00; 0x8c; 0xbc; 0xd3; 0x0a; 0xf7; 0xe4; 0x58; 0x05; 0xb8; 0xb3; 0x45; 0x06;
   0xd0; 0x2c; 0x1e; 0x8f; 0xca; 0x3f; 0x0f; 0x02; 0xc1; 0xaf; 0xbd; 0x03; 0x01; 0x13; 0x8a; 0x6b;
   0x3a; 0x91; 0x11; 0x41; 0x4f; 0x67; 0xdc; 0xea; 0x97; 0xf2; 0xcf; 0xce; 0xf0; 0xb4; 0xe6; 0x73;
   0x96; 0xac; 0x74; 0x22; 0xe7; 0xad; 0x35; 0x85; 0xe2; 0xf9; 0x37; 0xe8; 0x1c; 0x75; 0xdf; 0x6e;
   0x47; 0xf1; 0x1a; 0x71; 0x1d; 0x29; 0xc5; 0x89; 0x6f; 0xb7; 0x62; 0x0e; 0xaa; 0x18; 0xbe; 0x1b;
   0xfc; 0x56; 0x3e; 0x4b; 0xc6; 0xd2; 0x79; 0x20; 0x9a; 0xdb; 0xc0; 0xfe; 0x78; 0xcd; 0x5a; 0xf4;
   0x1f; 0xdd; 0xa8; 0x33; 0x88; 0x07; 0xc7; 0x31; 0xb1; 0x12; 0x10; 0x59; 0x27; 0x80; 0xec; 0x5f;
   0x60; 0x51; 0x7f; 0xa9; 0x19; 0xb5; 0x4a; 0x0d; 0x2d; 0xe5; 0x7a; 0x9f; 0x93; 0xc9; 0x9c; 0xef;
   0xa0; 0xe0; 0x3b; 0x4d; 0xae; 0x2a; 0xf5; 0xb0; 0xc8; 0xeb; 0xbb; 0x3c; 0x83; 0x53; 0x99; 0x61;
   0x17; 0x2b; 0x04; 0x7e; 0xba; 0x77; 0xd6; 0x26; 0xe1; 0x69; 0x14; 0x63; 0x55; 0x21; 0x0c; 0x7d]%u8.

Definition sbox (b : byte) : byte := elt SBOX (u8 b).
Definition inv_sbox (b : byte) : byte := elt INV_SBOX (u8 b).

Lemma inv_sbox_sbox (b : byte) : inv_sbox (sbox b) = b.
Proof.
  apply byte_eqb_eq, (every_spec (fun b => byte_eqb (inv_sbox (sbox b)) b)).
  vm_compute. reflexivity.
Qed.

(** ** The rounds

    A state is a list of sixteen bytes, column by column.  [Aes128] holds the
    expanded key, one list per round. *)

Definition sub_bytes (st : list byte) : list byte := map sbox st.
Definition inv_sub_bytes (st : list byte) : list byte := map inv_sbox st.

Definition shift_rows (st : list byte) : list byte :=
  map (elt st) [0; 5; 10; 15; 4; 9; 14; 3; 8; 13; 2; 7; 12; 1; 6; 11].
Definition inv_shift_rows (st : list byte) : list byte :=
  map (elt st) [0; 13; 10; 7; 4; 1; 14; 11; 8; 5; 2; 15; 12; 9; 6; 3].

Fixpoint mix_columns (st : list byte) : list byte :=
  match st with
  | a :: b :: c :: d :: rest =>
      sum4 (m2 a) (m3 b) c d :: sum4 a (m2 b) (m3 c) d ::
      sum4 a b (m2 c) (m3 d) :: sum4 (m3 a) b c (m2 d) :: mix_columns rest
  | _ => st
  end.

Fixpoint inv_mix_columns (st : list byte) : list byte :=
  match st with
  | a :: b :: c :: d :: rest =>
      sum4 (m14 a) (m11 b) (m13 c) (m9 d) :: sum4 (m9 a) (m14 b) (m11 c) (m13 d) ::
      sum4 (m13 a) (m9 b) (m14 c) (m11 d) :: sum4 (m11 a) (m13 b) (m9 c) (m14 d) ::
      inv_mix_columns rest
  | _ => st
  end.

(** A missing byte of the key counts as zero; the expansion below has all. *)
Definition add_round_key (st k : list byte) : list byte :=
  imap (fun i b => bxor b (nth i k 0%u8)) st.

Fixpoint enc_rounds (ks : list (list byte)) (st : list byte) : list byte :=
  match ks with
  | [] => st
  | [k] => add_round_key (shift_rows (sub_bytes st)) k
  | k :: ks => enc_rounds ks (add_round_key (mix_columns (shift_rows (sub_bytes st))) k)
  end.

Fixpoint dec_rounds (ks : list (list byte)) (st : list byte) : list byte :=
  match ks with
  | [] => st
  | [k] => inv_sub_bytes (inv_shift_rows (add_round_key st k))
  | k :: ks =>
      inv_sub_bytes (inv_shift_rows (inv_mix_columns (add_round_key (dec_rounds ks st) k)))
  end.

(** ** The key schedule *)

Definition rot_word (w : list byte) : list byte := drop 1 w ++ take 1 w.

Definition next_key (rcon : byte) (k : list byte) : list byte :=
  let t := zip_with bxor (map sbox (rot_word (sub k 12 16))) [rcon; 0; 0; 0]%u8 in
  let w0 := zip_with bxor (sub k 0 4) t in
  let w1 := zip_with bxor (sub k 4 8) w0 in
  let w2 := zip_with bxor (sub k 8 12) w1 in
  let w3 := zip_with bxor (sub k 12 16) w2 in
  w0 ++ w1 ++ w2 ++ w3.

Fixpoint expand (rcons : list byte) (k : list byte) : list (list byte) :=
  match rcons with
  | [] => []
  | r :: rcons => let k := next_key r k in k :: expand rcons k
  end.

Definition RCON : list byte := [0x01; 0x02; 0x04; 0x08; 0x10; 0x20; 0x40; 0x80; 0x1b; 0x36]%u8.

(** The first round key and the others. *)
Definition aes_key (key : list byte) : list byte * list (list byte) := (key, expand RCON key).

Definition aes_encrypt (c : list byte * list (list byte)) (b : list byte) : list byte :=
  enc_rounds c.2 (add_round_key b c.1).

Definition aes_decrypt (c : list byte * list (list byte)) (b : list byte) : list byte :=
  add_round_key (dec_rounds c.2 b) c.1.

Definition fips_aes : Aes128 :=
  {| cipher := list byte * list (list byte); aes_new := aes_key;
     encrypt_block := aes_encrypt; decrypt_block := aes_decrypt |}.

(** ** The laws *)

Lemma len16 (st : list byte) : len st = 16 ->
  exists a b c d e f g h i j k l m n o p, st = [a; b; c; d; e; f; g; h; i; j; k; l; m; n; o; p].
Proof.
  unfold len. intros H. assert (L : length st = 16%nat) by lia. clear H.
  do 16 (destruct st as [|? st]; [discriminate L|]). destruct st; [|discriminate L].
  by repeat eexists.
Qed.

Ltac open16 H := destruct (len16 _ H) as (?&?&?&?&?&?&?&?&?&?&?&?&?&?&?&?&->).

Lemma inv_shift_shift st : len st = 16 -> inv_shift_rows (shift_rows st) = st.
Proof. intros H. by open16 H. Qed.

Lemma inv_sub_sub st : inv_sub_bytes (sub_bytes st) = st.
Proof.
  unfold inv_sub_bytes, sub_bytes. rewrite map_map. erewrite map_ext; [apply map_id|].
  intros b. apply inv_sbox_sbox.
Qed.

Lemma add_round_key_twice st k : add_round_key (add_round_key st k) k = st.
Proof.
  apply list_eq. intros i. unfold add_round_key. rewrite !list_lookup_imap.
  destruct (st !! i) as [b|]; simpl; [|done]. by rewrite bxor_cancel.
Qed.

Lemma len_add_round_key st k : len (add_round_key st k) = len st.
Proof. unfold len, add_round_key. by rewrite length_imap. Qed.

Lemma len_shift_rows st : len (shift_rows st) = 16.
Proof. done. Qed.

Lemma len_sub_bytes st : len (sub_bytes st) = len st.
Proof. apply len_map. Qed.

Lemma len_mix_columns st : len st = 16 -> len (mix_columns st) = 16.
Proof. intros H. by open16 H. Qed.

Lemma len_inv_mix_columns st : len st = 16 -> len (inv_mix_columns st) = 16.
Proof. intros H. by open16 H. Qed.

(** The four coefficients of one byte in one row of the product of the two
    matrices. *)
Definition coeff (f1 f2 f3 f4 g1 g2 g3 g4 : byte -> byte) (b : byte) : byte :=
  sum4 (f1 (g1 b)) (f2 (g2 b)) (f3 (g3 b)) (f4 (g4 b)).

Definition id8 (b : byte) : byte := b.

Definition row_is (f1 f2 f3 f4 : byte -> byte) (n : nat) : bool :=
  every (fun b =>
    byte_eqb (coeff f1 f2 f3 f4 m2 id8 id8 m3 b) (if decide (n = 0%nat) then b else 0%u8) &&
    byte_eqb (coeff f1 f2 f3 f4 m3 m2 id8 id8 b) (if decide (n = 1%nat) then b else 0%u8) &&
    byte_eqb (coeff f1 f2 f3 f4 id8 m3 m2 id8 b) (if decide (n = 2%nat) then b else 0%u8) &&
    byte_eqb (coeff f1 f2 f3 f4 id8 id8 m3 m2 b) (if decide (n = 3%nat) then b else 0%u8)).

Lemma row_product f1 f2 f3 f4 n a b c d :
  Additive f1 -> Additive f2 -> Additive f3 -> Additive f4 -> row_is f1 f2 f3 f4 n = true ->
  sum4 (f1 (sum4 (m2 a) (m3 b) c d)) (f2 (sum4 a (m2 b) (m3 c) d))
       (f3 (sum4 a b (m2 c) (m3 d))) (f4 (sum4 (m3 a) b c (m2 d))) =
  sum4 (if decide (n = 0%nat) then a else 0%u8) (if decide (n = 1%nat) then b else 0%u8)
       (if decide (n = 2%nat) then c else 0%u8) (if decide (n = 3%nat) then d else 0%u8).
Proof.
  intros ???? R. rewrite !additive_sum4, sum4_transpose by done.
  pose proof (every_spec _ R) as E. cbv beta in E. setoid_rewrite andb_true_iff in E.
  setoid_rewrite andb_true_iff in E. setoid_rewrite andb_true_iff in E.
  f_equal; apply byte_eqb_eq; [apply (E a)|apply (E b)|apply (E c)|apply (E d)].
Qed.

Lemma inv_mix_column a b c d rest :
  inv_mix_columns (mix_columns (a :: b :: c :: d :: rest)) =
  a :: b :: c :: d :: inv_mix_columns (mix_columns rest).
Proof.
  cbn [mix_columns inv_mix_columns].
  rewrite (row_product m14 m11 m13 m9 0) by (apply _ || (vm_compute; reflexivity)).
  rewrite (row_product m9 m14 m11 m13 1) by (apply _ || (vm_compute; reflexivity)).
  rewrite (row_product m13 m9 m14 m11 2) by (apply _ || (vm_compute; reflexivity)).
  rewrite (row_product m11 m13 m9 m14 3) by (apply _ || (vm_compute; reflexivity)).
  unfold sum4. simpl. by rewrite !bxor_0_r, !bxor_0_l.
Qed.

Lemma inv_mix_mix st : len st = 16 -> inv_mix_columns (mix_columns st) = st.
Proof. intros H. open16 H. by rewrite !inv_mix_column. Qed.

Lemma enc_rounds_more k k' ks st :
  enc_rounds (k :: k' :: ks) st =
  enc_rounds (k' :: ks) (add_round_key (mix_columns (shift_rows (sub_bytes st))) k).
Proof. done. Qed.

Lemma dec_rounds_more k k' ks st :
  dec_rounds (k :: k' :: ks) st =
  inv_sub_bytes (inv_shift_rows (inv_mix_columns (add_round_key (dec_rounds (k' :: ks) st) k))).
Proof. done. Qed.

Lemma dec_enc_rounds ks st : len st = 16 -> dec_rounds ks (enc_rounds ks st) = st.
Proof.
  revert st. induction ks as [|k ks IH]; intros st H; [done|].
  assert (Hs : len (sub_bytes st) = 16) by (by rewrite len_sub_bytes).
  destruct ks as [|k' ks].
  - cbn [enc_rounds dec_rounds]. by rewrite add_round_key_twice, inv_shift_shift, inv_sub_sub.
  - rewrite enc_rounds_more, dec_rounds_more, IH
      by (rewrite len_add_round_key; by apply len_mix_columns).
    by rewrite add_round_key_twice, inv_mix_mix, inv_shift_shift, inv_sub_sub.
Qed.

Lemma len_enc_rounds ks st : len st = 16 -> len (enc_rounds ks st) = 16.
Proof.
  revert st. induction ks as [|k ks IH]; intros st H; [done|].
  destruct ks as [|k' ks].
  - cbn [enc_rounds]. by rewrite len_add_round_key.
  - rewrite enc_rounds_more. apply IH. rewrite len_add_round_key. by apply len_mix_columns.
Qed.

Lemma len_dec_rounds ks st : len st = 16 -> len (dec_rounds ks st) = 16.
Proof.
  intros H. induction ks as [|k ks IH]; [done|].
  destruct ks as [|k' ks]; cbn [dec_rounds]; unfold inv_sub_bytes; by rewrite len_map.
Qed.

#[export] Instance fips_aes_laws : @AesLaws fips_aes.
Proof.
  split; intros [k ks] b H; unfold encrypt_block, decrypt_block, fips_aes, aes_encrypt, aes_decrypt;
    cbn [fst snd].
  - apply len_enc_rounds. by rewrite len_add_round_key.
  - rewrite len_add_round_key. by apply len_dec_rounds.
  - rewrite dec_enc_rounds by (by rewrite len_add_round_key). apply add_round_key_twice.
Qed.

(** FIPS 197, appendix C.1, in both directions. *)
Example fips197_c1 :
  let key := map b8 (seqZ 0 16) in
  let plain := map (fun i => b8 (17 * i)) (seqZ 0 16) in
  let ct := [0x69; 0xc4; 0xe0; 0xd8; 0x6a; 0x7b; 0x04; 0x30;
             0xd8; 0xcd; 0xb7; 0x80; 0x70; 0xb4; 0xc5; 0x5a]%u8 in
  aes_encrypt (aes_key key) plain = ct /\ aes_decrypt (aes_key key) ct = plain.
Proof. vm_compute. done. Qed.
