(* ===== verification/Digest.v ===== *)
(** * HMAC-SHA-256 and the tag of AES-128-GCM as the standards define them

    The Retry service takes its MAC from crates [hmac] and [sha2] and its integrity
    tag from crate [aes_gcm], behind the classes [Token.Hmac] and
    [RetryPacket.AesGcm].  This file gives SHA-256 (FIPS 180-4), HMAC (RFC 2104) and
    the tag of an empty plaintext (NIST SP 800-38D), with their laws and published
    vectors. *)

From S2P Require Import Prelude Std Common Route Token Initial RetryPacket Aes.

(** ** SHA-256

    Words are integers below [2^32]. *)

Definition w32 (z : Z) : Z := z mod 2 ^ 32.
Definition rotr (n x : Z) : Z := Z.lor (Z.shiftr x n) (w32 (Z.shiftl x (32 - n))).
Definition xor3 (a b c : Z) : Z := Z.lxor a (Z.lxor b c).

Definition Ch (x y z : Z) : Z := Z.lxor (Z.land x y) (Z.land (Z.lxor x (2 ^ 32 - 1)) z).
Definition Maj (x y z : Z) : Z := xor3 (Z.land x y) (Z.land x z) (Z.land y z).
Definition Sigma0 (x : Z) : Z := xor3 (rotr 2 x) (rotr 13 x) (rotr 22 x).
Definition Sigma1 (x : Z) : Z := xor3 (rotr 6 x) (rotr 11 x) (rotr 25 x).
Definition sigma0 (x : Z) : Z := xor3 (rotr 7 x) (rotr 18 x) (Z.shiftr x 3).
Definition sigma1 (x : Z) : Z := xor3 (rotr 17 x) (rotr 19 x) (Z.shiftr x 10).

(** The constants, as FIPS 180-4 derives them: the first 32 bits of the fractional
    parts of the cube roots of the first 64 primes, and of the square roots of the
    first eight. *)

Definition is_prime (n : Z) : bool := (1 <? n) && forallb (fun d => negb (n mod d =? 0)) (seqZ 2 (n - 2)).
Definition primes : list Z := Eval vm_compute in List.filter is_prime (seqZ 2 310).

(** The largest [r + x], [x] below [2^n], whose power [e] is at most [m]. *)
Fixpoint root (n : nat) (e m r : Z) : Z :=
  match n with
  | O => r
  | S n => let r' := r + 2 ^ Z.of_nat n in root n e m (if r' ^ e <=? m then r' else r)
  end.

Definition root_bits (e p : Z) : Z := w32 (root 40 e (p * 2 ^ (32 * e)) 0).

Definition K256 : list Z := Eval vm_compute in map (root_bits 3) primes.
Definition H256 : list Z := Eval vm_compute in map (root_bits 2) (take 8 primes).

(** One round on the eight working variables. *)
Definition sha_round (v : list Z) (kw : Z) : list Z :=
  match v with
  | [a; b; c; d; e; f; g; h] =>
      let t1 := h + Sigma1 e + Ch e f g + kw in
      let t2 := Sigma0 a + Maj a b c in
      [w32 (t1 + t2); a; b; c; w32 (d + t1); e; f; g]
  | _ => v
  end.

(** The message schedule: [n] more words, from the last sixteen. *)
Fixpoint schedule (n : nat) (w : list Z) : list Z :=
  match n with
  | O => w
  | S n =>
      match w with
      | w0 :: rest =>
          let next := w32 (sigma1 (nth 14 w 0) + nth 9 w 0 + sigma0 (nth 1 w 0) + w0) in
          w0 :: schedule n (rest ++ [next])
      | [] => []
      end
  end.

Definition compress (h : list Z) (block : list byte) : list Z :=
  let words := map (fun i => be_val (sub block (4 * i) (4 * i + 4))) (seqZ 0 16) in
  let v := fold_left sha_round (zip_with Z.add K256 (schedule 48 words)) h in
  zip_with (fun a b => w32 (a + b)) h v.

Definition pad (msg : list byte) : list byte :=
  msg ++ [0x80%u8] ++ zeros ((55 - len msg) mod 64) ++ be_bytes 8 (8 * len msg).

Fixpoint blocks (n : nat) (size : Z) (l : list byte) : list (list byte) :=
  match n with
  | O => []
  | S n => sub l 0 size :: blocks n size (drop (Z.to_nat size) l)
  end.

Definition sha256 (msg : list byte) : list byte :=
  let p := pad msg in
  let h := fold_left compress (blocks (Z.to_nat (len p / 64)) 64 p) H256 in
  h ≫= be_bytes 4.

(** ** HMAC *)

Definition hmac_block (key : list byte) : list byte :=
  let key := if 64 <? len key then sha256 key else key in key ++ zeros (64 - len key).

Definition hmac (key msg : list byte) : list byte :=
  let k := hmac_block key in
  sha256 (map (bxor 0x5c%u8) k ++ sha256 (map (bxor 0x36%u8) k ++ msg)).

Definition sha_hmac : Hmac := hmac.

Lemma length_sha_round v kw : length (sha_round v kw) = length v.
Proof. by do 9 (destruct v as [|? v]; [done|]). Qed.

Lemma length_schedule n w : length w = 16%nat -> length (schedule n w) = (n + 16)%nat.
Proof.
  revert w. induction n as [|n IH]; intros w H; [done|].
  destruct w as [|w0 w]; [done|]. cbn [schedule length]. rewrite IH; [lia|].
  rewrite length_app. simpl in *. lia.
Qed.

Lemma length_compress h block : length h = 8%nat -> length (compress h block) = 8%nat.
Proof.
  intros H. unfold compress. rewrite length_zip_with.
  enough (length (fold_left sha_round (zip_with Z.add K256
    (schedule 48 (map (fun i => be_val (sub block (4 * i) (4 * i + 4))) (seqZ 0 16)))) h) = 8%nat)
    as -> by lia.
  generalize (zip_with Z.add K256
    (schedule 48 (map (fun i => be_val (sub block (4 * i) (4 * i + 4))) (seqZ 0 16)))).
  intros l. revert h H. induction l as [|x l IH]; intros h H; [done|]. cbn [fold_left].
  apply IH. by rewrite length_sha_round.
Qed.

Lemma length_words n (l : list Z) : length (l ≫= be_bytes n) = (n * length l)%nat.
Proof.
  induction l as [|x l IH]; [simpl; lia|]. rewrite bind_cons, length_app, length_be_bytes, IH.
  cbn [length]. lia.
Qed.

Lemma len_sha256 msg : len (sha256 msg) = 32.
Proof.
  unfold sha256. generalize (blocks (Z.to_nat (len (pad msg) / 64)) 64 (pad msg)). intros l.
  unfold len. rewrite length_words. enough (length (fold_left compress l H256) = 8%nat) as -> by done.
  assert (H : length H256 = 8%nat) by done. revert H. generalize H256.
  induction l as [|x l IH]; intros h H; [done|]. cbn [fold_left]. apply IH. by apply length_compress.
Qed.

#[export] Instance sha_hmac_laws : @HmacLaws sha_hmac.
Proof. intros key msg. apply len_sha256. Qed.

(** Padding fills whole blocks, so that none of the message is left out. *)
Lemma pad_whole msg : len (pad msg) mod 64 = 0.
Proof.
  unfold pad. rewrite !len_app, len_be_bytes. unfold zeros. rewrite len_replicate.
  rewrite Z2Nat.id by (apply Z.mod_pos_bound; lia). rewrite len_cons, len_nil.
  rewrite (Z.mod_eq (55 - len msg)) by lia. set (q := (55 - len msg) / 64).
  replace (len msg + (1 + 0 + (55 - len msg - 64 * q + Z.of_nat 8))) with ((1 - q) * 64) by lia.
  apply Z_mod_mult.
Qed.

(** ** The tag of GCM

    The multiplication of GF(2^128), on 128-bit numbers whose most significant bit
    is the coefficient of degree zero. *)

Definition gf_step (x : Z) (zv : Z * Z) (i : Z) : Z * Z :=
  let '(z, v) := zv in
  (if Z.testbit x (127 - i) then Z.lxor z v else z,
   if Z.testbit v 0 then Z.lxor (Z.shiftr v 1) (Z.shiftl 0xe1 120) else Z.shiftr v 1).

Definition gf_mul (x y : Z) : Z := (fold_left (gf_step x) (seqZ 0 128) (0, y)).1.

Definition ghash (h : Z) (bs : list (list byte)) : Z :=
  fold_left (fun y b => gf_mul (Z.lxor y (be_val b)) h) bs 0.

(** The hashed data: the associated data, padded to blocks, and the two lengths
    in bits. *)
Definition gcm_data (aad : list byte) : list byte :=
  aad ++ zeros ((- len aad) mod 16) ++ be_bytes 8 (8 * len aad) ++ be_bytes 8 0.

Definition aes_gcm_tag (key nonce aad : list byte) : list byte :=
  let c := aes_key key in
  let h := be_val (aes_encrypt c (zeros 16)) in
  let data := gcm_data aad in
  let s := ghash h (blocks (Z.to_nat (len data / 16)) 16 data) in
  be_bytes 16 (Z.lxor s (be_val (aes_encrypt c (nonce ++ [0; 0; 0; 1]%u8)))).

Definition nist_gcm : AesGcm := aes_gcm_tag.

#[export] Instance nist_gcm_laws : @AesGcmLaws nist_gcm.
Proof. intros key nonce aad. apply len_be_bytes. Qed.

(** ** Published vectors *)

(** FIPS 180-4: the digest of "abc". *)
Example sha256_abc :
  be_val (sha256 [0x61; 0x62; 0x63]%u8) =
  0xba7816bf8f01cfea414140de5dae2223b00361a396177a9cb410ff61f20015ad.
Proof. vm_compute. done. Qed.

(** RFC 4231, test case 2: the key "Jefe". *)
Example hmac_rfc4231_2 :
  be_val (hmac [0x4a; 0x65; 0x66; 0x65]%u8
    [0x77; 0x68; 0x61; 0x74; 0x20; 0x64; 0x6f; 0x20; 0x79; 0x61; 0x20; 0x77; 0x61; 0x6e; 0x74; 0x20;
     0x66; 0x6f; 0x72; 0x20; 0x6e; 0x6f; 0x74; 0x68; 0x69; 0x6e; 0x67; 0x3f]%u8) =
  0x5bdcc146bf60754e6a042426089575c75a003f089d2739839dec58b964ec3843.
Proof. vm_compute. done. Qed.

(** The GCM specification, test case 1: zero key and nonce, nothing to seal. *)
Example gcm_case_1 :
  be_val (aes_gcm_tag (zeros 16) (zeros 12) []) = 0x58e2fccefa7e3061367f1d57a4e7455a.
Proof. vm_compute. done. Qed.
