(* ===== verification/Xsk.v ===== *)
(** * The fresh AF_XDP socket

    Models [pesigitg-daemon/src/xsk.rs] and its half of
    [pesigitg-daemon/src/worker_socket.rs]: creating a socket with a fallback from
    zero-copy to copy mode, and the ring operations a worker calls, over crate
    [xsk_rs].  Then one iteration of the worker loop of [Worker] on such a socket,
    with the kernel moving frames between all calls. *)

From Stdlib Require Import Permutation.
From stdpp Require Import gmap.
From S2P Require Import Shuffle Prelude Std Common Route ConnTable LoadRate RetryConfig.
From S2P Require Import ConfigTable Frame Ebpf Packet Token RetryPacket RetryDatapath Stats.
From S2P Require Import Rings Worker.

Definition NUM_FRAMES : Z := 4096.
Definition POLL_TIMEOUT_MS : Z := 100.

Inductive XdpMode := ZeroCopy | Copy.

#[global] Instance XdpMode_eq_dec : EqDecision XdpMode.
Proof. solve_decision. Defined.

Definition mode_name (m : XdpMode) : str :=
  match m with ZeroCopy => lit "zero-copy" | Copy => lit "copy" end.

Inductive BindFlag := BIND_ZEROCOPY | BIND_USE_NEED_WAKEUP.

(** ** Crate xsk_rs

    The calls of [xsk.rs].  A call of the kernel can answer differently each time;
    [umem_new] is therefore indexed by the attempt. *)
Class XskRs := {
  FrameDesc : Type;
  Umem : Type;
  RxQueue : Type;
  TxQueue : Type;
  FillQueue : Type;
  CompQueue : Type;
  Interface : Type;
  parse_interface : str -> option Interface;
  umem_new : XdpMode -> Z -> Z -> Z -> option (Umem * list FrameDesc);
  socket_new : list BindFlag -> Umem -> Interface -> Z ->
    option (TxQueue * RxQueue * option (FillQueue * CompQueue));
  rx_poll_and_consume : RxQueue -> Z -> Z -> RxQueue * option (list FrameDesc);
  tx_produce : TxQueue -> list FrameDesc -> TxQueue * Z;
  tx_needs_wakeup : TxQueue -> bool;
  fill_produce : FillQueue -> list FrameDesc -> FillQueue * Z;
  fill_needs_wakeup : FillQueue -> bool;
  comp_consume : CompQueue -> Z -> CompQueue * list FrameDesc;
}.

(** What the laws speak about: the chunk a descriptor points into, the chunks that
    are on each ring, and the ring sizes. *)
Class XskFrames `{XskRs} := {
  chunk : FrameDesc -> Z;
  rx_frames : RxQueue -> list Z;
  tx_frames : TxQueue -> list Z;
  fill_frames : FillQueue -> list Z;
  comp_frames : CompQueue -> list Z;
  tx_size : TxQueue -> Z;
  fill_size : FillQueue -> Z;
}.

Notation chunks := (map chunk).

(** The documentation of crate xsk_rs: a producer takes all frames or, when they do
    not fit, none; a consumer returns at most as many frames as it has space for; a
    new socket has empty rings of the configured sizes; a UMEM comes with one
    descriptor per frame. *)
Class XskLaws `{XskFrames} : Prop := {
  tx_produce_law q ds :
    if len (tx_frames q) + len ds <=? tx_size q
    then (tx_produce q ds).2 = len ds /\
         Permutation (tx_frames (tx_produce q ds).1) (tx_frames q ++ chunks ds)
    else (tx_produce q ds).2 = 0 /\ tx_frames (tx_produce q ds).1 = tx_frames q;
  fill_produce_size q ds : fill_size (fill_produce q ds).1 = fill_size q;
  fill_produce_law q ds :
    if len (fill_frames q) + len ds <=? fill_size q
    then (fill_produce q ds).2 = len ds /\
         Permutation (fill_frames (fill_produce q ds).1) (fill_frames q ++ chunks ds)
    else (fill_produce q ds).2 = 0 /\ fill_frames (fill_produce q ds).1 = fill_frames q;
  comp_consume_law q n : 0 <= n ->
    len (comp_consume q n).2 <= n /\
    Permutation (comp_frames q) (chunks (comp_consume q n).2 ++ comp_frames (comp_consume q n).1);
  rx_consume_law q n t : 0 <= n ->
    match rx_poll_and_consume q n t with
    | (q', Some ds) => len ds <= n /\ Permutation (rx_frames q) (chunks ds ++ rx_frames q')
    | (q', None) => rx_frames q' = rx_frames q
    end;
  umem_new_law m f c n u ds : umem_new m f c n = Some (u, ds) -> len ds = n;
  socket_new_law m fl u i q t r f c ds size comp_size count :
    umem_new m size comp_size count = Some (u, ds) ->
    socket_new fl u i q = Some (t, r, Some (f, c)) ->
    tx_frames t = [] /\ rx_frames r = [] /\ fill_frames f = [] /\ comp_frames c = [] /\
    fill_size f = size;
}.

(** ** Sockets *)

Record XskSocket `{XskRs} := mkXsk {
  xsk_umem : Umem;
  xsk_rx : RxQueue;
  xsk_tx : TxQueue;
  xsk_fill : FillQueue;
  xsk_comp : CompQueue;
}.
Arguments mkXsk {_}.

Inductive NewError := InvalidInterface | NoUmem | NoQueues | NoSocket.

(** The system calls an operation makes besides the rings; their results are
    dropped. *)
Inductive Wakeup := WakeTx | WakeFill.

Section xsk.
  Context `{X : XskRs}.

Definition modes : list (list BindFlag * XdpMode) :=
  [([BIND_ZEROCOPY; BIND_USE_NEED_WAKEUP], ZeroCopy); ([BIND_USE_NEED_WAKEUP], Copy)].

Fixpoint try_modes (iface : Interface) (queue_id : Z) (ms : list (list BindFlag * XdpMode))
    : rs (result (XskSocket * XdpMode) NewError) :=
  match ms with
  | [] => Panic
  | (bind_flags, mode) :: rest =>
      match umem_new mode NUM_FRAMES NUM_FRAMES NUM_FRAMES with
      | None => Done (Err NoUmem)
      | Some (umem, descs) =>
          match socket_new bind_flags umem iface queue_id with
          | Some (tx_q, rx_q, fq_cq) =>
              match fq_cq with
              | None => Done (Err NoQueues)
              | Some (fill_q, comp_q) =>
                  let '(fill_q, _) := fill_produce fill_q descs in
                  Done (Ok (mkXsk umem rx_q tx_q fill_q comp_q, mode))
              end
          | None => if decide (mode = ZeroCopy) then try_modes iface queue_id rest
                    else Done (Err NoSocket)
          end
      end
  end.

Definition xsk_new (interface : str) (queue_id : Z) : rs (result (XskSocket * XdpMode) NewError) :=
  match parse_interface interface with
  | None => Done (Err InvalidInterface)
  | Some iface => try_modes iface queue_id modes
  end.

Definition xsk_poll_recv (s : XskSocket) (n timeout_ms : Z) : XskSocket * list FrameDesc :=
  let '(rx_q, r) := rx_poll_and_consume (xsk_rx s) n timeout_ms in
  (mkXsk (xsk_umem s) rx_q (xsk_tx s) (xsk_fill s) (xsk_comp s), default [] r).

Definition xsk_transmit (s : XskSocket) (descs : list FrameDesc) : XskSocket * Z * list Wakeup :=
  match descs with
  | [] => (s, 0, [])
  | _ =>
      let '(tx_q, n) := tx_produce (xsk_tx s) descs in
      (mkXsk (xsk_umem s) (xsk_rx s) tx_q (xsk_fill s) (xsk_comp s), n,
       if (0 <? n) && tx_needs_wakeup tx_q then [WakeTx] else [])
  end.

Definition xsk_refill (s : XskSocket) (descs : list FrameDesc) : XskSocket * Z * list Wakeup :=
  match descs with
  | [] => (s, 0, [])
  | _ =>
      let '(fill_q, n) := fill_produce (xsk_fill s) descs in
      (mkXsk (xsk_umem s) (xsk_rx s) (xsk_tx s) fill_q (xsk_comp s), n,
       if (0 <? n) && fill_needs_wakeup fill_q then [WakeFill] else [])
  end.

(** The frames consumed into [scratch] and how many of them were refilled. *)
Definition xsk_complete (s : XskSocket) (scratch_len : Z) : XskSocket * list FrameDesc * Z :=
  let '(comp_q, consumed) := comp_consume (xsk_comp s) scratch_len in
  if 0 <? len consumed
  then let '(fill_q, refilled) := fill_produce (xsk_fill s) consumed in
       (mkXsk (xsk_umem s) (xsk_rx s) (xsk_tx s) fill_q comp_q, consumed, refilled)
  else (mkXsk (xsk_umem s) (xsk_rx s) (xsk_tx s) (xsk_fill s) comp_q, consumed, 0).

End xsk.

(** xsk_rs's UMEM has no descriptor that could be passed on. *)
Definition xsk_detach_for_fdstore `{XskRs} (s : XskSocket) : option (Z * Z) := None.

(** ** Accounts of frames *)

Section accounts.
  Context `{X : XskRs} {Fr : XskFrames} {L : XskLaws}.

Definition on_rings (s : XskSocket) : list Z :=
  rx_frames (xsk_rx s) ++ tx_frames (xsk_tx s) ++ fill_frames (xsk_fill s) ++ comp_frames (xsk_comp s).

(** What the kernel does between two calls: it receives into frames of the fill
    ring and completes frames of the transmit ring. *)
Definition kernel_moves (s s' : XskSocket) : Prop :=
  Permutation (rx_frames (xsk_rx s) ++ fill_frames (xsk_fill s))
              (rx_frames (xsk_rx s') ++ fill_frames (xsk_fill s')) /\
  Permutation (tx_frames (xsk_tx s) ++ comp_frames (xsk_comp s))
              (tx_frames (xsk_tx s') ++ comp_frames (xsk_comp s')) /\
  fill_size (xsk_fill s') = fill_size (xsk_fill s).

(** Every frame of the UMEM is on a ring or in the hands of the worker, and the fill
    ring has room for all. *)
Record accounted (all : list Z) (s : XskSocket) (held : list FrameDesc) : Prop := {
  acc_frames : Permutation (chunks held ++ on_rings s) all;
  acc_size : fill_size (xsk_fill s) = len all;
}.

Lemma accounted_perm all s held held' :
  Permutation held held' -> accounted all s held -> accounted all s held'.
Proof. intros Hp [Hf Hs]. split; [|done]. by rewrite <- Hp. Qed.

Lemma accounted_kernel all s s' held :
  kernel_moves s s' -> accounted all s held -> accounted all s' held.
Proof.
  intros (Hr & Ht & Hz) [Hf Hs]. split; [|congruence]. rewrite <- Hf. unfold on_rings.
  transitivity (chunks held ++ (rx_frames (xsk_rx s') ++ fill_frames (xsk_fill s')) ++
                (tx_frames (xsk_tx s') ++ comp_frames (xsk_comp s'))); [solve_Permutation|].
  rewrite <- Hr, <- Ht. solve_Permutation.
Qed.

(** Room on the fill ring for whatever the worker holds. *)
Lemma accounted_room all s ds rest :
  accounted all s (ds ++ rest) ->
  len (fill_frames (xsk_fill s)) + len ds <= fill_size (xsk_fill s).
Proof.
  intros [Hf ->]. apply Permutation_length in Hf. unfold on_rings in Hf. unfold len.
  rewrite map_app, !length_app, length_map in Hf. lia.
Qed.

Lemma produce_all all s ds rest :
  accounted all s (ds ++ rest) ->
  let '(f, n) := fill_produce (xsk_fill s) ds in
  n = len ds /\ accounted all (mkXsk (xsk_umem s) (xsk_rx s) (xsk_tx s) f (xsk_comp s)) rest.
Proof.
  intros H. pose proof (accounted_room _ _ _ _ H) as Hroom. destruct H as [Hf Hs].
  pose proof (fill_produce_law (xsk_fill s) ds) as Hl. pose proof (fill_produce_size (xsk_fill s) ds) as Hz.
  case_match eqn:E; [|lia]. destruct (fill_produce _ _) as [f n]. cbn [fst snd] in *.
  destruct Hl as [-> Hp]. split; [done|]. split; cbn; [|congruence]. rewrite <- Hf. unfold on_rings. cbn.
  rewrite Hp, map_app. solve_Permutation.
Qed.

Lemma accounted_refill all s ds rest :
  accounted all s (ds ++ rest) ->
  let '(s', n, _) := xsk_refill s ds in n = len ds /\ accounted all s' rest.
Proof.
  intros H. destruct ds as [|d ds]; [done|]. unfold xsk_refill.
  pose proof (produce_all _ _ _ _ H) as Hp. by destruct (fill_produce _ _).
Qed.

Lemma accounted_complete all s held n :
  0 <= n -> accounted all s held ->
  let '(s', ds, r) := xsk_complete s n in len ds <= n /\ r = len ds /\ accounted all s' held.
Proof.
  intros Hn [Hf Hs]. unfold xsk_complete. pose proof (comp_consume_law (xsk_comp s) n Hn) as [Hl Hp].
  destruct (comp_consume _ _) as [q ds]. cbn [fst snd] in *.
  set (s1 := mkXsk (xsk_umem s) (xsk_rx s) (xsk_tx s) (xsk_fill s) q).
  assert (H1 : accounted all s1 (ds ++ held)).
  { split; [|done]. rewrite <- Hf. unfold on_rings, s1. cbn. rewrite Hp, map_app. solve_Permutation. }
  case_goal.
  - pose proof (produce_all _ s1 _ _ H1) as Ha. subst s1. cbn in Ha. by destruct (fill_produce _ _) as [f r].
  - assert (ds = []) as -> by (apply len_0_nil; pose_len; lia). done.
Qed.

Lemma accounted_poll all s held n t :
  0 <= n -> accounted all s held ->
  let '(s', ds) := xsk_poll_recv s n t in len ds <= n /\ accounted all s' (ds ++ held).
Proof.
  intros Hn [Hf Hs]. unfold xsk_poll_recv. pose proof (rx_consume_law (xsk_rx s) n t Hn) as Hl.
  destruct (rx_poll_and_consume _ _ _) as [q [ds|]]; cbn [default].
  - destruct Hl as [Hl Hp]. split; [done|]. split; [|done]. rewrite <- Hf. unfold on_rings. cbn.
    rewrite Hp, map_app. solve_Permutation.
  - split; [done|]. split; [|done]. rewrite <- Hf. unfold on_rings. cbn. by rewrite Hl.
Qed.

Lemma accounted_transmit all s ds rest :
  accounted all s (ds ++ rest) ->
  let '(s', n, _) := xsk_transmit s ds in
  0 <= n <= len ds /\ accounted all s' (drop (Z.to_nat n) ds ++ rest).
Proof.
  intros [Hf Hs]. destruct ds as [|d ds]; [done|]. unfold xsk_transmit.
  pose proof (tx_produce_law (xsk_tx s) (d :: ds)) as Hl.
  set (l := d :: ds) in *. clearbody l. pose proof (len_nonneg l).
  destruct (tx_produce _ _) as [q n]. cbn [fst snd] in Hl. case_match; destruct Hl as [-> Hp].
  - split; [lia|]. rewrite drop_ge by (unfold len; lia). split; [|done]. rewrite <- Hf.
    unfold on_rings. cbn. rewrite Hp, map_app. solve_Permutation.
  - split; [lia|]. split; [|done]. rewrite <- Hf. unfold on_rings. cbn. by rewrite Hp.
Qed.

(** A new socket has all its frames on the fill ring. *)
Lemma new_accounted interface q s m :
  xsk_new interface q = Done (Ok (s, m)) -> exists all, len all = NUM_FRAMES /\ accounted all s [].
Proof.
  unfold xsk_new. destruct (parse_interface interface) as [i|]; [|done].
  assert (H : forall ms, try_modes i q ms = Done (Ok (s, m)) ->
    exists all, len all = NUM_FRAMES /\ accounted all s []); [|apply H].
  induction ms as [|[fl mode] ms IH]; [done|]. cbn [try_modes].
  destruct (umem_new mode NUM_FRAMES NUM_FRAMES NUM_FRAMES) as [[u ds]|] eqn:Eu; [|done].
  destruct (socket_new fl u i q) as [[[t r] [[f c]|]]|] eqn:Es; [|done|by case_decide; auto].
  destruct (socket_new_law _ _ _ _ _ _ _ _ _ _ _ _ _ Eu Es) as (Ht & Hr & Hf & Hc & Hz).
  pose proof (umem_new_law _ _ _ _ _ _ Eu) as Hn. intros E. exists (chunks ds).
  split; [by rewrite len_map|]. set (s0 := mkXsk u r t f c).
  assert (accounted (chunks ds) s0 (ds ++ [])) as Ha.
  { split; [|by rewrite len_map, Hn]. unfold on_rings, s0. cbn. by rewrite Ht, Hr, Hf, Hc, !app_nil_r. }
  apply (produce_all _ s0) in Ha. subst s0. cbn in Ha. destruct (fill_produce f ds) as [f' n].
  injection E as <- <-. apply Ha.
Qed.

End accounts.

(** ** The worker on a fresh socket *)

Section iteration.
  Context `{Aes : Aes128} `{Fx : FxHash} `{Hm : Hmac} `{Gc : AesGcm}.
  Context `{X : XskRs} {Fr : XskFrames}.
  Context (trackers : tracker_ref -> LoadRateTracker) (lm : mac) (view : FrameDesc -> FrameView).

(** What an iteration finds: the kernel's moves before each of its five calls, the
    published table and the clocks. *)
Record FreshTick := mkFreshTick {
  ft_kernel : Z -> XskSocket -> XskSocket;
  ft_table : ConfigTable;
  ft_now : Instant;
  ft_now_ms : Z;
}.

(** [worker_iteration] with the socket's state threaded through its calls. *)
Definition fresh_iteration (t : FreshTick) (s : XskSocket) (w : WorkerState FrameDesc)
    : rs (XskSocket * WorkerState FrameDesc) :=
  let s1 := ft_kernel t 0 s in
  let '(s1', _, _) := xsk_refill s1 (w_pending_fill w) in
  let '(s2', completed, refilled) := xsk_complete (ft_kernel t 1 s1') BATCH_SIZE in
  let '(s3', descs) := xsk_poll_recv (ft_kernel t 2 s2') BATCH_SIZE POLL_TIMEOUT_MS in
  let frames := map (fun d => (d, view d)) descs in
  let* (_, tx, rec) :=
    handle_batch trackers (ft_table t) lm (ft_now t) (ft_now_ms t) frames
      (mkBS (maybe_sweep (w_conn w) (ft_now t)) batch_new 0) [] [] in
  let s4 := ft_kernel t 3 s3' in
  let '(s4', _, _) := xsk_transmit s4 (map fst tx) in
  let s5 := ft_kernel t 4 s4' in
  let '(s5', _, _) := xsk_refill s5 (map fst rec) in
  let io := mkIo (fun fs => (xsk_refill s1 fs).1.2) (completed, refilled) frames
                 (fun fs => (xsk_transmit s4 fs).1.2) (fun fs => (xsk_refill s5 fs).1.2) in
  let* (w, _) := worker_iteration trackers io (ft_table t) lm (ft_now t) (ft_now_ms t) w in
  Done (s5', w).

Fixpoint fresh_run (ts : list FreshTick) (s : XskSocket) (w : WorkerState FrameDesc)
    : rs (XskSocket * WorkerState FrameDesc) :=
  match ts with
  | [] => Done (s, w)
  | t :: ts => let* (s, w) := fresh_iteration t s w in fresh_run ts s w
  end.

(** The environment of the theorems: the kernel only moves frames as it may, the
    tables are live, and no received frame is a cut ICMP error. *)
Record fresh_tick_ok (t : FreshTick) : Prop := {
  ft_moves : forall i s, kernel_moves s (ft_kernel t i s);
  ft_live : table_live (ft_table t);
}.

Context {XL : XskLaws} {AL : AesLaws} {HL : HmacLaws} {GL : AesGcmLaws}.
Context (Hview : forall d, view_wf (view d) /\ uncut (view d)) (Hlm : length lm = 6%nat).

Lemma refill_bounds_xsk (s : XskSocket) fs : 0 <= (xsk_refill s fs).1.2 <= len fs.
Proof.
  destruct fs as [|d fs]; [done|]. unfold xsk_refill. pose proof (fill_produce_law (xsk_fill s) (d :: fs)) as H.
  destruct (fill_produce _ _) as [q n]. cbn [fst snd] in *. pose proof (len_nonneg (d :: fs)).
  case_match; destruct H as [-> _]; lia.
Qed.

Lemma transmit_bounds_xsk (s : XskSocket) fs : 0 <= (xsk_transmit s fs).1.2 <= len fs.
Proof.
  destruct fs as [|d fs]; [done|]. unfold xsk_transmit. pose proof (tx_produce_law (xsk_tx s) (d :: fs)) as H.
  destruct (tx_produce _ _) as [q n]. cbn [fst snd] in *. pose proof (len_nonneg (d :: fs)).
  case_match; destruct H as [-> _]; lia.
Qed.

(** When the fill ring takes everything, only unsent frames are left over. *)
Lemma pending_unsent (io : AfXdpIo FrameDesc) table now now_ms w w' h st tx rec :
  io_refill io (w_pending_fill w) = len (w_pending_fill w) ->
  (io_complete io).2 = len (io_complete io).1 ->
  handle_batch trackers table lm now now_ms (io_poll io)
    (mkBS (maybe_sweep (w_conn w) now) batch_new 0) [] [] = Done (st, tx, rec) ->
  0 <= io_transmit io (map fst tx) <= len tx ->
  io_recycle io (map fst rec) = len rec ->
  worker_iteration trackers io table lm now now_ms w = Done (w', h) ->
  w_pending_fill w' = drop (Z.to_nat (io_transmit io (map fst tx))) (map fst tx).
Proof.
  intros Hr Hc Hb Ht Hrec. unfold worker_iteration.
  set (drained := match w_pending_fill w with [] => _ | _ :: _ => _ end).
  assert (exists fill, drained = Done ([], fill)) as (fill & ->).
  { unfold drained. destruct (w_pending_fill w) as [|f fs]; [by eexists|]. rewrite Hr.
    case_goal; [|lia]. rewrite drop_ge by (unfold len; lia). by eexists. }
  destruct (io_complete io) as [comp r]. cbn [fst snd] in Hc. subst r. rewrite Z.ltb_irrefl.
  case_goal.
  - assert (Ep : io_poll io = []) by (apply len_0_nil; lia). rewrite Ep in Hb. cbn in Hb.
    injection Hb as <- <- <-. intros [= <- <-]. cbn. by rewrite drop_nil.
  - rewrite Hb. intros [= <- <-]. cbn [w_pending_fill]. rewrite Hrec, Z.ltb_irrefl.
    case_goal; [done|]. rewrite drop_ge; [done|]. rewrite length_map. unfold len in *. lia.
Qed.

Lemma fresh_iteration_ok all t s w :
  fresh_tick_ok t -> accounted all s (w_pending_fill w) -> conn_wf (w_conn w) -> balanced (w_stats w) ->
  exists s' w', fresh_iteration t s w = Done (s', w') /\ accounted all s' (w_pending_fill w') /\
    len (w_pending_fill w') <= BATCH_SIZE /\ conn_wf (w_conn w') /\ balanced (w_stats w').
Proof.
  intros [Hk Hlive] Ha Hc Hb. unfold fresh_iteration.
  apply (accounted_kernel _ _ _ _ (Hk 0 s)) in Ha. set (s1 := ft_kernel t 0 s) in *.
  rewrite <- (app_nil_r (w_pending_fill w)) in Ha. pose proof (accounted_refill _ _ _ _ Ha) as H1.
  destruct (xsk_refill s1 (w_pending_fill w)) as [[s1' n1] ?] eqn:E1. destruct H1 as [-> H1].
  apply (accounted_kernel _ _ _ _ (Hk 1 s1')), (accounted_complete _ _ _ BATCH_SIZE) in H1; [|done].
  destruct (xsk_complete _ _) as [[s2' comp] r]. destruct H1 as (_ & -> & H2).
  apply (accounted_kernel _ _ _ _ (Hk 2 s2')), (accounted_poll _ _ _ BATCH_SIZE POLL_TIMEOUT_MS) in H2; [|done].
  destruct (xsk_poll_recv _ _ _) as [s3' descs]. destruct H2 as [Hn H3]. rewrite app_nil_r in H3.
  set (frames := map (fun d => (d, view d)) descs).
  assert (Hf : Forall (fun f => view_wf f.2 /\ uncut f.2) frames).
  { apply List.Forall_forall. intros f (d & <- & _)%in_map_iff. apply Hview. }
  destruct (handle_batch_ok trackers (ft_table t) lm (ft_now t) (ft_now_ms t) frames
    (mkBS (maybe_sweep (w_conn w) (ft_now t)) batch_new 0) 0 [] []) as (st & tx & rec & Hhb & _ & _ & Hp);
    [done|by apply maybe_sweep_wf|done|done|apply batch_new_ok|].
  rewrite Hhb. cbn [map app] in Hp. rewrite app_nil_r in Hp.
  assert (Ed : map fst frames = descs) by (unfold frames; rewrite map_map; apply map_id).
  rewrite Ed in Hp. apply (accounted_perm _ _ _ _ Hp), (accounted_kernel _ _ _ _ (Hk 3 s3')), accounted_transmit in H3.
  set (s4 := ft_kernel t 3 s3') in *.
  destruct (xsk_transmit s4 (map fst tx)) as [[s4' sent] ?] eqn:E4. destruct H3 as [Hsent H4].
  apply (accounted_perm _ _ _ _ (Permutation_app_comm _ _)), (accounted_kernel _ _ _ _ (Hk 4 s4')) in H4.
  set (s5 := ft_kernel t 4 s4') in *. pose proof (accounted_refill _ _ _ _ H4) as H5.
  destruct (xsk_refill s5 (map fst rec)) as [[s5' n5] ?] eqn:E5. destruct H5 as [-> H5].
  set (io := mkIo _ _ _ _ _).
  assert (Hio : AfXdpSocket io).
  { constructor; cbn; intros; rewrite ?len_map; try apply refill_bounds_xsk; try apply transmit_bounds_xsk;
      [pose_len; lia|unfold frames; by rewrite len_map|]. by apply Forall_and in Hf as [? _]. }
  destruct (worker_iteration_ok trackers io (ft_table t) lm (ft_now t) (ft_now_ms t) w)
    as (w' & h & Hw & Hc' & Hb' & _); [done|done|done|done|by apply Forall_and in Hf as [_ ?]|].
  rewrite Hw. pose proof (pending_unsent io (ft_table t) (ft_now t) (ft_now_ms t) w w' h st tx rec) as Hpend.
  cbn [io_refill io_complete io_transmit io_recycle io_poll io fst snd] in Hpend.
  rewrite E1, E4, E5 in Hpend. cbn [fst snd] in Hpend. rewrite !len_map in Hpend. rewrite len_map in Hsent.
  eexists _, _. split; [done|]. rewrite (Hpend eq_refl eq_refl Hhb Hsent eq_refl Hw). split; [done|].
  split; [|done]. apply Permutation_length in Hp. rewrite length_app in Hp. unfold len in *.
  rewrite length_drop. lia.
Qed.

Lemma fresh_run_ok all ts s w :
  Forall fresh_tick_ok ts -> accounted all s (w_pending_fill w) -> conn_wf (w_conn w) ->
  balanced (w_stats w) -> len (w_pending_fill w) <= BATCH_SIZE ->
  exists s' w', fresh_run ts s w = Done (s', w') /\ accounted all s' (w_pending_fill w') /\
    len (w_pending_fill w') <= BATCH_SIZE /\ conn_wf (w_conn w') /\ balanced (w_stats w').
Proof.
  intros Ht. revert s w. induction Ht as [|t ts Ht _ IH]; intros s w Ha Hc Hb Hl; [eauto 10|].
  cbn [fresh_run]. destruct (fresh_iteration_ok all t s w Ht Ha Hc Hb) as (s1 & w1 & -> & ? & ? & ? & ?).
  by apply IH.
Qed.

End iteration.

(** ** Properties *)

(** Creating a fresh socket never reaches the [unreachable!] after its loop:
    it yields a zero-copy socket when that mode can be bound, a copy-mode socket
    when only that one can, and otherwise the error of the first step that failed;
    only a refused zero-copy bind is tried again.  A socket it yields has every one
    of the 4096 frames on the fill ring, and its mode is the one it was bound
    with. *)
Theorem xsk_new_exact `{XskRs} {Fr : XskFrames} {L : XskLaws} (interface : str) (queue_id : Z) :
  (forall s m, xsk_new interface queue_id = Done (Ok (s, m)) ->
     exists all, len all = NUM_FRAMES /\ accounted all s [] /\ len (on_rings s) = NUM_FRAMES) /\
  xsk_new interface queue_id =
  match parse_interface interface with
  | None => Done (Err InvalidInterface)
  | Some iface =>
      let attempt m fl none :=
        match umem_new m NUM_FRAMES NUM_FRAMES NUM_FRAMES with
        | None => Done (Err NoUmem)
        | Some (u, descs) =>
            match socket_new fl u iface queue_id with
            | None => none
            | Some (_, _, None) => Done (Err NoQueues)
            | Some (t, r, Some (f, c)) => Done (Ok (mkXsk u r t (fill_produce f descs).1 c, m))
            end
        end in
      attempt ZeroCopy [BIND_ZEROCOPY; BIND_USE_NEED_WAKEUP]
        (attempt Copy [BIND_USE_NEED_WAKEUP] (Done (Err NoSocket)))
  end.
Proof.
  split.
  { intros s m E. destruct (new_accounted _ _ _ _ E) as (all & Hn & Ha). exists all. split; [done|].
    split; [done|]. destruct Ha as [Hp _]. apply Permutation_length in Hp. unfold len in *. cbn in Hp. lia. }
  unfold xsk_new. destruct (parse_interface interface) as [i|]; [|done]. unfold modes. cbn [try_modes].
  repeat first [case_match; try done | case_decide; try done]; simplify_eq; by rewrite ?E.
Qed.


(** ** A small implementation of the crate

    Rings are lists of chunk numbers with a size; zero-copy binds are refused. *)

Definition toy_xsk : XskRs :=
  {| FrameDesc := Z; Umem := Z; RxQueue := list Z; TxQueue := list Z * Z; FillQueue := list Z * Z;
     CompQueue := list Z; Interface := str;
     parse_interface i := if decide (i = []) then None else Some i;
     umem_new _ f c n := if decide (0 <= n) then Some (f, seqZ 0 n) else None;
     socket_new fl u _ _ := match fl with
                            | BIND_ZEROCOPY :: _ => None
                            | _ => Some (([], 2), [], Some (([], u), []))
                            end;
     rx_poll_and_consume q n t := (drop (Z.to_nat n) q, Some (take (Z.to_nat n) q));
     tx_produce q ds := if len q.1 + len ds <=? q.2 then ((q.1 ++ ds, q.2), len ds) else (q, 0);
     tx_needs_wakeup _ := true;
     fill_produce q ds := if len q.1 + len ds <=? q.2 then ((q.1 ++ ds, q.2), len ds) else (q, 0);
     fill_needs_wakeup _ := false;
     comp_consume q n := (drop (Z.to_nat n) q, take (Z.to_nat n) q) |}.

#[local] Existing Instance toy_xsk.

Definition toy_xsk_frames : XskFrames :=
  {| chunk d := d; rx_frames q := q; tx_frames q := q.1; fill_frames q := q.1; comp_frames q := q;
     tx_size q := q.2; fill_size q := q.2 |}.

#[local] Existing Instance toy_xsk_frames.

#[local] Instance toy_xsk_laws : XskLaws.
Proof.
  split; cbn; intros.
  - destruct (len q.1 + len ds <=? q.2); cbn; by rewrite ?map_id.
  - by destruct (len q.1 + len ds <=? q.2).
  - destruct (len q.1 + len ds <=? q.2); cbn; by rewrite ?map_id.
  - rewrite map_id, take_drop. split; [|done]. unfold len. rewrite length_take. lia.
  - rewrite map_id, take_drop. split; [|done]. unfold len. rewrite length_take. lia.
  - case_decide; simplify_eq. unfold len. rewrite length_seqZ. lia.
  - case_decide; simplify_eq. by destruct fl as [|[] ?]; simplify_eq/=.
Qed.

(** The kernel receives into four frames and completes what was sent. *)
Definition toy_kernel (i : Z) (s : XskSocket) : XskSocket :=
  mkXsk (xsk_umem s) (xsk_rx s ++ take 4 (xsk_fill s).1) ([], (xsk_tx s).2)
    (drop 4 (xsk_fill s).1, (xsk_fill s).2) (xsk_comp s ++ (xsk_tx s).1).

Lemma toy_kernel_moves i s : kernel_moves s (toy_kernel i s).
Proof.
  unfold kernel_moves, toy_kernel. cbn. split; [|split; [|done]].
  - by rewrite <- app_assoc, take_drop.
  - apply Permutation_app_comm.
Qed.

#[local] Existing Instance xor_aes.
#[local] Existing Instance xor_aes_laws.
#[local] Existing Instance sum_hash.
#[local] Existing Instance sum_hmac.
#[local] Existing Instance sum_hmac_laws.
#[local] Existing Instance sum_gcm.
#[local] Existing Instance sum_gcm_laws.

Definition toy_view (d : FrameDesc) : FrameView := mkView udp4_frame (len udp4_frame).

Definition toy_ticks : list FreshTick :=
  [mkFreshTick toy_kernel up_table 0 0; mkFreshTick toy_kernel up_table (from_secs 1) 1000].

Definition toy_socket : XskSocket := mkXsk 4096 [] ([], 2) (seqZ 0 4096, 4096) [].


Lemma xsk_new_exact_witness :
  xsk_new (lit "eth0") 0 = Done (Ok (toy_socket, Copy)) /\ len (on_rings toy_socket) = NUM_FRAMES.
Proof.
  assert (E : xsk_new (lit "eth0") 0 = Done (Ok (toy_socket, Copy))) by (vm_compute; reflexivity).
  split; [exact E|]. destruct (proj1 (xsk_new_exact (lit "eth0") 0) toy_socket Copy E) as (all & _ & _ & H).
  exact H.
Defined.
