(* ===== verification/Delivery.v ===== *)
(** * From the socket to the server

    Composes the worker loop of [pesigitg-daemon/src/threading.rs] with the packet
    pipeline of [packet.rs], the Retry classifier of [retry/datapath.rs], the route
    table and the connection-id codec: what a worker does with a packet of an
    established connection, whatever else is in its batch and whatever it did
    before. *)

From stdpp Require Import gmap.
From S2P Require Import Prelude Std Common Route Cid LbCore ConnTable Initial LoadRate RetryConfig ConfigTable Frame Packet Neigh Health.
From S2P Require Import Provision Ebpf Token RetryPacket RetryDatapath Stats Rings Worker.

(** ** Lemmas *)

(** A short-header packet is none of the Retry classifier's business. *)
Lemma parse_strict_short quic :
  has_bits (elt quic 0) 0x80 = false -> exists e, parse_strict quic = Done (Err e).
Proof.
  intros Hb. unfold parse_strict. case_goal; [eauto|]. rewrite idx_in by lia. rewrite Hb. cbn. eauto.
Qed.

Section batch.
  Context `{Aes : Aes128} `{Fx : FxHash} `{Hm : Hmac} `{Gc : AesGcm}.
  Context (trackers : tracker_ref -> LoadRateTracker).

(** Every frame of a batch is handled in some state, and goes where that says. *)
Lemma handle_batch_elem {F} table lm now now_ms (frames : list (F * FrameView)) st tx rec st' tx' rec' :
  handle_batch trackers table lm now now_ms frames st tx rec = Done (st', tx', rec') ->
  (forall x, x ∈ tx -> x ∈ tx') /\ (forall x, x ∈ rec -> x ∈ rec') /\
  forall desc data, (desc, data) ∈ frames ->
    exists st1 st2 data' (to_tx : bool), handle_frame trackers table lm now now_ms st1 data = Done (st2, data', to_tx) /\
      (desc, data') ∈ (if to_tx then tx' else rec').
Proof.
  revert st tx rec. induction frames as [|[d0 v0] frames IH]; intros st tx rec; cbn [handle_batch].
  { intros [= <- <- <-]. split; [done|]. split; [done|]. by intros ? ? ?%elem_of_nil. }
  destruct (handle_frame _ _ _ _ _ st v0) as [[[st1 v1] to_tx]|] eqn:Eh; [|done]. cbn.
  intros H. assert (Hst : exists tx1 rec1, handle_batch trackers table lm now now_ms frames st1 tx1 rec1 = Done (st', tx', rec') /\
    (forall x, x ∈ tx -> x ∈ tx1) /\ (forall x, x ∈ rec -> x ∈ rec1) /\ (d0, v1) ∈ (if to_tx then tx1 else rec1)).
  { destruct to_tx; eexists _, _; (split; [exact H|]); split; try (split); try done; try (intros x Hx); apply elem_of_app;
      try (by left); right; by apply list_elem_of_singleton. }
  destruct Hst as (tx1 & rec1 & Hb & Ht & Hr & H0). destruct (IH _ _ _ Hb) as (Htx & Hrec & Hin).
  split; [auto|]. split; [auto|]. intros desc data [[= -> ->]|Hd]%elem_of_cons; [|by apply Hin].
  exists st, st1, v1, to_tx. split; [exact Eh|]. destruct to_tx; auto.
Qed.

Context `{!AesLaws} `{!HmacLaws} `{!AesGcmLaws}.

(** The frame of an issued CID is rewritten to the server and goes to transmit. *)
Lemma handle_issued table lm now now_ms st data p u off sp dp config e nonce rnd cid i s m quic st' data' to_tx :
  table_live table -> table_get table (config_id config) = Some config ->
  encoder_matches e config -> len nonce = nonce_length config -> encode_to_vec e nonce rnd = Done cid ->
  find_server_idx config (e_server_id e) = Some i -> servers config !! i = Some s ->
  s_healthy s = true -> s_mac s = Some m -> length lm = 6%nat ->
  parse_frame (RetryDatapath.contents data) = Done (Some p) -> l4 p = Udp u off sp dp ->
  sub (RetryDatapath.contents data) off (len (RetryDatapath.contents data)) = quic -> carries cid quic ->
  retry table = None \/ has_bits (elt quic 0) 0x80 = false ->
  handle_frame trackers table lm now now_ms st data = Done (st', data', to_tx) ->
  to_tx = true /\
  data' = put_contents data (m ++ lm ++ drop 12 (RetryDatapath.contents data)).
Proof.
  intros Ht Hget He Hn Hcid Hfind Hs Hh Hmac Hlm Hp Hl4 Hq Hcar Hb. unfold handle_frame. rewrite Hp.
  destruct (parse_frame_parses (RetryDatapath.contents data)) as [Hno|(p' & Hp' & Hwf)]; [congruence|].
  assert (p' = p) as -> by congruence. destruct (try_handle_other trackers data p table lm now_ms (bs_pending_load st) Hwf)
    as [d ->].
  { intros r l ini Hd. pose proof (h_initial _ _ _ _ _ _ Hd) as Hi. pose proof (h_layout _ _ _ _ _ _ Hd) as Hl.
    assert (quic_offset l = off) as Ho.
    { unfold from_parsed in Hl. rewrite Hl4 in Hl. repeat case_match; try done; by injection Hl as <-. }
    rewrite Ho, Hq in Hi. destruct Hb as [Hb|[err Herr]%parse_strict_short]; [|congruence].
    by rewrite (h_retry _ _ _ _ _ _ Hd) in Hb. }
  destruct Hwf as (H14 & _ & _ & Hw). unfold l4_wf in Hw. rewrite Hl4 in Hw. destruct Hw as (Hu & Hoff & Hle & _).
  unfold process_packet_parsed. rewrite Hl4.
  assert (Hflow : 0 <= off).
  { pose proof (parse_frame_parses (RetryDatapath.contents data)) as [?|(q & Hq' & (_ & _ & Hfam & _))]; [congruence|].
    assert (q = p) as -> by congruence. destruct (family p); lia. }
  destruct (process_udp_issued (RetryDatapath.contents data) table (bs_conn st) off
    (mkFlowKey (pf_src_addr p) (pf_dst_addr p) sp dp) lm now config e nonce rnd cid i s m Ht Hget He Hn Hcid Hfind Hs Hh Hmac)
    as (k & _ & ->); [unfold len; lia|lia|lia|by rewrite Hq|].
  cbn [dispatch]. unfold dispatch. destruct (s_draining s); destruct (record_cid_forward _ _); cbn; [|done| |done];
    by intros [= <- <- <-].
Qed.

End batch.

(** The entry of a file as the live table has it: health checks and MAC resolution
    touch the servers only. *)
Record same_route `{Aes128} (c c' : RouteConfig) : Prop := {
  sr_id : config_id c' = config_id c;
  sr_sid : server_id_length c' = server_id_length c;
  sr_nonce : nonce_length c' = nonce_length c;
  sr_enc : encryption c' = encryption c;
}.

Lemma same_route_matches `{Aes128} c c' e : same_route c c' -> encoder_matches e c -> encoder_matches e c'.
Proof. intros [Hi Hs Hn He] [? ? ? ?]. constructor; by rewrite ?Hi, ?Hs, ?Hn, ?He. Qed.

(** [resolve_table] and the mirror of the health checker keep the routes. *)
Lemma map_servers_same `{Aes128} f t i c' :
  table_get (map_servers f t) i = Some c' -> exists c, table_get t i = Some c /\ same_route c c'.
Proof.
  unfold table_get, slot_get, map_servers. cbn [slots].
  change (map ?g ?l) with (g <$> l). rewrite list_lookup_fmap. destruct (slots t !! Z.to_nat i) as [[c|]|]; [|done|done]. cbn. intros [= <-]. by exists c.
Qed.

Lemma iteration_delivers {F} `{AesLaws} `{FxHash} `{HmacLaws} `{AesGcmLaws}
    (trackers : tracker_ref -> LoadRateTracker) (io : AfXdpIo F) (table : ConfigTable) (lm : mac) (now : Instant)
    (now_ms : Z) (w : WorkerState F) (desc : F) (data : FrameView) (p : ParsedFrame) (u off sp dp : Z)
    (config : RouteConfig) (e : QuicLbEncoder) (nonce : list byte) (rnd : byte) (cid : list byte) (i : nat)
    (s : Server) (m : mac) (quic : list byte) :
  AfXdpSocket io -> (forall fs, io_transmit io fs = len fs) -> Forall (fun f => uncut f.2) (io_poll io) ->
  conn_wf (w_conn w) -> balanced (w_stats w) -> length lm = 6%nat ->
  table_live table -> table_get table (config_id config) = Some config ->
  encoder_matches e config -> len nonce = nonce_length config -> encode_to_vec e nonce rnd = Done cid ->
  find_server_idx config (e_server_id e) = Some i -> servers config !! i = Some s ->
  s_healthy s = true -> s_mac s = Some m ->
  (desc, data) ∈ io_poll io -> parse_frame (RetryDatapath.contents data) = Done (Some p) -> l4 p = Udp u off sp dp ->
  sub (RetryDatapath.contents data) off (len (RetryDatapath.contents data)) = quic -> carries cid quic ->
  retry table = None \/ has_bits (elt quic 0) 0x80 = false ->
  exists w' h, worker_iteration trackers io table lm now now_ms w = Done (w', h) /\
    (desc, put_contents data (m ++ lm ++ drop 12 (RetryDatapath.contents data))) ∈ h_tx h.
Proof.
  intros Hio Htx Hcut Hc Hb Hlm Ht Hget He Hn Hcid Hfind Hs Hh Hmac Hin Hp Hl4 Hq Hcar Hb0.
  destruct (worker_iteration_ok trackers io table lm now now_ms w Ht Hc Hb Hlm Hcut) as (w' & h & Hw & _).
  exists w', h. split; [done|]. revert Hw. unfold worker_iteration.
  destruct (match w_pending_fill w with [] => _ | _ :: _ => _ end) as [[pend fill]|]; [|done].
  destruct (io_complete io) as [comp r]. case_goal.
  { assert (io_poll io = []) as Hnil by (apply len_0_nil; lia). rewrite Hnil in Hin. by apply elem_of_nil in Hin. }
  destruct (handle_batch _ _ _ _ _ _ _ _ _) as [[[st tx] rec]|] eqn:Eb; [|done]. intros [= _ <-]. cbn [h_tx].
  rewrite Htx, len_map, take_ge by (unfold len; lia).
  destruct (handle_batch_elem _ _ _ _ _ _ _ _ _ _ _ _ Eb) as (_ & _ & Helem).
  destruct (Helem desc data Hin) as (st1 & st2 & data' & to_tx & Hf & Hd).
  destruct (handle_issued trackers table lm now now_ms st1 data p u off sp dp config e nonce rnd cid i s m quic
    st2 data' to_tx) as [-> ->]; done.
Qed.

(** ** Properties *)

(** End to end through a worker: of whatever a batch holds and whatever the worker
    did before, a UDP frame whose packet carries a connection id that a server of the
    table issued leaves through the transmit ring, addressed to that server's
    MAC and otherwise as it came, if the ring has room.  The connection table and the
    other packets of the batch have no say; Retry has none on short headers, and on
    long ones when it is off. *)
Theorem worker_delivers {F} `{AesLaws} `{FxHash} `{HmacLaws} `{AesGcmLaws}
    (trackers : tracker_ref -> LoadRateTracker) (io : AfXdpIo F) (table : ConfigTable) (lm : mac) (now : Instant)
    (now_ms : Z) (w : WorkerState F) (desc : F) (data : FrameView) (p : ParsedFrame) (u off sp dp : Z)
    (config : RouteConfig) (e : QuicLbEncoder) (nonce : list byte) (rnd : byte) (cid : list byte) (i : nat)
    (s : Server) (m : mac) (quic : list byte) :
  AfXdpSocket io -> (forall fs, io_transmit io fs = len fs) -> Forall (fun f => uncut f.2) (io_poll io) ->
  conn_wf (w_conn w) -> balanced (w_stats w) -> length lm = 6%nat ->
  table_live table -> table_get table (config_id config) = Some config ->
  encoder_matches e config -> len nonce = nonce_length config -> encode_to_vec e nonce rnd = Done cid ->
  find_server_idx config (e_server_id e) = Some i -> servers config !! i = Some s ->
  s_healthy s = true -> s_mac s = Some m ->
  (desc, data) ∈ io_poll io -> parse_frame (RetryDatapath.contents data) = Done (Some p) -> l4 p = Udp u off sp dp ->
  sub (RetryDatapath.contents data) off (len (RetryDatapath.contents data)) = quic -> carries cid quic ->
  retry table = None \/ has_bits (elt quic 0) 0x80 = false ->
  exists w' h, worker_iteration trackers io table lm now now_ms w = Done (w', h) /\
    (desc, put_contents data (m ++ lm ++ drop 12 (RetryDatapath.contents data))) ∈ h_tx h.
Proof. exact (iteration_delivers trackers io table lm now now_ms w desc data p u off sp dp config e nonce rnd cid i s m quic). Qed.


(** ** An instance *)

#[local] Existing Instance xor_aes.
#[local] Existing Instance xor_aes_laws.
#[local] Existing Instance sum_hash.
#[local] Existing Instance sum_hmac.
#[local] Existing Instance sum_hmac_laws.
#[local] Existing Instance sum_gcm.
#[local] Existing Instance sum_gcm_laws.

Definition roomy_io : AfXdpIo Z :=
  mkIo len ([7], 0) [(1, mkView issued_frame (len issued_frame)); (2, mkView udp4_frame (len udp4_frame))] len len.

Lemma roomy_ok : AfXdpSocket roomy_io /\ Forall (fun f => uncut f.2) (io_poll roomy_io).
Proof.
  split.
  - constructor; try (intros fs; apply (min_bounds fs)); try (vm_compute; split; discriminate);
      try (vm_compute; discriminate); repeat constructor; vm_compute; discriminate.
  - repeat constructor; cbn [snd]; unfold uncut; vm_compute; intros p q fl [= <-]; discriminate.
Qed.

Lemma worker_delivers_witness :
  exists w' h, worker_iteration (fun _ => tracker_new) roomy_io up_table (zeros 6) 0 0 idle_worker = Done (w', h) /\
    (1, mkView ([2; 0; 0; 0; 0; 1]%u8 ++ zeros 6 ++ drop 12 issued_frame) (len issued_frame)) ∈ h_tx h.
Proof.
  destruct (worker_delivers (fun _ => tracker_new) roomy_io up_table (zeros 6) 0 0 idle_worker 1
    (mkView issued_frame (len issued_frame))
    (mkParsed Ipv4 20 (zeros 6) (V4 [10; 0; 0; 1]%u8) (V4 [10; 0; 0; 2]%u8) (Udp 34 42 12345 443)) 34 42 12345 443
    (up_config four_pass_config) four_pass_encoder [1; 2; 3; 4; 5; 6]%u8 0%u8 issued_cid 1%nat
    (up [2; 0; 0; 0; 0; 1]%u8 (mkServer [0xed; 0x79; 0x3a; 0x51; 0xd4]%u8 (V4 [10; 0; 0; 2]%u8) None
       false false 0 None)) [2; 0; 0; 0; 0; 1]%u8 (short_packet 0x40%u8 issued_cid [9]%u8)) as (w' & h & Hw & Hin).
  - apply roomy_ok.
  - reflexivity.
  - apply roomy_ok.
  - exact no_conn_wf.
  - exact stats_new_balanced.
  - reflexivity.
  - exact up_table_live.
  - vm_compute. reflexivity.
  - split; vm_compute; reflexivity.
  - reflexivity.
  - vm_compute. reflexivity.
  - vm_compute. reflexivity.
  - vm_compute. reflexivity.
  - reflexivity.
  - reflexivity.
  - left.
  - vm_compute. reflexivity.
  - vm_compute. reflexivity.
  - vm_compute. reflexivity.
  - apply carries_short. reflexivity.
  - right. reflexivity.
  - exists w', h. split; [exact Hw|]. revert Hin. vm_compute. exact (fun x => x).
Defined.

Definition lab_file : WelmanFile := mkWelmanFile (map seen_by_backend example_raws) None None None None None [].
Definition lab_sid : list byte := [0xed; 0x79; 0x3a; 0x51; 0xd4]%u8.
Definition lab_entry : RouteConfig :=
  default four_pass_config (find (fun c => existsb (has_id lab_sid) (servers c)) example_cfgs).

