(* ===== verification/Interface.v ===== *)
(** * Interface queries

    Models the three places that hand an interface name to the kernel:
    [get_hw_queues] of [pesigitg-daemon/src/threading.rs], and [interface_mac] and
    [if_nametoindex] of [pesigitg-daemon/src/utils.rs].  The kernel's answer to an
    ioctl is a function of the sixteen bytes of [ifr_name]; a socket may fail to
    open. *)

From S2P Require Import Prelude Std Common Threading.

Definition IFNAMSIZ : Z := 16.

Record EthtoolChannels := mkChannels {
  max_combined : Z;
  rx_count : Z;
  tx_count : Z;
  combined_count : Z;
}.

(** [CString::new(s)] with its terminator: refused when a NUL is inside. *)
Definition c_string (s : str) : option (list byte) :=
  let bs := str_bytes s in
  if decide (0%u8 ∈ bs) then None else Some (bs ++ [0%u8]).

Inductive if_error := IfSocket | IfName | IfIoctl.

(** [ifr.ifr_name[..n].copy_from_slice(name_bytes)] panics when the name with its
    terminator is longer than the field. *)
Definition get_hw_queues (sock : option Z) (ioctl : list byte -> option EthtoolChannels)
    (interface : str) : rs (result (Z * Z) if_error) :=
  match sock with
  | None => Done (Err IfSocket)
  | Some _ =>
      match c_string interface with
      | None => Panic
      | Some name_bytes =>
          let* ifr_name := copy_to (zeros IFNAMSIZ) 0 (len name_bytes) name_bytes in
          match ioctl ifr_name with
          | None => Done (Err IfIoctl)
          | Some channels => Done (Ok (combined_count channels, max_combined channels))
          end
      end
  end.

(** The answer and whether the socket was closed. *)
Definition interface_mac (sock : option Z) (ioctl : list byte -> option (list byte))
    (interface : str) : result mac if_error * bool :=
  match sock with
  | None => (Err IfSocket, true)
  | Some _ =>
      match c_string interface with
      | None => (Err IfName, false)
      | Some name_bytes =>
          let copy_len := Z.min (len name_bytes) IFNAMSIZ in
          let ifr_name := splice (zeros IFNAMSIZ) 0 (sub name_bytes 0 copy_len) in
          match ioctl ifr_name with
          | None => (Err IfIoctl, true)
          | Some sa_data => (Ok (sub sa_data 0 6), true)
          end
      end
  end.

Definition if_nametoindex (lookup : list byte -> Z) (name : str) : result Z if_error :=
  match c_string name with
  | None => Err IfName
  | Some cname => let i := lookup cname in if i =? 0 then Err IfIoctl else Ok i
  end.

(** A name the kernel can have: no NUL, and room for the terminator. *)
Definition valid_name (s : str) : Prop := 0%u8 ∉ str_bytes s /\ len (str_bytes s) < IFNAMSIZ.

#[global] Instance valid_name_dec s : Decision (valid_name s).
Proof. unfold valid_name. apply _. Defined.

(** [ifr_name] for such a name: the name, then zeros. *)
Definition ifr_name_of (s : str) : list byte :=
  str_bytes s ++ zeros (IFNAMSIZ - len (str_bytes s)).

Lemma zeros_drop n k : 0 <= k <= n -> drop (Z.to_nat k) (zeros n) = zeros (n - k).
Proof.
  intros H. unfold zeros. rewrite drop_replicate. f_equal. lia.
Qed.

Lemma ifr_name_splice s : valid_name s ->
  splice (zeros IFNAMSIZ) 0 (str_bytes s ++ [0%u8]) = ifr_name_of s.
Proof.
  intros [_ Hl]. unfold splice, ifr_name_of. pose proof (len_nonneg (str_bytes s)) as Hl0.
  assert (E : len (str_bytes s ++ [0%u8]) = len (str_bytes s) + 1)
    by (rewrite len_app, len_cons, len_nil; lia).
  rewrite E, zeros_drop by lia. change (take (Z.to_nat 0) (zeros IFNAMSIZ)) with (@nil byte).
  rewrite app_nil_l, <- app_assoc. f_equal. unfold zeros.
  replace (Z.to_nat (IFNAMSIZ - len (str_bytes s)))
    with (S (Z.to_nat (IFNAMSIZ - (0 + (len (str_bytes s) + 1))))) by (unfold IFNAMSIZ in *; lia).
  done.
Qed.

Lemma c_string_valid s : valid_name s -> c_string s = Some (str_bytes s ++ [0%u8]).
Proof. intros [H _]. unfold c_string. by rewrite decide_False. Qed.

Lemma len_terminated s : len (str_bytes s ++ [0%u8]) = len (str_bytes s) + 1.
Proof. by rewrite len_app, len_cons, len_nil. Qed.

Lemma get_hw_queues_valid fd ioctl s : valid_name s ->
  get_hw_queues (Some fd) ioctl s =
  match ioctl (ifr_name_of s) with
  | Some c => Done (Ok (combined_count c, max_combined c))
  | None => Done (Err IfIoctl)
  end.
Proof.
  intros Hv. unfold get_hw_queues. rewrite c_string_valid by done. pose proof (len_nonneg (str_bytes s)).
  rewrite copy_to_in; rewrite ?len_terminated; [by rewrite ifr_name_splice; [case_match|]|..];
    destruct Hv as [_ Hl]; unfold zeros, IFNAMSIZ in *; rewrite ?len_replicate; lia.
Qed.

Lemma get_hw_queues_invalid fd ioctl s : ~ valid_name s -> get_hw_queues (Some fd) ioctl s = Panic.
Proof.
  intros Hv. unfold get_hw_queues, c_string. case_decide as Hin; [done|].
  unfold copy_to. rewrite len_terminated. destruct (_ && _) eqn:E; [|done]. exfalso. apply Hv. split; [done|].
  rewrite !andb_true_iff, !Z.leb_le in E. change (len (zeros IFNAMSIZ)) with IFNAMSIZ in E. lia.
Qed.

(** ** Properties *)

(** The queue query behaves on every interface name: a name the kernel can
    have is passed on as sixteen bytes and answered with the combined channel
    counts; any other name, one of sixteen bytes or more or with a NUL inside,
    panics once the socket is open, and none of the sources of the name excludes
    it.  For a name that passes, the MAC query sends the kernel the same bytes. *)
Theorem interface_queries_exact (fd : Z) (ioctl : list byte -> option EthtoolChannels)
    (hwaddr : list byte -> option (list byte)) (interface : str) :
  get_hw_queues None ioctl interface = Done (Err IfSocket) /\
  get_hw_queues (Some fd) ioctl interface =
    (if decide (valid_name interface) then
       match ioctl (ifr_name_of interface) with
       | Some c => Done (Ok (combined_count c, max_combined c))
       | None => Done (Err IfIoctl)
       end
     else Panic) /\
  (valid_name interface ->
   interface_mac (Some fd) hwaddr interface =
     match hwaddr (ifr_name_of interface) with
     | Some sa => (Ok (sub sa 0 6), true)
     | None => (Err IfIoctl, true)
     end).
Proof.
  split; [done|]. split.
  { case_decide as Hv; [by apply get_hw_queues_valid|by apply get_hw_queues_invalid]. }
  intros Hv. unfold interface_mac. rewrite c_string_valid by done.
  rewrite Z.min_l by (destruct Hv; rewrite len_terminated; unfold IFNAMSIZ in *; lia).
  rewrite sub_full by done. by rewrite ifr_name_splice.
Qed.

(** A device that reports receive and transmit channels separately has no combined
    ones: the count is zero, the plan is refused, and the daemon does not start,
    although a comment next to the count says the separate ones are used then. *)
Theorem separate_channels_refused (fd : Z) (interface : str) (rx tx most : Z) (t : Topology)
    (cores1 cores2 queues : Z) :
  valid_name interface -> 0 < queues ->
  get_hw_queues (Some fd) (fun _ => Some (mkChannels most rx tx 0)) interface = Done (Ok (0, most)) /\
  plan_threads t (Some (0, most)) cores1 cores2 (Some queues) = Done (Err (NoWorkers 0 queues cores1)).
Proof.
  intros Hv Hq. rewrite get_hw_queues_valid by done. split; [done|].
  unfold plan_threads, non_zero_worker_count, resolve_thread_count. unfold default, wrap32.
  assert (Z.min (Z.min queues 0) (cores1 mod 2 ^ 32) = 0) as E
    by (pose proof (Z.mod_pos_bound cores1 (2 ^ 32) ltac:(lia)); lia).
  unfold id. by rewrite E.
Qed.

Example long_name_panics :
  get_hw_queues (Some 3) (fun _ => Some (mkChannels 8 0 0 4)) (lit "enp129s0f1np1v12") = Panic /\
  get_hw_queues (Some 3) (fun _ => Some (mkChannels 8 0 0 4)) (lit "enp129s0f1np1v1") = Done (Ok (4, 8)).
Proof. vm_compute. done. Qed.
