(* ===== verification/Startup.v ===== *)
(** * Starting and ending the daemon

    Models [main] of [pesigitg-daemon/src/main.rs] outside of its loop: the order of
    the start-up, every way it can end early, and what each way leaves behind, with
    [daemonize] and [init_logging] of [utils.rs] and the life of the status socket
    ([StatusApi::spawn], [shutdown] and [Drop] of [status_api.rs]).  The program
    loader, the thread plan and the interface queries are those of [Loader],
    [Threading] and [Interface]; the answers of the system are an argument.

    Returning from [main], with or without an error, drops its locals in reverse
    order; [exit!] and a panic (which aborts) drop nothing. *)

From stdpp Require Import gmap.
From S2P Require Import Prelude Std Common Route ConfigTable Neigh DaemonConfig Health Reload.
From S2P Require Import Threading Handoff Interface Loader.

Inductive stage :=
| SArgs | SFork | SSession | SChdir | SDevNull | SLogFormat | SSyslog | SLogger
| SPidOpen | SPidLocked | SPidWrite | SSignals | SAes | SRoute | SEbpf (e : load_error)
| SInherit | SPlan | SMac | SHealth
| SStatusDir | SStatusStale | SStatusBind | SStatusChmod | SStatusThread
| SWorkers.

Inductive outcome :=
| Returned (error : option stage)
| Exited (code : Z)
| Aborted.

(** ** The status socket

    The path holds at most one socket file, named by the process that bound it. *)

Inductive removal := Removed | RemoveNotFound | RemoveFailed.

Record StatusAnswers := mkStatusAnswers {
  sa_mkdir : bool;
  sa_remove : removal;
  sa_bind : bool;
  sa_chmod : bool;
  sa_thread : bool;
}.

(** [std::fs::remove_file(&path)] *)
Definition remove_path (r : removal) (file : option Z) : option Z :=
  match r with Removed => None | _ => file end.

(** [UnixListener::bind] refuses a path that exists; a socket file outlives its
    listener. *)
Definition status_spawn (me : Z) (a : StatusAnswers) (file : option Z) : option Z * result unit stage :=
  if negb (sa_mkdir a) then (file, Err SStatusDir)
  else
    let file := remove_path (sa_remove a) file in
    match sa_remove a with
    | RemoveFailed => (file, Err SStatusStale)
    | Removed | RemoveNotFound =>
        match file with
        | Some _ => (file, Err SStatusBind)
        | None =>
            if negb (sa_bind a) then (file, Err SStatusBind)
            else if negb (sa_chmod a) then (Some me, Err SStatusChmod)
            else if negb (sa_thread a) then (Some me, Err SStatusThread)
            else (Some me, Ok tt)
        end
    end.

(** [shutdown]: the flag, the wake-up and the join come before the removal. *)
Definition status_shutdown (r : removal) (file : option Z) : option Z := remove_path r file.

(** What a client that connects to the path reaches: the process behind the file,
    while it serves. *)
Definition connects (serving : Z -> bool) (file : option Z) : option Z :=
  match file with Some p => if serving p then Some p else None | None => None end.

(** ** The process *)

Inductive Forked := ForkFailed | ForkParent | ForkChild.

Record World (K : Type) := mkWorld {
  w_kernel : K;
  w_cwd : str;
  w_pid_file : bool;
  w_socket : option Z;
  w_api : bool;
  w_workers : bool;
  w_ready : bool;
  w_handoff : bool;
}.
Arguments mkWorld {K}.
Arguments w_kernel {K}.
Arguments w_cwd {K}.
Arguments w_pid_file {K}.
Arguments w_socket {K}.
Arguments w_api {K}.
Arguments w_workers {K}.
Arguments w_ready {K}.
Arguments w_handoff {K}.

(** How the process's calls are answered; [e_alive] tells whether a worker thread
    is still running when [main] returns without having joined them, and [e_work] is
    what the workers did to the kernel's objects. *)
Record Env (K : Type) `{Bpf K} `{Aes128} := mkEnv {
  e_args : option Args;
  e_systemd : bool;
  e_fork1 : Forked;
  e_setsid : bool;
  e_fork2 : Forked;
  e_chdir : bool;
  e_devnull : bool;
  e_log_format : str;
  e_syslog : bool;
  e_logger : bool;
  e_pid_open : bool;
  e_pid_lock : bool;
  e_pid_write : bool;
  e_signals : bool;
  e_aes : bool;
  e_socket : option Z;
  e_channels : list byte -> option EthtoolChannels;
  e_route : str -> rs (option ConfigTable);
  e_query : Z -> result neigh_table unit;
  e_embedded : list byte;
  e_inherit : bool;
  e_topology : Topology;
  e_cores1 : Z;
  e_cores2 : Z;
  e_hwaddr : list byte -> option (list byte);
  e_threads : bool;
  e_alive : bool;
  e_health : bool;
  e_me : Z;
  e_status : StatusAnswers;
  e_loop : Args -> ConfigTable -> rs (option exit_reason);
  e_work : K -> K;
  e_unlink : removal;
}.
Arguments mkEnv {K _ _}.
Arguments e_args {K _ _}.
Arguments e_systemd {K _ _}.
Arguments e_fork1 {K _ _}.
Arguments e_setsid {K _ _}.
Arguments e_fork2 {K _ _}.
Arguments e_chdir {K _ _}.
Arguments e_devnull {K _ _}.
Arguments e_log_format {K _ _}.
Arguments e_syslog {K _ _}.
Arguments e_logger {K _ _}.
Arguments e_pid_open {K _ _}.
Arguments e_pid_lock {K _ _}.
Arguments e_pid_write {K _ _}.
Arguments e_signals {K _ _}.
Arguments e_aes {K _ _}.
Arguments e_socket {K _ _}.
Arguments e_channels {K _ _}.
Arguments e_route {K _ _}.
Arguments e_query {K _ _}.
Arguments e_embedded {K _ _}.
Arguments e_inherit {K _ _}.
Arguments e_topology {K _ _}.
Arguments e_cores1 {K _ _}.
Arguments e_cores2 {K _ _}.
Arguments e_hwaddr {K _ _}.
Arguments e_threads {K _ _}.
Arguments e_alive {K _ _}.
Arguments e_health {K _ _}.
Arguments e_me {K _ _}.
Arguments e_status {K _ _}.
Arguments e_loop {K _ _}.
Arguments e_work {K _ _}.
Arguments e_unlink {K _ _}.

Section main.
  Context {K : Type} `{Bpf K} `{Aes128} (order : gset Z -> list Z).

Definition prog : Type := World K -> World K * outcome.

Definition fail (s : stage) : prog := fun w => (w, Returned (Some s)).
Definition check (ok : bool) (s : stage) (k : prog) : prog := if ok then k else fail s.
Definition update (f : World K -> World K) (k : prog) : prog := fun w => k (f w).

(** A local with a [Drop]: released when the function returns. *)
Definition held (release : World K -> World K) (body : prog) : prog := fun w =>
  match body w with
  | (w, Returned r) => (release w, Returned r)
  | r => r
  end.

Definition set_kernel (f : K -> K) (w : World K) : World K :=
  mkWorld (f (w_kernel w)) (w_cwd w) (w_pid_file w) (w_socket w) (w_api w) (w_workers w) (w_ready w)
    (w_handoff w).
Definition set_cwd (d : str) (w : World K) : World K :=
  mkWorld (w_kernel w) d (w_pid_file w) (w_socket w) (w_api w) (w_workers w) (w_ready w) (w_handoff w).
Definition set_pid_file (b : bool) (w : World K) : World K :=
  mkWorld (w_kernel w) (w_cwd w) b (w_socket w) (w_api w) (w_workers w) (w_ready w) (w_handoff w).
Definition set_status (file : option Z) (api : bool) (w : World K) : World K :=
  mkWorld (w_kernel w) (w_cwd w) (w_pid_file w) file api (w_workers w) (w_ready w) (w_handoff w).
Definition set_workers (b : bool) (w : World K) : World K :=
  mkWorld (w_kernel w) (w_cwd w) (w_pid_file w) (w_socket w) (w_api w) b (w_ready w) (w_handoff w).
Definition set_ready (w : World K) : World K :=
  mkWorld (w_kernel w) (w_cwd w) (w_pid_file w) (w_socket w) (w_api w) (w_workers w) true (w_handoff w).
Definition mark_handoff (w : World K) : World K :=
  mkWorld (w_kernel w) (w_cwd w) (w_pid_file w) (w_socket w) (w_api w) (w_workers w) (w_ready w) true.

Definition daemonize (e : Env K) (k : prog) : prog := fun w =>
  match e_fork1 e with
  | ForkFailed => fail SFork w
  | ForkParent => (w, Exited 0)
  | ForkChild =>
      if negb (e_setsid e) then fail SSession w
      else
        match e_fork2 e with
        | ForkFailed => fail SFork w
        | ForkParent => (w, Exited 0)
        | ForkChild => check (e_chdir e) SChdir (update (set_cwd (lit "/")) (check (e_devnull e) SDevNull k)) w
        end
  end.

Definition init_logging (e : Env K) (foreground : bool) (k : prog) : prog :=
  let format := e_log_format e in
  if bool_decide (format = lit "json") then check (e_logger e) SLogger k
  else if bool_decide (format = []) || bool_decide (format = lit "syslog") then
    if foreground then k else check (e_syslog e) SSyslog (check (e_logger e) SLogger k)
  else fail SLogFormat.

(** [PidFile::create], which creates the file before it locks it, and [Drop]. *)
Definition with_pid_file (e : Env K) (k : prog) : prog :=
  if e_systemd e then k
  else
    check (e_pid_open e) SPidOpen
      (update (set_pid_file true)
         (check (e_pid_lock e) SPidLocked
            (check (e_pid_write e) SPidWrite (held (set_pid_file false) k)))).

(** A path as the kernel resolves it. *)
Definition resolve_path (cwd p : str) : str := if is_relative p then join_relative cwd p else p.

(** The handle is shared with the worker threads; the last owner drops it, and
    threads that still run when [main] returns never do. *)
Definition drop_ebpf (h : EbpfHandle K) (w : World K) : World K :=
  if w_workers w then w
  else set_kernel (drop_handle (if w_handoff w then set_handoff h else h)) w.

Definition api_shutdown (e : Env K) (w : World K) : World K :=
  if w_api w then set_status (status_shutdown (e_unlink e) (w_socket w)) false w else w.

Definition with_status (e : Env K) (path : option str) (k : prog) : prog :=
  match path with
  | None => k
  | Some _ => fun w =>
      match status_spawn (e_me e) (e_status e) (w_socket w) with
      | (file, Err s) => fail s (set_status file false w)
      | (file, Ok _) => held (api_shutdown e) k (set_status file true w)
      end
  end.

(** The exits of the loop. *)
Definition leave_loop (e : Env K) (args : Args) (table : ConfigTable) : prog := fun w =>
  let w := set_kernel (e_work e) w in
  match e_loop e args table with
  | Panic => (w, Aborted)
  | Done None => (w, Returned None)
  | Done (Some Handoff) => (set_workers false (api_shutdown e (mark_handoff w)), Returned None)
  | Done (Some Shutdown) => (set_workers false (api_shutdown e w), Returned None)
  | Done (Some WorkerDied) => (set_workers false (api_shutdown e w), Returned (Some SWorkers))
  end.

(** From the loaded program on. *)
Definition run_daemon (e : Env K) (args : Args) (hw : option (Z * Z)) (table : ConfigTable) : prog :=
  check (e_inherit e) SInherit (fun w =>
  match plan_threads (e_topology e) hw (e_cores1 e) (e_cores2 e) (Some (queues args)) with
  | Panic => (w, Aborted)
  | Done (Err _) => fail SPlan w
  | Done (Ok plan) =>
      match (interface_mac (e_socket e) (e_hwaddr e) (interface args)).1 with
      | Err _ => fail SMac w
      | Ok local_mac =>
          if negb (e_threads e) then (w, Aborted)
          else
            let w := set_ready (set_workers (e_alive e) w) in
            match health_port args with
            | Panic => (w, Aborted)
            | Done port =>
                check (e_health e) SHealth
                  (with_status e (status_socket args) (leave_loop e args table)) w
            end
      end
  end).

Definition with_ebpf (e : Env K) (args : Args) (k : prog) : prog := fun w =>
  match load_ebpf order (e_embedded e) None (interface args) (ports args) (w_kernel w) with
  | (kern, Err s) => fail (SEbpf s) (set_kernel (fun _ => kern) w)
  | (kern, Ok h) => held (drop_ebpf h) k (set_kernel (fun _ => kern) w)
  end.

(** From the signal handlers on. *)
Definition serve (e : Env K) (args : Args) : prog :=
  check (e_signals e) SSignals (check (e_aes e) SAes (fun w =>
    match get_hw_queues (e_socket e) (e_channels e) (interface args) with
    | Panic => (w, Aborted)
    | Done (Err _) => (w, Exited 1)
    | Done (Ok hw) =>
        match e_route e (resolve_path (w_cwd w) (default DEFAULT_ROUTE_CONFIG (routeconfig args))) with
        | Panic => (w, Aborted)
        | Done None => fail SRoute w
        | Done (Some t) =>
            let t := rebuild_fallback_servers (resolve_table (e_query e) t) in
            with_ebpf e args (run_daemon e args (Some hw) t) w
        end
    end)).

Definition main (e : Env K) : prog :=
  match e_args e with
  | None => fail SArgs
  | Some args =>
      (if negb (foreground args) && negb (e_systemd e) then daemonize e else fun k => k)
        (init_logging e (foreground args) (with_pid_file e (serve e args)))
  end.

End main.

(** ** What an end leaves behind *)

Definition status_stage (s : stage) : bool :=
  match s with
  | SStatusDir | SStatusStale | SStatusBind | SStatusChmod | SStatusThread => true
  | _ => false
  end.

(** Stages between loading the program and spawning the workers, and after. *)
Definition before_workers (s : stage) : bool :=
  match s with SInherit | SPlan | SMac => true | _ => false end.
Definition after_workers (s : stage) : bool :=
  match s with SHealth => true | s => status_stage s end.

(** Stages in which nothing is acquired yet. *)
Definition before_main (s : stage) : bool :=
  match s with
  | SArgs | SFork | SSession | SChdir | SDevNull | SLogFormat | SSyslog | SLogger | SPidOpen => true
  | _ => false
  end.

(** Ends after the program was loaded. *)
Definition loaded_stage (r : option stage) : bool :=
  match r with
  | None => true
  | Some s => before_workers s || after_workers s || match s with SWorkers => true | _ => false end
  end.

Section ends.
  Context {K : Type} `{L : BpfLaws K} `{Aes128} (order : gset Z -> list Z).
  Context (order_ok : forall X, order X ≡ₚ elements X).
  Context (Hrm : forall p (k : K), (remove_file p k).2 <> Some false).

(** What happens between loading the program and dropping it. *)
Record ran (e : Env K) (w w' : World K) (o : outcome) : Prop := {
  ran_pins : pins (w_kernel w') = pins (w_kernel w);
  ran_pid : w_pid_file w' = w_pid_file w;
  ran_end :
    match o with
    | Returned (Some s) =>
        w_handoff w' = false /\
        (before_workers s = true /\ w_workers w' = false \/
         after_workers s = true /\ w_workers w' = e_alive e /\ w_ready w' = true \/
         s = SWorkers /\ w_workers w' = false)
    | Returned None => w_handoff w' = true -> w_workers w' = false
    | Exited _ => False
    | Aborted => True
    end;
}.

Lemma spawn_error me a f f' s : status_spawn me a f = (f', Err s) -> status_stage s = true.
Proof. unfold status_spawn. intros E. repeat case_match; by simplify_eq. Qed.

Lemma api_shutdown_same (e : Env K) w :
  w_kernel (api_shutdown e w) = w_kernel w /\ w_pid_file (api_shutdown e w) = w_pid_file w /\
  w_workers (api_shutdown e w) = w_workers w /\ w_ready (api_shutdown e w) = w_ready w /\
  w_handoff (api_shutdown e w) = w_handoff w.
Proof. unfold api_shutdown. by destruct (w_api w). Qed.

Lemma leave_loop_ran (e : Env K) args t w :
  (forall k, pins (e_work e k) = pins k) -> w_handoff w = false -> w_ready w = true ->
  ran e w (leave_loop e args t w).1 (leave_loop e args t w).2.
Proof.
  intros Hw Hh Hr. unfold leave_loop.
  pose proof (api_shutdown_same e (set_kernel (e_work e) w)) as (A1 & A2 & A3 & A4 & A5).
  pose proof (api_shutdown_same e (mark_handoff (set_kernel (e_work e) w))) as (B1 & B2 & B3 & B4 & B5).
  destruct (e_loop e args t) as [[[]|]|]; cbn; split; cbn; rewrite ?A1, ?A2, ?A5, ?B1, ?B2; cbn; auto.
  rewrite Hh. done.
Qed.

Lemma with_status_ran (e : Env K) path args t w :
  (forall k, pins (e_work e k) = pins k) -> w_handoff w = false -> w_ready w = true ->
  w_workers w = e_alive e ->
  let r := with_status e path (leave_loop e args t) w in ran e w r.1 r.2.
Proof.
  intros Hw Hh Hr Ha. destruct path as [path|]; [|by apply leave_loop_ran]. unfold with_status.
  destruct (status_spawn _ _ _) as [f [[]|s]] eqn:E.
  - unfold held. pose proof (leave_loop_ran e args t (set_status f true w) Hw Hh Hr) as [H1 H2 H3].
    destruct (leave_loop e args t (set_status f true w)) as [w' o]. cbn in *.
    pose proof (api_shutdown_same e w') as (A1 & A2 & A3 & A4 & A5).
    destruct o; split; cbn; rewrite ?A1, ?A2, ?A3, ?A4, ?A5; done.
  - apply spawn_error in E. split; cbn; [done..|]. split; [done|]. right. left. split; [by destruct s|done].
Qed.

Lemma run_daemon_ran (e : Env K) args hw t w :
  (forall k, pins (e_work e k) = pins k) -> w_handoff w = false -> w_workers w = false ->
  ran e w (run_daemon e args hw t w).1 (run_daemon e args hw t w).2.
Proof.
  intros Hw Hh Hk. unfold run_daemon, check. destruct (e_inherit e); [|by split; cbn; auto].
  destruct (plan_threads _ _ _ _ _) as [[plan|]|]; [|by split; cbn; auto|by split].
  destruct (interface_mac _ _ _).1; [|by split; cbn; auto]. destruct (e_threads e); [|by split]. cbn [negb].
  set (w1 := set_ready (set_workers (e_alive e) w)).
  destruct (health_port args); [|by split]. destruct (e_health e); [|by split; cbn; auto 8].
  destruct (with_status_ran e (status_socket args) args t w1) as [A B C]; [done..|]. by split.
Qed.

Lemma load_loaded embedded path interface ports (k k' : K) h :
  load_ebpf order embedded path interface ports k = (k', Ok h) ->
  loaded (pin_root_for interface) ports h k'.
Proof.
  unfold load_ebpf. destruct (path_exists _ _) eqn:E.
  - rewrite exists_pin, bool_decide_eq_true in E. destruct (adopt_ebpf _ _ _ _) as [k1 [h1|]] eqn:Ea.
    + intros [= <- <-]. by eapply adopt_loaded.
    + by apply cold_boot_loaded.
  - by apply cold_boot_loaded.
Qed.

(** Dropping the shared handle: the pins go unless the workers still own it or it
    is marked for a handoff. *)
Lemma drop_ebpf_pins h w :
  h_handoff h = false ->
  if w_workers w || w_handoff w then pins (w_kernel (drop_ebpf h w)) = pins (w_kernel w)
  else forall name, name ∈ PIN_NAMES -> path_join (h_pin_root h) name ∉ pins (w_kernel (drop_ebpf h w)).
Proof.
  intros Hh. unfold drop_ebpf. destruct (w_workers w); cbn; [done|]. destruct (w_handoff w); cbn.
  - apply drop_handoff_pins.
  - by apply drop_cold_pins.
Qed.

(** Everything from the route table on. *)
Lemma with_ebpf_ends (e : Env K) args hw t w :
  let '(w', o) := with_ebpf order e args (run_daemon e args hw t) w in
  let root := pin_root_for (interface args) in
  (forall k, pins (e_work e k) = pins k) -> w_handoff w = false -> w_workers w = false ->
  w_pid_file w' = w_pid_file w /\
  match o with
  | Returned (Some (SEbpf _)) => w_workers w' = false
  | Returned r =>
      (if w_workers w' || w_handoff w' then path_join root LINK_PIN_NAME ∈ pins (w_kernel w')
       else forall name, name ∈ PIN_NAMES -> path_join root name ∉ pins (w_kernel w')) /\
      match r with
      | Some s =>
          w_handoff w' = false /\
          (before_workers s = true /\ w_workers w' = false \/
           after_workers s = true /\ w_workers w' = e_alive e /\ w_ready w' = true \/
           s = SWorkers /\ w_workers w' = false)
      | None => w_handoff w' = true -> w_workers w' = false
      end
  | Exited _ => False
  | Aborted => True
  end.
Proof.
  unfold with_ebpf. destruct (load_ebpf _ _ _ _ _ _) as [kern [h|s]] eqn:E; [|by cbn].
  apply load_loaded in E as (Hroot & Hh & Hlink & _). unfold held.
  pose proof (run_daemon_ran e args hw t (set_kernel (fun _ => kern) w)) as Hran.
  destruct (run_daemon e args hw t (set_kernel (fun _ => kern) w)) as [w1 o]. cbn zeta.
  destruct o as [r| |]; intros Hw Ho Hk; destruct Hran as [Hp Hpid Hend]; try done.
  pose proof (drop_ebpf_pins h w1 Hh) as Hd. rewrite Hroot in Hd. cbn in Hp.
  assert (w_pid_file (drop_ebpf h w1) = w_pid_file w1 /\ w_workers (drop_ebpf h w1) = w_workers w1 /\
          w_handoff (drop_ebpf h w1) = w_handoff w1 /\ w_ready (drop_ebpf h w1) = w_ready w1)
    as (-> & -> & -> & ->) by (unfold drop_ebpf; destruct (w_workers w1) eqn:Ew; cbn; by rewrite ?Ew).
  split; [done|].
  assert (Hpins : if w_workers w1 || w_handoff w1
    then path_join (pin_root_for (interface args)) LINK_PIN_NAME ∈ pins (w_kernel (drop_ebpf h w1))
    else forall name, name ∈ PIN_NAMES -> path_join (pin_root_for (interface args)) name ∉ pins (w_kernel (drop_ebpf h w1))).
  { destruct (w_workers w1 || w_handoff w1); [by rewrite Hd, Hp|done]. }
  destruct r as [s|]; [|done]. destruct s; try done. naive_solver.
Qed.

(** What an end after loading leaves on the host: the pins stay exactly when a
    worker still runs or a handoff was asked for, and at an error both are decided
    by the stage. *)
Definition pins_left (e : Env K) (args : Args) (w' : World K) (r : option stage) : Prop :=
  let root := pin_root_for (interface args) in
  (if w_workers w' || w_handoff w' then path_join root LINK_PIN_NAME ∈ pins (w_kernel w')
   else forall name, name ∈ PIN_NAMES -> path_join root name ∉ pins (w_kernel w')) /\
  match r with
  | Some s =>
      w_handoff w' = false /\
      (before_workers s = true /\ w_workers w' = false \/
       after_workers s = true /\ w_workers w' = e_alive e /\ w_ready w' = true \/
       s = SWorkers /\ w_workers w' = false)
  | None => w_handoff w' = true -> w_workers w' = false
  end.

(** The specification of an end of [main]: [w] is the world it started in. *)
Definition ends_as (e : Env K) (args : Args) (w w' : World K) (o : outcome) : Prop :=
  let pid left := w_pid_file w' = if e_systemd e then w_pid_file w else left in
  match o with
  | Exited c => c = 0 /\ w' = w \/ c = 1 /\ pid true
  | Aborted => pid true
  | Returned r =>
      match r with
      | Some s =>
          if before_main s then w_pid_file w' = w_pid_file w /\ w_kernel w' = w_kernel w
          else match s with SPidLocked | SPidWrite => pid true | _ => pid false end
      | None => pid false
      end /\
      (loaded_stage r = true -> pins_left e args w' r)
  end.

Lemma daemonize_cases (e : Env K) k w :
  daemonize e k w = (w, Exited 0) \/
  (exists s w1, daemonize e k w = (w1, Returned (Some s)) /\ before_main s = true /\
     w_pid_file w1 = w_pid_file w /\ w_kernel w1 = w_kernel w) \/
  daemonize e k w = k (set_cwd (lit "/") w).
Proof.
  unfold daemonize, check, update. repeat case_match; eauto; right; left; by eexists _, _.
Qed.

Lemma init_logging_cases (e : Env K) fg k w :
  (exists s, init_logging e fg k w = (w, Returned (Some s)) /\ before_main s = true) \/
  init_logging e fg k w = k w.
Proof.
  unfold init_logging, check. repeat case_match; eauto; left; by eexists _.
Qed.

Context (e : Env K) (Hwork : forall k, pins (e_work e k) = pins k).

Lemma serve_ends args w :
  w_handoff w = false -> w_workers w = false ->
  let '(w', o) := serve order e args w in
  w_pid_file w' = w_pid_file w /\
  match o with
  | Exited c => c = 1
  | Aborted => True
  | Returned r =>
      match r with Some s => before_main s = false /\ s <> SPidLocked /\ s <> SPidWrite | None => True end /\
      (loaded_stage r = true -> pins_left e args w' r)
  end.
Proof.
  intros Hh Hk. unfold serve, check. destruct (e_signals e); [|done]. destruct (e_aes e); [|done].
  destruct (get_hw_queues _ _ _) as [[hw|]|]; [|done..].
  destruct (e_route e _) as [[t|]|]; [|done..]. set (t' := rebuild_fallback_servers _).
  pose proof (with_ebpf_ends e args (Some hw) t' w) as Hw.
  destruct (with_ebpf order e args _ w) as [w' o]. destruct (Hw Hwork Hh Hk) as [Hp Ho]. split; [done|].
  destruct o as [[s|]| |]; [|done..]. destruct s; try done; destruct Ho as [Ho1 Ho2]; split; try done;
    destruct Ho2 as [_ [[E _]|[[E _]|[E _]]]]; try done.
Qed.

Lemma main_ends args w w' o :
  e_args e = Some args -> w_handoff w = false -> w_workers w = false ->
  (e_systemd e = false -> w_pid_file w = false) ->
  main order e w = (w', o) -> ends_as e args w w' o.
Proof.
  intros Ha Hh Hk Hp.
  assert (Hs : forall w1, w_handoff w1 = false -> w_workers w1 = false -> w_pid_file w1 = w_pid_file w ->
    w_kernel w1 = w_kernel w -> with_pid_file e (serve order e args) w1 = (w', o) -> ends_as e args w w' o).
  { intros w1 Hh1 Hk1 Hp1 Hker. unfold with_pid_file, check, update, held.
    destruct (e_systemd e) eqn:Es.
    - pose proof (serve_ends args w1 Hh1 Hk1) as Hse. destruct (serve _ _ _ _) as [w2 o2]. intros [= -> ->].
      destruct Hse as [Hp2 Ho]. unfold ends_as. rewrite Es, Hp2, Hp1.
      destruct o as [[s|]| |]; [|naive_solver..]. destruct Ho as [[-> [??]] ?]. split; [by destruct s|done].
    - destruct (e_pid_open e); [|by intros [= <- <-]].
      destruct (e_pid_lock e); [|intros [= <- <-]; unfold ends_as; by rewrite Es].
      destruct (e_pid_write e); [|intros [= <- <-]; unfold ends_as; by rewrite Es].
      pose proof (serve_ends args (set_pid_file true w1) Hh1 Hk1) as Hse.
      destruct (serve _ _ _ _) as [w2 o2]. destruct Hse as [Hp2 Ho]. cbn in Hp2. unfold ends_as. rewrite Es.
      destruct o2 as [[s|]| |]; intros [= <- <-]; [|naive_solver..]. destruct Ho as [[-> [??]] ?].
      split; [by destruct s|done]. }
  unfold main. rewrite Ha.
  assert (Hl : forall w1, w_handoff w1 = false -> w_workers w1 = false -> w_pid_file w1 = w_pid_file w ->
    w_kernel w1 = w_kernel w ->
    init_logging e (foreground args) (with_pid_file e (serve order e args)) w1 = (w', o) -> ends_as e args w w' o).
  { intros w1 ? ? Hp1 Hk1.
    destruct (init_logging_cases e (foreground args) (with_pid_file e (serve order e args)) w1)
      as [(s & -> & Hs1)| ->]; [|by apply Hs]. intros [= <- <-]. split; [by rewrite Hs1|by destruct s]. }
  destruct (negb _ && negb _); [|by apply Hl].
  destruct (daemonize_cases e (init_logging e (foreground args) (with_pid_file e (serve order e args))) w)
    as [->|[(s & w1 & -> & Hs1 & ? & ?)| ->]]; [| |by apply Hl].
  - intros [= <- <-]. by left.
  - intros [= <- <-]. split; [by rewrite Hs1|by destruct s].
Qed.

End ends.

(** ** Properties *)


(** The status socket comes up over whatever file a former run left at its
    path, is reachable while it serves, and leaves the path free; it takes the path
    from another daemon that serves there, and that daemon's own end then removes
    the file of the one that serves. *)
Theorem status_socket_life (a b : Z) (leftover : option Z) (stale : removal) :
  a <> b -> (stale = RemoveFailed -> False) -> (leftover = None <-> stale = RemoveNotFound) ->
  let up := mkStatusAnswers true in
  status_spawn a (up stale true true true) leftover = (Some a, Ok tt) /\
  connects (fun _ => true) (Some a) = Some a /\
  status_shutdown Removed (Some a) = None /\
  status_spawn b (up Removed true true true) (Some a) = (Some b, Ok tt) /\
  connects (fun p => p =? b) (status_shutdown Removed (Some b)) = None.
Proof.
  intros Hab Hs Hl. cbn. split; [|done]. unfold status_spawn. cbn.
  destruct stale; [done| |by destruct Hs]. by rewrite (proj2 Hl eq_refl).
Qed.

Lemma status_socket_life_witness :
  status_spawn 1 (mkStatusAnswers true Removed true true true) (Some 7) = (Some 1, Ok tt) /\
  connects (fun p => p =? 2) (status_shutdown Removed (Some 2)) = None.
Proof.
  destruct (status_socket_life 1 2 (Some 7) Removed) as (H1 & _ & _ & _ & H5);
    [discriminate|discriminate|split; discriminate|]. split; [exact H1|exact H5].
Defined.

(** ** A host *)

#[local] Existing Instance toy_bpf.
#[local] Existing Instance toy_laws.
#[local] Existing Instance xor_aes.

Definition host_args (route status : option str) (fg : bool) : Args :=
  mkArgs [443] (lit "eth0") 1 None route status fg.

(** Everything succeeds, except that the status socket may not be bound. *)
Definition host (args : Args) (bind : bool) (route : str -> rs (option ConfigTable))
    (loop : rs (option exit_reason)) : Env toy :=
  {| e_args := Some args; e_systemd := false; e_fork1 := ForkChild; e_setsid := true; e_fork2 := ForkChild;
     e_chdir := true; e_devnull := true; e_log_format := []; e_syslog := true; e_logger := true;
     e_pid_open := true; e_pid_lock := true; e_pid_write := true; e_signals := true; e_aes := true;
     e_socket := Some 3; e_channels _ := Some (mkChannels 8 0 0 4); e_route := route;
     e_query _ := Err tt; e_embedded := [0x7f]%u8; e_inherit := true; e_topology := example_topology;
     e_cores1 := 4; e_cores2 := 4; e_hwaddr _ := Some (zeros 14); e_threads := true; e_alive := true;
     e_health := true; e_me := 1; e_status := mkStatusAnswers true RemoveNotFound bind true true;
     e_loop _ _ := loop; e_work k := k; e_unlink := Removed |}.

Definition empty_table : ConfigTable := mkTable [] (replicate 7 None) (replicate 7 None) [] None.

Definition boot (cwd : str) : World toy := mkWorld (mkToy [] ∅) cwd false None false false false false.

Definition any_route (p : str) : rs (option ConfigTable) := Done (Some empty_table).

(** A daemon that cannot bind its status socket returns an error, after it has
    reported readiness, and leaves the XDP program attached. *)
Definition unbound : World toy * outcome :=
  main toy_order (host (host_args None (Some (lit "/run/s.sock")) false) false any_route (Done None)) (boot (lit "/root")).


(** A clean stop and a handoff, side by side. *)
Example stop_and_handoff :
  let run r := (main toy_order (host (host_args None None false) true any_route (Done (Some r))) (boot (lit "/root"))) in
  toy_pins (w_kernel (run Shutdown).1) = [] /\ (run Shutdown).2 = Returned None /\
  toy_pins (w_kernel (run Handoff).1) <> [] /\ (run Handoff).2 = Returned None.
Proof. vm_compute. done. Qed.

(** A relative path is resolved in the directory the daemon moved to: started with
    [-c lb.conf] in [/srv], the daemon finds its route file in the foreground and
    not in the background. *)
Definition srv_files (p : str) : rs (option ConfigTable) :=
  Done (if bool_decide (p = lit "/srv/routes.toml") then Some empty_table else None).

Definition srv_conf : result FileConfig (file_error unit) :=
  file_config_from_file (fun _ => Ok 40) (fun _ => Ok (lit "route_config = routes.toml")) (lit "lb.conf").

Example relative_route_lost :
  srv_conf = Ok (mkFileConfig [] (lit "eth0") 1 (Some (lit "routes.toml")) None) /\
  let run fg := (main toy_order (host (host_args (Some (lit "routes.toml")) None fg) true srv_files
                   (Done (Some Shutdown))) (boot (lit "/srv"))).2 in
  run true = Returned None /\ run false = Returned (Some SRoute).
Proof. vm_compute. done. Qed.
