(* ===== verification/Cli.v ===== *)
(** * The daemon's command line

    Models [parse_cli] and [parse_args] of [pesigitg-daemon/src/args.rs] over crate
    [pico_args]: which options are taken in which order, the loop over the ports,
    and how the file and the defaults complete them ([DaemonConfig.merge_args]).
    The model is of a release build, which has no [--load-ebpf]. *)

From S2P Require Import Prelude Std Common DaemonConfig.

(** ** Crate pico_args

    Options are taken out of the remaining arguments one by one: [contains] takes a
    flag, [opt_value] an option with its value (an error when the value is missing),
    [finish] returns what is left. *)
Class PicoArgs := {
  Arguments : Type;
  contains : list str -> Arguments -> Arguments * bool;
  opt_value : list str -> Arguments -> Arguments * option (option str);
  finish : Arguments -> list str;
}.

(** Taking an option with its value removes it from the remaining arguments, and no
    query adds any. *)
Class PicoLaws `{PicoArgs} : Prop := {
  opt_value_shrinks ks p p' v :
    opt_value ks p = (p', Some (Some v)) -> (length (finish p') < length (finish p))%nat;
  opt_value_le ks p : (length (finish (opt_value ks p).1) <= length (finish p))%nat;
  contains_le ks p : (length (finish (contains ks p).1) <= length (finish p))%nat;
}.

Inductive cli_error :=
| BadOption (long : str)
| UnknownArguments (rest : list str).

Inductive cli_end (A : Type) :=
| CliOk (a : A)
| CliErr (e : cli_error)
| PrintVersion
| PrintHelp
| FileErr
| MergeErr (e : args_error).
#[global] Arguments CliOk {A} a.
#[global] Arguments CliErr {A} e.
#[global] Arguments PrintVersion {A}.
#[global] Arguments PrintHelp {A}.
#[global] Arguments FileErr {A}.
#[global] Arguments MergeErr {A} e.

Section cli.
  Context `{P : PicoArgs}.

Definition keys (short long : string) : list str := [lit short; lit long].

(** [opt_value_from_str::<_, T>]: absent, or a value that parses. *)
Definition opt_parsed {A} (parse : str -> option A) (short long : string) (p : Arguments)
    : Arguments * result (option A) cli_error :=
  match opt_value (keys short long) p with
  | (p, None) => (p, Err (BadOption (lit long)))
  | (p, Some None) => (p, Ok None)
  | (p, Some (Some v)) =>
      (p, match parse v with Some a => Ok (Some a) | None => Err (BadOption (lit long)) end)
  end.

(** [while let Some(port) = ..]; [None] when the fuel is not enough. *)
Fixpoint take_ports (fuel : nat) (p : Arguments) (ports : list Z)
    : option (Arguments * result (list Z) cli_error) :=
  match fuel with
  | O => None
  | S fuel =>
      match opt_parsed parse_u16 "-p" "--port" p with
      | (p, Err e) => Some (p, Err e)
      | (p, Ok None) => Some (p, Ok ports)
      | (p, Ok (Some port)) => take_ports fuel p (ports ++ [port])
      end
  end.

Definition parse_cli (fuel : nat) (p : Arguments) : option (result CliArgs cli_error) :=
  let '(p, foreground) := contains (keys "-f" "--foreground") p in
  match opt_parsed Some "-c" "--config" p with
  | (_, Err e) => Some (Err e)
  | (p, Ok config) =>
  match opt_parsed Some "-i" "--interface" p with
  | (_, Err e) => Some (Err e)
  | (p, Ok interface) =>
  match opt_parsed parse_u32 "-q" "--queues" p with
  | (_, Err e) => Some (Err e)
  | (p, Ok queues) =>
  match opt_parsed Some "-s" "--status-socket" p with
  | (_, Err e) => Some (Err e)
  | (p, Ok status_socket) =>
  match take_ports fuel p [] with
  | None => None
  | Some (_, Err e) => Some (Err e)
  | Some (p, Ok ports) =>
      match finish p with
      | [] => Some (Ok (mkCliArgs ports interface queues config status_socket foreground))
      | rest => Some (Err (UnknownArguments rest))
      end
  end end end end end.

(** [cli.config.as_ref().map(FileConfig::from_file).transpose()]; [read_file] is
    [FileConfig::from_file]. *)
Definition config_file {E} (read_file : str -> result FileConfig E) (cli : CliArgs)
    : result (option FileConfig) E :=
  match cli_config cli with
  | None => Ok None
  | Some path => match read_file path with Ok fc => Ok (Some fc) | Err e => Err e end
  end.

Definition parse_args {E} (read_file : str -> result FileConfig E) (fuel : nat) (p : Arguments)
    : option (cli_end Args) :=
  let '(p, version) := contains (keys "-V" "--version") p in
  if version : bool then Some PrintVersion
  else
    let '(p, help) := contains (keys "-h" "--help") p in
    if help : bool then Some PrintHelp
    else
      match parse_cli fuel p with
      | None => None
      | Some (Err e) => Some (CliErr e)
      | Some (Ok cli) =>
          match config_file read_file cli with
          | Err _ => Some FileErr
          | Ok file => match merge_args cli file with Ok a => Some (CliOk a) | Err e => Some (MergeErr e) end
          end
      end.

(** ** The loop ends *)

Lemma opt_parsed_shrinks {A} (parse : str -> option A) s l p p' a `{!PicoLaws} :
  opt_parsed parse s l p = (p', Ok (Some a)) -> (length (finish p') < length (finish p))%nat.
Proof.
  unfold opt_parsed. destruct (opt_value (keys s l) p) as [p1 [[v|]|]] eqn:E; [|done..].
  destruct (parse v); [|done]. intros [= <- _]. by eapply opt_value_shrinks.
Qed.

Lemma take_ports_ends fuel p ports `{!PicoLaws} :
  (length (finish p) < fuel)%nat ->
  exists p' r, take_ports fuel p ports = Some (p', r) /\
    (forall ps, r = Ok ps -> exists new, ps = ports ++ new /\ Forall (fun q => 0 <= q < 65536) new).
Proof.
  revert p ports. induction fuel as [|fuel IH]; intros p ports Hf; [lia|]. cbn [take_ports].
  destruct (opt_parsed parse_u16 "-p" "--port" p) as [p1 [[port|]|e]] eqn:E.
  - pose proof (opt_parsed_shrinks _ _ _ _ _ _ E) as Hlt.
    destruct (IH p1 (ports ++ [port]) ltac:(lia)) as (p' & r & -> & Hr). exists p', r. split; [done|].
    intros ps Hps. destruct (Hr ps Hps) as (new & -> & Hn). exists (port :: new). rewrite <- app_assoc.
    split; [done|]. constructor; [|done]. unfold opt_parsed in E.
    destruct (opt_value _ p) as [? [[v|]|]]; [|done..]. destruct (parse_u16 v) as [q|] eqn:Ev; [|done].
    injection E as <- <-. apply from_str_radix_range in Ev; lia.
  - exists p1, (Ok ports). split; [done|]. intros ps [= <-]. exists []. by rewrite app_nil_r.
  - by exists p1, (Err e).
Qed.

Lemma opt_parsed_le {A} (parse : str -> option A) s l p p' r `{!PicoLaws} :
  opt_parsed parse s l p = (p', r) -> (length (finish p') <= length (finish p))%nat.
Proof.
  unfold opt_parsed. pose proof (opt_value_le (keys s l) p) as Hle.
  destruct (opt_value (keys s l) p) as [p1 [[v|]|]]; intros [= <- _]; exact Hle.
Qed.

Lemma opt_parsed_value {A} (parse : str -> option A) s l p p' a :
  opt_parsed parse s l p = (p', Ok (Some a)) -> exists v, parse v = Some a.
Proof.
  unfold opt_parsed. destruct (opt_value _ p) as [? [[v|]|]]; [|done..].
  destruct (parse v) eqn:E; [|done]. intros [= _ <-]. eauto.
Qed.

Lemma parse_cli_ends fuel p `{!PicoLaws} :
  (length (finish p) < fuel)%nat ->
  exists r, parse_cli fuel p = Some r /\
    (forall c, r = Ok c -> Forall (fun q => 0 <= q < 65536) (cli_ports c) /\
                           (forall n, cli_queues c = Some n -> 0 <= n)).
Proof.
  intros Hf. unfold parse_cli. pose proof (contains_le (keys "-f" "--foreground") p) as H0.
  destruct (contains _ p) as [p0 fg]. simpl in H0.
  destruct (opt_parsed Some "-c" "--config" p0) as [p1 [cf|e]] eqn:E1; [|by eexists].
  destruct (opt_parsed Some "-i" "--interface" p1) as [p2 [i|e]] eqn:E2; [|by eexists].
  destruct (opt_parsed parse_u32 "-q" "--queues" p2) as [p3 [q|e]] eqn:E3; [|by eexists].
  destruct (opt_parsed Some "-s" "--status-socket" p3) as [p4 [s|e]] eqn:E4; [|by eexists].
  pose proof (opt_parsed_le _ _ _ _ _ _ E1). pose proof (opt_parsed_le _ _ _ _ _ _ E2).
  pose proof (opt_parsed_le _ _ _ _ _ _ E3). pose proof (opt_parsed_le _ _ _ _ _ _ E4).
  destruct (take_ports_ends fuel p4 [] ltac:(lia)) as (p5 & r & -> & Hr).
  destruct r as [ps|e]; [|by eexists]. destruct (Hr ps eq_refl) as (new & -> & Hn).
  destruct (finish p5); [|by eexists]. eexists. split; [done|]. intros c [= <-]. split; [exact Hn|].
  intros n Hq. simpl in Hq. subst q. apply opt_parsed_value in E3 as [v Ev].
  apply from_str_radix_range in Ev; lia.
Qed.

Lemma read_config_file {IoError} (metadata_len : str -> result Z IoError)
    (read_to_string : str -> result str IoError) cli file :
  config_file (file_config_from_file metadata_len read_to_string) cli = Ok file ->
  (forall fc, file = Some fc -> file_wf fc) /\ (cli_config cli = None -> file = None).
Proof.
  unfold config_file. destruct (cli_config cli) as [path|]; [|by intros [= <-]].
  destruct (file_config_from_file _ _ path) as [fc|] eqn:E; [|done]. intros [= <-].
  split; [|done]. intros fc' [= <-]. by eapply from_file_wf.
Qed.

Lemma merge_args_sound cli file a :
  Forall (fun q => 0 <= q < 65536) (cli_ports cli) ->
  (forall n, cli_queues cli = Some n -> 0 <= n) ->
  (forall fc, file = Some fc -> file_wf fc) -> (cli_config cli = None -> file = None) ->
  merge_args cli file = Ok a ->
  Forall (fun q => 0 <= q < 65536) (ports a) /\ 1 <= queues a <= MAX_QUEUES /\
  (cli_ports cli <> [] -> ports a = cli_ports cli) /\
  (config a = None -> health_port a <> Panic).
Proof.
  intros Hp Hq Hw Hn Hm. pose proof (merge_args_ports _ _ _ Hm) as Ha.
  assert (config a = cli_config cli /\ 1 <= queues a <= MAX_QUEUES) as [Hc Hb].
  { revert Hm. unfold merge_args. case_goal; [done|]. intros [= <-]. simpl. split; [done|].
    bools. destruct (cli_queues cli) as [n|]; simpl in *; [specialize (Hq n eq_refl); lia|].
    destruct file as [fc|]; simpl in *; [pose proof (fw_queues _ (Hw fc eq_refl)); lia|].
    unfold DEFAULT_QUEUES, MAX_QUEUES in *. lia. }
  split_and!; [|lia..| |]; unfold health_port; rewrite Ha.
  - case_goal; [|done]. destruct file as [fc|]; [apply (fw_ports _ (Hw fc eq_refl))|].
    unfold DEFAULT_PORT. constructor; [lia|done].
  - intros ?. by rewrite bool_decide_eq_false_2.
  - rewrite Hc. intros Hcf. rewrite (Hn Hcf). case_goal; bools; [done|].
    by destruct (cli_ports cli).
Qed.

(** ** Properties *)

Section properties.
  Context {IoError : Type} `{!PicoLaws}.
  Context (metadata_len : str -> result Z IoError) (read_to_string : str -> result str IoError).

(** C37. Reading the command line ends for every sequence of arguments: fuel above their
    number is enough for the loop over the ports. When it yields settings, every port fits
    sixteen bits, the queue count is between one and the maximum whichever of command line,
    file and defaults it came from, and a daemon started without a configuration file has a
    port to probe. *)
Theorem parse_args_total (fuel : nat) (p : Arguments) :
  (length (finish p) < fuel)%nat ->
  exists r, parse_args (file_config_from_file metadata_len read_to_string) fuel p = Some r /\
    forall a, r = CliOk a ->
      Forall (fun q => 0 <= q < 65536) (ports a) /\ 1 <= queues a <= MAX_QUEUES /\
      (config a = None -> health_port a <> Panic).
Proof.
  intros Hf. unfold parse_args. pose proof (contains_le (keys "-V" "--version") p) as H0.
  destruct (contains _ p) as [p0 [|]]; [by eexists|]. simpl in H0.
  pose proof (contains_le (keys "-h" "--help") p0) as H1.
  destruct (contains _ p0) as [p1 [|]]; [by eexists|]. simpl in H1.
  destruct (parse_cli_ends fuel p1 ltac:(lia)) as ([cli|e] & -> & Hc); [|by eexists].
  destruct (Hc cli eq_refl) as [Hports Hq].
  destruct (config_file _ cli) as [file|] eqn:Ef; [|by eexists].
  apply read_config_file in Ef as [Hw Hn].
  destruct (merge_args cli file) as [a|e] eqn:Em; [|by eexists]. eexists. split; [done|].
  intros a' [= <-]. pose proof (merge_args_sound _ _ _ Hports Hq Hw Hn Em). naive_solver.
Qed.

End properties.
End cli.

(** ** A command line *)

Section words.

(** The first of [ks] among the words, with the words before and after it. *)
Fixpoint split_at_key (ks : list str) (ws : list str) : option (list str * list str) :=
  match ws with
  | [] => None
  | w :: ws =>
      if bool_decide (w ∈ ks) then Some ([], ws)
      else match split_at_key ks ws with Some (a, b) => Some (w :: a, b) | None => None end
  end.

Definition words_contains (ks ws : list str) : list str * bool :=
  match split_at_key ks ws with Some (a, b) => (a ++ b, true) | None => (ws, false) end.

Definition words_value (ks ws : list str) : list str * option (option str) :=
  match split_at_key ks ws with
  | Some (a, v :: b) => (a ++ b, Some (Some v))
  | Some (a, []) => (ws, None)
  | None => (ws, Some None)
  end.

End words.

#[local] Instance words : PicoArgs :=
  { Arguments := list str; contains := words_contains; opt_value := words_value; finish := id }.

Lemma split_at_key_length ks ws a b :
  split_at_key ks ws = Some (a, b) -> length ws = S (length a + length b).
Proof.
  revert a. induction ws as [|w ws IH]; intros a; cbn [split_at_key]; [done|].
  case_goal; [by intros [= <- <-]|]. destruct (split_at_key ks ws) as [[a' b']|]; [|done].
  intros [= <- <-]. simpl. by rewrite (IH a' eq_refl).
Qed.

#[local] Instance words_laws : PicoLaws.
Proof.
  split; cbn -[words_value words_contains].
  - intros ks p p' v. unfold words_value. destruct (split_at_key ks p) as [[a [|w b]]|] eqn:E; [done| |done].
    intros [= <- <-]. apply split_at_key_length in E. rewrite length_app. simpl in *. unfold id. lia.
  - intros ks p. unfold words_value, id.
    destruct (split_at_key ks p) as [[a [|w b]]|] eqn:E; simpl; [lia| |lia].
    apply split_at_key_length in E. rewrite length_app. simpl in *. lia.
  - intros ks p. unfold words_contains, id. destruct (split_at_key ks p) as [[a b]|] eqn:E; simpl; [|lia].
    apply split_at_key_length in E. rewrite length_app. lia.
Qed.

Definition example_words : list str :=
  [lit "-p"; lit "443"; lit "-q"; lit "4"; lit "--port"; lit "8443"; lit "-f"].

Lemma parse_args_total_witness :
  parse_args (file_config_from_file (IoError := unit) (fun _ => Err tt) (fun _ => Err tt)) 8 example_words
    = Some (CliOk (mkArgs [443; 8443] DEFAULT_INTF 4 None None None true)) /\
  exists r, parse_args (file_config_from_file (IoError := unit) (fun _ => Err tt) (fun _ => Err tt)) 8
              example_words = Some r /\
    forall a, r = CliOk a ->
      Forall (fun q => 0 <= q < 65536) (ports a) /\ 1 <= queues a <= MAX_QUEUES /\
      (config a = None -> health_port a <> Panic).
Proof.
  split; [vm_compute; reflexivity|]. apply parse_args_total. vm_compute. repeat constructor.
Defined.

(** An option without its value, a port out of range and a word that is no option. *)
Example command_lines_refused :
  let run ws := parse_args (file_config_from_file (IoError := unit) (fun _ => Err tt) (fun _ => Err tt)) 8
                  (map lit ws) in
  run ["-q"]%string = Some (CliErr (BadOption (lit "--queues"))) /\
  run ["-p"; "65536"]%string = Some (CliErr (BadOption (lit "--port"))) /\
  run ["-x"]%string = Some (CliErr (UnknownArguments [lit "-x"])) /\
  run ["-q"; "0"]%string = Some (MergeErr ArgsQueuesRange) /\
  run ["-c"; "/etc/x"]%string = Some FileErr /\
  run ["-q"; "-V"]%string = Some PrintVersion.
Proof. vm_compute. done. Qed.
