(* ===== verification/Fuzz.v ===== *)
(** * The fuzz targets

    Models the five harnesses of [pesigitg-daemon/fuzz/fuzz_targets/]: each feeds
    arbitrary bytes to a parser and looks for a panic.  Here the absence of panics
    is proved for all inputs, with the exception that the configuration parser
    has. *)

From S2P Require Import Prelude Std Common Text Route Cid ConnTable Initial LoadRate RetryConfig.
From S2P Require Import ConfigTable Frame Packet.

Section targets.
  Context `{Aes : Aes128} {TomlError : Type}.
  Context (toml_routes : str -> result (list RawConfig) TomlError).
  Context (toml_retry : str -> result (option RawRetry) TomlError).

(** [cid_extract]: the first byte is the CID length, the rest the packet. *)
Definition fuzz_cid_extract (data : list byte) : rs unit :=
  let '(cid_length, quic) := match data with b :: rest => (u8 b, rest) | [] => (0, []) end in
  let* _ := extract_raw_dcid quic cid_length in
  let* _ := extract_scid quic in
  Done tt.

Definition fuzz_packet_parse (data : list byte) : rs unit :=
  let* _ := parse_frame data in Done tt.

Definition fuzz_initial_parse (data : list byte) : rs unit :=
  let* _ := parse_strict data in Done tt.

(** [config_parse]: input that is not UTF-8 is skipped. *)
Definition fuzz_config_parse (now : Instant) (tracker : tracker_ref) (data : list byte) : rs unit :=
  match from_utf8 data with
  | None => Done tt
  | Some s =>
      let* _ := table_from_str (IoError := unit) toml_routes toml_retry now tracker s in
      Done tt
  end.

(** The entries of [FIXTURE_TOML]: one configuration per encryption mode. *)
Definition fixture_server (id address : str) : RawServer := mkRawServer id address None false.

Definition FIXTURE : list RawConfig :=
  [mkRawConfig 0%u8 false 2%u8 5%u8 None
     [fixture_server (lit "0001") (lit "10.0.0.1"); fixture_server (lit "0002") (lit "10.0.0.2")] None;
   mkRawConfig 1%u8 false 3%u8 13%u8 (Some (lit "000102030405060708090a0b0c0d0e0f"))
     [fixture_server (lit "000001") (lit "10.0.1.10")] None;
   mkRawConfig 2%u8 false 3%u8 4%u8 (Some (lit "0123456789abcdef0123456789abcdef"))
     [fixture_server (lit "000005") (lit "10.0.2.5")] None].

(** [cid_decrypt]: the table is parsed once, with [unwrap]; [text] is the fixture. *)
Definition fuzz_cid_decrypt (now : Instant) (tracker : tracker_ref) (text : str) (data : list byte)
    : rs unit :=
  let* r := table_from_str (IoError := unit) toml_routes toml_retry now tracker text in
  match r with
  | Err _ => Panic
  | Ok table =>
      let* found := lookup_config data table in
      match found with
      | None => Done tt
      | Some (dcid, cfg) => let* _ := resolve_server_idx dcid cfg in Done tt
      end
  end.

(** ** When the configuration parser returns *)

(** Hex text on which [hex_decode] does not cut a character. *)
Definition hex_ok (s : str) : Prop := returns (hex_decode s).

Definition raw_hex_ok (raw : RawConfig) : Prop :=
  (forall k, raw_key raw = Some k -> hex_ok k) /\ Forall (fun s => hex_ok (raw_id s)) (raw_servers raw).

Ltac ret := solve [eexists; reflexivity].

Lemma parse_hex_key_returns s : hex_ok s -> returns (parse_hex_key s).
Proof.
  intros [r Hr]. unfold parse_hex_key, rs_map_err. rewrite Hr. destruct r as [bytes|]; [|ret].
  cbn [map_err]. case_goal; [ret|]. rewrite copy_whole by (rewrite ?len_zeros; lia). ret.
Qed.

Lemma parse_server_returns raw n : hex_ok (raw_id raw) -> returns (parse_server raw n).
Proof.
  intros [r Hr]. unfold parse_server, rs_map_err. case_goal; [ret|]. rewrite Hr.
  destruct r as [id|]; [|ret]. cbn [map_err]. case_goal; [ret|].
  destruct (parse_ip _); [|ret]. destruct (raw_mac raw) as [t|]; [|ret].
  destruct (mac_parse_total t) as ([m|] & -> & _); ret.
Qed.

Lemma parse_servers_returns l n : Forall (fun s => hex_ok (raw_id s)) l -> returns (parse_servers l n).
Proof.
  induction 1 as [|s l Hs _ [r IH]]; cbn [parse_servers]; [ret|].
  destruct (parse_server_returns s n Hs) as [[v|] ->]; [|ret]. rewrite IH.
  destruct r; ret.
Qed.

Lemma validate_returns raw : raw_hex_ok raw -> returns (validate raw).
Proof.
  intros [Hk Hs]. unfold validate. do 4 (case_goal; [ret|]).
  destruct (parse_servers_returns _ (u8 (raw_server_id_length raw)) Hs) as [r Hr].
  assert (forall enc, returns (let*+ srvs := parse_servers (raw_servers raw) (u8 (raw_server_id_length raw)) in
    match raw_max_key_age_secs raw with
    | Some 0%N => Done (Err (MaxKeyAgeZero (u8 (raw_config_id raw))))
    | _ => Done (Ok (mkRouteConfig (u8 (raw_config_id raw)) (raw_first_octet raw)
             (u8 (raw_server_id_length raw)) (u8 (raw_nonce_length raw)) enc srvs (raw_max_key_age_secs raw)))
    end)) as Hrest.
  { intros enc. rewrite Hr. destruct r; [|ret]. destruct (raw_max_key_age_secs raw) as [[]|]; ret. }
  destruct (raw_key raw) as [k|] eqn:Ek; [|apply Hrest].
  destruct (parse_hex_key_returns k (Hk k eq_refl)) as [[key|] ->]; [apply Hrest|ret].
Qed.

Lemma parse_configs_returns raws seen out :
  Forall raw_hex_ok raws -> length seen = 7%nat -> returns (parse_configs raws seen out).
Proof.
  intros H. revert seen out. induction H as [|raw raws Hraw _ IH]; intros seen out Hl; cbn [parse_configs];
    [ret|].
  destruct (validate_returns raw Hraw) as [[c|] Hv]; rewrite Hv; [|ret].
  destruct (validate_ok _ _ Hv) as ([Hid _ _ _ _ _ _] & _).
  rewrite idx_in by (unfold len; lia). case_match; [ret|].
  rewrite set_at_in by (unfold len; lia). apply IH. by rewrite length_insert.
Qed.

Definition raw_retry_hex_ok (raw : RawRetry) : Prop := forall k, raw_token_key raw = Some k -> hex_ok k.

Lemma retry_validate_returns tracker now raw :
  raw_retry_hex_ok raw -> returns (retry_validate tracker now raw).
Proof.
  intros Hk. unfold retry_validate. destruct (parse_mode _) as [mode|]; [|ret].
  case_goal; [ret|].
  assert (returns (retry_key raw)) as [[key|] ->]; [| |ret].
  { unfold retry_key, parse_hex_retry_key, rs_map_err. destruct (raw_token_key raw) as [k|] eqn:Ek;
      [|case_match; ret].
    destruct (Hk k Ek) as [[bs|] ->]; cbn [map_err]; [|ret]. case_goal; [ret|].
    rewrite copy_whole by (rewrite ?len_zeros; lia). ret. }
  destruct (retry_trigger _ _); [|ret].
  destruct (raw_retry_max_key_age_secs raw) as [[]|]; ret.
Qed.

(** What the deserializer produced from a text has no such hex text. *)
Definition text_hex_ok (text : str) : Prop :=
  (forall raws, toml_routes text = Ok raws -> Forall raw_hex_ok raws) /\
  (forall raw, toml_retry text = Ok (Some raw) -> raw_retry_hex_ok raw).

Lemma table_from_str_returns now tracker text :
  text_hex_ok text -> returns (table_from_str (IoError := unit) toml_routes toml_retry now tracker text).
Proof.
  intros [Hr Ht]. unfold table_from_str, rs_map_err.
  assert (returns (parse_routes (IoError := unit) toml_routes text)) as [r Hp].
  { unfold parse_routes, rs_map_err. destruct (toml_routes text) as [raws|]; [|ret].
    destruct raws as [|raw raws]; [ret|].
    destruct (parse_configs_returns (raw :: raws) (replicate 7 false) [] (Hr _ eq_refl) eq_refl) as [? ->].
    ret. }
  rewrite Hp. destruct r as [cs|]; cbn [map_err]; [|ret].
  apply parse_routes_facts in Hp as [_ Hwf].
  destruct (fill_slots_ok cs now _ _ Hwf (filled_empty now)) as (ss & ats & -> & _).
  destruct (toml_retry text) as [[raw|]|]; [|ret..].
  destruct (retry_validate_returns tracker now raw (Ht raw eq_refl)) as [[?|] ->]; cbn [map_err]; ret.
Qed.

Lemma fixture_parses now tracker text :
  toml_routes text = Ok FIXTURE -> toml_retry text = Ok None ->
  exists t, table_from_str (IoError := unit) toml_routes toml_retry now tracker text = Done (Ok t) /\
    Forall nonce_fits (configs t).
Proof.
  intros Hr Ht. unfold table_from_str, parse_routes. rewrite Hr, Ht.
  eexists. split; [vm_compute; reflexivity|]. vm_compute. repeat constructor; discriminate.
Qed.

Lemma fixture_resolves now tracker text data `{!AesLaws} :
  toml_routes text = Ok FIXTURE -> toml_retry text = Ok None ->
  returns (fuzz_cid_decrypt now tracker text data).
Proof.
  intros Hr Ht. destruct (fixture_parses now tracker text Hr Ht) as (t & Hp & Hfit). unfold fuzz_cid_decrypt.
  rewrite Hp. apply table_from_str_ok in Hp as (Hwf & Hpool & _).
  destruct (lookup_config_returns data t Hwf) as [[[dcid cfg]|] Hl]; rewrite Hl; [|ret].
  assert (Hlive : table_live t).
  { split; [done| |by rewrite Hpool]. intros c Hc. by apply (proj1 (list.Forall_forall _ _) Hfit). }
  destruct (resolve_live t cfg dcid Hlive (lookup_config_configs _ _ _ _ Hl)) as (r & -> & _). ret.
Qed.

End targets.

(** ** Properties *)

(** No input makes a fuzz target panic, with one exception: the CID
    extractors, the frame parser, the Initial parser and the CID decoder over the
    fixture's three encryption modes return on every input; so does the
    configuration parser, whatever the TOML deserializer yields, provided that no
    hex string in it has a character cut in two by its pairs. *)
Theorem fuzz_targets_return `{AesLaws} {TomlError} (toml_routes : str -> result (list RawConfig) TomlError)
    (toml_retry : str -> result (option RawRetry) TomlError) (now : Instant) (tracker : tracker_ref)
    (text : str) (data : list byte) :
  returns (fuzz_cid_extract data) /\ returns (fuzz_packet_parse data) /\ returns (fuzz_initial_parse data) /\
  (toml_routes text = Ok FIXTURE -> toml_retry text = Ok None ->
   returns (fuzz_cid_decrypt toml_routes toml_retry now tracker text data)) /\
  ((forall s, from_utf8 data = Some s -> text_hex_ok toml_routes toml_retry s) ->
   returns (fuzz_config_parse toml_routes toml_retry now tracker data)).
Proof.
  split; [|split; [|split; [|split]]].
  - unfold fuzz_cid_extract. assert (forall n quic, 0 <= n -> returns (let* _ := extract_raw_dcid quic n in
      let* _ := extract_scid quic in Done tt)) as Hr.
    { intros n quic Hn. rewrite extract_raw_dcid_spec by done. destruct (extract_scid_returns quic) as [? ->].
      apply returns_Done. }
    destruct data as [|b rest]; [by apply Hr|]. apply Hr. apply u8_range.
  - unfold fuzz_packet_parse. destruct (parse_frame_parses data) as [->|(p & -> & _)]; apply returns_Done.
  - unfold fuzz_initial_parse. destruct (parse_strict_returns data) as [? ->]. apply returns_Done.
  - intros Hr Ht. by apply fixture_resolves.
  - intros Hok. unfold fuzz_config_parse. destruct (from_utf8 data) as [s|]; [|apply returns_Done].
    destruct (table_from_str_returns toml_routes toml_retry now tracker s (Hok s eq_refl)) as [? ->].
    apply returns_Done.
Qed.

(** The exception: a server id of the right length in bytes whose middle character
    takes two of them.  The harness's documentation expects every UTF-8 string to be
    survived. *)
Definition straddling : RawConfig :=
  mkRawConfig 0%u8 false 2%u8 5%u8 None [fixture_server [97; 233; 49] (lit "10.0.0.1")] None.

Theorem config_parse_panics `{Aes128} {TomlError} (toml_routes : str -> result (list RawConfig) TomlError)
    (toml_retry : str -> result (option RawRetry) TomlError) (now : Instant) (tracker : tracker_ref)
    (data : list byte) (s : str) :
  from_utf8 data = Some s -> toml_routes s = Ok [straddling] ->
  fuzz_config_parse toml_routes toml_retry now tracker data = Panic.
Proof.
  intros Hu Hr. unfold fuzz_config_parse, table_from_str, parse_routes. rewrite Hu, Hr. vm_compute. reflexivity.
Qed.

#[local] Existing Instance xor_aes.
#[local] Existing Instance xor_aes_laws.

(** A CID of the four-pass configuration, and one of the single-pass one that is
    too short. *)
Lemma fuzz_targets_return_witness :
  returns (fuzz_cid_decrypt (fun _ => Ok FIXTURE) (fun _ => Ok (E := unit) None) 0 1%positive []
    [0x40; 0x40; 1; 2; 3; 4; 5; 6; 7]%u8).
Proof.
  destruct (fuzz_targets_return (TomlError := unit) (fun _ => Ok FIXTURE) (fun _ => Ok None) 0 1%positive []
    [0x40; 0x40; 1; 2; 3; 4; 5; 6; 7]%u8) as (_ & _ & _ & H & _). apply H; reflexivity.
Defined.
