(* ===== verification/Display.v ===== *)
(** * Printed forms

    Models the [Display] and [Debug] impls whose text reaches the log or the
    terminal: of [pesigitg-routing/src/route.rs], [config/route.rs],
    [config/retry.rs], [config/daemon.rs], [args.rs], [stats.rs], [retry/token.rs]
    and [contrib/quic-lb-core], and the sender suffix of [main.rs].  The main
    theorem is that none of them depends on key material. *)

From S2P Require Import Prelude Std Decimal Text Common Route Token LoadRate RetryConfig ConfigTable.
From S2P Require Import DaemonConfig Stats Status.

(** [fmt::Display] and [fmt::Debug]. *)
Class Show (A : Type) := show : A -> str.
Class ShowDebug (A : Type) := show_debug : A -> str.

Definition line (s : str) : str := s ++ [10].
Definition labelled (label : string) (s : str) : str := line (lit label ++ s).

#[export] Instance show_str : Show str := fun s => s.
#[export] Instance show_Z : Show Z := fmt_dec.
#[export] Instance show_bool : Show bool := fun b => if b then lit "true" else lit "false".
#[export] Instance show_ip : Show IpAddr := ip_to_string.

(** [{:?}] of a vector of integers. *)
Definition show_list (l : list Z) : str := lit "[" ++ join (lit ", ") (map fmt_dec l) ++ lit "]".

Definition hex_of (bs : list byte) : str := concat (map fmt_02x bs).
Definition mac_text (m : mac) : str := join (lit ":") (map fmt_02x m).

(** ** Keys *)

#[export] Instance TokenKey_debug : ShowDebug TokenKey :=
  fun _ => lit "TokenKey { key: " ++ [34] ++ lit "<redacted>" ++ [34] ++ lit " }".

Section display.
  Context `{Aes : Aes128}.

(** The [Debug] impls of [pesigitg-routing] and of [quic-lb-core] are the same. *)
#[export] Instance Encryption_debug : ShowDebug Encryption := fun e =>
  match e with
  | Plaintext => lit "Plaintext"
  | SinglePass _ _ => lit "SinglePass"
  | FourPass _ _ => lit "FourPass"
  end.

#[export] Instance Encryption_show : Show Encryption := fun e =>
  match e with
  | Plaintext => lit "plaintext"
  | SinglePass _ _ => lit "single-pass AES-ECB"
  | FourPass _ _ => lit "four-pass block cipher"
  end.

(** ** Routes *)

#[export] Instance Server_show : Show Server := fun s =>
  match s_mac s with
  | Some m => hex_of (s_id s) ++ lit " -> " ++ show (s_address s) ++ lit " (mac: " ++ mac_text m ++ lit ")"
  | None => hex_of (s_id s) ++ lit " -> " ++ show (s_address s)
  end.

#[export] Instance RouteConfig_show : Show RouteConfig := fun c =>
  labelled "config_id:        " (show (config_id c)) ++
  labelled "first_octet_len:  " (show (first_octet_encodes_cid_length c)) ++
  labelled "server_id_length: " (show (server_id_length c)) ++
  labelled "nonce_length:     " (show (nonce_length c)) ++
  labelled "cid_length:       " (show (cid_length c) ++ lit " (1 + " ++ show (cid_payload_length c) ++ lit ")") ++
  labelled "encryption:       " (show (encryption c)) ++
  match servers c with
  | [] => lit "servers:          0"
  | ss => labelled "servers:          " (show (len ss)) ++ join [10] (map (fun s => lit "  " ++ show s) ss)
  end.

Definition route_error_text {IoE TomlE} `{Show IoE} `{Show TomlE} (msg : validation_error -> str)
    (e : RouteConfigError IoE TomlE) : str :=
  match e with
  | RouteIo e => lit "config I/O error: " ++ show e
  | RouteParse e => lit "config parse error: " ++ show e
  | RouteValidation e => lit "config validation error: " ++ msg e
  end.

(** ** Retry settings *)

#[export] Instance RetryMode_show : Show RetryMode := fun m =>
  match m with Observe => lit "observe" | Always => lit "always" | LoadMode => lit "load" end.

#[export] Instance RetryConfig_show : Show RetryConfig := fun r =>
  labelled "enabled:          " (show (r_enabled r)) ++
  labelled "mode:             " (show (r_mode r)) ++
  labelled "token_lifetime:   " (show (token_lifetime_ms r) ++ lit " ms") ++
  labelled "ports:            " (match r_ports r with [] => lit "all" | ps => show_list ps end) ++
  match load_trigger_rate r with
  | Some rate => lit "load_trigger:     " ++ show rate ++ lit " pps"
  | None => lit "load_trigger:     n/a"
  end.

(** ** The table *)

Definition server_line (s : Server) : str :=
  let m := match s_mac s with Some m => mac_text m | None => lit "unresolved" end in
  let flags := (if s_draining s then [lit "draining"] else []) ++
               (if negb (s_healthy s) then [lit "unhealthy"] else []) in
  let flag_str := match flags with [] => lit "healthy" | _ => join (lit ", ") flags end in
  line (lit "      " ++ hex_of (s_id s) ++ lit " -> " ++ show (s_address s) ++ lit " mac=" ++ m ++
        lit " [" ++ flag_str ++ lit "]").

Definition config_lines_of (rc : RouteConfig) : str :=
  line (lit "  config_id " ++ show (config_id rc) ++ lit ":") ++
  labelled "    encryption:     " (show_debug (encryption rc)) ++
  labelled "    server_id_len:  " (show (server_id_length rc)) ++
  labelled "    nonce_len:      " (show (nonce_length rc)) ++
  labelled "    cid_length:     " (show (cid_length rc)) ++
  match servers rc with
  | [] => line (lit "    servers:        (none)")
  | ss => line (lit "    servers:") ++ concat (map server_line ss)
  end.

#[export] Instance ConfigTable_show : Show ConfigTable := fun t =>
  labelled "route config: " (path t) ++
  match configs t with
  | [] => line (lit "  (no active configs)")
  | active => concat (map config_lines_of active)
  end ++
  line (lit "  fallback pool: " ++ show (len (fallback_servers t)) ++ lit " servers") ++
  concat (map (fun s => labelled "    " (show (s_address s))) (fallback_servers t)) ++
  match retry t with
  | Some rc => line (lit "  retry:") ++ concat (map (labelled "    ") (lines (show rc)))
  | None => line (lit "  retry: disabled")
  end.

End display.

(** ** Daemon settings *)

#[export] Instance FileConfig_show : Show FileConfig := fun fc =>
  line (lit "daemon config:") ++
  labelled "  interface: " (fc_interface fc) ++
  labelled "  queues: " (show (fc_queues fc)) ++
  line (lit "  ports:" ++ concat (map (fun p => lit " " ++ show p) (fc_ports fc))) ++
  labelled "  route config: " (default (lit "<none>") (fc_route_config fc)) ++
  labelled "  status socket: " (default (lit "<disabled>") (fc_status_socket fc)).

(** As in a release build, which has no override for the eBPF object. *)
#[export] Instance Args_show : Show Args := fun a =>
  line (lit "daemon args:") ++
  labelled "  interface:      " (interface a) ++
  labelled "  ports:          " (show_list (ports a)) ++
  labelled "  queues:         " (show (queues a)) ++
  labelled "  foreground:     " (show (foreground a)) ++
  labelled "  config:         " (default (lit "(none)") (config a)) ++
  labelled "  route config:   " (default (lit "(default)") (routeconfig a)) ++
  labelled "  status socket:  " (default (lit "(disabled)") (status_socket a)).

(** ** Counters *)

(** [format_cid_by_config]: the non-zero counts, in brackets when there are any. *)
Fixpoint cid_parts (i : Z) (counts : list Z) : list str :=
  match counts with
  | [] => []
  | n :: r => (if 0 <? n then [lit "c" ++ show i ++ lit "=" ++ show n] else []) ++ cid_parts (i + 1) r
  end.

Definition format_cid_by_config (counts : list Z) : str :=
  match cid_parts 0 counts with
  | [] => []
  | parts => lit " [" ++ join (lit " ") parts ++ lit "]"
  end.

#[export] Instance Snapshot_show : Show WorkerStats := fun s =>
  let no_server := cid_unroutable_no_server s in
  let bad_id := cid_unroutable_bad_server_id s in
  let opt (b : bool) (t : str) := if b then t else [] in
  lit "rx=" ++ show (rx_packets s) ++ lit " fwd=" ++ show (forwarded s) ++
  lit " (cid=" ++ show (cid_routed s) ++ format_cid_by_config (cid_by_config s) ++
  opt ((0 <? no_server) || (0 <? bad_id))
    (lit " cid_unroutable=" ++ show (wrap64 (no_server + bad_id)) ++
     opt (0 <? bad_id) (lit "(no_srv=" ++ show no_server ++ lit " bad_id=" ++ show bad_id ++ lit ")")) ++
  opt (0 <? draining_forwarded s) (lit " draining=" ++ show (draining_forwarded s)) ++
  lit " fallback=" ++ show (fallback_routed s) ++ lit " icmp=" ++ show (icmp_forwarded s) ++
  lit ") pass=" ++ show (passed s) ++
  opt (0 <? pending_fill_peak s) (lit " pending_fill_peak=" ++ show (pending_fill_peak s)) ++
  opt (0 <? retry_initials_seen s)
    (lit " retry(seen=" ++ show (retry_initials_seen s) ++ lit " issued=" ++ show (retry_issued s) ++
     lit " valid=" ++ show (retry_token_validated s) ++ lit " invalid=" ++ show (retry_token_invalid s) ++
     lit " expired=" ++ show (retry_token_expired s) ++ lit " parse_err=" ++ show (retry_parse_error s) ++ lit ")").

(** [format_sender]: the sender of a signal, when the kernel tells. *)
Definition format_sender (process : option (Z * Z)) : str :=
  match process with
  | Some (pid, uid) => lit " from pid " ++ show pid ++ lit " uid " ++ show uid
  | None => []
  end.

(** ** What the texts do not depend on *)

Section redacted.
  Context `{Aes : Aes128}.

Definition rekey (r : RetryConfig) (k : TokenKey) : RetryConfig :=
  mkRetryConfig (r_enabled r) k (token_lifetime_ms r) (r_mode r) (r_ports r) (load_trigger_rate r)
    (load_tracker r) (r_loaded_at r) (r_max_key_age_secs r).

(** The same settings but for the token key. *)
Definition retry_rekeyed (r r' : RetryConfig) : Prop := exists k, r' = rekey r k.

(** The same table but for its keys; the load times may differ as well. *)
Record text_pub (t t' : ConfigTable) : Prop := {
  xp_path : path t = path t';
  xp_slots : Forall2 (option_Forall2 config_pub) (slots t) (slots t');
  xp_fallback : fallback_servers t = fallback_servers t';
  xp_retry : option_Forall2 retry_rekeyed (retry t) (retry t');
}.

Lemma encryption_debug_pub c c' :
  config_pub c c' -> show_debug (encryption c) = show_debug (encryption c').
Proof. intros [_ _ _ _ H _ _]. by destruct (encryption c), (encryption c'). Qed.

Lemma encryption_show_pub c c' : config_pub c c' -> show (encryption c) = show (encryption c').
Proof. intros [_ _ _ _ H _ _]. by destruct (encryption c), (encryption c'). Qed.

Lemma lengths_pub c c' :
  config_pub c c' -> cid_payload_length c = cid_payload_length c' /\ cid_length c = cid_length c'.
Proof. intros [_ _ Hs Hn _ _ _]. unfold cid_length, cid_payload_length. by rewrite Hs, Hn. Qed.

#[export] Instance config_lines_of_pub : Proper (config_pub ==> (=)) config_lines_of.
Proof.
  intros c c' H. pose proof (lengths_pub _ _ H) as [_ Hl]. pose proof (encryption_debug_pub _ _ H) as He.
  destruct H as [Hi _ Hs Hn _ Hv _]. unfold config_lines_of. by rewrite Hi, He, Hs, Hn, Hl, Hv.
Qed.

Lemma route_config_show_pub c c' : config_pub c c' -> show c = show c'.
Proof.
  intros H. pose proof (lengths_pub _ _ H) as [Hp Hl]. pose proof (encryption_show_pub _ _ H) as He.
  destruct H as [Hi Hf Hs Hn _ Hv _]. unfold show, RouteConfig_show. by rewrite Hi, Hf, He, Hs, Hn, Hl, Hp, Hv.
Qed.

Lemma configs_text_pub t t' : text_pub t t' -> Forall2 config_pub (configs t) (configs t').
Proof.
  intros [_ Hs _ _]. unfold configs. induction Hs as [|x y l k Hxy _ IH]; [constructor|].
  destruct Hxy; cbn; [by constructor|done].
Qed.

Lemma config_lines_map_pub l l' :
  Forall2 config_pub l l' -> map config_lines_of l = map config_lines_of l'.
Proof. induction 1 as [|c c' l l' Hc _ IH]; [done|]. cbn [map]. by rewrite Hc, IH. Qed.

Lemma table_show_pub t t' : text_pub t t' -> show t = show t'.
Proof.
  intros H. pose proof (configs_text_pub _ _ H) as Hc. destruct H as [Hp _ Hf Hr].
  unfold show, ConfigTable_show. rewrite Hp, Hf. pose proof (config_lines_map_pub _ _ Hc) as Hm.
  assert (match retry t with
    | Some rc => line (lit "  retry:") ++ concat (map (labelled "    ") (lines (show rc)))
    | None => line (lit "  retry: disabled") end =
    match retry t' with
    | Some rc => line (lit "  retry:") ++ concat (map (labelled "    ") (lines (show rc)))
    | None => line (lit "  retry: disabled") end) as Hrt.
  { by destruct Hr as [r r' [k ->]|]. }
  rewrite Hrt. destruct Hc; [done|]. by rewrite Hm.
Qed.

End redacted.

(** ** Properties *)

(** No log line reveals a key: two route tables that differ only in their
    QUIC-LB keys (under the same schemes) and in their Retry token keys print the
    same text, and so do their configurations, one by one; the debug form of a
    token key is the same for all keys. *)
Theorem display_redacts_keys `{Aes128} (t t' : ConfigTable) (k k' : TokenKey) :
  text_pub t t' ->
  show t = show t' /\ map show (configs t) = map show (configs t') /\
  map (fun c => show_debug (encryption c)) (configs t) =
    map (fun c => show_debug (encryption c)) (configs t') /\
  show_debug k = show_debug k'.
Proof.
  intros Ht. split; [by apply table_show_pub|]. pose proof (configs_text_pub _ _ Ht) as Hc.
  split; [|split; [|done]].
  - induction Hc as [|c c' l l' Hcc _ IH]; [done|]. cbn [map]. by rewrite (route_config_show_pub _ _ Hcc), IH.
  - induction Hc as [|c c' l l' Hcc _ IH]; [done|]. cbn [map]. by rewrite (encryption_debug_pub _ _ Hcc), IH.
Qed.

(** A printed MAC address reads back. *)
Lemma mac_text_format (m : mac) : len m = 6 -> mac_format m = Done (mac_text m).
Proof.
  unfold len. intros H. assert (L : length m = 6%nat) by lia. clear H.
  do 6 (destruct m as [|? m]; [discriminate L|]). destruct m; [|discriminate L].
  unfold mac_format, mac_text. cbn. by rewrite <- ?app_assoc.
Qed.

#[local] Existing Instance xor_aes.

Lemma display_redacts_keys_witness :
  show (example_table 0) = show (rekeyed (example_table 0)).
Proof.
  apply (display_redacts_keys (example_table 0) (rekeyed (example_table 0)) (mkTokenKey []) (mkTokenKey [])).
  destruct (rekeyed_pub (example_table 0)) as [? Hs ? ? _]. split; [done|exact Hs|done|].
  cbn [rekeyed retry]. destruct (retry (example_table 0)) as [r|] eqn:E; constructor.
  exists (r_token_key r). by destruct r.
Defined.

(** A table in text. *)
Example table_text :
  show (mkTable (lit "/etc/lb.toml") (replicate 7 None) (replicate 7 None) [] None) =
  lit "route config: /etc/lb.toml" ++ [10] ++ lit "  (no active configs)" ++ [10] ++
  lit "  fallback pool: 0 servers" ++ [10] ++ lit "  retry: disabled" ++ [10].
Proof. vm_compute. reflexivity. Qed.
