(* ===== verification/MainLoop.v ===== *)
(** * The main loop and the service manager

    Models what the loop of [pesigitg-daemon/src/main.rs] and [reload_config] of
    [config/mod.rs] do besides changing the daemon's state: the notifications to
    systemd ([systemd_notify!] and [notify_ready] of [utils.rs]), the log lines from
    level info up, and the order of the calls on each way out.  A round gives a list
    of events next to its result, and a panic keeps the events before it.  Erasing
    the events gives the loop of [Reload]. *)

From stdpp Require Import gmap.
From S2P Require Import Prelude Std Decimal Common Route RetryConfig ConfigTable Neigh DaemonConfig Health Reload.
From S2P Require Import Stats Display Handoff.

(** ** Events *)

(** The states of crate sd-notify that are sent. *)
Inductive NotifyState :=
| Ready
| Reloading
| MonotonicUsec (ts : Z)
| Stopping
| StatusText (s : str)
| Watchdog.

Inductive Level := Error | Warn | Info.

Inductive event :=
| Notify (states : list NotifyState)
| Log (level : Level) (text : str)
| SetHandoff
| CloseSignals
| ApiShutdown
| JoinWorkers (handoff : bool)
| Export (stored : list (fd * str)).

(** A computation with its events. *)
Definition tr (A : Type) : Type := list event * rs A.

Definition tr_ret {A} (a : A) : tr A := ([], Done a).
Definition tr_emit (es : list event) : tr unit := (es, Done tt).
Definition tr_lift {A} (r : rs A) : tr A := ([], r).
Definition tr_bind {A B} (m : tr A) (k : A -> tr B) : tr B :=
  match m with
  | (es, Done a) => let '(es', r) := k a in (es ++ es', r)
  | (es, Panic) => (es, Panic)
  end.

Notation "'let>' x := e 'in' k" := (tr_bind e (fun x => k))
  (at level 200, x pattern, right associativity).

(** ** Texts *)

Section texts.
  Context `{Aes : Aes128}.

Definition notify_ready (status : str) : event := Notify [Ready; StatusText status].

(** [config::build_status]. *)
Definition status_line (a : Args) (t : ConfigTable) : str :=
  let '(total, healthy, draining) := build_status t in
  interface a ++ lit " " ++ show_list (ports a) ++ lit " q=" ++ show (queues a) ++
  lit "; backends " ++ show healthy ++ lit "/" ++ show total ++ lit " healthy" ++
  (if 0 <? draining then lit ", " ++ show draining ++ lit " draining" else []).

Definition log_draining_servers (t : ConfigTable) : list event :=
  concat (map (fun c =>
    omap (fun s => if s_draining s
                   then Some (Log Warn (lit "server " ++ show s ++ lit " is draining (config_id=" ++
                                        show (config_id c) ++ lit ")"))
                   else None) (servers c)) (configs t)).

Definition warning_text (w : warning) : str :=
  match w with
  | QlbKeyOld config_id age max =>
      lit "QUIC-LB key for config_id=" ++ show config_id ++ lit " is " ++ show age ++
      lit "s old, exceeds max_key_age_secs=" ++ show max ++ lit "s; rotate the key"
  | RetryKeyOld age max =>
      lit "Retry token key is " ++ show age ++ lit "s old, exceeds retry.max_key_age_secs=" ++
      show max ++ lit "s; rotate retry.token_key"
  end.

Definition signal_number (s : signal) : Z :=
  match s with SIGHUP => 1 | SIGUSR1 => 10 | SIGUSR2 => 12 | SIGINT => 2 | SIGTERM => 15 end.

End texts.

(** ** Reloading *)

Section loop.
  Context `{Aes : Aes128} {IoError FileError TableError : Type}.
  Context (read_file : str -> result FileConfig FileError).
  Context (read_table : str -> rs (result ConfigTable TableError)).
  Context (query : Z -> result neigh_table IoError).
  (** The texts of the two errors. *)
  Context (file_error : FileError -> str) (table_error : TableError -> str).

Definition log_file_reload (a : Args) : list event :=
  match config a with
  | None => []
  | Some p =>
      match read_file p with
      | Ok fc =>
          [Log Info (lit "config reloaded: interface='" ++ fc_interface fc ++ lit "', ports=" ++
                     show_list (fc_ports fc) ++ lit ", queues=" ++ show (fc_queues fc))]
      | Err e => [Log Error (lit "failed to reload config: " ++ file_error e ++ lit "; keeping current settings")]
      end
  end.

(** [mono] is the answer of the monotonic clock. *)
Definition reload_config_tr (mono : option Z) (d : Daemon) : tr Daemon :=
  let> _ := tr_emit [Notify (match mono with Some ts => [Reloading; MonotonicUsec ts] | None => [Reloading] end)] in
  let> _ := tr_emit (log_file_reload (d_args d)) in
  let a := reload_args read_file (d_args d) in
  let> new := tr_lift (read_table (default DEFAULT_ROUTE_CONFIG (routeconfig a))) in
  let> t :=
    match new with
    | Ok rc =>
        let rc := resolve_table query rc in
        let rc := rebuild_fallback_servers rc in
        let rc := inherit_ages_from rc (d_table d) in
        let> _ := tr_emit (Log Info (lit "route config reloaded: " ++ path rc) :: Log Info (show rc) ::
                           log_draining_servers rc) in
        tr_ret rc
    | Err e =>
        let> _ := tr_emit [Log Error (lit "failed to reload route config: " ++ table_error e ++
                                      lit "; keeping current settings")] in
        tr_ret (d_table d)
    end in
  let> _ := tr_emit [notify_ready (status_line a t)] in
  tr_ret (mkDaemon a t).

(** ** Signals *)

(** A delivered signal: its sender, the clock if it reloads, the counters if it
    dumps them. *)
Record Origin := mkOrigin {
  o_signal : signal;
  o_process : option (Z * Z);
  o_mono : option Z;
  o_stats : Snapshot;
}.

(** What a round sees: the signals, the counters, the clock, the answers of the
    probes, the dead queues, whether the status API runs, the descriptors the workers
    give back, and what systemd makes of them. *)
Record RoundObs := mkObs {
  ob_signals : list Origin;
  ob_current : Snapshot;
  ob_now : Instant;
  ob_probe : list IpAddr -> list (IpAddr * bool);
  ob_dead : list Z;
  ob_api : bool;
  ob_detached : list (Z * fd * fd);
  ob_accepts : fd * str -> bool;
  ob_notify_socket : bool;
  ob_causes : str;
}.

Record Exit := mkExit { x_reason : exit_reason; x_result : result unit str }.

Definition stop_api (ob : RoundObs) : list event := if ob_api ob then [ApiShutdown] else [].

Definition export_line (ob : RoundObs) (r : result Z Z) : event :=
  match r with
  | Ok 0 => Log Info (lit "FDSTORE export skipped (not running under systemd)")
  | Ok n => Log Info (lit "FDSTORE export complete: " ++ show n ++ lit " queue(s) handed to systemd")
  | Err q => Log Error (lit "FDSTORE export failed: FDSTORE export for queue " ++ show q ++ ob_causes ob)
  end.

Definition leave_handoff (ob : RoundObs) (from : str) : list event :=
  let '(stored, r) := export_to_systemd (ob_accepts ob) (ob_notify_socket ob) (ob_detached ob) in
  [Notify [Stopping]; Log Info (lit "received SIGUSR2" ++ from ++ lit ", beginning handoff shutdown");
   SetHandoff; CloseSignals] ++ stop_api ob ++
  [JoinWorkers true;
   Log Info (lit "all workers stopped; " ++ show (len (ob_detached ob)) ++ lit " AF_XDP queue(s) detached for FDSTORE");
   Export stored; export_line ob r; Log Info (lit "handoff complete; pins preserved for next invocation")].

Definition leave_shutdown (ob : RoundObs) (sig : signal) (from : str) : list event :=
  [Notify [Stopping];
   Log Info (lit "received signal " ++ show (signal_number sig) ++ from ++ lit ", shutting down"); CloseSignals] ++
  stop_api ob ++ [JoinWorkers false; Log Info (lit "all workers stopped")].

Fixpoint handle_signals_tr (ob : RoundObs) (sigs : list Origin) (st : LoopState) : tr (LoopState + Exit) :=
  match sigs with
  | [] => tr_ret (inl st)
  | o :: rest =>
      let from := format_sender (o_process o) in
      match o_signal o with
      | SIGHUP =>
          let> _ := tr_emit [Log Info (lit "received SIGHUP" ++ from ++ lit ", reloading config")] in
          let> d := reload_config_tr (o_mono o) (l_daemon st) in
          handle_signals_tr ob rest
            (mkLoop d (reset_backoff (l_health st) (ob_now ob)) (l_had_traffic st) (l_warner st))
      | SIGUSR1 =>
          let> _ := tr_emit [Log Info (lit "received SIGUSR1" ++ from ++ lit ", dumping stats");
                             Log Info (lit "stats dump: " ++ show (o_stats o))] in
          handle_signals_tr ob rest st
      | SIGUSR2 =>
          let> _ := tr_emit (leave_handoff ob from) in
          tr_ret (inr (mkExit Handoff (Ok tt)))
      | (SIGINT | SIGTERM) as sig =>
          let> _ := tr_emit (leave_shutdown ob sig from) in
          tr_ret (inr (mkExit Shutdown (Ok tt)))
      end
  end.

(** ** One round *)

Record MainState := mkMain { m_loop : LoopState; m_prev_stats : Snapshot }.

Definition log_drained (delta : Z) (t : ConfigTable) (had : bool) : list event :=
  if negb (0 <? delta) && had && has_draining_servers t
  then [Log Info (lit "all draining servers fully drained " ++ [8212] ++ lit " safe to remove from config")]
  else [].

Definition dead_text (dead : list Z) : str := lit "worker thread(s) exited unexpectedly: " ++ show_list dead.

Definition leave_dead (ob : RoundObs) : list event :=
  [Log Error (lit "worker thread(s) exited unexpectedly: queues=" ++ show_list (ob_dead ob));
   Notify [Stopping; StatusText (lit "worker thread exited unexpectedly")]; CloseSignals] ++
  stop_api ob ++ [JoinWorkers false].

Definition round_tr (ob : RoundObs) (st : MainState) : tr (MainState + Exit) :=
  let> res := handle_signals_tr ob (ob_signals ob) (m_loop st) in
  match res with
  | inr x => tr_ret (inr x)
  | inl ls =>
      let d := delta (ob_current ob) (m_prev_stats st) in
      let> _ := tr_emit (if 0 <? rx_packets d then [Log Info (lit "stats: " ++ show d)] else []) in
      let live := d_table (l_daemon ls) in
      let> _ := tr_emit (log_drained (draining_forwarded d) live (l_had_traffic ls)) in
      let had := drain_detect (draining_forwarded d) live (l_had_traffic ls) in
      let> (live, hc, rebuild) :=
        tr_lift (check_and_rebuild query (ob_probe ob) live (l_health ls) (ob_now ob)) in
      let> _ := tr_emit (if rebuild : bool
                         then [Log Info (lit "rebuild fallback servers");
                               Notify [StatusText (status_line (d_args (l_daemon ls)) live)]]
                         else []) in
      let> (warner, log) := tr_lift (check_at (l_warner ls) live (ob_now ob)) in
      let> _ := tr_emit (map (fun w => Log Warn (warning_text w)) log) in
      match ob_dead ob with
      | [] =>
          let> _ := tr_emit [Notify [Watchdog]] in
          tr_ret (inl (mkMain (mkLoop (mkDaemon (d_args (l_daemon ls)) live) hc had warner) (ob_current ob)))
      | dead =>
          let> _ := tr_emit (leave_dead ob) in
          tr_ret (inr (mkExit WorkerDied (Err (dead_text dead))))
      end
  end.

Fixpoint rounds_tr (obs : list RoundObs) (st : MainState) : tr (MainState + Exit) :=
  match obs with
  | [] => tr_ret (inl st)
  | ob :: obs =>
      let> res := round_tr ob st in
      match res with
      | inl st => rounds_tr obs st
      | inr x => tr_ret (inr x)
      end
  end.

(** From the notification of a finished start on. *)
Definition main_loop_tr (obs : list RoundObs) (d : Daemon) (hc : HealthChecker) : tr (MainState + Exit) :=
  let> _ := tr_emit [notify_ready (status_line (d_args d) (d_table d))] in
  rounds_tr obs (mkMain (mkLoop d hc false warner_new) stats_new).

End loop.

(** ** What systemd sees *)

Inductive unit_state := Activating | Active | Reloading_ | Deactivating.

(** The unit, its status line, the number of watchdog beats, and the calls that take
    the daemon down. *)
Record Sd := mkSd {
  sd_unit : unit_state;
  sd_status : str;
  sd_beats : nat;
  sd_calls : list event;
}.

Definition sd_set (s : Sd) (u : unit_state) : Sd := mkSd u (sd_status s) (sd_beats s) (sd_calls s).

(** The protocol of a unit of type notify: it becomes active once it is ready, is
    active again after every reload, beats only while it is active, and takes itself
    down only after it said so. *)
Definition sd_state (s : Sd) (n : NotifyState) : option Sd :=
  match n, sd_unit s with
  | Ready, (Activating | Reloading_) => Some (sd_set s Active)
  | Reloading, Active => Some (sd_set s Reloading_)
  | MonotonicUsec _, Reloading_ => Some s
  | Stopping, Active => Some (sd_set s Deactivating)
  | StatusText t, _ => Some (mkSd (sd_unit s) t (sd_beats s) (sd_calls s))
  | Watchdog, Active => Some (mkSd Active (sd_status s) (S (sd_beats s)) (sd_calls s))
  | _, _ => None
  end.

Fixpoint sd_states (ns : list NotifyState) (s : Sd) : option Sd :=
  match ns with
  | [] => Some s
  | n :: ns => s' ← sd_state s n; sd_states ns s'
  end.

Definition sd_event (s : Sd) (e : event) : option Sd :=
  match e with
  | Notify ns => sd_states ns s
  | Log _ _ => Some s
  | e =>
      match sd_unit s with
      | Deactivating => Some (mkSd Deactivating (sd_status s) (sd_beats s) (sd_calls s ++ [e]))
      | _ => None
      end
  end.

Fixpoint sd_run (es : list event) (s : Sd) : option Sd :=
  match es with
  | [] => Some s
  | e :: es => s' ← sd_event s e; sd_run es s'
  end.

Lemma sd_run_app es es' s s' : sd_run es s = Some s' -> sd_run (es ++ es') s = sd_run es' s'.
Proof.
  revert s. induction es as [|e es IH]; intros s; cbn; [by intros [= ->]|].
  intros (s1 & -> & H)%bind_Some. by apply IH.
Qed.

(** *** Reasoning about computations with events *)

(** The protocol accepts the events of [m], and [Q] holds of the result. *)
Definition wp {A} (m : tr A) (Q : rs A -> Sd -> Prop) (s : Sd) : Prop :=
  exists s', sd_run m.1 s = Some s' /\ Q m.2 s'.

Lemma wp_bind {A B} (m : tr A) (k : A -> tr B) Q s :
  wp m (fun r s' => match r with Done a => wp (k a) Q s' | Panic => Q Panic s' end) s -> wp (tr_bind m k) Q s.
Proof.
  destruct m as [es [a|]]; intros (s' & Hs & HQ); cbn in *; [|by exists s'].
  destruct HQ as (s2 & Hs2 & HQ). unfold wp. cbn. destruct (k a) as [es' r]. cbn in *. exists s2.
  by rewrite (sd_run_app _ _ _ _ Hs).
Qed.

Lemma wp_mono {A} (m : tr A) (Q Q' : rs A -> Sd -> Prop) s :
  wp m Q s -> (forall r s', Q r s' -> Q' r s') -> wp m Q' s.
Proof. intros (s' & Hs & HQ) HQQ. exists s'. auto. Qed.

Lemma wp_ret {A} (a : A) (Q : rs A -> Sd -> Prop) s : Q (Done a) s -> wp (tr_ret a) Q s.
Proof. by exists s. Qed.

Lemma wp_lift {A} (r : rs A) (Q : rs A -> Sd -> Prop) s : Q r s -> wp (tr_lift r) Q s.
Proof. by exists s. Qed.

Lemma wp_emit es (Q : rs unit -> Sd -> Prop) s s' :
  sd_run es s = Some s' -> Q (Done tt) s' -> wp (tr_emit es) Q s.
Proof. by exists s'. Qed.

Definition is_log (e : event) : Prop := match e with Log _ _ => True | _ => False end.

Lemma sd_run_logs es s : Forall is_log es -> sd_run es s = Some s.
Proof. induction 1 as [|[] es He _ IH]; done. Qed.

Lemma wp_logs es (Q : rs unit -> Sd -> Prop) s : Forall is_log es -> Q (Done tt) s -> wp (tr_emit es) Q s.
Proof. intros Hl HQ. exists s. by rewrite sd_run_logs. Qed.

(** Runs a computation up to what needs thought. *)
Ltac wp_step :=
  cbv beta iota;
  match goal with
  | |- wp (tr_bind _ _) _ _ => apply wp_bind
  | |- wp (tr_ret _) _ _ => apply wp_ret
  | |- wp (tr_lift _) _ _ => apply wp_lift
  end.

Section protocol.
  Context `{Aes : Aes128} {IoError FileError TableError : Type}.
  Context (read_file : str -> result FileConfig FileError).
  Context (read_table : str -> rs (result ConfigTable TableError)).
  Context (query : Z -> result neigh_table IoError).
  Context (file_error : FileError -> str) (table_error : TableError -> str).

(** Systemd as it is while the daemon serves in state [d] and has beaten [n] times. *)
Definition serving (d : Daemon) (n : nat) (s : Sd) : Prop :=
  s = mkSd Active (status_line (d_args d) (d_table d)) n [].

(** A panic strikes an active or reloading unit, which stays as it is. *)
Definition struck (n : nat) (s : Sd) : Prop :=
  (sd_unit s = Active \/ sd_unit s = Reloading_) /\ sd_beats s = n /\ sd_calls s = [].

Definition teardown (ob : RoundObs) (x : exit_reason) : list event :=
  match x with
  | Handoff =>
      [SetHandoff; CloseSignals] ++ stop_api ob ++
      [JoinWorkers true; Export (export_to_systemd (ob_accepts ob) (ob_notify_socket ob) (ob_detached ob)).1]
  | Shutdown | WorkerDied => CloseSignals :: stop_api ob ++ [JoinWorkers false]
  end.

(** Systemd after the daemon left the loop. *)
Definition left_loop (ob : RoundObs) (x : Exit) (n : nat) (s : Sd) : Prop :=
  sd_unit s = Deactivating /\ sd_beats s = n /\ sd_calls s = teardown ob (x_reason x) /\
  (x_reason x = WorkerDied -> sd_status s = lit "worker thread exited unexpectedly") /\
  (x_result x = Ok tt <-> x_reason x <> WorkerDied).

Lemma logs_draining t : Forall is_log (log_draining_servers t).
Proof.
  unfold log_draining_servers. apply Forall_concat, Forall_map, List.Forall_forall. intros c _.
  apply List.Forall_forall. intros e He%list_elem_of_In. apply list_elem_of_omap in He as (s & _ & Hs).
  destruct (s_draining s); [|done]. by injection Hs as <-.
Qed.

Lemma reload_wp mono d n s :
  serving d n s ->
  wp (reload_config_tr read_file read_table query file_error table_error mono d)
    (fun r s' => match r with Done d' => serving d' n s' | Panic => struck n s' end) s.
Proof.
  intros ->. unfold reload_config_tr. wp_step.
  apply (wp_emit _ _ _ (mkSd Reloading_ (status_line (d_args d) (d_table d)) n [])); [by destruct mono|].
  wp_step. apply wp_logs; [unfold log_file_reload; repeat case_match; by repeat constructor|].
  wp_step. wp_step. destruct (read_table _) as [new|]; [|by split; [right|]].
  wp_step. destruct new as [rc|e]; wp_step; (apply wp_logs; [repeat constructor; apply logs_draining|]); wp_step;
    wp_step; (eapply wp_emit; [reflexivity|]); by wp_step.
Qed.

Lemma leave_signals ob sig from d n s :
  serving d n s ->
  (exists s', sd_run (leave_handoff ob from) s = Some s' /\ left_loop ob (mkExit Handoff (Ok tt)) n s') /\
  (exists s', sd_run (leave_shutdown ob sig from) s = Some s' /\ left_loop ob (mkExit Shutdown (Ok tt)) n s').
Proof.
  intros ->. unfold leave_handoff, leave_shutdown, left_loop, teardown, stop_api.
  destruct (export_to_systemd _ _ _) as [stored r]. split.
  - destruct (ob_api ob), r as [[]|]; (eexists; split; [reflexivity|done]).
  - destruct (ob_api ob); (eexists; split; [reflexivity|done]).
Qed.

Lemma handle_signals_wp ob sigs st n s :
  serving (l_daemon st) n s ->
  wp (handle_signals_tr read_file read_table query file_error table_error ob sigs st)
    (fun r s' => match r with
                 | Done (inl st') => serving (l_daemon st') n s'
                 | Done (inr x) => left_loop ob x n s'
                 | Panic => struck n s'
                 end) s.
Proof.
  revert st s. induction sigs as [|o sigs IH]; intros st s Hs; cbn [handle_signals_tr]; [by wp_step|].
  destruct (leave_signals ob (o_signal o) (format_sender (o_process o)) (l_daemon st) n s Hs)
    as [(s1 & H1 & Q1) (s2 & H2 & Q2)].
  destruct (o_signal o); wp_step.
  - apply wp_logs; [by repeat constructor|]. wp_step. eapply wp_mono; [by apply reload_wp|].
    intros [d'|] s' Hd'; [|done]. by apply IH.
  - apply wp_logs; [by repeat constructor|]. by apply IH.
  - eapply wp_emit; [exact H1|]. by wp_step.
  - eapply wp_emit; [exact H2|]. by wp_step.
  - eapply wp_emit; [exact H2|]. by wp_step.
Qed.

(** Nothing is published unless the caller is told. *)
Lemma rebuild_unchanged probe live hc now live' hc' :
  check_and_rebuild query probe live hc now = Done (live', hc', false) -> live' = live.
Proof.
  unfold check_and_rebuild. destruct (check _ _ _ _) as [[[hc1 rc] ch]|]; [|done]. cbn. case_goal; [done|]. congruence.
Qed.

Lemma round_wp ob st n s :
  serving (l_daemon (m_loop st)) n s ->
  wp (round_tr read_file read_table query file_error table_error ob st)
    (fun r s' => match r with
                 | Done (inl st') => serving (l_daemon (m_loop st')) (S n) s'
                 | Done (inr x) => left_loop ob x n s'
                 | Panic => struck n s'
                 end) s.
Proof.
  intros Hs. unfold round_tr. wp_step. eapply wp_mono; [by apply handle_signals_wp|].
  intros [[ls|x]|] s1 H1; [|by wp_step|done]. wp_step.
  apply wp_logs; [case_goal; by repeat constructor|]. wp_step.
  apply wp_logs; [unfold log_drained; case_goal; by repeat constructor|]. wp_step. wp_step.
  destruct (check_and_rebuild _ _ _ _ _) as [[[live hc] rebuild]|] eqn:Ec; [|rewrite H1; by split; [left|]].
  set (d := mkDaemon (d_args (l_daemon ls)) live).
  assert (wp (tr_emit (if rebuild then [Log Info (lit "rebuild fallback servers");
      Notify [StatusText (status_line (d_args (l_daemon ls)) live)]] else []))
    (fun r s' => match r with Done _ => serving d n s' | Panic => struck n s' end) s1) as Hstat.
  { rewrite H1. destruct rebuild; [eapply wp_emit; [reflexivity|]; done|].
    apply rebuild_unchanged in Ec as ->. apply wp_logs; [constructor|]. done. }
  wp_step. eapply wp_mono; [exact Hstat|]. intros [_|] s2 H2; [|done]. wp_step. wp_step.
  destruct (check_at _ _ _) as [[warner log]|]; [|rewrite H2; by split; [left|]].
  wp_step. apply wp_logs; [apply Forall_map, List.Forall_forall; done|]. rewrite H2.
  destruct (ob_dead ob) as [|q dead] eqn:Ed; wp_step.
  - eapply wp_emit; [reflexivity|]. by wp_step.
  - unfold leave_dead, left_loop, teardown, stop_api. rewrite Ed.
    destruct (ob_api ob); (eapply wp_emit; [reflexivity|]); wp_step; done.
Qed.

(** The rounds that were completed, out of [obs]. *)
Definition completed (obs done_ : list RoundObs) (r : rs (MainState + Exit)) : Prop :=
  match r with
  | Done (inl _) => done_ = obs
  | Done (inr _) | Panic => exists ob rest, obs = done_ ++ ob :: rest
  end.

Definition run_post (obs : list RoundObs) (n : nat) (r : rs (MainState + Exit)) (s : Sd) : Prop :=
  exists done_, completed obs done_ r /\
  match r with
  | Done (inl st) => serving (l_daemon (m_loop st)) (n + length done_) s
  | Done (inr x) => exists ob, obs !! length done_ = Some ob /\ left_loop ob x (n + length done_) s
  | Panic => struck (n + length done_) s
  end.

Lemma rounds_wp obs st n s :
  serving (l_daemon (m_loop st)) n s ->
  wp (rounds_tr read_file read_table query file_error table_error obs st) (run_post obs n) s.
Proof.
  revert st n s. induction obs as [|ob obs IH]; intros st n s Hs; cbn [rounds_tr].
  { wp_step. exists []. rewrite Nat.add_0_r. done. }
  wp_step. eapply wp_mono; [by apply round_wp|]. intros [[st'|x]|] s1 H1.
  - eapply wp_mono; [by apply IH|]. intros r s2 (dn & Hc & Hp). exists (ob :: dn). cbn [length]. rewrite Nat.add_succ_r.
    destruct r as [[st2|x]|]; cbn [completed] in *; [by subst| |]; destruct Hc as (ob' & rest & ->);
      (split; [by exists ob', rest|]); exact Hp.
  - wp_step. exists []. rewrite Nat.add_0_r. split; [by exists ob, obs|]. by exists ob.
  - exists []. rewrite Nat.add_0_r. split; [by exists ob, obs|done].
Qed.

End protocol.

(** *** Erasing the events *)

Section erase.
  Context `{Aes : Aes128} {IoError FileError TableError : Type}.
  Context (read_file : str -> result FileConfig FileError).
  Context (read_table : str -> rs (result ConfigTable TableError)).
  Context (query : Z -> result neigh_table IoError).
  Context (file_error : FileError -> str) (table_error : TableError -> str).

Lemma tr_bind_snd {A B} (m : tr A) (k : A -> tr B) :
  (tr_bind m k).2 = match m.2 with Done a => (k a).2 | Panic => Panic end.
Proof. destruct m as [es [a|]]; cbn; [|done]. by destruct (k a). Qed.

Ltac erase_step := rewrite tr_bind_snd; cbn [tr_emit tr_lift tr_ret snd].

Lemma reload_erase mono d :
  (reload_config_tr read_file read_table query file_error table_error mono d).2 =
  reload_config read_file read_table query d.
Proof.
  unfold reload_config_tr, reload_config. repeat erase_step.
  destruct (read_table _) as [[rc|e]|]; [| |done]; by repeat erase_step.
Qed.

Definition erase_signals (r : rs (LoopState + Exit)) : rs (LoopState + exit_reason) :=
  match r with Done (inl st) => Done (inl st) | Done (inr x) => Done (inr (x_reason x)) | Panic => Panic end.

Lemma handle_signals_erase ob sigs st :
  erase_signals (handle_signals_tr read_file read_table query file_error table_error ob sigs st).2 =
  handle_signals read_file read_table query (map o_signal sigs) (ob_now ob) st.
Proof.
  revert st. induction sigs as [|o sigs IH]; intros st; cbn [handle_signals_tr handle_signals map]; [done|].
  destruct (o_signal o); repeat erase_step; [|apply IH|done..].
  rewrite reload_erase. destruct (reload_config _ _ _ _) as [d|]; [|done]. apply IH.
Qed.

Definition erase_round (r : rs (MainState + Exit)) : rs (LoopState + exit_reason) :=
  match r with
  | Done (inl st) => Done (inl (m_loop st))
  | Done (inr x) => Done (inr (x_reason x))
  | Panic => Panic
  end.

Definition seen_round (prev : Snapshot) (ob : RoundObs) : (list IpAddr -> list (IpAddr * bool)) * Round :=
  (ob_probe ob, mkRound (map o_signal (ob_signals ob)) (draining_forwarded (delta (ob_current ob) prev)) (ob_now ob)
     (match ob_dead ob with [] => false | _ => true end)).

Fixpoint seen_rounds (prev : Snapshot) (obs : list RoundObs) : list ((list IpAddr -> list (IpAddr * bool)) * Round) :=
  match obs with
  | [] => []
  | ob :: obs => seen_round prev ob :: seen_rounds (ob_current ob) obs
  end.

Lemma round_erase ob st :
  erase_round (round_tr read_file read_table query file_error table_error ob st).2 =
  loop_round read_file read_table query (ob_probe ob) (seen_round (m_prev_stats st) ob).2 (m_loop st) /\
  forall st', (round_tr read_file read_table query file_error table_error ob st).2 = Done (inl st') ->
    m_prev_stats st' = ob_current ob.
Proof.
  unfold round_tr, loop_round, seen_round. cbn [snd signals now draining_delta worker_dead].
  rewrite <- handle_signals_erase, tr_bind_snd.
  destruct (handle_signals_tr _ _ _ _ _ _ _ _) as [es [[ls|x]|]]; cbn [snd erase_signals]; [|done|done].
  repeat erase_step. destruct (check_and_rebuild _ _ _ _ _) as [[[live hc] rebuild]|]; [|done].
  repeat erase_step. destruct (check_at _ _ _) as [[warner log]|]; [|done].
  repeat erase_step. destruct (ob_dead ob); erase_step; [|done]. split; [done|]. by intros st' [= <-].
Qed.

End erase.

(** ** Properties *)

(** C17.  What systemd sees of the daemon is a service that keeps to the protocol, whatever
    signals, probes, counters and dead workers the rounds see.  Ready comes first;
    every reload is announced and followed by ready before anything else is said; the
    watchdog beats exactly once per completed round; and while the daemon serves, the
    status line systemd has is that of its current arguments and table.  On every way
    out the daemon says that it stops, then closes its signals, stops the status API
    if it runs, and joins the workers; a handoff marks the handoff before and exports
    the descriptors after.  A panic leaves the unit active or reloading. *)
Theorem notify_protocol `{Aes : Aes128} {IoError FileError TableError : Type}
    (read_file : str -> result FileConfig FileError) (read_table : str -> rs (result ConfigTable TableError))
    (query : Z -> result neigh_table IoError) (file_error : FileError -> str) (table_error : TableError -> str)
    (obs : list RoundObs) (d : Daemon) (hc : HealthChecker) :
  let m := main_loop_tr read_file read_table query file_error table_error obs d hc in
  exists s, sd_run m.1 (mkSd Activating [] 0 []) = Some s /\ run_post obs 0 m.2 s.
Proof.
  apply wp_bind. eapply wp_emit; [reflexivity|]. by apply rounds_wp.
Qed.

(** The loop with its events is the loop of [Reload]: erasing the events of any number
    of rounds gives the state, the exit or the panic of [loop_run]. *)
Theorem loop_refines `{Aes : Aes128} {IoError FileError TableError : Type}
    (read_file : str -> result FileConfig FileError) (read_table : str -> rs (result ConfigTable TableError))
    (query : Z -> result neigh_table IoError) (file_error : FileError -> str) (table_error : TableError -> str)
    (obs : list RoundObs) (st : MainState) :
  erase_round (rounds_tr read_file read_table query file_error table_error obs st).2 =
  loop_run read_file read_table query (seen_rounds (m_prev_stats st) obs) (m_loop st).
Proof.
  revert st. induction obs as [|ob obs IH]; intros st; cbn [rounds_tr seen_rounds loop_run]; [done|].
  destruct (round_erase read_file read_table query file_error table_error ob st) as [Hr Hp].
  rewrite (surjective_pairing (seen_round _ ob)). change (seen_round _ ob).1 with (ob_probe ob).
  rewrite tr_bind_snd, <- Hr.
  destruct (round_tr _ _ _ _ _ _ _).2 as [[st'|x]|]; cbn [erase_round]; [|done|done].
  rewrite IH. by rewrite (Hp st' eq_refl).
Qed.

(** A reload announces the ports of the file as those the daemon listens on, although
    it only notifies and logs: the ports of the XDP program are those of the start. *)
Theorem reload_announces_ports `{Aes : Aes128} {IoError FileError TableError : Type}
    (read_file : str -> result FileConfig FileError) (read_table : str -> rs (result ConfigTable TableError))
    (query : Z -> result neigh_table IoError) (file_error : FileError -> str) (table_error : TableError -> str)
    (mono : option Z) (d d' : Daemon) (p : str) (fc : FileConfig) :
  config (d_args d) = Some p -> read_file p = Ok fc ->
  reload_config read_file read_table query d = Done d' ->
  let m := reload_config_tr read_file read_table query file_error table_error mono d in
  ports (d_args d') = fc_ports fc /\
  exists es, m.1 = es ++ [notify_ready (status_line (d_args d') (d_table d'))] /\
    Forall (fun e => is_log e \/ exists ns, e = Notify ns) es.
Proof.
  intros Hc Hf Hr. cbv zeta. unfold reload_config in Hr. unfold reload_config_tr, log_file_reload, reload_args in *.
  rewrite Hc, Hf in *. destruct (read_table _) as [[rc|e]|]; [| |done]; injection Hr as <-; (split; [done|]);
    cbn [tr_bind tr_emit tr_lift tr_ret d_args d_table fst app].
  - rewrite app_nil_r. eexists (_ :: _ :: _ :: _ :: _). split; [reflexivity|].
    repeat (constructor; [by (left; done) || (right; eauto)|]).
    eapply Forall_impl; [apply logs_draining|]. by left.
  - eexists [_; _; _]. split; [reflexivity|].
    repeat (constructor; [by (left; done) || (right; eauto)|]). constructor.
Qed.

(** ** A run *)

#[local] Existing Instance xor_aes.

Definition ex_obs (sigs : list signal) (t : Instant) (dead : list Z) : RoundObs :=
  mkObs (map (fun g => mkOrigin g (Some (77, 0)) (Some 5) stats_new) sigs) stats_new t up_probes dead true
    [(1, 12, 13)] (fun _ => true) true [].

Definition ex_main (obs : list RoundObs) : tr (MainState + Exit) :=
  main_loop_tr (fun _ => Err (A := FileConfig) tt) example_reload (fun _ => Err (A := neigh_table) tt)
    (fun _ => []) (fun _ => []) obs (l_daemon example_loop) (l_health example_loop).

Definition sd_of (m : tr (MainState + Exit)) : option Sd := sd_run m.1 (mkSd Activating [] 0 []).

(** Two rounds, a reload in the second, then a handoff. *)
Lemma ex_handoff_trace :
  sd_of (ex_main [ex_obs [] 5 []; ex_obs [SIGHUP] 10 []; ex_obs [SIGUSR1; SIGUSR2] 15 []]) =
  Some (mkSd Deactivating (lit "eth0 [443] q=1; backends 1/1 healthy") 2
    [SetHandoff; CloseSignals; ApiShutdown; JoinWorkers true; Export [(12, sock_name 1); (13, umem_name 1)]]).
Proof. vm_compute. reflexivity. Qed.

(** A dead worker ends the loop in the round that finds it. *)
Lemma ex_dead_trace :
  sd_of (ex_main [ex_obs [] 5 []; ex_obs [] 10 [3]; ex_obs [] 15 []]) =
  Some (mkSd Deactivating (lit "worker thread exited unexpectedly") 1 [CloseSignals; ApiShutdown; JoinWorkers false]).
Proof. vm_compute. reflexivity. Qed.
