(* ===== verification/Probe.v ===== *)
(** * The QUIC probes

    Models the rest of [pesigitg-daemon/src/health.rs]: creating the checker, and
    [probe_all], which probes the due backends concurrently, each with a timeout.
    The QUIC stack is an argument: for each endpoint and target, how a connection
    attempt goes and how long it takes.  [Health.check] takes the results of a
    batch; the results produced here meet what it asks of them. *)

From stdpp Require Import gmap.
From S2P Require Import Prelude Std Decimal Text Common Route ConfigTable Health Display.

Definition PROBE_TIMEOUT : Duration := 500 * 1000000.

(** ** Creating the checker *)

(** The three verification methods of [InsecureVerifier] accept whatever they are
    given. *)
Definition insecure_verifier {A : Type} (presented : A) : bool := true.

Inductive SignatureScheme :=
| ECDSA_NISTP256_SHA256 | ECDSA_NISTP384_SHA384 | ECDSA_NISTP521_SHA512 | ED25519
| RSA_PSS_SHA256 | RSA_PSS_SHA384 | RSA_PSS_SHA512.

Definition supported_verify_schemes : list SignatureScheme :=
  [ECDSA_NISTP256_SHA256; ECDSA_NISTP384_SHA384; ECDSA_NISTP521_SHA512; ED25519;
   RSA_PSS_SHA256; RSA_PSS_SHA384; RSA_PSS_SHA512].

Definition alpn_protocols : list str := [lit "h3"; lit "hq-interop"; lit "hq-29"].

Inductive checker_error := NoRuntime | NoTls | NoQuic | NoEndpointV4 | NoEndpointV6.

Definition health_checker_new (runtime tls quic ep_v4 ep_v6 : bool) (port : Z)
    : result HealthChecker checker_error :=
  if negb runtime then Err NoRuntime
  else if negb tls then Err NoTls
  else if negb quic then Err NoQuic
  else if negb ep_v4 then Err NoEndpointV4
  else if negb ep_v6 then Err NoEndpointV6
  else Ok (checker_new port).

(** ** A batch of probes *)

Inductive EndpointOf := EndpointV4 | EndpointV6.

Definition endpoint_for (a : IpAddr) : EndpointOf :=
  match a with V4 _ => EndpointV4 | V6 _ => EndpointV6 end.

(** How an attempt goes: refused at once, a handshake that ends after some time in
    success or failure, silence, or a task that is lost. *)
Inductive attempt :=
| Refused
| Handshake (after : Duration) (ok : bool)
| Silent
| Lost.

(** The result of a task, and when it is there. *)
Definition probe_task (a : attempt) : option bool * Duration :=
  match a with
  | Refused => (Some false, 0)
  | Handshake d ok => if d <=? PROBE_TIMEOUT then (Some ok, d) else (Some false, PROBE_TIMEOUT)
  | Silent => (Some false, PROBE_TIMEOUT)
  | Lost => (None, 0)
  end.

Section probes.
  Context (connect : EndpointOf -> IpAddr -> Z -> attempt) (port : Z).

Definition probe (a : IpAddr) : option bool * Duration := probe_task (connect (endpoint_for a) a port).

(** The tasks run side by side; awaiting them in order collects their results. *)
Definition probe_all (addrs : list IpAddr) : list (IpAddr * bool) :=
  omap (fun a => (fun ok => (a, ok)) <$> (probe a).1) addrs.

Definition batch_time (addrs : list IpAddr) : Duration :=
  foldr (fun a t => Z.max (probe a).2 t) 0 addrs.

Definition reachable (a : IpAddr) : Prop :=
  exists d, connect (endpoint_for a) a port = Handshake d true /\ d <= PROBE_TIMEOUT.

Lemma probe_ok a : (probe a).1 = Some true <-> reachable a.
Proof.
  unfold probe, reachable. destruct (connect _ _ _) as [|d ok| |]; cbn; try (split; [done|by intros (? & ? & _)]).
  destruct (Z.leb_spec d PROBE_TIMEOUT); cbn; split.
  - intros [= ->]. eauto.
  - by intros (? & [= -> ->] & _).
  - done.
  - intros (? & [= -> ->] & ?). lia.
Qed.

Lemma probe_all_elem addrs a ok : (a, ok) ∈ probe_all addrs <-> a ∈ addrs /\ (probe a).1 = Some ok.
Proof.
  unfold probe_all. rewrite list_elem_of_omap. split.
  - intros (b & Hb & Hp). destruct (probe b).1 eqn:E; [|done]. injection Hp as -> ->. done.
  - intros [Ha Hp]. exists a. split; [done|]. by rewrite Hp.
Qed.

Lemma probe_all_asked : probes_asked probe_all.
Proof. intros due. apply list.Forall_forall. intros [a ok] [H _]%probe_all_elem. done. Qed.

Lemma batch_time_bound addrs :
  (forall a d ok, connect (endpoint_for a) a port = Handshake d ok -> 0 <= d) ->
  0 <= batch_time addrs <= PROBE_TIMEOUT.
Proof.
  intros Hd. induction addrs as [|a l IH]; cbn [batch_time foldr]; [done|].
  assert (0 <= (probe a).2 <= PROBE_TIMEOUT); [|unfold batch_time in IH; lia].
  unfold probe. destruct (connect _ _ _) as [|d ok| |] eqn:E; cbn; try (unfold PROBE_TIMEOUT; lia).
  apply Hd in E. destruct (Z.leb_spec d PROBE_TIMEOUT); cbn; unfold PROBE_TIMEOUT in *; lia.
Qed.

End probes.

(** ** Printing *)

#[export] Instance ServerHealth_show : Show ServerHealth := fun s =>
  line (lit "failures: " ++ show (consecutive_failures s) ++ lit " / healthy: " ++ show (healthy s)).

(** [v4] and [v6] are the debug forms of the endpoints, [order] the order in which
    the map is walked. *)
Definition checker_text (v4 v6 : str) (order : list (IpAddr * ServerHealth)) (hc : HealthChecker) : str :=
  line (lit "HealthChecker:") ++ labelled "  Port: " (show (hc_port hc)) ++
  labelled "  Endpoint v4: " v4 ++ labelled "  Endpoint v6: " v6 ++ line (lit "  Servers:") ++
  concat (map (fun e => line (lit "    " ++ show e.1 ++ lit " -> " ++ show e.2)) order).

(** ** Properties *)

(** A batch of probes reports a backend as up exactly when its handshake on
    the endpoint of its address family completes within the timeout, reports only
    backends it was asked about, and takes no longer than one timeout however many
    there are; so a round of health checks with it never panics, keeps state for
    exactly the configured backends, publishes either the table as it was or the
    table with every server showing the state of its address, and reports no change
    only if no backend changed health. *)
Theorem probe_round `{Aes128} (connect : EndpointOf -> IpAddr -> Z -> attempt) (hc : HealthChecker)
    (cfg : ConfigTable) (now : Instant) (due : list IpAddr) :
  counts_ok (hc_state hc) ->
  (forall a d ok, connect (endpoint_for a) a (hc_port hc) = Handshake d ok -> 0 <= d) ->
  (forall a, (a, true) ∈ probe_all connect (hc_port hc) due <-> a ∈ due /\ reachable connect (hc_port hc) a) /\
  0 <= batch_time connect (hc_port hc) due <= PROBE_TIMEOUT /\
  exists hc' cfg' changed,
    check (probe_all connect (hc_port hc)) hc cfg now = Done (hc', cfg', changed) /\
    counts_ok (hc_state hc') /\ dom (hc_state hc') = all_addrs cfg /\
    (cfg' = cfg /\ changed = false \/ cfg' = mirror_table (hc_state hc') cfg) /\
    (changed = false -> forall a s', hc_state hc' !! a = Some s' ->
       healthy s' = match hc_state hc !! a with Some s => healthy s | None => false end).
Proof.
  intros Hc Hd. split; [|split; [by apply batch_time_bound|]].
  - intros a. rewrite probe_all_elem. by rewrite probe_ok.
  - exact (check_spec (probe_all connect (hc_port hc)) hc cfg now Hc (probe_all_asked _ _)).
Qed.

#[local] Existing Instance xor_aes.

(** One backend answers in 20 ms, one too late, one not at all. *)
Definition lab (e : EndpointOf) (a : IpAddr) (p : Z) : attempt :=
  match a with
  | V4 o => if bool_decide (last o = Some 1%u8) then Handshake (20 * 1000000) true
            else if bool_decide (last o = Some 2%u8) then Handshake (from_secs 2) true else Silent
  | V6 _ => Refused
  end.

Lemma lab_delays a d ok p : lab (endpoint_for a) a p = Handshake d ok -> 0 <= d.
Proof.
  destruct a as [o|o]; cbn; [|done]. case_bool_decide; [intros [= <- _]; lia|].
  case_bool_decide; [intros [= <- _]; vm_compute; discriminate|done].
Qed.

Lemma probe_round_witness :
  batch_time lab 443 [V4 [10; 0; 0; 1]%u8; V4 [10; 0; 0; 2]%u8; V4 [10; 0; 0; 3]%u8] <= PROBE_TIMEOUT /\
  exists hc' cfg' changed,
    check (probe_all lab 443) (checker_new 443) (example_table 0) 0 = Done (hc', cfg', changed).
Proof.
  destruct (probe_round lab (checker_new 443) (example_table 0) 0
    [V4 [10; 0; 0; 1]%u8; V4 [10; 0; 0; 2]%u8; V4 [10; 0; 0; 3]%u8]) as (_ & Ht & hc' & cfg' & ch & Hc & _).
  - apply map_Forall_empty.
  - intros a d ok. apply lab_delays.
  - split; [apply Ht|]. exists hc', cfg', ch. exact Hc.
Defined.
