(* ===== verification/Xtask.v ===== *)
(** * The build tool

    Models [xtask/src/main.rs]: its command table and the sequences of external
    commands its tasks run, with the exit codes they end in.  The programs it starts
    are an argument: how each command ends.  (The dates it computes are in
    [Calendar].) *)

From stdpp Require Import sorting.
From S2P Require Import Prelude Std Decimal Text Common DaemonConfig Calendar.

(** A command line: the program, where it runs, changes to the environment
    ([None] removes a variable), the arguments. *)
Record Cmd := mkCmd {
  c_program : str;
  c_dir : option str;
  c_env : list (str * option str);
  c_args : list str;
}.

#[global] Instance Cmd_eq_dec : EqDecision Cmd.
Proof. solve_decision. Defined.

Inductive status := Code (c : Z) | Signaled | NotSpawned.

#[global] Instance status_eq_dec : EqDecision status.
Proof. solve_decision. Defined.

(** How a task ends early: [process::exit], a panic, or [exec] taking over. *)
Inductive stop := Exit (code : Z) | Panicked | Replaced.

(** The commands run, and the result. *)
Definition X (A : Type) : Type := list Cmd * (A + stop).

Definition ret {A} (a : A) : X A := ([], inl a).
Definition halt {A} (s : stop) : X A := ([], inr s).
Definition bind {A B} (m : X A) (f : A -> X B) : X B :=
  match m with
  | (cs, inl a) => let '(cs', r) := f a in (cs ++ cs', r)
  | (cs, inr s) => (cs, inr s)
  end.

Notation "'let!' x := m 'in' k" := (bind m (fun x => k))
  (at level 200, x pattern, m at level 200, k at level 200, right associativity).
Notation "'do!' m 'in' k" := (bind m (fun _ => k))
  (at level 200, m at level 200, k at level 200, right associativity).

(** Names in byte order. *)
Definition str_le (a b : str) : Prop := str_ltb b a = false.
#[global] Instance str_le_dec : RelDecision str_le.
Proof. intros a b. unfold str_le. apply _. Defined.
Definition sort_names (l : list str) : list str := merge_sort str_le l.

(** ** The pinned toolchain *)

Fixpoint trim_quotes (s : str) : str := match s with c :: r => if c =? 34 then trim_quotes r else s | [] => [] end.

(** [.trim_matches] of the quote, at both ends. *)
Definition trim_matches (s : str) : str := rev (trim_quotes (rev (trim_quotes s))).

(** [parse_value]: the first line that assigns [key]. *)
Fixpoint parse_value (key : str) (ls : list str) : option str :=
  match ls with
  | [] => None
  | l :: ls =>
      match
        (let? rest := strip_prefix key l in
         let? rest := strip_prefix (lit "=") (trim_start rest) in
         Some (trim_matches (trim rest)))
      with
      | Some v => Some v
      | None => parse_value key ls
      end
  end.

(** [print_toolchain]: the channel, its components, and whether the warning about
    its age follows; nothing without a channel. *)
Definition print_toolchain (contents : option str) (now : option Z) : option (str * option str * bool) :=
  let? c := contents in
  let? ch := parse_value (lit "channel") (lines c) in
  Some (ch, parse_value (lit "components") (lines c), nightly_stale ch now).

Section tasks.
  Context (sys : Cmd -> status).
  (** The environment: [CARGO], [RUST_LOG], the output of [cargo locate-project],
      and which directories can be created. *)
  Context (CARGO RUST_LOG : option str) (located : option (list byte)) (mkdir : str -> bool).

(** [cmd.status().expect(..)], then exit with its code unless it succeeded;
    a command ended by a signal has no code. *)
Definition must (c : Cmd) : X unit :=
  ([c], match sys c with
        | Code 0 => inl tt
        | Code n => inr (Exit n)
        | Signaled => inr (Exit 1)
        | NotSpawned => inr Panicked
        end).

(** A command whose result is only looked at for a message. *)
Definition try_run (c : Cmd) : X unit := ([c], inl tt).

Definition cargo : str := default (lit "cargo") CARGO.

Definition locate_cmd : Cmd :=
  mkCmd cargo None [] [lit "locate-project"; lit "--workspace"; lit "--message-format=plain"].

Definition workspace_root : X str :=
  ([locate_cmd],
   match located with
   | None => inr Panicked
   | Some stdout =>
       match from_utf8 stdout with
       | None => inr Panicked
       | Some s => match parent (trim s) with Some d => inl d | None => inr Panicked end
       end
   end).

Definition joins (base : str) (parts : list str) : str := foldl join_relative base parts.

Definition profile (release : bool) : str := if release then lit "release" else lit "debug".
Definition release_arg (release : bool) : list str := if release then [lit "--release"] else [].

(** ** Building *)

(** [.contains("ebpf")] on the file name. *)
Fixpoint str_contains (p s : str) : bool :=
  starts_with p s || match s with [] => false | _ :: r => str_contains p r end.

(** The last component of a path built by joining names. *)
Definition file_name (p : str) : str := default [] (last (split slash p)).

(** The size report; in a release build of the daemon also whether it is stripped. *)
Definition print_size (path : str) (release : bool) : X unit :=
  do! try_run (mkCmd (lit "rust-size") None [] [path]) in
  if release && negb (str_contains (lit "ebpf") (file_name path))
  then try_run (mkCmd (lit "rust-readobj") None [] [lit "--sections"; path]) else ret tt.

Definition build_ebpf (release : bool) : X str :=
  let! root := workspace_root in
  let ebpf_dir := join_relative root (lit "pesigitg-ebpf") in
  do! must (mkCmd (lit "cargo") (Some ebpf_dir) [(lit "CARGO", None); (lit "RUSTUP_TOOLCHAIN", None)]
          ([lit "build"; lit "-q"] ++ release_arg release)) in
  let obj := joins ebpf_dir [lit "target"; lit "bpfel-unknown-none"; profile release; lit "pesigitg-ebpf"] in
  do! print_size obj release in
  ret obj.

Definition build_daemon (release : bool) (ebpf_obj : str) : X unit :=
  let! root := workspace_root in
  do! must (mkCmd cargo (Some root) [(lit "PESIGITG_EBPF_OBJ", Some ebpf_obj)]
          ([lit "build"; lit "-q"; lit "-p"; lit "pesigitg-daemon"] ++ release_arg release)) in
  let! root := workspace_root in
  print_size (joins root [lit "target"; profile release; lit "pesigitgd"]) release.

Definition run_daemon (release : bool) (args : list str) : X unit :=
  let! root := workspace_root in
  let bin := joins root [lit "target"; profile release; lit "pesigitgd"] in
  let daemon_args := List.filter (fun a => negb (bool_decide (a = lit "--release"))) args in
  let cmd := mkCmd bin None [(lit "RUST_LOG", Some (default (lit "pesigitgd=info") RUST_LOG))] daemon_args in
  ([cmd], match sys cmd with NotSpawned => inr (Exit 1) | _ => inr Replaced end).

(** ** Checks *)

Definition run_lint : X unit :=
  let! root := workspace_root in
  do! must (mkCmd cargo (Some root) [] [lit "fmt"; lit "--all"; lit "--"; lit "--check"]) in
  must (mkCmd cargo (Some root) []
          [lit "clippy"; lit "--workspace"; lit "--all-targets"; lit "--"; lit "-D"; lit "warnings"]).

Definition RUSTFLAGS : str :=
  join (lit " ")
    [lit "-Cllvm-args=-sanitizer-coverage-level=4";
     lit "-Cllvm-args=-sanitizer-coverage-inline-8bit-counters";
     lit "-Cllvm-args=-sanitizer-coverage-pc-table";
     lit "-Cllvm-args=-sanitizer-coverage-trace-compares"; lit "--cfg fuzzing";
     lit "-Cllvm-args=-simplifycfg-branch-fold-threshold=0"; lit "-Zsanitizer=address";
     lit "-Cllvm-args=-sanitizer-coverage-stack-depth"; lit "-Cdebug-assertions"; lit "-Ccodegen-units=1"].

Definition TRIPLE : str := lit "x86_64-unknown-linux-gnu".

Fixpoint make_dirs (dirs : list str) : X unit :=
  match dirs with
  | [] => ret tt
  | d :: dirs => if mkdir d then make_dirs dirs else halt (Exit 1)
  end.

Definition run_fuzz (args : list str) : X unit :=
  match List.find (fun a => negb (starts_with (lit "--") a)) args with
  | None => halt (Exit 1)
  | Some target =>
      let smoke := List.existsb (fun a => bool_decide (a = lit "--smoke")) args in
      let! root := workspace_root in
      do! must (mkCmd cargo None
              [(lit "RUSTUP_TOOLCHAIN", Some (lit "nightly")); (lit "RUSTFLAGS", Some RUSTFLAGS);
               (lit "ASAN_OPTIONS", Some (lit "detect_odr_violation=0"))]
              [lit "build"; lit "--manifest-path"; join_relative root (lit "pesigitg-daemon/fuzz/Cargo.toml");
               lit "--target"; TRIPLE; lit "--release"; lit "--bin"; target]) in
      let bin := joins root [lit "target"; TRIPLE; lit "release"; target] in
      if negb smoke then ret tt
      else
        let corpus := joins root [lit "pesigitg-daemon/fuzz/corpus"; target] in
        let artifacts := joins root [lit "pesigitg-daemon/fuzz/artifacts"; target] in
        do! make_dirs [corpus; artifacts] in
        must (mkCmd bin None [] [corpus; lit "-artifact_prefix=" ++ artifacts ++ lit "/"; lit "-max_total_time=30"])
  end.

(** ** Cleaning *)

(** [tree] is what [read_dir] finds below a path. *)
Definition clean_targets (root : str) : list (str * str) :=
  [(lit "workspace", join_relative root (lit "Cargo.toml"));
   (lit "ebpf", join_relative root (lit "pesigitg-ebpf/Cargo.toml"));
   (lit "fuzz", join_relative root (lit "pesigitg-daemon/fuzz/Cargo.toml"))].

(** The report, one line per target, is printed as the loop goes. *)
Fixpoint clean_loop (size_of : str -> Z) (targets : list (str * str)) : list (str * Z) * X unit :=
  match targets with
  | [] => ([], ret tt)
  | (label, manifest) :: rest =>
      let before := size_of (join_relative (default [] (parent manifest)) (lit "target")) in
      match must (mkCmd cargo None [] [lit "clean"; lit "--manifest-path"; manifest]) with
      | (cs, inl _) => let '(report, k) := clean_loop size_of rest in ((label, before) :: report, do! (cs, inl tt) in k)
      | (cs, inr e) => ([], (cs, inr e))
      end
  end.

Definition run_clean (size_of : str -> Z) : X unit :=
  let! root := workspace_root in (clean_loop size_of (clean_targets root)).2.

(** ** Manual pages *)

(** The names in [man/]; [None] is an entry that cannot be read. *)
Definition man_sources (names : list (option str)) : list str :=
  sort_names (List.filter (fun n => match strip_suffix (lit ".md") n with Some _ => true | None => false end)
               (omap id names)).

Fixpoint render_pages (src_dir out_dir : str) (sources : list str) : X unit :=
  match sources with
  | [] => ret tt
  | name :: rest =>
      match strip_suffix (lit ".md") name with
      | None => halt Panicked
      | Some stem =>
          let c := mkCmd (lit "pandoc") None []
                     ([lit "-s"; lit "-f"; lit "markdown"; lit "-t"; lit "man"; join_relative src_dir name;
                       lit "-o"; join_relative out_dir stem]) in
          do! ([c], match sys c with
                    | Code 0 => inl tt
                    | Code n => inr (Exit n)
                    | Signaled | NotSpawned => inr (Exit 1)
                    end) in
          render_pages src_dir out_dir rest
      end
  end.

Definition build_man (listing : str -> option (list (option str))) : X unit :=
  let! root := workspace_root in
  let src_dir := join_relative root (lit "man") in
  let out_dir := joins root [lit "target"; lit "man"] in
  do! make_dirs [out_dir] in
  match listing src_dir with
  | None => halt (Exit 1)
  | Some names =>
      match man_sources names with
      | [] => halt (Exit 1)
      | sources => render_pages src_dir out_dir sources
      end
  end.

(** ** The command table *)

Definition has_release (args : list str) : bool := List.existsb (fun a => bool_decide (a = lit "--release")) args.

(** [args] are the arguments after the program's name. *)
Definition main (size_of : str -> Z) (listing : str -> option (list (option str))) (args : list str) : X unit :=
  match args with
  | [] => halt (Exit 1)
  | cmd :: rest =>
      let release := has_release args in
      if bool_decide (cmd = lit "build") then
        let! obj := build_ebpf release in build_daemon release obj
      else if bool_decide (cmd = lit "build-ebpf") then do! build_ebpf release in ret tt
      else if bool_decide (cmd = lit "run") then
        let! obj := build_ebpf release in
        do! build_daemon release obj in
        run_daemon release rest
      else if bool_decide (cmd = lit "build-man") then build_man listing
      else if bool_decide (cmd = lit "lint") then run_lint
      else if bool_decide (cmd = lit "fuzz") then run_fuzz rest
      else if bool_decide (cmd = lit "clean") then run_clean size_of
      else halt (Exit 1)
  end.

(** The code the process ends with; a panic is 101. *)
Definition exit_code (m : X unit) : option Z :=
  match m.2 with
  | inl _ => Some 0
  | inr (Exit c) => Some c
  | inr Panicked => Some 101
  | inr Replaced => None
  end.

End tasks.

(** ** Sizes *)

(** A directory tree: a file with its length, a directory that may be unreadable,
    or an entry whose metadata cannot be read. *)
Inductive tree :=
| TFile (size : Z)
| TDir (readable : bool) (entries : list tree)
| TBad.

Fixpoint tree_size (t : tree) : Z :=
  match t with
  | TFile n => n
  | TDir false _ | TBad => 0
  | TDir true es =>
      (fix total (es : list tree) (acc : Z) : Z :=
         match es with
         | [] => acc
         | TBad :: es => total es acc
         | t :: es => total es (wrap64 (acc + tree_size t))
         end) es 0
  end.

(** Of a path that may not exist; a file is not a directory. *)
Definition dir_size_bytes (t : option tree) : Z :=
  match t with Some (TDir b es) => tree_size (TDir b es) | _ => 0 end.

(** [a / b] to the nearest integer, ties to even. *)
Definition div_even (a b : Z) : Z :=
  let q := a / b in let r := 2 * (a mod b) in
  if r <? b then q else if b <? r then q + 1 else if Z.even q then q else q + 1.

(** [n as f64]: 53 significant bits. *)
Definition as_f64 (n : Z) : Z :=
  let e := Z.max 0 (Z.log2 n - 52) in div_even n (2 ^ e) * 2 ^ e.

Definition UNITS : list str := [lit "B"; lit "KiB"; lit "MiB"; lit "GiB"; lit "TiB"].

(** Dividing by 1024 is exact, so only the conversion and the printing round. *)
Definition unit_of (v : Z) : Z :=
  if v <? 1024 then 0 else if v <? 1024 ^ 2 then 1 else if v <? 1024 ^ 3 then 2
  else if v <? 1024 ^ 4 then 3 else 4.

Definition fmt_bytes (n : Z) : str :=
  let v := as_f64 n in
  let i := unit_of v in
  if i =? 0 then fmt_dec n ++ lit " B"
  else
    let tenths := div_even (10 * v) (1024 ^ i) in
    fmt_dec (tenths / 10) ++ lit "." ++ fmt_dec (tenths mod 10) ++ lit " " ++ elt UNITS i.

(** ** Properties *)

Section fail_fast.
  Context (sys : Cmd -> status) (CARGO RUST_LOG : option str) (located : option (list byte)) (mkdir : str -> bool).

(** Commands whose result decides; the reports and the lookup of the root do not. *)
Definition required (c : Cmd) : bool :=
  negb (bool_decide (c_program c = lit "rust-size")) && negb (bool_decide (c_program c = lit "rust-readobj")) &&
  negb (bool_decide (c = locate_cmd CARGO)).

(** A required command that failed is the last one, and the task ended with it. *)
Definition fails_fast {A} (m : X A) : Prop :=
  forall pre c post, m.1 = pre ++ c :: post -> required c = true -> sys c <> Code 0 ->
    post = [] /\ exists s, m.2 = inr s.

Lemma fails_fast_none {A} (r : A + stop) : fails_fast ([], r).
Proof. intros pre c post H. by destruct pre. Qed.

Lemma ret_fails_fast {A} (a : A) : fails_fast (ret a).
Proof. apply fails_fast_none. Qed.

Lemma halt_fails_fast {A} s : fails_fast (halt (A := A) s).
Proof. apply fails_fast_none. Qed.

Lemma fails_fast_one {A} c (r : A + stop) :
  (required c = true -> sys c <> Code 0 -> exists s, r = inr s) -> fails_fast ([c], r).
Proof.
  intros Hr pre c' post H Hq Hs. cbn in H. destruct pre as [|x pre]; [|by destruct pre].
  injection H as <- <-. eauto.
Qed.

Lemma fails_fast_bind {A B} (m : X A) (f : A -> X B) :
  fails_fast m -> (forall a, m.2 = inl a -> fails_fast (f a)) -> fails_fast (bind m f).
Proof.
  intros Hm Hf. destruct m as [cs [a|s]]; cbn [bind].
  - specialize (Hf a eq_refl). destruct (f a) as [cs' r]. intros pre c post H Hq Hs. cbn in *.
    apply app_eq_app in H as [l [[-> H]|[-> H]]].
    + destruct l as [|x l].
      * cbn in H. apply (Hf [] c post); [by rewrite H|done|done].
      * cbn in H. injection H as <- ->.
        destruct (Hm pre c l eq_refl Hq Hs) as [_ [s Hr]]. discriminate Hr.
    + by apply (Hf l c post).
  - intros pre c post H Hq Hs. destruct (Hm pre c post H Hq Hs) as [-> _]. eauto.
Qed.

Lemma must_fails_fast c : fails_fast (must sys c).
Proof. apply fails_fast_one. intros _ Hs. destruct (sys c) as [[]| |]; eauto; done. Qed.

Lemma try_run_fails_fast c : required c = false -> fails_fast (try_run c).
Proof. intros H. apply fails_fast_one. congruence. Qed.

Lemma root_fails_fast : fails_fast (workspace_root CARGO located).
Proof.
  apply fails_fast_one. unfold required. rewrite (bool_decide_eq_true_2 (locate_cmd CARGO = _)) by done.
  cbn [negb]. by rewrite andb_false_r.
Qed.

Lemma print_size_fails_fast p r : fails_fast (print_size p r).
Proof.
  apply fails_fast_bind; [by apply try_run_fails_fast|]. intros _ _.
  case_match; [|apply fails_fast_none]. by apply try_run_fails_fast.
Qed.

Lemma make_dirs_fails_fast ds : fails_fast (make_dirs mkdir ds).
Proof. induction ds as [|d ds IH]; cbn; [|destruct (mkdir d); [done|]]; apply fails_fast_none. Qed.

#[local] Hint Resolve must_fails_fast root_fails_fast print_size_fails_fast make_dirs_fails_fast
  @ret_fails_fast @halt_fails_fast : xtask.

Ltac seq := repeat first
  [ solve [eauto with xtask]
  | apply fails_fast_bind; [solve [eauto with xtask]|intros ? _]; cbv zeta ].

Lemma build_ebpf_fails_fast r : fails_fast (build_ebpf sys CARGO located r).
Proof. unfold build_ebpf. seq. Qed.

Lemma build_daemon_fails_fast r o : fails_fast (build_daemon sys CARGO located r o).
Proof. unfold build_daemon. seq. Qed.

Lemma run_daemon_fails_fast r args : fails_fast (run_daemon sys CARGO RUST_LOG located r args).
Proof.
  unfold run_daemon. apply fails_fast_bind; [apply root_fails_fast|]. intros root _.
  apply fails_fast_one. intros _ _. destruct (sys _); eauto.
Qed.

Lemma run_fuzz_fails_fast args : fails_fast (run_fuzz sys CARGO located mkdir args).
Proof. unfold run_fuzz. destruct (List.find _ args); [|apply fails_fast_none]. seq. case_match; seq. Qed.

Lemma clean_loop_fails_fast size_of ts : fails_fast (clean_loop sys CARGO size_of ts).2.
Proof.
  induction ts as [|[l m] ts IH]; [apply fails_fast_none|]. cbn [clean_loop].
  set (c := mkCmd _ _ _ _). pose proof (must_fails_fast c) as Hm.
  destruct (must sys c) as [cs [u|s]] eqn:E; [|exact Hm].
  destruct (clean_loop sys CARGO size_of ts) as [rep k]. cbn [snd] in *.
  apply fails_fast_bind; [by destruct u|done].
Qed.

Lemma render_fails_fast src out names : fails_fast (render_pages sys src out names).
Proof.
  induction names as [|n names IH]; [apply fails_fast_none|]. cbn [render_pages].
  destruct (strip_suffix _ n); [|apply fails_fast_none]. apply fails_fast_bind; [|done].
  apply fails_fast_one. intros _ Hs. destruct (sys _) as [[]| |]; eauto; done.
Qed.

#[local] Hint Resolve build_ebpf_fails_fast build_daemon_fails_fast run_daemon_fails_fast run_fuzz_fails_fast
  clean_loop_fails_fast render_fails_fast : xtask.

Lemma main_fails_fast size_of listing args :
  fails_fast (main sys CARGO RUST_LOG located mkdir size_of listing args).
Proof.
  unfold main. destruct args as [|cmd rest]; [apply fails_fast_none|].
  repeat case_bool_decide; try (solve [seq]).
  unfold build_man. seq. repeat case_match; seq.
Qed.

End fail_fast.

(** The build tool stops at the first failure: whatever task is run, when a
    command it depends on fails, no further command is started and the tool does not
    report success; it exits with zero only if every such command succeeded. *)
Theorem xtask_fails_fast (sys : Cmd -> status) (CARGO RUST_LOG : option str) (located : option (list byte))
    (mkdir : str -> bool) (size_of : str -> Z) (listing : str -> option (list (option str))) (args : list str) :
  let m := main sys CARGO RUST_LOG located mkdir size_of listing args in
  (forall pre c post, m.1 = pre ++ c :: post -> required CARGO c = true -> sys c <> Code 0 ->
     post = [] /\ m.2 <> inl tt) /\
  (m.2 = inl tt -> Forall (fun c => required CARGO c = true -> sys c = Code 0) m.1).
Proof.
  pose proof (main_fails_fast sys CARGO RUST_LOG located mkdir size_of listing args) as H.
  set (m := main _ _ _ _ _ _ _ _) in *. cbv zeta. split.
  - intros pre c post Hc Hq Hs. destruct (H pre c post Hc Hq Hs) as [? [s Hr]]. split; [done|]. congruence.
  - intros Hr. apply list.Forall_forall. intros c Hin Hq. apply list_elem_of_split in Hin as (pre & post & Hc).
    destruct (decide (sys c = Code 0)) as [|Hs]; [done|].
    destruct (H pre c post Hc Hq Hs) as [_ [s Hr']]. congruence.
Qed.

(** A build that succeeds runs these commands, the daemon's with the object the
    first one made. *)
Example build_commands :
  let root := lit "/src" in
  let obj := lit "/src/pesigitg-ebpf/target/bpfel-unknown-none/release/pesigitg-ebpf" in
  let m := main (fun _ => Code 0) None None (Some (str_bytes (lit "/src/Cargo.toml") ++ [10]%u8)) (fun _ => true)
             (fun _ => 0) (fun _ => None) [lit "build"; lit "--release"] in
  List.filter (required None) m.1 =
    [mkCmd (lit "cargo") (Some (lit "/src/pesigitg-ebpf")) [(lit "CARGO", None); (lit "RUSTUP_TOOLCHAIN", None)]
       [lit "build"; lit "-q"; lit "--release"];
     mkCmd (lit "cargo") (Some root) [(lit "PESIGITG_EBPF_OBJ", Some obj)]
       [lit "build"; lit "-q"; lit "-p"; lit "pesigitg-daemon"; lit "--release"]] /\
  exit_code m = Some 0.
Proof. vm_compute. done. Qed.

(** The sizes of the files that can be read. *)
Fixpoint file_sizes (t : tree) : list Z :=
  match t with
  | TFile n => [n]
  | TDir false _ | TBad => []
  | TDir true es => concat (map file_sizes es)
  end.

Definition sum_all (l : list Z) : Z := foldr Z.add 0 l.

Lemma sum_all_app l k : sum_all (l ++ k) = sum_all l + sum_all k.
Proof. unfold sum_all. induction l as [|x l IH]; cbn [app foldr]; lia. Qed.

Lemma tree_size_entry t es acc :
  (fix total (es : list tree) (acc : Z) : Z :=
     match es with
     | [] => acc
     | TBad :: es => total es acc
     | t :: es => total es (wrap64 (acc + tree_size t))
     end) (t :: es) acc =
  (fix total (es : list tree) (acc : Z) : Z :=
     match es with
     | [] => acc
     | TBad :: es => total es acc
     | t :: es => total es (wrap64 (acc + tree_size t))
     end) es (match t with TBad => acc | _ => wrap64 (acc + tree_size t) end).
Proof. by destruct t. Qed.

(** The total is the sum of the readable files, in 64 bits. *)
Lemma tree_size_sum (t : tree) : tree_size t mod 2 ^ 64 = sum_all (file_sizes t) mod 2 ^ 64.
Proof.
  revert t. fix IH 1. intros [n|[] es|]; [by cbn [tree_size file_sizes sum_all foldr]; rewrite Z.add_0_r| |done..].
  cbn [tree_size file_sizes]. change (sum_all (concat (map file_sizes es))) with (0 + sum_all (concat (map file_sizes es))).
  generalize 0. induction es as [|t es IHes]; intros acc; [by cbn; rewrite Z.add_0_r|].
  assert (match t with TBad => acc | _ => wrap64 (acc + tree_size t) end mod 2 ^ 64 =
          (acc + sum_all (file_sizes t)) mod 2 ^ 64) as Ht.
  { rewrite <- Zplus_mod_idemp_r, <- IH, Zplus_mod_idemp_r. unfold wrap64.
    destruct t; [by rewrite Zmod_mod..|]. cbn [tree_size]. by rewrite Z.add_0_r. }
  rewrite tree_size_entry, IHes. cbn [map concat]. rewrite sum_all_app, Z.add_assoc.
  by rewrite <- Zplus_mod_idemp_l, Ht, Zplus_mod_idemp_l.
Qed.

Example fmt_bytes_text :
  map fmt_bytes [0; 1023; 1024; 1536; 1048575; 5 * 1024 ^ 3; 2 ^ 64 - 1] =
  [lit "0 B"; lit "1023 B"; lit "1.0 KiB"; lit "1.5 KiB"; lit "1024.0 KiB"; lit "5.0 GiB"; lit "16777216.0 TiB"].
Proof. vm_compute. done. Qed.

Example toolchain_text :
  print_toolchain (Some (lit "[toolchain]" ++ [10] ++ lit "channel = " ++ [34] ++ lit "nightly-2026-01-15" ++ [34] ++
    [10] ++ lit "components = [x]")) (Some (86400 * 20500)) =
  Some (lit "nightly-2026-01-15", Some (lit "[x]"), true).
Proof. vm_compute. done. Qed.
