(* ===== verification/Backends.v ===== *)
(** * The example programs

    Models what [contrib/welman/src/main.rs], [contrib/quic-echo/src/server.rs] and
    [contrib/quic-echo/src/client.rs] do around the QUIC and HTTP stacks they call:
    their command lines, welman's answers, the echo of a stream and the client's
    loop.  (Their parameters from the route file are in [Provision].) *)

From S2P Require Import Prelude Std Decimal Text Common Route Cid LbCore Provision Probe.

(** ** Socket addresses *)

(** [s.parse::<SocketAddr>()]; a scope id after the IPv6 address is a number. *)
Definition read_port : parser Z := fun s => read_number 10 65535 (length s) true s.

Definition read_scope : parser unit := fun s =>
  match read_given_char 37 s with
  | Some (_, r) => match read_number 10 (2 ^ 32 - 1) (length r) true r with Some (_, r) => Some (tt, r) | None => Some (tt, s) end
  | None => Some (tt, s)
  end.

Definition parse_socket_addr (s : str) : option (IpAddr * Z) :=
  let bs := str_bytes s in
  let v4 :=
    let? (o, r) := read_ipv4_addr bs in
    let? (_, r) := read_given_char 58 r in
    let? (p, r) := read_port r in
    Some (V4 o, p, r) in
  let v6 :=
    let? (_, r) := read_given_char 91 bs in
    let? (o, r) := read_ipv6_addr r in
    let? (_, r) := read_scope r in
    let? (_, r) := read_given_char 93 r in
    let? (_, r) := read_given_char 58 r in
    let? (p, r) := read_port r in
    Some (V6 o, p, r) in
  match v4 with
  | Some (a, p, []) => Some (a, p)
  | Some _ => None
  | None => match v6 with Some (a, p, []) => Some (a, p) | _ => None end
  end.

(** ** Command lines *)

Inductive args_end (A : Type) :=
| Parsed (a : A)
| Help
| Missing (option : str)
| BadValue (option : str)
| UnknownArg (arg : str).
Arguments Parsed {A} a.
Arguments Help {A}.
Arguments Missing {A} option.
Arguments BadValue {A} option.
Arguments UnknownArg {A} arg.

Record ServerArgs := mkServerArgs {
  sv_config : option str;
  sv_server_id : option str;
  sv_listen : IpAddr * Z;
}.

Definition is_opt (arg : str) (long short : string) : bool :=
  bool_decide (arg = lit long) || bool_decide (arg = lit short).

(** [parse_args] of welman and of the echo server, which are the same. *)
Fixpoint server_args (acc : ServerArgs) (args : list str) : args_end (str * str * (IpAddr * Z)) :=
  match args with
  | [] =>
      match sv_config acc, sv_server_id acc with
      | None, _ => Missing (lit "--config")
      | Some _, None => Missing (lit "--server-id")
      | Some c, Some i => Parsed (c, i, sv_listen acc)
      end
  | arg :: rest =>
      if is_opt arg "--config" "-c" then
        match rest with
        | v :: rest => server_args (mkServerArgs (Some v) (sv_server_id acc) (sv_listen acc)) rest
        | [] => Missing (lit "--config")
        end
      else if is_opt arg "--server-id" "-s" then
        match rest with
        | v :: rest => server_args (mkServerArgs (sv_config acc) (Some v) (sv_listen acc)) rest
        | [] => Missing (lit "--server-id")
        end
      else if is_opt arg "--listen" "-l" then
        match rest with
        | v :: rest =>
            match parse_socket_addr v with
            | Some a => server_args (mkServerArgs (sv_config acc) (sv_server_id acc) a) rest
            | None => BadValue (lit "--listen")
            end
        | [] => Missing (lit "--listen")
        end
      else if is_opt arg "--help" "-h" then Help
      else UnknownArg arg
  end.

Definition server_parse_args (args : list str) : args_end (str * str * (IpAddr * Z)) :=
  server_args (mkServerArgs None None (V4 [0; 0; 0; 0]%u8, 443)) args.

Record ClientArgs := mkClientArgs {
  cl_connect : option (IpAddr * Z);
  cl_count : Z;
  cl_message : str;
}.

Fixpoint client_args (acc : ClientArgs) (args : list str) : args_end (IpAddr * Z * Z * str) :=
  match args with
  | [] => match cl_connect acc with
          | None => Missing (lit "--connect")
          | Some a => Parsed (a, cl_count acc, cl_message acc)
          end
  | arg :: rest =>
      if is_opt arg "--connect" "-c" then
        match rest with
        | v :: rest =>
            match parse_socket_addr v with
            | Some a => client_args (mkClientArgs (Some a) (cl_count acc) (cl_message acc)) rest
            | None => BadValue (lit "--connect")
            end
        | [] => Missing (lit "--connect")
        end
      else if is_opt arg "--count" "-n" then
        match rest with
        | v :: rest =>
            match parse_usize v with
            | Some n => client_args (mkClientArgs (cl_connect acc) n (cl_message acc)) rest
            | None => BadValue (lit "--count")
            end
        | [] => Missing (lit "--count")
        end
      else if is_opt arg "--message" "-m" then
        match rest with
        | v :: rest => client_args (mkClientArgs (cl_connect acc) (cl_count acc) v) rest
        | [] => Missing (lit "--message")
        end
      else if is_opt arg "--help" "-h" then Help
      else UnknownArg arg
  end.

Definition client_parse_args (args : list str) : args_end (IpAddr * Z * Z * str) :=
  client_args (mkClientArgs None 1 (lit "hello")) args.

(** ** welman *)

(** What the pages show; the rest of their text is fixed. *)
Record ServerInfo := mkInfo {
  si_server_id : str;
  si_config_id : Z;
  si_cid_len : Z;
  si_encryption : str;
  si_listen : IpAddr * Z;
}.

Inductive body :=
| IndexPage (remote : IpAddr * Z) (info : ServerInfo)
| HealthBody
| NotFoundPage (path : str).

Definition content_type_for (path : str) : str :=
  if bool_decide (path = lit "/health") then lit "text/plain; charset=utf-8" else lit "text/html; charset=utf-8".

(** Status, content type and body; the other headers are fixed. *)
Definition handle_request (path : str) (remote : IpAddr * Z) (info : ServerInfo) : Z * str * body :=
  let '(status, b) :=
    if bool_decide (path = lit "/") then (200, IndexPage remote info)
    else if bool_decide (path = lit "/health") then (200, HealthBody)
    else (404, NotFoundPage path) in
  (status, content_type_for path, b).

Definition enc_label `{Aes128} (e : LbEncryption) : str :=
  match e with
  | LbPlaintext => lit "plaintext"
  | LbSinglePass _ _ => lit "single-pass AES-ECB"
  | LbFourPass _ _ => lit "four-pass Feistel"
  end.

(** The description a server shows on its pages. *)
Definition server_info `{Aes128} (server_id : str) (listen : IpAddr * Z) (p : CidGenParams) : ServerInfo :=
  mkInfo server_id (u8 (p_config_id p)) (1 + len (p_server_id p) + u8 (p_nonce_length p))
    (enc_label (p_encryption p)) listen.

(** The protocols the servers offer. *)
Definition welman_alpn : list str := [lit "h3"].
Definition echo_alpn : list str := [lit "hq-interop"; lit "hq-29"].

(** What the accept loops do with the end of a connection. *)
Inductive closing := ClosedByPeer | OtherError.

Definition echo_connection_result (e : closing) : result unit closing :=
  match e with ClosedByPeer => Ok tt | OtherError => Err OtherError end.

(** ** Echoing *)

Definition READ_LIMIT : Z := 64 * 1024.
Definition STREAM_TIMEOUT : Duration := from_secs 10.

(** [recv.read_to_end(limit)]: more data is an error. *)
Definition read_to_end (limit : Z) (data : list byte) : option (list byte) :=
  if len data <=? limit then Some data else None.

(** One stream of the server: everything the peer sent comes back, unless reading,
    writing or the time limit fails; then nothing is finished. *)
Definition echo_stream (received : list byte) (took : Duration) (written : bool) : option (list byte) :=
  if took <=? STREAM_TIMEOUT then
    let? data := read_to_end READ_LIMIT received in
    if written then Some data else None
  else None.

Definition client_line (i count : Z) (text : str) : str :=
  if count =? 1 then text
  else lit "[" ++ fmt_dec (i + 1) ++ lit "/" ++ fmt_dec count ++ lit "] " ++ text.

(** The client's loop, from request [i] on: the lines printed, and whether it got
    to the end.  [exchange] is what comes back on the stream of a request. *)
Fixpoint client_loop (n : nat) (i count : Z) (message : str) (exchange : Z -> list byte -> option (list byte))
    : list str * bool :=
  match n with
  | O => ([], true)
  | S n =>
      match exchange i (str_bytes message) ≫= read_to_end READ_LIMIT with
      | None => ([], false)
      | Some response =>
          let '(ls, done) := client_loop n (i + 1) count message exchange in
          (client_line i count (from_utf8_lossy response) :: ls, done)
      end
  end.

Definition client_run (count : Z) (message : str) (exchange : Z -> list byte -> option (list byte)) : list str * bool :=
  client_loop (Z.to_nat count) 0 count message exchange.

Lemma lossy_exact s : Forall is_scalar s -> from_utf8_lossy (str_bytes s) = s.
Proof.
  intros H. unfold from_utf8_lossy. induction H as [|c s Hc _ IH]; [done|].
  rewrite str_bytes_cons, utf8_chunks_char by done. cbn [map]. by rewrite IH.
Qed.

Lemma client_loop_echo n i count message took :
  Forall is_scalar message -> str_len message <= READ_LIMIT -> (forall j, took j <= STREAM_TIMEOUT) ->
  client_loop n i count message (fun j d => echo_stream d (took j) true) =
  (map (fun j => client_line j count message) (seqZ i (Z.of_nat n)), true).
Proof.
  intros Hs Hl Ht. revert i. induction n as [|n IH]; intros i; [done|]. cbn [client_loop].
  unfold echo_stream at 1. rewrite (proj2 (Z.leb_le _ _) (Ht i)). unfold str_len in Hl.
  assert (Hr : read_to_end READ_LIMIT (str_bytes message) = Some (str_bytes message))
    by (unfold read_to_end; by rewrite (proj2 (Z.leb_le _ _) Hl)).
  rewrite Hr. cbn [mbind option_bind]. rewrite Hr.
  rewrite IH, lossy_exact by done. rewrite (seqZ_cons i) by lia. cbn [map].
  by replace (Z.pred (Z.of_nat (S n))) with (Z.of_nat n) by lia.
Qed.

(** ** Properties *)

(** The echo programs fit together: against a server that answers every stream
    in time, the client prints each of its requests' messages back, in order and
    numbered when there are several, for every message of at most 64 KiB; a longer
    message is never answered, and the client fails without printing. *)
Theorem echo_roundtrip (count : Z) (message : str) (took : Z -> Duration) :
  Forall is_scalar message -> (forall i, took i <= STREAM_TIMEOUT) -> 0 <= count ->
  client_run count message (fun i d => echo_stream d (took i) true) =
  if decide (str_len message <= READ_LIMIT \/ count = 0)
  then (map (fun i => client_line i count message) (seqZ 0 count), true)
  else ([], false).
Proof.
  intros Hs Ht Hc. unfold client_run. case_decide as Hd.
  - destruct Hd as [Hl| ->]; [|done]. rewrite client_loop_echo by done. by rewrite Z2Nat.id.
  - apply Decidable.not_or in Hd as [Hl Hz]. destruct (Z.to_nat count) as [|n] eqn:E; [lia|]. cbn [client_loop].
    unfold echo_stream. rewrite (proj2 (Z.leb_le _ _) (Ht 0)). unfold read_to_end, str_len in *.
    by rewrite (proj2 (Z.leb_gt _ _)) by lia.
Qed.

Lemma echo_roundtrip_witness :
  client_run 2 (lit "hello") (fun i d => echo_stream d 0 true) =
  ([lit "[1/2] hello"; lit "[2/2] hello"], true).
Proof.
  rewrite (echo_roundtrip 2 (lit "hello") (fun _ => 0)).
  - reflexivity.
  - repeat constructor; vm_compute; intuition discriminate.
  - intros i. vm_compute. discriminate.
  - discriminate.
Defined.

(** A health probe offers a protocol of either server. *)
Lemma probes_speak_alpn :
  (exists p, p ∈ alpn_protocols /\ p ∈ welman_alpn) /\ (exists p, p ∈ alpn_protocols /\ p ∈ echo_alpn).
Proof.
  split; [exists (lit "h3")|exists (lit "hq-interop")]; split; apply (bool_decide_unpack _); vm_compute; done.
Qed.

(** The CID length shown is the one of the generator. *)
Lemma server_info_cid_len `{Aes128} server_id listen (p : CidGenParams) (e : QuicLbEncoder) :
  generator_new p = Done e -> si_cid_len (server_info server_id listen p) = cid_len e.
Proof.
  unfold generator_new, encoder_new. intros He. repeat (revert He; case_goal; intros He; try done).
  by injection He as <-.
Qed.

Example server_args_text :
  server_parse_args [lit "-c"; lit "lb.toml"; lit "--server-id"; lit "000001"; lit "-l"; lit "[::1]:8443"] =
    Parsed (lit "lb.toml", lit "000001", (V6 (zeros 15 ++ [1]%u8), 8443)) /\
  server_parse_args [lit "-c"; lit "lb.toml"] = Missing (lit "--server-id") /\
  server_parse_args [lit "-l"; lit "::1:443"] = BadValue (lit "--listen").
Proof. vm_compute. done. Qed.
