(* ===== verification/Servers.v ===== *)
(** * The two test servers

    Models [main] and the connection loops of [contrib/welman/src/main.rs] and
    [contrib/quic-echo/src/server.rs]: the order of the set-up and the error of each
    step, what the endpoint is configured with, the lines written to stderr, and what
    a connection does until it ends.  The answers of the crates (certificates, TLS,
    QUIC and HTTP/3) and of the system are arguments.  The two [main]s differ in a few
    constants, which a [Flavour] holds. *)

From S2P Require Import Prelude Std Decimal Text Common Route LbCore Provision Probe Backends.

(** ** Set-up *)

Record Flavour := mkFlavour {
  fl_name : str;
  fl_alpn : list str;
  fl_early_data : Z;
  fl_bidi : Z;
  fl_uni : Z;
  fl_serving : option str;
}.

Definition welman : Flavour :=
  mkFlavour (lit "welman") welman_alpn (2 ^ 32 - 1) 128 128 (Some (lit "serving HTTP/3 (h3) with QUIC-LB CIDs")).
Definition quic_echo : Flavour := mkFlavour (lit "quic-echo") echo_alpn 0 64 0 None.

Definition IDLE_TIMEOUT : Duration := from_secs 30.

(** What the crates and the system answer, in the order in which they are asked. *)
Record SetupAnswers := mkSetup {
  su_cert : bool;
  su_tls : bool;
  su_crypto : bool;
  su_bind : bool;
  su_runtime : bool;
  su_endpoint : bool;
  su_local_addr : option (IpAddr * Z);
}.

Inductive server_error (E : Type) :=
| SvArgs (e : args_end (str * str * (IpAddr * Z)))
| SvConfig (e : E)
| SvSetup (context : str).
Arguments SvArgs {E} e.
Arguments SvConfig {E} e.
Arguments SvSetup {E} context.

(** The endpoint: protocols, limits, and the parameters of its generator. *)
Record EndpointConfig `{Aes128} := mkEndpoint {
  ep_alpn : list str;
  ep_early_data : Z;
  ep_idle : Duration;
  ep_bidi : Z;
  ep_uni : Z;
  ep_params : CidGenParams;
  ep_listen : IpAddr * Z;
}.
Arguments mkEndpoint {_}.

Definition sockaddr_text (a : IpAddr * Z) : str :=
  match a.1 with
  | V4 _ => ip_to_string a.1 ++ lit ":" ++ fmt_dec a.2
  | V6 _ => lit "[" ++ ip_to_string a.1 ++ lit "]:" ++ fmt_dec a.2
  end.

(** ** welman's pages *)

(** A line of a page, in which a backquote stands for a double quote and a tilde for an
    em dash. *)
Definition page (s : string) : str :=
  map (fun c => if c =? 96 then 34 else if c =? 126 then 8212 else c) (lit s).

Definition build_index_page (remote : IpAddr * Z) (info : ServerInfo) : list str :=
  [page "<!DOCTYPE html>";
   page "<html lang=`en`>";
   page "<head>";
   page "<meta charset=`utf-8`>";
   page "<title>welman ~ HTTP/3 over QUIC-LB</title>";
   page "<style>";
   page "  body {";
   page "    font-family: `Berkeley Mono`, `SF Mono`, `Consolas`, monospace;";
   page "    background: #0a0a0a; color: #c0c0c0;";
   page "    max-width: 640px; margin: 4rem auto; padding: 0 1rem;";
   page "    line-height: 1.6;";
   page "  }";
   page "  h1 { color: #e0e0e0; font-size: 1.4rem; }";
   page "  .label { color: #707070; }";
   page "  .value { color: #44cc88; }";
   page "  hr { border: none; border-top: 1px solid #222; margin: 1.5rem 0; }";
   page "  a { color: #5588cc; }";
   page "</style>";
   page "</head>";
   page "<body>";
   page "<h1>welman</h1>";
   page "<p>HTTP/3 test server with QUIC-LB compliant Connection IDs.</p>";
   page "<hr>";
   page "<p><span class=`label`>client:</span> <span class=`value`>" ++ sockaddr_text remote ++ page "</span></p>";
   page "<p><span class=`label`>server_id:</span> <span class=`value`>" ++ si_server_id info ++ page "</span></p>";
   page "<p><span class=`label`>config_id:</span> <span class=`value`>" ++ fmt_dec (si_config_id info) ++ page "</span></p>";
   page "<p><span class=`label`>cid_length:</span> <span class=`value`>" ++ fmt_dec (si_cid_len info) ++ page "</span></p>";
   page "<p><span class=`label`>encryption:</span> <span class=`value`>" ++ si_encryption info ++ page "</span></p>";
   page "<p><span class=`label`>listen:</span> <span class=`value`>" ++ sockaddr_text (si_listen info) ++ page "</span></p>";
   page "<p><span class=`label`>protocol:</span> <span class=`value`>HTTP/3 (RFC 9114) over QUIC (RFC 9000)</span></p>";
   page "<hr>";
   page "<p><span class=`label`>Named after <a href=`https://reboot.fandom.com/wiki/Welman_Matrix`>Welman Matrix</a>";
   page "~ the father trapped in a read-only format.</span></p>";
   page "</body>";
   page "</html>"].

Definition build_404_page (path : str) : list str :=
  [page "<!DOCTYPE html>";
   page "<html lang=`en`>";
   page "<head><meta charset=`utf-8`><title>404</title>";
   page "<style>";
   page "  body {";
   page "    font-family: monospace; background: #0a0a0a; color: #c0c0c0;";
   page "    max-width: 640px; margin: 4rem auto; padding: 0 1rem;";
   page "  }";
   page "</style>";
   page "</head>";
   page "<body>";
   page "<h1>404</h1>";
   page "<p>" ++ path ++ page " ~ not found. Try <a href=`/` style=`color:#5588cc`>/</a>";
   page "or <a href=`/health` style=`color:#5588cc`>/health</a>.</p>";
   page "</body>";
   page "</html>"].

(** What is sent for a body, line by line. *)
Definition body_text (b : body) : str :=
  match b with
  | IndexPage remote info => concat (map (fun l => l ++ [10]) (build_index_page remote info))
  | HealthBody => lit "OK" ++ [10]
  | NotFoundPage path => concat (map (fun l => l ++ [10]) (build_404_page path))
  end.

(** ** The programs *)

Section servers.
  Context `{Aes : Aes128} {E : Type} (fl : Flavour).

Definition said (text : str) : str := fl_name fl ++ lit ": " ++ text.

Definition banner (server_id : str) (listen : IpAddr * Z) (p : CidGenParams) : str :=
  let info := server_info server_id listen p in
  said (lit "config_id=" ++ fmt_dec (si_config_id info) ++ lit ", server_id=" ++ si_server_id info ++
        lit ", cid_len=" ++ fmt_dec (si_cid_len info) ++ lit ", encryption=" ++ si_encryption info ++
        lit ", listen=" ++ sockaddr_text (si_listen info)).

(** The steps between the parameters and the accept loop; [?] returns at the first
    that fails. *)
Definition build_endpoint (ans : SetupAnswers) (listen : IpAddr * Z) (p : CidGenParams)
    : result (EndpointConfig * (IpAddr * Z)) str :=
  if negb (su_cert ans) then Err (lit "generating self-signed cert")
  else if negb (su_tls ans) then Err (lit "TLS config")
  else if negb (su_crypto ans) then Err (lit "QUIC crypto config")
  else if negb (su_bind ans) then Err (lit "binding UDP socket")
  else if negb (su_runtime ans) then Err (lit "no async runtime")
  else if negb (su_endpoint ans) then Err (lit "creating endpoint")
  else
    match su_local_addr ans with
    | None => Err (lit "local_addr")
    | Some a =>
        Ok (mkEndpoint (fl_alpn fl) (fl_early_data fl) IDLE_TIMEOUT (fl_bidi fl) (fl_uni fl) p listen, a)
    end.

(** The lines and the end: help exits, an error is returned, and a server that gets
    to listen closes its endpoint, after the accept loop or on an interrupt. *)
Inductive server_end :=
| Exited0
| Failed (e : server_error E)
| ServedAndClosed (cfg : EndpointConfig).

Definition server_main (resolve_config : str -> str -> rs (result CidGenParams E)) (args : list str)
    (ans : SetupAnswers) (ctrl_c : bool) : rs (list str * server_end) :=
  match server_parse_args args with
  | Help => Done ([], Exited0)
  | Parsed (config_path, server_id, listen) =>
      let* params := resolve_config config_path server_id in
      match params with
      | Err e => Done ([], Failed (SvConfig e))
      | Ok p =>
          let first := banner server_id listen p in
          match build_endpoint ans listen p with
          | Err e => Done ([first], Failed (SvSetup e))
          | Ok (cfg, local) =>
              Done ([first; said (lit "listening on " ++ sockaddr_text local)] ++
                    match fl_serving fl with Some s => [said s] | None => [] end ++
                    (if ctrl_c then [10 :: said (lit "shutting down")] else []),
                    ServedAndClosed cfg)
          end
      end
  | e => Done ([], Failed (SvArgs e))
  end.

End servers.

Definition welman_main `{Aes128} {E : Type} := server_main (E := E) welman.
Definition echo_main `{Aes128} {E : Type} := server_main (E := E) quic_echo.

(** ** Connections *)

(** An HTTP/3 connection of welman: a request that resolves to a path or fails, the
    end, or an error. *)
Inductive h3_event :=
| H3Request (resolved : result str str)
| H3Closed
| H3Error (msg : str).

Definition h3_error_line (remote : IpAddr * Z) (msg : str) : str :=
  lit "welman: [" ++ sockaddr_text remote ++ lit "] " ++
  (if contains_str (lit "aborted by peer") msg || contains_str (lit "H3_NO_ERROR") msg
   then lit "connection closed by client" else lit "accept error: " ++ msg).

(** The requests handled, and the line of the loop's end if it ended. *)
Fixpoint welman_requests (remote : IpAddr * Z) (info : ServerInfo) (events : list h3_event)
    : list (result (Z * str * body) str) * option str :=
  match events with
  | [] => ([], None)
  | H3Request r :: rest =>
      let '(rs, l) := welman_requests remote info rest in
      (match r with Ok path => Ok (handle_request path remote info) | Err e => Err e end :: rs, l)
  | H3Closed :: _ => ([], Some (lit "welman: [" ++ sockaddr_text remote ++ lit "] connection closed"))
  | H3Error msg :: _ => ([], Some (h3_error_line remote msg))
  end.

(** A connection of the echo server: a stream with what the peer sent, how long it
    took and whether the answer could be written; or the end. *)
Inductive echo_event :=
| EchoStream (received : list byte) (took : Duration) (written : bool)
| EchoEnd (e : closing).

Fixpoint echo_streams (events : list echo_event) : list (option (list byte)) * option (result unit closing) :=
  match events with
  | [] => ([], None)
  | EchoStream d t w :: rest => let '(os, r) := echo_streams rest in (echo_stream d t w :: os, r)
  | EchoEnd e :: _ => ([], Some (echo_connection_result e))
  end.

(** ** Properties *)

(** A server gets to its accept loop only if its arguments parse, its parameters
    resolve and every step of the set-up succeeds; its endpoint then has the
    parameters of the route file, offers a protocol the balancer's health probe asks
    for, and lets a peer open streams. *)
Theorem server_listens `{Aes : Aes128} {E : Type} (fl : Flavour)
    (resolve_config : str -> str -> rs (result CidGenParams E)) (args : list str) (ans : SetupAnswers)
    (ctrl_c : bool) (lines : list str) (cfg : EndpointConfig) :
  fl = welman \/ fl = quic_echo ->
  server_main fl resolve_config args ans ctrl_c = Done (lines, ServedAndClosed cfg) ->
  (exists path sid, server_parse_args args = Parsed (path, sid, ep_listen cfg) /\
     resolve_config path sid = Done (Ok (ep_params cfg)) /\
     head lines = Some (banner fl sid (ep_listen cfg) (ep_params cfg))) /\
  forallb id [su_cert ans; su_tls ans; su_crypto ans; su_bind ans; su_runtime ans; su_endpoint ans] = true /\
  (exists p, p ∈ alpn_protocols /\ p ∈ ep_alpn cfg) /\ 1 <= ep_bidi cfg /\
  (2 <= length lines)%nat.
Proof.
  intros Hfl. unfold server_main. destruct (server_parse_args args) as [[[path sid] listen]| | | |]; try done.
  destruct (resolve_config path sid) as [[p|e]|] eqn:Er; [|done|done].
  unfold build_endpoint. repeat (case_goal; [done|]).
  destruct (su_local_addr ans) as [a|]; [|done]. intros [= <- <-]. cbn [ep_listen ep_params ep_alpn ep_bidi].
  split; [by exists path, sid|]. split; [bools; cbn; repeat match goal with H : _ = _ |- _ => rewrite H; clear H end; done|].
  split; [|split; [destruct Hfl as [-> | ->]; cbn; lia|cbn; lia]].
  destruct Hfl as [-> | ->]; [exists (lit "h3")|exists (lit "hq-interop")];
    split; apply (bool_decide_unpack _); vm_compute; done.
Qed.

(** An interrupt at the accept loop. *)
Lemma welman_lines `{Aes : Aes128} (p : CidGenParams) :
  server_main (E := unit) welman (fun _ _ => Done (Ok p)) [lit "-c"; lit "lb.toml"; lit "-s"; lit "000001"; lit "-l"; lit "[::1]:8443"]
    (mkSetup true true true true true true (Some (V6 (zeros 15 ++ [1]%u8), 8443))) true =
  Done ([banner welman (lit "000001") (V6 (zeros 15 ++ [1]%u8), 8443) p;
         lit "welman: listening on [::1]:8443"; lit "welman: serving HTTP/3 (h3) with QUIC-LB CIDs";
         10 :: lit "welman: shutting down"],
        ServedAndClosed (mkEndpoint [lit "h3"] 4294967295 IDLE_TIMEOUT 128 128 p (V6 (zeros 15 ++ [1]%u8), 8443))).
Proof. reflexivity. Qed.

(** A peer that goes away is no error. *)
Lemma welman_connection_end remote info paths :
  welman_requests remote info (map (fun p => H3Request (Ok p)) paths ++ [H3Error (lit "aborted by peer")]) =
  (map (fun p => Ok (handle_request p remote info)) paths,
   Some (lit "welman: [" ++ sockaddr_text remote ++ lit "] connection closed by client")).
Proof. induction paths as [|p paths IH]; [reflexivity|]. cbn [map app welman_requests]. by rewrite IH. Qed.
