(* ===== verification/Testing.v ===== *)
(** * Test suites

    The unit tests of the repository, evaluated on the model: a suite is a list of
    named checks, one per test function, and a lemma computes that none fails.  The
    suites run with the ciphers and hashes of [Aes] and [Digest], so the expected
    bytes that the tests write down are those of the standards.  A value a test draws
    at random or reads from the clock is fixed here, and a text that the TOML crate
    parses is given as what it deserializes to. *)

From S2P Require Import Prelude Std.

Definition suite := list (string * bool).

Definition failures (s : suite) : list string := map fst (List.filter (fun t => negb t.2) s).

(** [assert_eq!] and its negation. *)
Definition assert_eq {A} `{EqDecision A} (x y : A) : bool := bool_decide (x = y).
Definition assert_ne {A} `{EqDecision A} (x y : A) : bool := negb (assert_eq x y).

(** [assert!(x.is_none())] and [assert!(x.is_some())] *)
Definition is_none {A} (o : option A) : bool := match o with None => true | Some _ => false end.
Definition is_some {A} (o : option A) : bool := negb (is_none o).

(** A check of what a call returns; a panic fails the test. *)
Definition returning {A} (m : rs A) (check : A -> bool) : bool :=
  match m with Done a => check a | Panic => false end.

(** What a call that does not panic gives. *)
Definition returns_or {A} (d : A) (m : rs A) : A := match m with Done a => a | Panic => d end.

(** [#[should_panic]] *)
Definition panics {A} (m : rs A) : bool := match m with Panic => true | Done _ => false end.

(** A check behind [unwrap], [unwrap_err], and [.unwrap()] of an option. *)
Definition unwrap {A E} (m : rs (result A E)) (check : A -> bool) : bool :=
  returning m (fun r => match r with Ok a => check a | Err _ => false end).
Definition unwrap_err {A E} (m : rs (result A E)) (check : E -> bool) : bool :=
  returning m (fun r => match r with Err e => check e | Ok _ => false end).
Definition unwrap_some {A} (o : option A) (check : A -> bool) : bool :=
  match o with Some a => check a | None => false end.

Definition is_ok {A E} (m : rs (result A E)) : bool := unwrap m (fun _ => true).
Definition is_err {A E} (m : rs (result A E)) : bool := unwrap_err m (fun _ => true).

(** [l[a..b] == x] *)
Definition at_range (l : list byte) (a : Z) (x : list byte) : bool :=
  returning (slice l a (a + len x)) (fun y => bool_decide (y = x)).

(** [[b; n]] *)
Definition repeated (n : Z) (b : byte) : list byte := replicate (Z.to_nat n) b.

Ltac run_suite := vm_compute; reflexivity.
