(* ===== verification/TestRouting.v ===== *)
(** * Tests of the routing crates

    The test modules of [pesigitg-common/src/hex.rs] and [mac.rs],
    [pesigitg-routing/src/cid.rs] and [route.rs], [contrib/quic-lb-core/src/lib.rs]
    and [contrib/quic-lb-quinn/src/lib.rs]. *)

From S2P Require Import Prelude Std Common Route Cid LbCore Provision Aes Testing.

#[local] Open Scope string_scope.
#[local] Open Scope list_scope.
#[local] Open Scope Z_scope.
#[local] Existing Instance fips_aes.

(** ** Hex strings and MAC addresses *)

Definition hex_tests : suite :=
  [("decode_roundtrip",
     unwrap (hex_decode (hex_encode [0x01; 0xab; 0xcd; 0xef; 0x00]%u8))
       (fun bs => assert_eq bs [0x01; 0xab; 0xcd; 0xef; 0x00]%u8));
   ("decode_trims_whitespace",
     unwrap (hex_decode (lit "  deadbeef" ++ [10])) (fun bs => assert_eq bs [0xde; 0xad; 0xbe; 0xef]%u8));
   ("decode_rejects_odd_length", is_err (hex_decode (lit "abc")));
   ("decode_rejects_non_hex",
     unwrap_err (hex_decode (lit "ab0g")) (fun e => match e with InvalidHex 2 => true | _ => false end));
   ("encode_is_lowercase", assert_eq (hex_encode [0xab; 0xcd]%u8) (lit "abcd"))].

Definition mac_tests : suite :=
  let mac := [0xde; 0xad; 0xbe; 0xef; 0x00; 0x11]%u8 in
  [("format_lowercase_and_padded",
     returning (mac_format [0x01; 0x02; 0xab; 0xcd; 0xef; 0x00]%u8)
       (fun s => assert_eq s (lit "01:02:ab:cd:ef:00")));
   ("parse_accepts_mixed_case",
     unwrap (mac_parse (lit "AA:bb:CC:dd:EE:ff")) (fun m => assert_eq m [0xaa; 0xbb; 0xcc; 0xdd; 0xee; 0xff]%u8));
   ("parse_roundtrip",
     returning (mac_format mac) (fun s => unwrap (mac_parse s) (fun m => assert_eq m mac)));
   ("parse_rejects_wrong_count",
     is_err (mac_parse (lit "aa:bb:cc:dd:ee")) && is_err (mac_parse (lit "aa:bb:cc:dd:ee:ff:00")));
   ("parse_rejects_bad_octet",
     unwrap_err (mac_parse (lit "aa:bb:cc:dd:ee:gg"))
       (fun e => match e with InvalidOctet _ 5 => true | _ => false end))].

(** ** Connection IDs *)

Definition TEST_KEY : list byte := map b8 (seqZ 0 16).

Definition test_server (n : byte) : Server :=
  mkServer [0; 0; n]%u8 (V4 [10; 0; 1; b8 (9 + u8 n)]%u8)
    (Some [0xaa; 0xbb; 0xcc; 0xdd; 0xee; n]%u8) false true 0 None.

Definition make_config (enc : Encryption) (config_id sid_len nonce_len : Z) : RouteConfig :=
  mkRouteConfig config_id true sid_len nonce_len enc [test_server 1%u8; test_server 2%u8] None.

Definition single_config : RouteConfig := make_config (SinglePass TEST_KEY (aes_new TEST_KEY)) 0 3 13.
Definition four_config : RouteConfig := make_config (FourPass TEST_KEY (aes_new TEST_KEY)) 1 3 4.

Definition resolves_to (dcid : list byte) (c : RouteConfig) (i : option nat) : bool :=
  returning (resolve_server_idx dcid c) (assert_eq i).

(** A long header with the given CIDs. *)
Definition long_header (dcid scid : list byte) : list byte :=
  [0xc0; 0; 0; 0; 1]%u8 ++ b8 (len dcid) :: dcid ++ b8 (len scid) :: scid.

(** The tests encrypt with a copy of the encoder's four passes. *)
Definition resolve_tests : suite :=
  let plain := make_config Plaintext 0 3 13 in
  [("resolve_plaintext", resolves_to ([0; 0; 0; 1]%u8 ++ zeros 13) plain (Some 0%nat));
   ("resolve_plaintext_unknown_server", resolves_to ([0; 0xff; 0xff; 0xff]%u8 ++ zeros 13) plain None);
   ("resolve_single_pass_round_trip",
     resolves_to (0%u8 :: encrypt_block (aes_new TEST_KEY) ([0; 0; 1]%u8 ++ repeated 13 0x42%u8))
       single_config (Some 0%nat));
   ("resolve_four_pass_round_trip",
     returning (encrypt_four_pass ([0; 0; 1]%u8 ++ repeated 4 0x42%u8) 3 4 (aes_new TEST_KEY))
       (fun payload => resolves_to (0x20%u8 :: payload) four_config (Some 0%nat)))].

Definition scid_tests : suite :=
  let scid := [0; 0; 0; 1]%u8 ++ repeated 13 0xaa%u8 in
  [("extract_scid_long_header",
     returning (extract_scid (long_header [0xde; 0xad; 0xbe]%u8 scid)) (fun o => unwrap_some o (fun s =>
       (len s =? 17) && returning (idx s 0) (fun b => Z.shiftr (u8 b) 5 =? 0) && at_range s 1 [0; 0; 1]%u8)));
   ("extract_scid_short_header_returns_none", returning (extract_scid [0x40; 0; 1; 2]%u8) is_none);
   ("extract_scid_truncated_returns_none",
     returning (extract_scid [0xc0; 0; 0; 0; 1; 3; 0xaa; 0xbb; 0xcc]%u8) is_none);
   ("extract_scid_zero_length_returns_none", returning (extract_scid [0xc0; 0; 0; 0; 1; 0; 0]%u8) is_none);
   ("extract_scid_resolves_server",
     returning (extract_scid (long_header [0xde; 0xad]%u8 ([0; 0; 0; 1]%u8 ++ zeros 13))) (fun o =>
       unwrap_some o (fun s => resolves_to s (make_config Plaintext 0 3 13) (Some 0%nat))));
   ("four_pass_encrypt_decrypt_inverse",
     let original := [0xde; 0xad; 0xbe; 0x01; 0x02; 0x03; 0x04]%u8 in
     returning (encrypt_four_pass original 3 4 (aes_new TEST_KEY)) (fun buf =>
       assert_ne buf original &&
       returning (decrypt_four_pass (buf ++ zeros 12) 3 4 (aes_new TEST_KEY))
         (fun dbuf => at_range dbuf 0 original)))].

(** ** Route files *)

Definition no_seen : list bool := replicate 7 false.

(** [parse_routes] of a text with these entries. *)
Definition parse (raws : list RawConfig) : rs (result (list RouteConfig) (RouteConfigError unit unit)) :=
  parse_routes (fun _ => Ok raws) [].

Definition raw_entry (id sid nonce : byte) (key : option str) (l : list RawServer) : RawConfig :=
  mkRawConfig id true sid nonce key l None.

Definition raw_srv (id address : string) : RawServer := mkRawServer (lit id) (lit address) None false.

Definition HEX_KEY : option str := Some (lit "000102030405060708090a0b0c0d0e0f").

Definition SAMPLE_TOML : list RawConfig :=
  [raw_entry 0%u8 3%u8 13%u8 HEX_KEY [raw_srv "000001" "10.0.1.10"; raw_srv "000002" "2001:db8::1"]].

Definition is_single (e : Encryption) : bool := match e with SinglePass _ _ => true | _ => false end.
Definition is_four (e : Encryption) : bool := match e with FourPass _ _ => true | _ => false end.
Definition is_plain (e : Encryption) : bool := match e with Plaintext => true | _ => false end.

(** A check of the first entry. *)
Definition first_entry (raws : list RawConfig) (check : RouteConfig -> bool) : bool :=
  unwrap (parse raws) (fun cs => match cs with c :: _ => check c | [] => false end).

(** [max_key_age_secs], the retry section and the other keys of a file that these
    tests leave out are absent. *)
Definition route_accepts : suite :=
  [("parse_valid_single_pass",
     first_entry SAMPLE_TOML (fun c =>
       (config_id c =? 0) && first_octet_encodes_cid_length c && (server_id_length c =? 3) &&
       (nonce_length c =? 13) && is_single (encryption c) && (cid_length c =? 17) &&
       match servers c with
       | [a; b] => assert_eq (s_id a) [0; 0; 1]%u8 && match s_address b with V6 _ => true | V4 _ => false end
       | _ => false
       end));
   ("parse_four_pass",
     first_entry [raw_entry 1%u8 3%u8 4%u8 HEX_KEY []]
       (fun c => is_four (encryption c) && (cid_payload_length c =? 7)));
   ("parse_plaintext", first_entry [raw_entry 2%u8 2%u8 5%u8 None []] (fun c => is_plain (encryption c)));
   ("parse_multiple_configs",
     unwrap (parse [raw_entry 0%u8 3%u8 13%u8 HEX_KEY [raw_srv "000001" "10.0.1.10"];
                    raw_entry 1%u8 3%u8 13%u8 (Some (lit "a1b2c3d4e5f6a7b8c9d0e1f2a3b4c5d6"))
                      [raw_srv "000001" "10.0.1.10"]])
       (fun cs => assert_eq (map config_id cs) [0; 1]));
   ("ignores_retry_section", unwrap (parse [raw_entry 0%u8 3%u8 13%u8 None []]) (fun cs => len cs =? 1))].

Definition rejected_as (raws : list RawConfig) (p : validation_error -> bool) : bool :=
  unwrap_err (parse raws) (fun e => match e with RouteValidation e => p e | _ => false end).

Definition route_rejects : suite :=
  [("reject_duplicate_config_id",
     rejected_as [raw_entry 0%u8 3%u8 13%u8 None []; raw_entry 0%u8 3%u8 4%u8 None []]
       (fun e => match e with DuplicateConfigId _ => true | _ => false end));
   ("reject_empty_configs", is_err (parse []));
   ("reject_config_id_7", is_err (parse [raw_entry 7%u8 3%u8 13%u8 None []]));
   ("reject_sum_exceeds_19", is_err (parse [raw_entry 0%u8 15%u8 5%u8 None []]));
   ("reject_nonce_below_4", is_err (parse [raw_entry 0%u8 3%u8 3%u8 None []]));
   ("reject_wrong_server_id_length",
     rejected_as [raw_entry 0%u8 3%u8 13%u8 None [raw_srv "0001" "10.0.1.10"]]
       (fun e => match e with ServerIdHexChars _ _ _ => true | _ => false end));
   ("reject_bad_key_length",
     rejected_as [raw_entry 0%u8 3%u8 13%u8 (Some (lit "0102030405")) []]
       (fun e => match e with KeyLength _ => true | _ => false end));
   ("reject_server_id_hex_length_mismatch",
     rejected_as [raw_entry 0%u8 3%u8 4%u8 None [raw_srv "01020304" "10.0.1.10"]]
       (fun e => match e with ServerIdHexChars _ _ _ => true | _ => false end))].

(** ** The encoder *)

Definition encoder (id : byte) (sid : list byte) (nonce : byte) (enc : LbEncryption)
    (check : QuicLbEncoder -> bool) : bool :=
  returning (encoder_new id sid nonce enc true) check.

(** The draws of two successive CIDs. *)
Definition draw (e : QuicLbEncoder) (seed : Z) : rs (list byte) :=
  encode_to_vec e (map (fun i => b8 (seed + 7 * i)) (seqZ 0 (e_nonce_length e))) (b8 seed).

Definition top_bits (cid : list byte) (n : Z) : bool := returning (idx cid 0) (fun b => Z.shiftr (u8 b) 5 =? n).

Definition encoder_tests : suite :=
  let sid := [0; 0; 1]%u8 in
  let single := lb_single_pass TEST_KEY in
  [("cid_has_correct_length",
     encoder 0%u8 sid 13%u8 single (fun e => returning (draw e 1) (fun cid => len cid =? 17)));
   ("config_id_encoded_in_top_bits",
     encoder 3%u8 [0; 1]%u8 5%u8 LbPlaintext (fun e => returning (draw e 1) (fun cid => top_bits cid 3)));
   ("plaintext_server_id_readable",
     encoder 0%u8 [0xde; 0xad; 0xbe]%u8 4%u8 LbPlaintext
       (fun e => returning (draw e 1) (fun cid => at_range cid 1 [0xde; 0xad; 0xbe]%u8)));
   ("encrypted_cid_differs_from_plaintext",
     encoder 0%u8 sid 13%u8 LbPlaintext (fun p => encoder 0%u8 sid 13%u8 single (fun a =>
       returning (draw p 1) (fun plain => returning (draw a 1) (fun aes =>
         assert_ne (drop 1 plain) (drop 1 aes))))));
   ("four_pass_generates_valid_length",
     encoder 1%u8 sid 4%u8 (lb_four_pass TEST_KEY)
       (fun e => returning (draw e 1) (fun cid => (len cid =? 8) && top_bits cid 1)));
   ("unique_cids_generated",
     encoder 0%u8 sid 13%u8 single (fun e =>
       returning (draw e 1) (fun a => returning (draw e 2) (fun b => assert_ne a b))));
   ("encode_into_writes_to_caller_buffer",
     encoder 0%u8 [0xab; 0xcd]%u8 4%u8 LbPlaintext (fun e =>
       returning (encode_into e (zeros 4) 0%u8 (zeros 7))
         (fun r => (r.2 =? 7) && at_range r.1 1 [0xab; 0xcd]%u8)));
   ("encode_into_panics_on_short_buffer",
     encoder 0%u8 [0xab; 0xcd]%u8 4%u8 LbPlaintext (fun e =>
       panics (encode_into e (zeros 4) 0%u8 (zeros 3))))].

Definition generator_tests : suite :=
  let new sid nonce enc check := returning (generator_new (mkParams 0%u8 sid nonce enc true)) check in
  [("generate_cid_returns_quinn_connection_id_with_correct_length",
     new [0; 0; 1]%u8 13%u8 (lb_single_pass TEST_KEY) (fun e =>
       returning (generate_cid e (zeros 13) 0%u8) (fun cid => (len cid =? 17) && (cid_len e =? 17))));
   ("validate_accepts_correct_length",
     new [0; 1]%u8 5%u8 LbPlaintext (fun e => generator_validate e (zeros 8)));
   ("validate_rejects_wrong_length",
     new [0; 1]%u8 5%u8 LbPlaintext (fun e => negb (generator_validate e (zeros 9))))].

Lemma routing_tests_pass :
  failures (hex_tests ++ mac_tests ++ resolve_tests ++ scid_tests ++ route_accepts ++ route_rejects ++
            encoder_tests ++ generator_tests) = [].
Proof. run_suite. Qed.
