(* ===== verification/TestRetry.v ===== *)
(** * Tests of the Retry service

    The test modules of [retry/packet.rs], [retry/token.rs], [retry/load.rs] and
    [quic/initial.rs]; the integrity tag of RFC 9001 appendix A.4 is among them. *)

From S2P Require Import Prelude Std Route Initial Token LoadRate RetryPacket Aes Digest Testing.

#[local] Open Scope string_scope.
#[local] Open Scope list_scope.
#[local] Open Scope Z_scope.
#[local] Existing Instance fips_aes.
#[local] Existing Instance sha_hmac.
#[local] Existing Instance nist_gcm.

#[local] Instance BuildError_eq_dec : EqDecision BuildError.
Proof. solve_decision. Defined.
#[local] Instance VerifyError_eq_dec : EqDecision VerifyError.
Proof. solve_decision. Defined.
#[local] Instance ParseError_eq_dec : EqDecision ParseError.
Proof. solve_decision. Defined.

Definition fails_with {A E} `{EqDecision E} (m : rs (result A E)) (e : E) : bool := unwrap_err m (assert_eq e).

(** ** Retry packets *)

Definition RFC_ODCID : list byte := [0x83; 0x94; 0xc8; 0xf0; 0x3e; 0x51; 0x57; 0x08]%u8.
Definition RFC_RETRY_NO_TAG : list byte :=
  [0xff; 0x00; 0x00; 0x00; 0x01; 0x00; 0x08; 0xf0; 0x67; 0xa5; 0x50; 0x2a; 0x42; 0x62; 0xb5;
   0x74; 0x6f; 0x6b; 0x65; 0x6e]%u8.
Definition RFC_EXPECTED_TAG : list byte :=
  [0x04; 0xa2; 0x65; 0xba; 0x2e; 0xff; 0x4d; 0x82; 0x90; 0x58; 0xfb; 0x3f; 0x0f; 0x24; 0x96; 0xba]%u8.

(** A packet built into a buffer of [size] zeros: a check of the buffer and the length. *)
Definition building (size v : Z) (odcid dcid scid token : list byte) (check : list byte -> Z -> bool) : bool :=
  returning (build_retry (zeros size) v odcid dcid scid token)
    (fun r => match r.2 with Ok n => check r.1 n | Err _ => false end).

Definition build_fails (size v : Z) (odcid dcid scid token : list byte) (e : BuildError) : bool :=
  returning (build_retry (zeros size) v odcid dcid scid token)
    (fun r => match r.2 with Err e' => assert_eq e e' | Ok _ => false end).

Definition ODCID : list byte := map b8 (seqZ 1 8).
Definition DCID : list byte := [0x11; 0x22; 0x33; 0x44]%u8.
Definition SCID : list byte := [0xaa; 0xbb; 0xcc; 0xdd; 0xee; 0xff]%u8.
Definition TOKEN : list byte := repeated 32 0x42%u8.

Definition tag_of (out : list byte) (n : Z) : list byte := sub out (n - 16) n.

(** The tag at the end is the one of the body before it. *)
Definition tag_consistent (v : Z) (odcid out : list byte) (n : Z) : bool :=
  unwrap (compute_integrity_tag v odcid (sub out 0 (n - 16))) (assert_eq (tag_of out n)).

Definition packet_v1_tests : suite :=
  [("rfc9001_a4_integrity_tag",
     unwrap (compute_integrity_tag QUIC_V1 RFC_ODCID RFC_RETRY_NO_TAG) (assert_eq RFC_EXPECTED_TAG));
   ("build_retry_v1_layout_and_self_consistent_tag",
     building 256 QUIC_V1 ODCID DCID SCID TOKEN (fun out n =>
       (n =? 65) && at_range out 0 [0xf0]%u8 && at_range out 1 (be_bytes 4 QUIC_V1) && at_range out 5 [4]%u8 &&
       at_range out 6 DCID && at_range out 10 [6]%u8 && at_range out 11 SCID && at_range out 17 TOKEN &&
       tag_consistent QUIC_V1 ODCID out n));
   ("build_retry_v1_minimal",
     building 32 QUIC_V1 (zeros 4) [] [] [] (fun out n =>
       (n =? 23) && at_range out 0 [0xf0]%u8 && at_range out 5 [0; 0]%u8));
   ("build_retry_v1_differs_when_odcid_differs",
     building 64 QUIC_V1 (zeros 8) (zeros 4) (zeros 4) (zeros 16) (fun a na =>
       building 64 QUIC_V1 (repeated 8 0xff%u8) (zeros 4) (zeros 4) (zeros 16) (fun b nb =>
         (na =? nb) && assert_eq (sub a 0 (na - 16)) (sub b 0 (nb - 16)) &&
         assert_ne (tag_of a na) (tag_of b nb))));
   ("rejects_oversized_cids",
     build_fails 256 QUIC_V1 (zeros 21) (zeros 4) (zeros 4) [] CidTooLong &&
     build_fails 256 QUIC_V1 (zeros 4) (zeros 21) (zeros 4) [] CidTooLong &&
     build_fails 256 QUIC_V1 (zeros 4) (zeros 4) (zeros 21) [] CidTooLong);
   ("rejects_output_too_small",
     build_fails 62 QUIC_V1 (zeros 8) (zeros 4) (zeros 4) (zeros 32) OutputTooSmall);
   ("rejects_pseudo_too_long",
     fails_with (compute_integrity_tag QUIC_V1 (zeros 20) (zeros PSEUDO_MAX)) PseudoTooLong);
   ("compute_integrity_tag_rejects_oversized_odcid",
     fails_with (compute_integrity_tag QUIC_V1 (zeros 21) []) CidTooLong)].

Definition packet_v2_tests : suite :=
  [("build_retry_v2_layout",
     building 256 QUIC_V2 ODCID DCID SCID TOKEN (fun out n =>
       (n =? 65) && at_range out 0 [0xc0]%u8 && at_range out 1 (be_bytes 4 QUIC_V2) &&
       tag_consistent QUIC_V2 ODCID out n));
   ("v1_and_v2_tags_differ_for_same_inputs",
     let build v := building 128 v (repeated 8 0xaa%u8) (repeated 4 0xbb%u8) (repeated 4 0xcc%u8)
                      (repeated 16 0xdd%u8) in
     build QUIC_V1 (fun a na => build QUIC_V2 (fun b nb =>
       (na =? nb) && assert_ne (tag_of a na) (tag_of b nb))));
   ("rejects_unsupported_version",
     build_fails 128 0xdeadbeef (zeros 4) (zeros 4) (zeros 4) (zeros 16) BuildUnsupportedVersion &&
     fails_with (compute_integrity_tag 0xdeadbeef (zeros 4) (zeros 16)) BuildUnsupportedVersion)].

(** ** Tokens *)

Definition KEY : list byte := map b8 (seqZ 0 32).
Definition key : TokenKey := token_key_from_bytes KEY.
Definition LOCALHOST : IpAddr := V4 [127; 0; 0; 1]%u8.

Definition minting (client : IpAddr) (odcid : list byte) (at_ms : Z) (check : list byte -> bool) : bool :=
  unwrap (mint key client odcid at_ms) check.

Definition verifies (t : list byte) (client : IpAddr) (odcid : list byte) (now lifetime : Z) : bool :=
  is_ok (verify key t client odcid now lifetime).

Definition refused (e : VerifyError) (t : list byte) (client : IpAddr) (odcid : list byte) (now lifetime : Z)
    : bool :=
  fails_with (verify key t client odcid now lifetime) e.

(** [t[i] ^= m] *)
Definition flip (t : list byte) (i m : Z) : list byte :=
  returns_or t (let* b := idx t i in set_at t i (bxor b (b8 m))).

Definition token_accepts : suite :=
  [("round_trip_ipv4",
     let client := V4 [203; 0; 113; 42]%u8 in
     let odcid := [0xde; 0xad; 0xbe; 0xef; 0x01; 0x02; 0x03; 0x04]%u8 in
     minting client odcid 1700000000000 (fun t =>
       (len t =? TOKEN_LEN) && verifies t client odcid 1700000000500 10000));
   ("round_trip_ipv6",
     let client := V6 ([0x20; 0x01; 0x0d; 0xb8]%u8 ++ zeros 11 ++ [1]%u8) in
     minting client (repeated 20 0x11%u8) 42 (fun t => verifies t client (repeated 20 0x11%u8) 43 100));
   ("rejects_expired_token",
     minting LOCALHOST (zeros 4) 1000 (fun t => refused Expired t LOCALHOST (zeros 4) 12000 10000));
   ("accepts_on_expiry_boundary",
     minting LOCALHOST (zeros 4) 1000 (fun t => verifies t LOCALHOST (zeros 4) 11000 10000));
   ("rejects_future_dated_token",
     minting LOCALHOST (zeros 4) 5000 (fun t => refused Invalid t LOCALHOST (zeros 4) 4000 10000));
   ("rejects_client_address_mismatch",
     minting (V4 [203; 0; 113; 42]%u8) (zeros 4) 1000
       (fun t => refused Invalid t (V4 [203; 0; 113; 43]%u8) (zeros 4) 1100 10000));
   ("rejects_v4_vs_v6_mapped_collision",
     minting (V4 [0; 0; 0; 1]%u8) (zeros 4) 1000 (fun t => refused Invalid t (V6 (zeros 16)) (zeros 4) 1000 10000))].

Definition token_rejects : suite :=
  [("rejects_odcid_mismatch",
     minting LOCALHOST (repeated 8 0xaa%u8) 1000
       (fun t => refused Invalid t LOCALHOST (repeated 8 0xbb%u8) 1100 10000));
   ("rejects_odcid_length_ambiguity",
     minting LOCALHOST [0xab; 0xcd]%u8 1000 (fun t => refused Invalid t LOCALHOST [] 1000 10000));
   ("rejects_tampered_mac",
     minting LOCALHOST (zeros 4) 1000 (fun t => refused Invalid (flip t TS_LEN 1) LOCALHOST (zeros 4) 1100 10000));
   ("rejects_tampered_timestamp",
     minting LOCALHOST (zeros 4) 1000 (fun t => refused Invalid (flip t 7 0x10) LOCALHOST (zeros 4) 1100 10000));
   ("rejects_wrong_length_token",
     forallb (fun n => refused Invalid (zeros n) LOCALHOST (zeros 4) 1000 10000) [TOKEN_LEN - 1; TOKEN_LEN + 1; 0]);
   ("rejects_wrong_key",
     minting LOCALHOST (zeros 4) 1000 (fun t =>
       fails_with (verify (token_key_from_bytes (flip KEY 0 0xff)) t LOCALHOST (zeros 4) 1100 10000) Invalid));
   ("mint_rejects_oversized_odcid", is_err (mint key LOCALHOST (zeros (MAX_ODCID + 1)) 1000));
   ("distinct_tokens_for_distinct_timestamps",
     minting LOCALHOST (zeros 4) 1000 (fun a => minting LOCALHOST (zeros 4) 1001 (fun b => assert_ne a b)))].

(** ** The load rate *)

(** Batches of a count and a time. *)
Definition recorded (bs : list (Z * Z)) : LoadRateTracker :=
  foldl (fun t b => record_batch t b.1 b.2) tracker_new bs.

(** The eight threads of the last test, in one order of their batches. *)
Definition load_tests : suite :=
  [("new_tracker_reports_zero_rate", rate tracker_new =? 0);
   ("first_window_observations_report_zero",
     forallb (fun n => rate (recorded (replicate n (1, 0))) =? 0) (seq 1 100));
   ("completed_window_publishes_count", rate (recorded [(1, 0); (49, 500); (0, 1000)]) =? 50);
   ("rate_tracks_across_successive_windows",
     (rate (recorded [(3, 100); (10, 1500)]) =? 3) && (rate (recorded [(3, 100); (10, 1500); (0, 2100)]) =? 10));
   ("idle_gap_publishes_last_full_window", rate (recorded [(7, 100); (0, 5000)]) =? 7);
   ("record_batch_zero_is_a_noop_on_count", rate (recorded (replicate 10 (0, 100) ++ [(1, 1000)])) =? 0);
   ("concurrent_observers_are_counted",
     let reported := rate (recorded ((1, 0) :: replicate (Z.to_nat 8000) (1, 500) ++ [(0, 1000)])) in
     (8001 - 8 <=? reported) && (reported <=? 8001))].

(** ** The Initial parser *)

Definition initial_head (v : Z) (dcid scid : list byte) : list byte :=
  (if v =? QUIC_V1 then 0xc0%u8 else 0xd0%u8) :: be_bytes 4 v ++ b8 (len dcid) :: dcid ++
  b8 (len scid) :: scid.

Definition build_initial_versioned (v : Z) (dcid scid token : list byte) (payload_len : Z) : list byte :=
  initial_head v dcid scid ++ write_varint (len token) ++ token ++ write_varint payload_len ++
  repeated payload_len 0xaa%u8.

Definition build_initial : list byte -> list byte -> list byte -> Z -> list byte := build_initial_versioned QUIC_V1.

Definition small (v : Z) : list byte := build_initial_versioned v (zeros 4) (zeros 4) [] 10.

(** [pkt[i] = b] and more *)
Definition patch (pkt : list byte) (i : Z) (bs : list byte) : list byte :=
  returns_or pkt (copy_to pkt i (i + len bs) bs).

Definition header (dcid scid : list byte) : list byte := initial_head QUIC_V1 dcid scid.

Definition initial_accepts : suite :=
  let dcid4 := [0xde; 0xad; 0xbe; 0xef]%u8 in
  let scid5 := map b8 (seqZ 1 5) in
  [("parses_minimal_initial_no_token",
     unwrap (parse_strict (build_initial dcid4 scid5 [] 20)) (fun p =>
       (version p =? QUIC_V1) && assert_eq (dcid p) dcid4 && assert_eq (scid p) scid5 &&
       assert_eq (token p) [] && (length_field p =? 20)));
   ("parses_initial_with_token",
     let pkt := build_initial (repeated 8 0x11%u8) (repeated 8 0x22%u8) (repeated 40 0x33%u8) 100 in
     unwrap (parse_strict pkt) (fun p =>
       assert_eq (token p) (repeated 40 0x33%u8) && (length_field p =? 100) && (pn_offset p <? len pkt)));
   ("parses_initial_with_large_token",
     unwrap (parse_strict (build_initial (repeated 4 0xaa%u8) (repeated 4 0xbb%u8) (repeated 200 0xcc%u8) 50))
       (fun p => (len (token p) =? 200) && (length_field p =? 50)));
   ("parses_initial_with_empty_cids",
     unwrap (parse_strict (build_initial [] [] [] 10)) (fun p => (len (dcid p) =? 0) && (len (scid p) =? 0)))].

Definition initial_rejects : suite :=
  let rejects pkt e := fails_with (parse_strict pkt) e in
  let v1 := small QUIC_V1 in
  [("rejects_short_header", rejects [0x40; 0; 1; 2; 3; 4; 5; 6; 7]%u8 NotLongHeader);
   ("rejects_fixed_bit_unset", rejects (patch v1 0 [0x80]%u8) FixedBitUnset);
   ("rejects_handshake_packet", rejects (patch v1 0 [0xe0]%u8) NotInitial);
   ("rejects_zero_rtt_packet", rejects (patch v1 0 [0xd0]%u8) NotInitial);
   ("rejects_retry_packet", rejects (patch v1 0 [0xf0]%u8) NotInitial);
   ("rejects_unknown_version",
     rejects (patch v1 1 (be_bytes 4 0xaaaaaaaa)) (UnsupportedVersion 0xaaaaaaaa));
   ("rejects_version_negotiation", rejects (patch v1 1 (be_bytes 4 0)) (UnsupportedVersion 0));
   ("rejects_oversized_dcid", rejects (patch v1 5 [21]%u8) DcidLengthInvalid);
   ("rejects_oversized_scid", rejects (patch v1 10 [21]%u8) ScidLengthInvalid);
   ("rejects_truncated_minimum", rejects [0xc0; 0; 0; 0; 1; 0; 0; 0]%u8 Truncated);
   ("rejects_truncated_in_dcid",
     rejects ([0xc0]%u8 ++ be_bytes 4 QUIC_V1 ++ [10; 0xaa; 0xaa; 0]%u8) DcidLengthInvalid);
   ("rejects_truncated_in_token", rejects (header [] [] ++ write_varint 100) TokenLengthInvalid);
   ("rejects_length_overrun", rejects (header [] [] ++ write_varint 0 ++ write_varint 1000) LengthOverrun);
   ("accepts_trailing_bytes",
     is_ok (parse_strict (build_initial (repeated 8 0xde%u8) (repeated 8 0xad%u8) [] 20 ++ repeated 50 0xff%u8)))].

Definition varint_tests : suite :=
  let reads bs o := returning (read_varint bs) (assert_eq o) in
  [("varint_one_byte", reads [0x25]%u8 (Some (0x25, 1)));
   ("varint_two_byte", reads [0x40; 0x25]%u8 (Some (0x25, 2)));
   ("varint_four_byte", reads [0x80; 0; 0; 0x25]%u8 (Some (0x25, 4)));
   ("varint_eight_byte", reads [0xc0; 0; 0; 0; 0; 0; 0; 0x25]%u8 (Some (0x25, 8)));
   ("varint_truncated", reads [0xc0; 0; 0; 0]%u8 None);
   ("varint_empty", reads [] None)].

Definition initial_v2_tests : suite :=
  let survives pkt := negb (panics (parse_strict pkt)) in
  let rejects pkt := fails_with (parse_strict pkt) NotInitial in
  let v2 := small QUIC_V2 in
  let dcid4 := [0xde; 0xad; 0xbe; 0xef]%u8 in
  [("no_panic_on_empty", survives []);
   ("no_panic_on_random_short_inputs",
     forallb (fun n => forallb (fun seed => survives (map (fun i => b8 (seed + i)) (seqZ 0 n))) (seqZ 0 256))
       (seqZ 0 9));
   ("no_panic_on_adversarial_lengths",
     forallb survives
       [[0xc0; 0; 0; 0; 1; 0xff]%u8; [0xc0; 0; 0; 0; 1; 20]%u8 ++ zeros 19 ++ [0xff]%u8;
        [0xc0; 0; 0; 0; 1; 0; 0xff]%u8; [0xc0; 0; 0; 0; 1; 0; 0; 0xff; 0xff; 0xff; 0xff]%u8]);
   ("parses_v2_initial",
     unwrap (parse_strict (build_initial_versioned QUIC_V2 dcid4 (map b8 (seqZ 1 5)) [] 20)) (fun p =>
       (version p =? QUIC_V2) && assert_eq (first_byte p) 0xd0%u8 && assert_eq (dcid p) dcid4 &&
       assert_eq (scid p) (map b8 (seqZ 1 5)) && assert_eq (token p) [] && (length_field p =? 20)));
   ("parses_v2_initial_with_token",
     unwrap (parse_strict (build_initial_versioned QUIC_V2 (repeated 8 0x11%u8) (repeated 8 0x22%u8)
                             (repeated 40 0x33%u8) 100)) (fun p =>
       (version p =? QUIC_V2) && assert_eq (token p) (repeated 40 0x33%u8) && (length_field p =? 100)));
   ("v2_rejects_v1_type_bits", rejects (patch v2 0 [0xc0]%u8));
   ("v1_rejects_v2_type_bits", rejects (patch (small QUIC_V1) 0 [0xd0]%u8));
   ("v2_rejects_handshake", rejects (patch v2 0 [0xf0]%u8));
   ("v2_rejects_zero_rtt", rejects (patch v2 0 [0xe0]%u8))].

Lemma retry_packet_tests_pass : failures (packet_v1_tests ++ packet_v2_tests) = [].
Proof. run_suite. Qed.

Lemma token_tests_pass : failures (token_accepts ++ token_rejects) = [].
Proof. run_suite. Qed.

Lemma load_tests_pass : failures load_tests = [].
Proof. run_suite. Qed.

Lemma initial_tests_pass :
  failures (initial_accepts ++ initial_rejects ++ varint_tests ++ initial_v2_tests) = [].
Proof. run_suite. Qed.
