(* ===== verification/TestConfig.v ===== *)
(** * Tests of the configuration and of the connection table

    The test modules of [config/route.rs], [config/retry.rs] ([retry_tests.rs]),
    [config/key_age.rs], [config/daemon.rs], [args.rs] and [conntable.rs]. *)

From stdpp Require Import gmap.
From S2P Require Import Prelude Std Common Route Token ConnTable RetryConfig ConfigTable DaemonConfig Display.
From S2P Require Import Text Aes Testing.

#[local] Open Scope string_scope.
#[local] Open Scope list_scope.
#[local] Open Scope Z_scope.
#[local] Existing Instance fips_aes.

(** ** Route tables *)

(** A text: its entries and its retry section. *)
Definition text : Type := list RawConfig * option RawRetry.

Definition from_str (now : Instant) (t : text) : rs (result ConfigTable (table_error unit unit)) :=
  table_from_str (fun _ => Ok t.1) (fun _ => Ok t.2) now 1%positive [].

Definition keyed (key : option string) (age : option N) : RawConfig :=
  mkRawConfig 0%u8 true 3%u8 13%u8 (option_map lit key)
    [mkRawServer (lit "000001") (lit "10.0.1.10") None false] age.

Definition SAMPLE_TOML : text := ([keyed (Some "000102030405060708090a0b0c0d0e0f") None], None).
Definition OTHER_TOML : text := ([keyed (Some "ffeeddccbbaa99887766554433221100") None], None).

Definition BASE_CFG : list RawConfig := [mkRawConfig 0%u8 false 3%u8 13%u8 None [] None].

(** A retry section with the defaults of the deserializer. *)
Definition section (enabled : bool) (mode : option string) (key : option string) (load : option N) : RawRetry :=
  mkRawRetry enabled (option_map lit key) default_token_lifetime_secs
    (default default_retry_mode (option_map lit mode)) [] load None.

Definition KEY_A : option string := Some "0102030405060708090a0b0c0d0e0f101112131415161718191a1b1c1d1e1f20".
Definition KEY_B : option string := Some "ffffffff0405060708090a0b0c0d0e0f101112131415161718191a1b1c1d1e1f".

Definition retrying (key : option string) : text := (BASE_CFG, Some (section true (Some "always") key None)).

(** The second table, loaded five milliseconds later, with the ages of the first. *)
Definition reloaded (a b : text) (check : ConfigTable -> ConfigTable -> ConfigTable -> bool) : bool :=
  unwrap (from_str 1000 a) (fun prev => unwrap (from_str 5001000 b) (fun next =>
    check prev next (inherit_ages_from next prev))).

Definition retry_age (t : ConfigTable) : option Instant := option_map r_loaded_at (retry t).

Definition table_tests : suite :=
  [("from_str_indexes_by_config_id",
     unwrap (from_str 0 SAMPLE_TOML) (fun t =>
       is_some (table_get t 0) && is_none (table_get t 1) && assert_eq (fallback_cid_length t) (Some 17)));
   ("retry_section_is_layered_on_top",
     unwrap (from_str 0 (retrying (Some "0000000000000000000000000000000000000000000000000000000000000000")))
       (fun t => unwrap_some (retry t) r_enabled));
   ("missing_retry_section_leaves_none", unwrap (from_str 0 SAMPLE_TOML) (fun t => is_none (retry t)));
   ("from_str_stamps_loaded_at_for_populated_slots_only",
     unwrap (from_str 0 SAMPLE_TOML) (fun t => is_some (loaded_at t 0) && is_none (loaded_at t 1)));
   ("inherit_ages_from_preserves_unchanged_qlb_key",
     reloaded SAMPLE_TOML SAMPLE_TOML (fun prev next merged =>
       unwrap_some (loaded_at prev 0) (fun a => unwrap_some (loaded_at next 0) (fun b => a <? b)) &&
       assert_eq (loaded_at merged 0) (loaded_at prev 0)));
   ("inherit_ages_from_resets_when_qlb_key_changes",
     reloaded SAMPLE_TOML OTHER_TOML (fun _ next merged => assert_eq (loaded_at merged 0) (loaded_at next 0)));
   ("inherit_ages_from_carries_retry_key_age_when_unchanged",
     reloaded (retrying KEY_A) (retrying KEY_A) (fun prev _ merged => assert_eq (retry_age merged) (retry_age prev)));
   ("inherit_ages_from_resets_retry_when_key_changes",
     reloaded (retrying KEY_A) (retrying KEY_B)
       (fun _ next merged => assert_eq (retry_age merged) (retry_age next)))].

(** ** The retry section *)

Definition with_retry (raw : RawRetry) (check : RetryConfig -> bool) : bool :=
  unwrap (from_str 0 (BASE_CFG, Some raw)) (fun t => unwrap_some (retry t) check).

Definition retry_refused (raw : RawRetry) (p : retry_error -> bool) : bool :=
  unwrap_err (from_str 0 (BASE_CFG, Some raw)) (fun e => match e with TableRetry e => p e | _ => false end).

(** A section that is enabled with the key, a lifetime and ports. *)
Definition lasting (secs : N) (mode : str) (l : list Z) : RawRetry :=
  mkRawRetry true (option_map lit KEY_A) secs mode l None None.

(** The tests with key bytes in a debug form look at the form of the key. *)
Definition retry_tests : suite :=
  [("retry_absent_is_none", unwrap (from_str 0 (BASE_CFG, None)) (fun t => is_none (retry t)));
   ("retry_disabled_defaults",
     with_retry (section false None None None) (fun r =>
       negb (r_enabled r) && assert_eq (r_mode r) Observe && (token_lifetime_ms r =? 10000) &&
       assert_eq (r_ports r) [] && is_none (load_trigger_rate r)));
   ("retry_enabled_always_mode",
     with_retry (lasting 30 (lit "always") []) (fun r =>
       r_enabled r && assert_eq (r_mode r) Always && (token_lifetime_ms r =? 30000)));
   ("retry_load_mode_requires_trigger_rate",
     with_retry (section true (Some "load") KEY_A (Some 50000%N)) (fun r =>
       assert_eq (r_mode r) LoadMode && assert_eq (load_trigger_rate r) (Some 50000)));
   ("retry_load_mode_without_section_rejected",
     retry_refused (section true (Some "load") KEY_A None)
       (fun e => match e with LoadSectionRequired => true | _ => false end));
   ("retry_load_block_under_wrong_mode_rejected",
     retry_refused (section true (Some "always") KEY_A (Some 1%N))
       (fun e => match e with LoadSectionUnexpected _ => true | _ => false end));
   ("retry_load_zero_trigger_rate_rejected",
     retry_refused (section true (Some "load") KEY_A (Some 0%N))
       (fun e => match e with TriggerRateZero => true | _ => false end));
   ("retry_enabled_without_token_key_rejected",
     retry_refused (section true None None None) (fun e => match e with TokenKeyRequired => true | _ => false end));
   ("retry_disabled_without_key_ok", with_retry (section false None None None) (fun _ => true));
   ("retry_bad_mode_rejected",
     retry_refused (section false (Some "sometimes") None None)
       (fun e => match e with UnknownMode _ => true | _ => false end));
   ("retry_bad_key_length_rejected",
     retry_refused (section true None (Some "deadbeef") None)
       (fun e => match e with TokenKeyLength _ => true | _ => false end));
   ("retry_zero_lifetime_rejected",
     retry_refused (lasting 0 default_retry_mode []) (fun e => match e with LifetimeRange _ => true | _ => false end));
   ("retry_excessive_lifetime_rejected",
     retry_refused (lasting 86401 default_retry_mode [])
       (fun e => match e with LifetimeRange _ => true | _ => false end));
   ("retry_ports_dedupe_and_sort",
     with_retry (lasting 10 default_retry_mode [4433; 443; 4433; 443; 8443])
       (fun r => assert_eq (r_ports r) [443; 4433; 8443]));
   ("retry_token_key_redacted_in_debug",
     with_retry (section true None KEY_A None) (fun r =>
       let dbg := show_debug (r_token_key r) in
       contains_str (lit "<redacted>") dbg && negb (contains_str (lit "0102030405") dbg)))].

(** ** Key ages *)

Definition QLB_KEY_TOML : text := ([keyed (Some "000102030405060708090a0b0c0d0e0f") (Some 60%N)], None).
Definition QLB_KEY_TOML_B : text := ([keyed (Some "ffeeddccbbaa99887766554433221100") (Some 60%N)], None).
Definition RETRY_KEY_TOML : text :=
  (BASE_CFG, Some (mkRawRetry true (option_map lit KEY_A) 10 (lit "always") [] None (Some 30%N))).

Definition now_at (t : ConfigTable) (age_secs : Z) : Instant := default 0 (loaded_at t 0) + from_secs age_secs.

(** The warner after checks at these times. *)
Fixpoint checked_at (w : KeyAgeWarner) (t : ConfigTable) (times : list Instant) (check : KeyAgeWarner -> bool)
    : bool :=
  match times with
  | [] => check w
  | now :: times => returning (check_at w t now) (fun r => checked_at r.1 t times check)
  end.

Definition warned0 (w : KeyAgeWarner) : option Instant := default None (qlb_warned_for w !! 0%nat).

Definition key_age_tests : suite :=
  [("qlb_under_threshold_does_not_warn",
     unwrap (from_str 0 QLB_KEY_TOML) (fun t =>
       checked_at warner_new t [now_at t 30] (fun w => is_none (warned0 w))));
   ("qlb_over_threshold_warns_once_per_key_generation",
     unwrap (from_str 0 QLB_KEY_TOML) (fun t =>
       checked_at warner_new t [now_at t 120] (fun w =>
         assert_eq (warned0 w) (loaded_at t 0) &&
         checked_at w t [now_at t 180] (fun w' => assert_eq (warned0 w') (warned0 w)))));
   ("qlb_rotation_rearms_warning",
     unwrap (from_str 0 QLB_KEY_TOML) (fun t => unwrap (from_str (from_secs 200) QLB_KEY_TOML_B) (fun t' =>
       checked_at warner_new t [now_at t 120] (fun w =>
         is_some (warned0 w) &&
         checked_at w t' [now_at t' 30] (fun w =>
           assert_ne (warned0 w) (loaded_at t' 0) &&
           checked_at w t' [now_at t' 120] (fun w => assert_eq (warned0 w) (loaded_at t' 0)))))));
   ("retry_over_threshold_warns_once",
     unwrap (from_str 0 RETRY_KEY_TOML) (fun t => unwrap_some (retry_age t) (fun loaded =>
       checked_at warner_new t [loaded + from_secs 15] (fun w => is_none (retry_warned_for w)) &&
       checked_at warner_new t [loaded + from_secs 15; loaded + from_secs 45]
         (fun w => assert_eq (retry_warned_for w) (Some loaded)) &&
       checked_at warner_new t [loaded + from_secs 15; loaded + from_secs 45; loaded + from_secs 120]
         (fun w => assert_eq (retry_warned_for w) (Some loaded)))));
   ("no_policy_means_no_warning",
     unwrap (from_str 0 SAMPLE_TOML) (fun t =>
       checked_at warner_new t [now_at t 31536000] (fun w => is_none (warned0 w))))].

(** ** The connection table *)

Definition flow (a : byte) (port : Z) : FlowKey := mkFlowKey (V4 [10; 0; 0; a]%u8) (V4 [10; 0; 1; 10]%u8) port 443.
Definition mac_of (n : byte) : list byte := [0xaa; 0xbb; 0xcc; 0xdd; 0xee; n]%u8.

(** [DcidKey::from_slice] *)
Definition dcid (bs : list byte) (check : DcidKey -> bool) : bool := returning (dcid_key bs) check.

Definition conn_tests : suite :=
  let t := 5000 in
  let found c f d m := assert_eq (conn_lookup c f d t) m in
  [("insert_and_lookup_by_flow",
     found (conn_insert (conn_new 0) (flow 1%u8 12345) None (mac_of 1%u8) t) (flow 1%u8 12345) None
       (Some (mac_of 1%u8)));
   ("lookup_by_dcid_fallback",
     dcid [1; 2; 3]%u8 (fun d =>
       found (conn_insert (conn_new 0) (flow 1%u8 12345) (Some d) (mac_of 5%u8) t) (flow 99%u8 54321) (Some d)
         (Some (mac_of 5%u8))));
   ("record_dcid_from_cid_route",
     dcid [0xaa; 0xbb]%u8 (fun d =>
       found (record_dcid (conn_new 0) d (mac_of 3%u8) t) (flow 1%u8 9999) (Some d) (Some (mac_of 3%u8))));
   ("lookup_miss_returns_none", found (conn_new 0) (flow 1%u8 12345) None None);
   ("dcid_key_equality",
     dcid [1; 2; 3]%u8 (fun a => dcid [1; 2; 3]%u8 (fun b => dcid [1; 2; 4]%u8 (fun c =>
       assert_eq a b && assert_ne a c))))].

(** ** Command line and file *)

Definition cli (ports : list Z) (interface : option string) (queues : option Z) (socket : option string) (fg : bool)
    : CliArgs :=
  mkCliArgs ports (option_map lit interface) queues None (option_map lit socket) fg.

Definition empty_cli : CliArgs := cli [] None None None false.

Definition file_with (interface : string) (queues : Z) (ports : list Z) : FileConfig :=
  mkFileConfig ports (lit interface) queues None None.

Definition merged (c : CliArgs) (f : option FileConfig) (check : Args -> bool) : bool :=
  unwrap (Done (merge_args c f)) check.

(** The tests of the error text look for the bound in it; there is one error. *)
Definition precedence_tests : suite :=
  let eth0 := file_with "eth0" in
  [("defaults_when_nothing_specified",
     merged empty_cli None (fun a =>
       assert_eq (ports a) [DEFAULT_PORT] && assert_eq (interface a) DEFAULT_INTF && (queues a =? DEFAULT_QUEUES) &&
       is_none (config a) && is_none (routeconfig a) && is_none (status_socket a) && negb (foreground a)));
   ("cli_port_overrides_file_port",
     merged (cli [1234] None None None false) (Some (eth0 1 [443; 8443])) (fun a => assert_eq (ports a) [1234]));
   ("file_port_used_when_cli_absent",
     merged empty_cli (Some (eth0 1 [9000; 9001])) (fun a => assert_eq (ports a) [9000; 9001]));
   ("cli_ports_do_not_merge_with_file_ports",
     merged (cli [443] None None None false) (Some (eth0 1 [8443; 9443])) (fun a => assert_eq (ports a) [443]));
   ("interface_precedence",
     merged (cli [] (Some "cli-if") None None false) (Some (file_with "file-if" 1 [443]))
       (fun a => assert_eq (interface a) (lit "cli-if")) &&
     merged empty_cli (Some (file_with "file-if" 1 [443])) (fun a => assert_eq (interface a) (lit "file-if")) &&
     merged empty_cli None (fun a => assert_eq (interface a) DEFAULT_INTF));
   ("queues_precedence",
     merged (cli [] None (Some 8) None false) (Some (eth0 4 [443])) (fun a => queues a =? 8) &&
     merged empty_cli (Some (eth0 4 [443])) (fun a => queues a =? 4))].

Definition queue_path_tests : suite :=
  let eth0 := file_with "eth0" in
  let socket := mkFileConfig [443] (lit "eth0") 1 None (Some (lit "/file.sock")) in
  [("queues_zero_rejected", is_err (Done (merge_args (cli [] None (Some 0) None false) None)));
   ("queues_over_max_rejected", is_err (Done (merge_args (cli [] None (Some (MAX_QUEUES + 1)) None false) None)));
   ("queues_out_of_range_from_file_also_rejected",
     is_err (Done (merge_args empty_cli (Some (eth0 (MAX_QUEUES + 100) [443])))));
   ("status_socket_cli_wins",
     merged (cli [] None None (Some "/cli.sock") false) (Some socket)
       (fun a => assert_eq (status_socket a) (Some (lit "/cli.sock"))));
   ("status_socket_file_used_when_cli_absent",
     merged empty_cli (Some socket) (fun a => assert_eq (status_socket a) (Some (lit "/file.sock"))));
   ("routeconfig_comes_from_file_only",
     merged empty_cli (Some (mkFileConfig [443] (lit "eth0") 1 (Some (lit "/etc/pesigitg/lb.toml")) None))
       (fun a => assert_eq (routeconfig a) (Some (lit "/etc/pesigitg/lb.toml"))) &&
     merged empty_cli None (fun a => is_none (routeconfig a)));
   ("foreground_propagates_from_cli", merged (cli [] None None None true) None foreground)].

(** ** The daemon's file *)

(** The derived [Debug] forms of a [FileConfig] without paths, plain and pretty. *)
Definition quoted (s : str) : str := [34] ++ s ++ [34].

Definition FileConfig_fields (c : FileConfig) (ports_text : str) : list (str * str) :=
  [(lit "ports", ports_text); (lit "interface", quoted (fc_interface c)); (lit "queues", show (fc_queues c));
   (lit "route_config", lit "None"); (lit "status_socket", lit "None")].

Definition debug_plain (c : FileConfig) : str :=
  lit "FileConfig { " ++
  join (lit ", ") (map (fun f => f.1 ++ lit ": " ++ f.2) (FileConfig_fields c (show_list (fc_ports c)))) ++ lit " }".

Definition debug_pretty (c : FileConfig) : str :=
  let ports_text := line (lit "[") ++ concat (map (fun p => line (lit "        " ++ show p ++ lit ",")) (fc_ports c)) ++
                    lit "    ]" in
  line (lit "FileConfig {") ++
  concat (map (fun f => line (lit "    " ++ f.1 ++ lit ": " ++ f.2 ++ lit ",")) (FileConfig_fields c ports_text)) ++
  lit "}".

Definition file_config (ports : list Z) (interface : string) (queues : Z) : FileConfig :=
  mkFileConfig ports (lit interface) queues None None.

Definition file_config_tests : suite :=
  [("create_with_typical_values",
     let c := file_config [443; 8443] "eth0" 4 in
     assert_eq (fc_ports c) [443; 8443] && assert_eq (fc_interface c) (lit "eth0") && (fc_queues c =? 4));
   ("single_port",
     let c := file_config [443] "enp1s0f0" 1 in (len (fc_ports c) =? 1) && assert_eq (fc_ports c !! 0%nat) (Some 443));
   ("empty_ports", assert_eq (fc_ports (file_config [] "lo" 0)) []);
   ("many_ports",
     let ports := seqZ 1000 101 in
     let c := file_config ports "eth0" 8 in (len (fc_ports c) =? 101) && assert_eq (fc_ports c) ports);
   ("port_boundary_values",
     let c := file_config [0; 1; 80; 443; 65535] "eth0" 1 in
     assert_eq (head (fc_ports c)) (Some 0) && assert_eq (last (fc_ports c)) (Some 65535));
   ("interface_names",
     forallb (fun n => assert_eq (fc_interface (file_config [443] n 1)) (lit n))
       ["eth0"; "enp1s0f0"; "ens3"; "lo"; "veth0@if2"]);
   ("high_queue_count", fc_queues (file_config [443] "eth0" 128) =? 128)].

Definition file_config_form_tests : suite :=
  [("clone_produces_independent_copy",
     let config := file_config [443; 8443] "eth0" 4 in
     let cloned := mkFileConfig (fc_ports config ++ [9443]) (lit "eth1") 8 (fc_route_config config) (fc_status_socket config) in
     assert_eq (fc_ports config) [443; 8443] && assert_eq (fc_interface config) (lit "eth0") && (fc_queues config =? 4) &&
     assert_eq (fc_ports cloned) [443; 8443; 9443] && assert_eq (fc_interface cloned) (lit "eth1") && (fc_queues cloned =? 8));
   ("debug_format_contains_fields",
     let d := debug_plain (file_config [443] "eth0" 4) in
     forallb (fun s => contains_str (lit s) d) ["443"; "eth0"; "4"; "FileConfig"]);
   ("debug_format_alternate",
     let d := debug_pretty (file_config [443] "eth0" 2) in contains_str [10] d && contains_str (lit "FileConfig") d)].

Lemma file_config_tests_pass : failures (file_config_tests ++ file_config_form_tests) = [].
Proof. run_suite. Qed.

Lemma config_tests_pass :
  failures (table_tests ++ retry_tests ++ key_age_tests ++ precedence_tests ++ queue_path_tests) = [].
Proof. run_suite. Qed.

Lemma conn_tests_pass : failures conn_tests = [].
Proof. run_suite. Qed.
