(* ===== verification/TestPacket.v ===== *)
(** * Tests of the packet path

    The tests of [packet_tests.rs] (routing of whole frames) and of
    [retry/datapath_tests.rs] (the Retry policy and its answers).  The hash of a flow
    is a parameter of the model; the tests run under one with different values on the
    flows they use. *)

From stdpp Require Import gmap.
From S2P Require Import Prelude Std Common Route Cid ConnTable Initial Token LoadRate RetryPacket RetryConfig.
From S2P Require Import ConfigTable Frame Packet RetryDatapath Aes Digest Testing.

#[local] Open Scope string_scope.
#[local] Open Scope list_scope.
#[local] Open Scope Z_scope.
#[local] Existing Instance fips_aes.
#[local] Existing Instance sha_hmac.
#[local] Existing Instance nist_gcm.
#[local] Instance port_hash : FxHash := fun f => Z.to_N (src_port f / 8).

(** ** Frames *)

Definition LOCAL_MAC : mac := [0x11; 0x22; 0x33; 0x44; 0x55; 0x66]%u8.
Definition CLIENT_MAC : mac := repeated 6 0xaa%u8.
Definition SERVER_MAC : mac := [0xaa; 0xbb; 0xcc; 0xdd; 0xee; 0x01]%u8.

Definition ipv4 (proto : Z) (src dst payload : list byte) : list byte :=
  [0x45; 0]%u8 ++ be_bytes 2 (20 + len payload) ++ zeros 4 ++ [0x40%u8; b8 proto] ++ zeros 2 ++ src ++ dst ++ payload.

Definition ipv6 (next : Z) (src dst payload : list byte) : list byte :=
  [0x60; 0; 0; 0]%u8 ++ be_bytes 2 (len payload) ++ [b8 next; 0x40%u8] ++ src ++ dst ++ payload.

Definition udp (sp dp : Z) (quic : list byte) : list byte :=
  be_bytes 2 sp ++ be_bytes 2 dp ++ be_bytes 2 (8 + len quic) ++ zeros 2 ++ quic.

Definition eth (dst src : list byte) (ty : Z) (payload : list byte) : list byte :=
  dst ++ src ++ be_bytes 2 ty ++ payload.

Definition build_ipv4_frame_ex (quic src_ip : list byte) (src_port : Z) : list byte :=
  eth (repeated 6 0xff%u8) (zeros 6) ETH_P_IP (ipv4 IPPROTO_UDP src_ip [10; 0; 1; 10]%u8 (udp src_port 443 quic)).

Definition build_ipv4_frame (quic : list byte) : list byte := build_ipv4_frame_ex quic [10; 0; 0; 1]%u8 443.

Definition build_ipv6_frame (quic : list byte) : list byte :=
  eth (repeated 6 0xff%u8) (zeros 6) ETH_P_IPV6 (ipv6 IPPROTO_UDP (zeros 16) (zeros 16) (udp 443 443 quic)).

Definition build_quic_long_header (config_id : Z) (server_id nonce : list byte) : list byte :=
  [0xc0; 0; 0; 0; 1]%u8 ++ [b8 (1 + len server_id + len nonce); b8 (Z.shiftl config_id 5)] ++
  server_id ++ nonce ++ [0]%u8.

Definition build_quic_long_header_with_scid (dcid : list byte) (config_id : Z) (server_id nonce : list byte)
    : list byte :=
  [0xc0; 0; 0; 0; 1]%u8 ++ [b8 (len dcid)] ++ dcid ++
  [b8 (1 + len server_id + len nonce); b8 (Z.shiftl config_id 5)] ++ server_id ++ nonce.

(** An ICMP error of a router about a packet of a server. *)
Definition build_icmp_ipv4_frame (quic src_ip dst_ip : list byte) (sp dp : Z) : list byte :=
  eth (repeated 6 0xff%u8) (zeros 6) ETH_P_IP
    (ipv4 IPPROTO_ICMP [192; 168; 1; 1]%u8 [10; 0; 1; 1]%u8
       ([b8 ICMP_DEST_UNREACH; 4%u8] ++ zeros 4 ++ be_bytes 2 0x05dc ++
        ipv4 IPPROTO_UDP src_ip dst_ip (udp sp dp quic))).

(** ** Tables *)

(** [ConfigTable::with_configs], for ids below seven. *)
Definition with_configs (cs : list RouteConfig) : rs ConfigTable :=
  let* (slots, loaded) := fill_slots cs 0 (replicate 7 None) (replicate 7 None) in
  Done (rebuild_fallback_servers (mkTable [] slots loaded [] None)).

Definition backend (n : byte) : Server :=
  mkServer [0; 0; n]%u8 (V4 [10; 0; 1; b8 (9 + u8 n)]%u8) (Some [0xaa; 0xbb; 0xcc; 0xdd; 0xee; n]%u8) false true 0 None.

Definition plain_table (l : list Server) : rs ConfigTable :=
  with_configs [mkRouteConfig 0 true 3 13 Plaintext l None].

Definition make_config : rs ConfigTable := plain_table [backend 1%u8].
Definition make_config_two_servers : rs ConfigTable := plain_table [backend 1%u8; backend 2%u8].

Definition fresh_conn : ConnectionTable := conn_new 0.

(** A check of the frame, the table and the verdict after a packet. *)
Definition process (table : rs ConfigTable) (conn : ConnectionTable) (frame : list byte)
    (check : list byte -> ConnectionTable -> Verdict -> bool) : bool :=
  returning table (fun t =>
    returning (process_packet frame t conn LOCAL_MAC 0) (fun r => check r.1.1 r.1.2 r.2)).

Definition is_cid (v : Verdict) : bool := match v with CidForward _ => true | _ => false end.
Definition is_fallback (v : Verdict) : bool := match v with FallbackForward => true | _ => false end.
Definition is_icmp (v : Verdict) : bool := match v with IcmpForward => true | _ => false end.
Definition is_pass (v : Verdict) : bool := match v with Pass => true | _ => false end.
Definition is_bad_id (v : Verdict) : bool := match v with CidUnroutableBadServerId => true | _ => false end.

Definition to_server (f : list byte) : bool := at_range f 0 SERVER_MAC && at_range f 6 LOCAL_MAC.
Definition untouched (f : list byte) : bool := at_range f 0 (repeated 6 0xff%u8).

Definition ID1 : list byte := [0; 0; 1]%u8.
Definition unroutable : list byte := build_quic_long_header 3 ID1 (zeros 13).

(** Two packets; a check of both frames. *)
Definition twice (a b : list byte) (check : list byte -> list byte -> bool) : bool :=
  process make_config_two_servers fresh_conn a (fun f conn v =>
    is_fallback v && process make_config_two_servers conn b (fun f' _ v' => is_fallback v' && check f f')).

Definition same_dst (f f' : list byte) : bool := assert_eq (take 6 f) (take 6 f').

Definition cid_path_tests : suite :=
  [("process_ipv4_long_header_rewrites_mac",
     process make_config fresh_conn (build_ipv4_frame (build_quic_long_header 0 ID1 (repeated 13 0xaa%u8)))
       (fun f _ v => is_cid v && to_server f));
   ("process_ipv6_long_header_rewrites_mac",
     process make_config fresh_conn (build_ipv6_frame (build_quic_long_header 0 ID1 (repeated 13 0xbb%u8)))
       (fun f _ v => is_cid v && to_server f));
   ("process_unknown_server_id_classifies_as_bad_server_id",
     process make_config fresh_conn (build_ipv4_frame (build_quic_long_header 0 (repeated 3 0xff%u8) (zeros 13)))
       (fun f _ v => is_bad_id v && untouched f));
   ("process_non_ip_passes",
     process make_config fresh_conn (eth (repeated 6 0xff%u8) (zeros 6) 0x0806 (zeros 28)) (fun _ _ v => is_pass v));
   ("process_short_header_rewrites_mac",
     process make_config fresh_conn
       (build_ipv4_frame ([0x40; 0]%u8 ++ ID1 ++ repeated 13 0xcc%u8 ++ zeros 20))
       (fun f _ v => is_cid v && to_server f));
   ("client_initial_with_matching_config_id_falls_through_to_fallback",
     process make_config fresh_conn
       (build_ipv4_frame ([0xc0; 0; 0; 0; 1; 8; 0x05; 0xde; 0xad; 0xbe; 0xef; 1; 2; 3; 0]%u8))
       (fun f _ v => is_fallback v && to_server f))].

Definition fallback_tests : suite :=
  [("fallback_routes_unroutable_cid",
     process make_config fresh_conn (build_ipv4_frame unroutable) (fun f _ v => is_fallback v && to_server f));
   ("fallback_connection_table_stickiness",
     twice (build_ipv4_frame unroutable) (build_ipv4_frame unroutable) same_dst);
   ("fallback_dcid_nat_rebinding",
     twice (build_ipv4_frame_ex unroutable [10; 0; 0; 1]%u8 12345)
       (build_ipv4_frame_ex unroutable [10; 0; 0; 99]%u8 54321) same_dst);
   ("cid_route_records_dcid_for_rebinding",
     process make_config fresh_conn (build_ipv4_frame (build_quic_long_header 0 ID1 (repeated 13 0xaa%u8)))
       (fun _ conn v => is_cid v &&
         returning (dcid_key ([0]%u8 ++ ID1 ++ repeated 13 0xaa%u8)) (fun k =>
           assert_eq (conn_lookup conn (mkFlowKey (V4 [192; 168; 1; 1]%u8) (V4 [192; 168; 1; 2]%u8) 9999 9999)
                        (Some k) 0) (Some SERVER_MAC))));
   ("fallback_deterministic_across_tables",
     process make_config_two_servers fresh_conn (build_ipv4_frame unroutable) (fun f _ _ =>
       process make_config_two_servers fresh_conn (build_ipv4_frame unroutable) (fun f' _ _ => same_dst f f')))].

Definition icmp_tests : suite :=
  let short := [0x40]%u8 ++ zeros 20 in
  let server := [10; 0; 1; 10]%u8 in
  [("icmp_scid_routes_to_server",
     process make_config fresh_conn
       (build_icmp_ipv4_frame (build_quic_long_header_with_scid [0xde; 0xad]%u8 0 ID1 (repeated 13 0xaa%u8))
          server [10; 0; 0; 1]%u8 443 12345)
       (fun f _ v => is_icmp v && to_server f));
   ("icmp_fallback_to_connection_table",
     process make_config fresh_conn (build_ipv4_frame_ex unroutable [10; 0; 0; 1]%u8 12345) (fun _ conn v =>
       is_fallback v &&
       process make_config conn (build_icmp_ipv4_frame short server [10; 0; 0; 1]%u8 443 12345)
         (fun f _ v => is_icmp v && to_server f)));
   ("icmp_no_match_passes",
     process make_config fresh_conn (build_icmp_ipv4_frame short server [10; 0; 0; 99]%u8 443 54321)
       (fun f _ v => is_pass v && untouched f));
   ("icmp_truncated_inner_quic_falls_back",
     process make_config fresh_conn
       (build_icmp_ipv4_frame [0xc0; 0; 0; 0; 1; 2; 3; 4]%u8 server [10; 0; 0; 1]%u8 443 12345)
       (fun _ _ v => is_pass v));
   ("parse_frame_ipv6_with_fragment_ext",
     let quic := repeated 10 0x42%u8 in
     let f := eth (repeated 6 0xff%u8) (zeros 6) ETH_P_IPV6
                (ipv6 IPPROTO_FRAGMENT (zeros 16) (zeros 16) ([b8 IPPROTO_UDP] ++ zeros 7 ++ udp 443 443 quic)) in
     returning (parse_frame f) (fun p => unwrap_some p (fun p =>
       match l4 p with Udp _ q _ _ => assert_eq (drop (Z.to_nat q) f) quic | Icmp _ _ => false end)))].

(** ** The Retry datapath *)

Definition KEY_HEX : string := "0102030405060708090a0b0c0d0e0f101112131415161718191a1b1c1d1e1f20".

Definition retry_section (mode : string) (lifetime : N) (ports : list Z) (load : option N) : RawRetry :=
  mkRawRetry true (Some (lit KEY_HEX)) lifetime (lit mode) ports load None.

Definition always : option RawRetry := Some (retry_section "always" 10 [] None).
Definition observe : option RawRetry := Some (retry_section "observe" 10 [] None).

Definition make_table (raw : option RawRetry) (check : ConfigTable -> bool) : bool :=
  unwrap (table_from_str (IoError := unit) (TomlError := unit)
            (fun _ => Ok [mkRawConfig 0%u8 false 3%u8 13%u8 None [] None]) (fun _ => Ok raw) 0 1%positive []) check.

Definition with_settings (raw : option RawRetry) (check : RetryConfig -> bool) : bool :=
  make_table raw (fun t => unwrap_some (retry t) check).

Definition build_quic_initial (first : byte) (v : Z) (dcid scid token : list byte) : list byte :=
  [first] ++ be_bytes 4 v ++ [b8 (len dcid)] ++ dcid ++ [b8 (len scid)] ++ scid ++ [b8 (len token)] ++ token ++
  [0x40; 0x14]%u8 ++ zeros 20.

Definition DCID8 : list byte := repeated 8 0xaa%u8.
Definition SCID4 : list byte := repeated 4 0xbb%u8.

Definition build_v1_initial (token : list byte) : list byte := build_quic_initial 0xc0%u8 QUIC_V1 DCID8 SCID4 token.
Definition build_v2_initial (token : list byte) : list byte := build_quic_initial 0xd0%u8 QUIC_V2 DCID8 SCID4 token.

Definition client (n : byte) : list byte := [203; 0; 113; n]%u8.
Definition VIP : list byte := [10; 0; 0; 1]%u8.

(** Trackers after [seed_load_rate]. *)
Definition seeded (rate : Z) : tracker_ref -> LoadRateTracker :=
  fun _ => record_batch (record_batch tracker_new rate 0) 0 1000.
Definition unseeded : tracker_ref -> LoadRateTracker := fun _ => tracker_new.

#[local] Instance Decision_eq_dec : EqDecision Decision.
Proof. solve_decision. Defined.
#[local] Instance Detail_eq_dec : EqDecision Detail.
Proof. solve_decision. Defined.
#[local] Instance Outcome_eq_dec : EqDecision Outcome.
Proof. solve_decision. Defined.

(** [classify_t] of an Initial, against the expected decision and detail. *)
Definition classified (ts : tracker_ref -> LoadRateTracker) (quic : list byte) (src : list byte) (r : RetryConfig)
    (now_ms : Z) (d : Decision) (e : Detail) : bool :=
  unwrap (parse_strict quic) (fun i =>
    returning (classify ts i (V4 src) r now_ms 0) (fun x => assert_eq x.1 (d, e))).

(** A token the settings mint for a client. *)
Definition minted (r : RetryConfig) (src : list byte) (check : list byte -> bool) : bool :=
  unwrap (mint (r_token_key r) (V4 src) DCID8 1000) check.

Definition classify_tests : suite :=
  let c1 := client 1%u8 in
  [("classify_always_mode_no_token_emits",
     with_settings always (fun r => classified unseeded (build_v1_initial []) c1 r 1000 DEmit DIssued));
   ("classify_valid_token_forwards",
     with_settings always (fun r => minted r c1 (fun t =>
       classified unseeded (build_v1_initial t) c1 r 1100 DForward DTokenValid)));
   ("classify_expired_token_reissues",
     with_settings (Some (retry_section "always" 1 [] None)) (fun r => minted r c1 (fun t =>
       classified unseeded (build_v1_initial t) c1 r 6000 DEmit DTokenExpired)));
   ("classify_wrong_client_reissues",
     with_settings always (fun r => minted r c1 (fun t =>
       classified unseeded (build_v1_initial t) (client 99%u8) r 1100 DEmit DTokenInvalid)));
   ("classify_observe_never_emits",
     with_settings observe (fun r => classified unseeded (build_v1_initial []) c1 r 1000 DSkip DObserved))].

Definition classify_load_tests : suite :=
  let c1 := client 1%u8 in
  [("classify_load_below_trigger_skips",
     with_settings (Some (retry_section "load" 10 [] (Some 10%N))) (fun r =>
       classified (seeded 5) (build_v1_initial []) c1 r 1500 DSkip DObserved));
   ("classify_load_at_trigger_emits",
     with_settings (Some (retry_section "load" 10 [] (Some 10%N))) (fun r =>
       classified (seeded 10) (build_v1_initial []) c1 r 1500 DEmit DIssued));
   ("classify_load_invalid_token_gated_by_rate",
     with_settings (Some (retry_section "load" 10 [] (Some 100%N))) (fun r => minted r c1 (fun t =>
       classified unseeded (build_v1_initial t) (client 99%u8) r 1100 DSkip DTokenInvalid &&
       classified (seeded 200) (build_v1_initial t) (client 99%u8) r 1500 DEmit DTokenInvalid)))].

(** [TestFrame::new] and [try_handle_slice] *)
Definition test_frame (bytes : list byte) : FrameView := mkView (bytes ++ zeros (4096 - len bytes)) (len bytes).

Definition handling (raw : option RawRetry) (frame : list byte) (now_ms : Z)
    (check : FrameView -> Outcome -> Detail -> bool) : bool :=
  make_table raw (fun t =>
    let f := test_frame frame in
    returning (parse_frame (contents f)) (fun p =>
      match p with
      | None => check f OSkip DNone
      | Some p => returning (try_handle unseeded f p t LOCAL_MAC now_ms 0) (fun r => check r.1.1.1 r.1.1.2 r.1.2)
      end)).

Definition build_udp_v4 (quic src dst : list byte) (sp dp : Z) : list byte :=
  eth LOCAL_MAC CLIENT_MAC ETH_P_IP (ipv4 IPPROTO_UDP src dst (udp sp dp quic)).

Definition build_udp_v6 (quic src dst : list byte) (sp dp : Z) : list byte :=
  eth LOCAL_MAC CLIENT_MAC ETH_P_IPV6 (ipv6 IPPROTO_UDP src dst (udp sp dp quic)).

Definition from_client (quic : list byte) (n : byte) : list byte := build_udp_v4 quic (client n) VIP 12345 4433.

Definition ended (o : Outcome) (d : Detail) (_ : FrameView) (o' : Outcome) (d' : Detail) : bool :=
  assert_eq (o, d) (o', d').

Definition C6 : list byte := [0x20; 0x01; 0x0d; 0xb8]%u8 ++ zeros 11 ++ [1]%u8.
Definition V6IP : list byte := [0x20; 0x01; 0x0d; 0xb8]%u8 ++ zeros 11 ++ [2]%u8.

(** The reflected IPv6 answer; its UDP checksum is mandatory. *)
Definition reflected_v6 (f : FrameView) : bool :=
  let b := contents f in
  at_range b 0 CLIENT_MAC && at_range b 6 LOCAL_MAC && at_range b 12 (be_bytes 2 ETH_P_IPV6) &&
  at_range b 22 V6IP && at_range b 38 C6 && negb (at_range b 60 [0; 0]%u8).

(** The token in the answer verifies for the client it was sent to. *)
Definition token_round_trips (quic : list byte) : bool :=
  handling always (from_client quic 7%u8) 2000 (fun f o _ =>
    assert_eq o OEmitted &&
    let packet := drop 42 (contents f) in
    let token := sub packet 19 (len packet - INTEGRITY_TAG_LEN) in
    (len token =? TOKEN_LEN) &&
    with_settings always (fun r => is_ok (verify (r_token_key r) token (V4 (client 7%u8)) DCID8 2050 10000))).

Definition handle_scope_tests : suite :=
  let initial := build_v1_initial [] in
  [("disabled_short_circuits",
     handling None (from_client initial 1%u8) 1000 (fun f o _ =>
       assert_eq o OSkip && assert_eq (contents f) (from_client initial 1%u8)));
   ("port_filter_scopes_handling",
     let only := Some (retry_section "always" 10 [443] None) in
     handling only (from_client initial 1%u8) 1000 (fun _ o _ => assert_eq o OSkip) &&
     handling only (build_udp_v4 initial (client 1%u8) VIP 12345 443) 1000 (fun _ o _ => assert_eq o OEmitted))].

Definition handle_emit_tests : suite :=
  let initial := build_v1_initial [] in
  [("ipv4_emits_reflected_frame",
     handling always (from_client initial 1%u8) 1000 (fun f o d =>
       ended OEmitted DIssued f o d &&
       let b := contents f in
       at_range b 0 CLIENT_MAC && at_range b 6 LOCAL_MAC && at_range b 12 (be_bytes 2 ETH_P_IP) &&
       at_range b 26 VIP && at_range b 30 (client 1%u8) && at_range b 34 (be_bytes 2 4433) &&
       at_range b 36 (be_bytes 2 12345) && at_range b 42 [0xf0; 0; 0; 0; 1]%u8 &&
       (ones_complement_sum (sub b 14 34) =? 0)));
   ("ipv4_emitted_token_round_trips", token_round_trips initial);
   ("ipv6_emits_reflected_frame",
     handling always (build_udp_v6 initial C6 V6IP 12345 4433) 1000 (fun f o d =>
       ended OEmitted DIssued f o d && reflected_v6 f))].

Definition handle_skip_tests : suite :=
  let initial := build_v1_initial [] in
  [("non_udp_is_skipped",
     handling always
       (eth LOCAL_MAC CLIENT_MAC ETH_P_IP ([0x45; 0]%u8 ++ be_bytes 2 30 ++ zeros 5 ++ [1]%u8 ++ zeros 10)) 1000
       (fun _ o _ => assert_eq o OSkip));
   ("short_header_is_skipped",
     handling always (from_client ([0x40]%u8 ++ repeated 30 0xcc%u8) 1%u8) 1000 (ended OSkip DNone));
   ("observe_mode_reports_observed_detail",
     handling observe (from_client initial 1%u8) 1000 (ended OSkip DObserved));
   ("observe_mode_expired_token_reports_detail",
     let brief := Some (retry_section "observe" 1 [] None) in
     with_settings brief (fun r => minted r (client 1%u8) (fun t =>
       handling brief (from_client (build_v1_initial t) 1%u8) 6000 (ended OSkip DTokenExpired))));
   ("observe_mode_valid_token_forwards",
     with_settings observe (fun r => minted r (client 1%u8) (fun t =>
       handling observe (from_client (build_v1_initial t) 1%u8) 1100 (ended OForward DTokenValid))))].

Definition handle_v2_tests : suite :=
  let initial := build_v2_initial [] in
  let v2_retry off f := at_range (contents f) off ([0xc0]%u8 ++ be_bytes 4 QUIC_V2) in
  [("v2_initial_emits_v2_retry",
     handling always (from_client initial 1%u8) 1000 (fun f o d => ended OEmitted DIssued f o d && v2_retry 42 f));
   ("v2_emitted_token_round_trips", token_round_trips initial);
   ("v2_ipv6_emits_reflected_frame",
     handling always (build_udp_v6 initial C6 V6IP 12345 4433) 1000 (fun f o d =>
       ended OEmitted DIssued f o d && v2_retry 62 f && negb (at_range (contents f) 60 [0; 0]%u8)));
   ("v2_valid_token_forwards",
     with_settings always (fun r => minted r (client 1%u8) (fun t =>
       classified unseeded (build_v2_initial t) (client 1%u8) r 1100 DForward DTokenValid)))].

Lemma packet_tests_pass : failures (cid_path_tests ++ fallback_tests ++ icmp_tests) = [].
Proof. run_suite. Qed.

Lemma datapath_tests_pass :
  failures (classify_tests ++ classify_load_tests ++ handle_scope_tests
            ++ handle_emit_tests ++ handle_skip_tests ++ handle_v2_tests) = [].
Proof. run_suite. Qed.
