(* ===== verification/TestDaemon.v ===== *)
(** * Tests of the daemon's services

    The test modules of [threading.rs], [neigh.rs], [stats.rs], [health.rs],
    [utils.rs] and [fdstore.rs].  Netlink messages are in little-endian order. *)

From stdpp Require Import gmap.
From S2P Require Import Prelude Std Decimal Text Json Calendar Common Route RetryDatapath ConfigTable Neigh Health.
From S2P Require Import Threads Stats Status Display Threading Handoff Pool Aes Testing.

#[local] Open Scope string_scope.
#[local] Open Scope list_scope.
#[local] Open Scope Z_scope.
#[local] Existing Instance fips_aes.
#[local] Instance little : Endian := true.

(** ** Threads *)

Definition count_tests : suite :=
  let fails hw req cores := match non_zero_worker_count hw req cores with Err _ => true | Ok _ => false end in
  [("resolve_thread_count_no_clamp_when_all_sufficient", resolve_thread_count 16 8 32 =? 8);
   ("resolve_thread_count_clamped_by_hw_queues", resolve_thread_count 4 16 32 =? 4);
   ("resolve_thread_count_clamped_by_available_cores", resolve_thread_count 64 64 16 =? 16);
   ("resolve_thread_count_all_three_constraints_tie", resolve_thread_count 8 8 8 =? 8);
   ("resolve_thread_count_zero_requested_returns_zero", resolve_thread_count 4 0 4 =? 0);
   ("resolve_thread_count_zero_cores_returns_zero", resolve_thread_count 4 4 0 =? 0);
   ("non_zero_worker_count_succeeds_when_all_positive",
     match non_zero_worker_count 4 4 8 with Ok n => n =? 4 | Err _ => false end);
   ("non_zero_worker_count_errors_when_hw_queues_zero", fails 0 4 8);
   ("non_zero_worker_count_errors_when_available_cores_zero", fails 4 4 0);
   ("non_zero_worker_count_errors_when_requested_zero", fails 4 0 8);
   ("parse_cpulist_single_range", assert_eq (parse_cpulist (lit "0-5")) [0; 1; 2; 3; 4; 5]);
   ("parse_cpulist_single_cpu", assert_eq (parse_cpulist (lit "7")) [7]);
   ("parse_cpulist_multiple_ranges", assert_eq (parse_cpulist (lit "0-3,16-19")) [0; 1; 2; 3; 16; 17; 18; 19]);
   ("parse_cpulist_mixed_singles_and_ranges", assert_eq (parse_cpulist (lit "0,2-3,7")) [0; 2; 3; 7]);
   ("parse_cpulist_empty_string", assert_eq (parse_cpulist []) []);
   ("parse_cpulist_skips_malformed_parts", assert_eq (parse_cpulist (lit "0-2,junk,5")) [0; 1; 2; 5]);
   ("parse_cpulist_tolerates_whitespace", assert_eq (parse_cpulist (lit " 0-1 ,  4 ")) [0; 1; 4])].

Definition topology_tests : suite :=
  let node m cpu n := assert_eq (m !! cpu) n in
  let epyc := build_cpu_numa_map [(0, lit "0-3"); (1, lit "4-7"); (2, lit "8-11"); (3, lit "12-15")] in
  [("build_cpu_numa_map_single_node",
     let m := build_cpu_numa_map [(0, lit "0-3")] in
     forallb (fun cpu => node m cpu (Some 0)) [0; 1; 2; 3] && node m 4 None);
   ("build_cpu_numa_map_epyc_nps4_style",
     node epyc 0 (Some 0) && node epyc 5 (Some 1) && node epyc 10 (Some 2) && node epyc 15 (Some 3));
   ("build_cpu_numa_map_empty_input_yields_empty_map", assert_eq (build_cpu_numa_map []) ∅);
   ("is_smt_primary_true_for_min_sibling", is_smt_primary 0 (lit "0,8"));
   ("is_smt_primary_false_for_non_min_sibling", negb (is_smt_primary 8 (lit "0,8")));
   ("is_smt_primary_true_when_no_siblings", is_smt_primary 4 (lit "4"));
   ("is_smt_primary_handles_range_syntax", is_smt_primary 2 (lit "2-3") && negb (is_smt_primary 3 (lit "2-3")));
   ("is_smt_primary_false_on_unparseable_list", negb (is_smt_primary 0 []))].

Definition placement_tests : suite :=
  [("order_primaries_first_separates_by_flag",
     assert_eq (order_primaries_first [(0, 0, true); (1, 0, false); (2, 0, true); (3, 0, false)])
       [(0, 0); (2, 0); (1, 0); (3, 0)]);
   ("order_primaries_first_preserves_original_order_within_groups",
     assert_eq (order_primaries_first [(5, 1, false); (0, 0, true); (3, 1, true); (2, 0, false)])
       [(0, 0); (3, 1); (5, 1); (2, 0)]);
   ("order_primaries_first_no_primaries_preserves_all",
     assert_eq (order_primaries_first [(0, 0, false); (1, 0, false)]) [(0, 0); (1, 0)]);
   ("order_primaries_first_all_primaries_preserves_all",
     assert_eq (order_primaries_first [(0, 0, true); (1, 0, true)]) [(0, 0); (1, 0)]);
   ("order_primaries_first_then_pick_numa_prefers_physical_cores",
     assert_eq (pick_numa_local_cores 0
       (order_primaries_first (map (fun i => (i, 0, i mod 2 =? 0)) (seqZ 0 8))) 2) [0; 2]);
   ("pick_numa_local_cores_prefers_local_numa",
     assert_eq (pick_numa_local_cores 0 [(0, 1); (1, 0); (2, 1); (3, 0)] 4) [1; 3; 0; 2]);
   ("pick_numa_local_cores_fills_with_remote_when_local_insufficient",
     assert_eq (pick_numa_local_cores 0 [(0, 0); (1, 1); (2, 1); (3, 1)] 3) [0; 1; 2]);
   ("pick_numa_local_cores_truncates_to_queue_count",
     assert_eq (pick_numa_local_cores 0 [(0, 0); (1, 0); (2, 0); (3, 0)] 2) [0; 1]);
   ("pick_numa_local_cores_returns_empty_for_zero_queue_count",
     assert_eq (pick_numa_local_cores 0 [(0, 0); (1, 1)] 0) []);
   ("pick_numa_local_cores_no_local_falls_entirely_to_remote",
     assert_eq (pick_numa_local_cores 0 [(0, 1); (1, 1); (2, 1)] 2) [0; 1])].

(** A worker that runs until the shutdown, and one whose thread has returned. *)
Definition park_worker (q : Z) : Worker := mkWorker q (Some FreshSocket).
Definition finished_worker (q : Z) : Worker := mkWorker q None.

Definition pool_tests : suite :=
  [("worker_pool_initial_health_matches_worker_count",
     let h := health_new (map park_worker [0; 1; 2]) in (expected h =? 3) && (alive h =? 3));
   ("refresh_health_reflects_finished_workers",
     let ws := [park_worker 0; finished_worker 1; park_worker 2] in alive (refresh_health ws (health_new ws)) =? 2);
   ("dead_queues_returns_finished_worker_ids",
     assert_eq (dead_queues [park_worker 0; finished_worker 7; finished_worker 9]) [7; 9]);
   ("shutdown_sets_flag_joins_and_drains_workers",
     let turn (i : nat) := [Sched i; Sched i; See i; Sched i; Sched i] in
     let parked q := mkTh q false (AtTest FreshSocket) in
     match run_labels (Stop false :: concat (map turn [0; 1; 2]%nat) ++ replicate 4 MainStep)
             (mkSys false (map parked [0; 1; 2]) [] Serving) with
     | Some s => sy_shutdown s && match sy_main s with Stopped false [] => true | _ => false end
     | None => false
     end)].

(** ** Neighbours *)

Definition NEIGH_MAC : mac := [0xaa; 0xbb; 0xcc; 0xdd; 0xee; 0xff]%u8.

Definition padded (l : list byte) : list byte := l ++ zeros (- len l mod 4).
Definition attr (ty : Z) (data : list byte) : list byte :=
  padded (ne_bytes 2 (4 + len data) ++ ne_bytes 2 ty ++ data).

(** A message of a type with a body. *)
Definition nlmsg (ty : Z) (body : list byte) : list byte :=
  ne_bytes 4 (16 + len body) ++ ne_bytes 2 ty ++ zeros 10 ++ body.

Definition ndmsg (family state : Z) : list byte :=
  [b8 family; 0; 0; 0]%u8 ++ ne_bytes 4 1 ++ ne_bytes 2 state ++ zeros 2.

Definition build_neigh_msg (family state : Z) (ip mac : list byte) : list byte :=
  nlmsg RTM_NEWNEIGH (ndmsg family state ++ attr NDA_DST ip ++ attr NDA_LLADDR mac).

Definition IP1 : list byte := [10; 0; 0; 1]%u8.
Definition reachable_msg : list byte := build_neigh_msg AF_INET NUD_REACHABLE IP1 NEIGH_MAC.

Definition learns (msg : list byte) (check : neigh_table -> bool) : bool := returning (parse_neigh_msg msg ∅) check.
Definition learns_nothing (msg : list byte) : bool := learns msg (fun t => assert_eq t ∅).

Definition chunk (buf : list byte) (check : neigh_table -> ChunkOutcome -> bool) : bool :=
  returning (process_chunk buf ∅) (fun r => check r.1 r.2).

Definition is_done (o : ChunkOutcome) : bool := match o with ChunkDone => true | _ => false end.

Definition neigh_request_tests : suite :=
  [("nlmsg_align_rounds_up_to_4", assert_eq (map nlmsg_align [0; 1; 3; 4; 5; 10]) [0; 4; 4; 4; 8; 12]);
   ("dump_request_bytes_match_nlmsghdr_plus_ndmsg_layout",
     let b := build_dump_request_bytes in
     (len b =? 28) && at_range b 0 (ne_bytes 4 28) && at_range b 4 (ne_bytes 2 RTM_GETNEIGH) &&
     at_range b 6 (ne_bytes 2 (Z.lor NLM_F_REQUEST NLM_F_DUMP)) && at_range b 8 (ne_bytes 4 1) &&
     at_range b 12 (zeros 4) && at_range b 16 [b8 AF_UNSPEC])].

Definition neigh_parse_tests : suite :=
  let v6 := [0x20; 0x01; 0x0d; 0xb8]%u8 ++ zeros 11 ++ [1]%u8 in
  [("parse_neigh_msg_inserts_ipv4_reachable",
     learns reachable_msg (fun t => assert_eq (t !! V4 IP1) (Some NEIGH_MAC)));
   ("parse_neigh_msg_inserts_ipv6_permanent",
     learns (build_neigh_msg AF_INET6 NUD_PERMANENT v6 NEIGH_MAC) (fun t => assert_eq (t !! V6 v6) (Some NEIGH_MAC)));
   ("parse_neigh_msg_skips_unresolved_state", learns_nothing (build_neigh_msg AF_INET 0x20 IP1 NEIGH_MAC));
   ("parse_neigh_msg_skips_unknown_family", learns_nothing (build_neigh_msg 7 NUD_REACHABLE IP1 NEIGH_MAC));
   ("parse_neigh_msg_skips_when_lladdr_missing",
     learns_nothing (nlmsg RTM_NEWNEIGH (ndmsg AF_INET NUD_REACHABLE ++ attr NDA_DST IP1)));
   ("parse_neigh_msg_masks_nla_flag_bits",
     learns (nlmsg RTM_NEWNEIGH (ndmsg AF_INET NUD_REACHABLE ++ attr (Z.lor NDA_DST 0x8000) IP1 ++
                                   attr NDA_LLADDR NEIGH_MAC))
       (fun t => assert_eq (t !! V4 IP1) (Some NEIGH_MAC)));
   ("parse_neigh_msg_ignores_truncated_buffer", learns_nothing (take 20 reachable_msg))].

Definition neigh_chunk_tests : suite :=
  [("process_chunk_returns_done_on_nlmsg_done",
     chunk (nlmsg NLMSG_DONE []) (fun t o => is_done o && assert_eq t ∅));
   ("process_chunk_returns_error_on_nlmsg_error",
     chunk (nlmsg NLMSG_ERROR []) (fun _ o => match o with ChunkError => true | _ => false end));
   ("process_chunk_walks_multiple_messages_then_done",
     let m1 := map b8 (seqZ 1 6) in
     let m2 := map b8 (seqZ 0x11 6) in
     chunk (build_neigh_msg AF_INET NUD_REACHABLE IP1 m1 ++ build_neigh_msg AF_INET NUD_STALE [10; 0; 0; 2]%u8 m2 ++
            nlmsg NLMSG_DONE [])
       (fun t o => is_done o && (size t =? 2)%nat && assert_eq (t !! V4 IP1) (Some m1) &&
                   assert_eq (t !! V4 [10; 0; 0; 2]%u8) (Some m2)))].

(** ** Counters *)

Definition all_ones : Snapshot := mkStats 1 1 1 (replicate 7 1) 1 1 1 1 1 1 1 1 1 1 1 1 1.
Definition peak (n : Z) : Snapshot := mkStats 0 0 0 (replicate 7 0) 0 0 0 0 0 0 n 0 0 0 0 0 0.
Definition by_config (l : list Z) : Snapshot := mkStats 0 0 0 l 0 0 0 0 0 0 0 0 0 0 0 0 0.
Definition received (n : Z) (l : list Z) (p : Z) : Snapshot := mkStats n 0 0 l 0 0 0 0 0 0 p 0 0 0 0 0 0.
Definition unroutable (routed no_server bad : Z) : Snapshot :=
  mkStats 0 0 routed (replicate 7 0) 0 no_server bad 0 0 0 0 0 0 0 0 0 0.
Definition retried (seen issued valid invalid expired parse : Z) : Snapshot :=
  mkStats 0 0 0 (replicate 7 0) 0 0 0 0 0 0 0 seen issued valid invalid expired parse.

#[local] Instance WorkerStats_eq_dec : EqDecision WorkerStats.
Proof. solve_decision. Defined.

Definition has (s : Snapshot) (p : string) : bool := contains_str (lit p) (show s).
Definition has_not (s : Snapshot) (p : string) : bool := negb (has s p).

Definition delta_tests : suite :=
  let zeros7 := replicate 7 0 in
  [("delta_of_equal_snapshots_is_zero_linear_fields",
     let d := delta all_ones all_ones in assert_eq d (peak 1) && (cid_unroutable d =? 0));
   ("delta_preserves_pending_fill_peak_from_self",
     (pending_fill_peak (delta (peak 42) (peak 10)) =? 42) && (pending_fill_peak (delta (peak 5) (peak 10)) =? 5));
   ("delta_subtracts_per_config_slot_elementwise",
     assert_eq (cid_by_config (delta (by_config [0; 2; 4; 6; 8; 10; 12]) (by_config [0; 1; 2; 3; 4; 5; 6])))
       [0; 1; 2; 3; 4; 5; 6]);
   ("delta_uses_wrapping_sub_when_counters_are_reset",
     rx_packets (delta (received 40 zeros7 0) (received 100 zeros7 0)) =? 2 ^ 64 - 1 - 60 + 1)].

Definition stats_text_tests : suite :=
  [("display_omits_cid_breakdown_when_all_zero",
     has_not stats_new "c0=" && has_not stats_new "[" && has stats_new "rx=0");
   ("display_includes_only_nonzero_cid_slots",
     let s := by_config [3; 0; 5; 0; 0; 0; 0] in has s "c0=3" && has s "c2=5" && has_not s "c1=" && has_not s "c3=");
   ("display_omits_retry_section_when_no_initials_seen", has_not stats_new "retry(");
   ("display_includes_retry_section_when_initials_seen",
     let s := retried 5 2 1 1 0 1 in has s "retry(seen=5" && has s "issued=2" && has s "parse_err=1");
   ("display_omits_draining_when_zero", has_not stats_new "draining=");
   ("display_omits_pending_fill_peak_when_zero", has_not stats_new "pending_fill_peak")].

Definition aggregate_tests : suite :=
  [("aggregate_of_empty_table_is_default",
     (rx_packets (aggregate []) =? 0) && (pending_fill_peak (aggregate []) =? 0));
   ("aggregate_sums_linear_counters_and_maxes_peak",
     let agg := aggregate [received 10 [1; 0; 0; 0; 0; 0; 0] 5; received 20 [2; 0; 0; 0; 0; 0; 0] 99;
                           received 30 [0; 0; 0; 7; 0; 0; 0] 12] in
     (rx_packets agg =? 60) && (pending_fill_peak agg =? 99) && assert_eq (cid_by_config agg) [3; 0; 0; 7; 0; 0; 0]);
   ("batch_flush_rolls_up_into_worker_stats",
     returning (let* b := record_cid_forward batch_new 2 in record_cid_forward b 2) (fun b =>
       let b := record_cid_unroutable_bad_server_id (record_cid_unroutable_bad_server_id
                  (record_cid_unroutable_no_server (record_draining_forward (record_icmp_forward
                     (record_fallback_forward b))))) in
       let agg := aggregate [flush (record_pass b) stats_new] in
       (cid_routed agg =? 2) && assert_eq (cid_by_config agg) [0; 0; 2; 0; 0; 0; 0] && (forwarded agg =? 4) &&
       (fallback_routed agg =? 1) && (icmp_forwarded agg =? 1) && (draining_forwarded agg =? 1) &&
       (cid_unroutable_no_server agg =? 1) && (cid_unroutable_bad_server_id agg =? 2) &&
       (cid_unroutable agg =? 3) && (passed agg =? 1)));
   ("display_highlights_bad_server_id_when_present",
     let a := unroutable 0 5 0 in
     let b := unroutable 0 5 7 in
     has a "cid_unroutable=5" && has_not a "bad_id" && has b "cid_unroutable=12" && has b "no_srv=5" &&
     has b "bad_id=7")].

Definition rate_tests : suite :=
  [("retry_forgery_rate_is_zero_when_no_tokens", assert_eq (retry_forgery_rate stats_new) (0, 1));
   ("retry_forgery_rate_includes_expired_in_denominator",
     assert_eq (retry_forgery_rate (retried 0 0 90 5 5 0)) (5, 100));
   ("cid_probing_rate_is_zero_when_no_cids_matched_a_config", assert_eq (cid_probing_rate stats_new) (0, 1));
   ("cid_probing_rate_excludes_drain_signal_from_numerator",
     assert_eq (cid_probing_rate (unroutable 50 30 20)) (20, 100));
   ("record_pending_fill_keeps_max_not_last",
     pending_fill_peak (aggregate [foldl record_pending_fill stats_new [50; 10; 30]]) =? 50)].

(** ** Health *)

Definition addr (n : byte) : IpAddr := V4 [10; 0; 0; n]%u8.

Definition fixture_state (now : Instant) (l : list (byte * Z * bool)) : gmap IpAddr ServerHealth :=
  list_to_map (map (fun e => (addr e.1.1, mkHealth e.1.2 e.2 now 0 now e.2)) l).

Definition two_servers : rs (result ConfigTable (table_error unit unit)) :=
  let srv id a := mkRawServer (lit id) (lit a) None false in
  table_from_str (fun _ => Ok [mkRawConfig 0%u8 false 2%u8 5%u8 None
                                 [srv "0001" "10.0.0.1"; srv "0002" "10.0.0.2"] None])
    (fun _ => Ok None) 0 1%positive [].

(** The state of the first server, the table and the change flag after probes. *)
Definition probed (l : list (byte * Z * bool)) (probes : list (IpAddr * bool)) (now : Instant)
    (check : ServerHealth -> ConfigTable -> bool -> bool) : bool :=
  unwrap two_servers (fun t =>
    returning (apply_probe_results (fixture_state 1000 l) probes now t) (fun r =>
      unwrap_some (r.1.1 !! addr 1%u8) (fun s => check s r.1.2 r.2))).

(** One server with failures and health, after one probe. *)
Definition one_probe (failures : Z) (up ok : bool) : (ServerHealth -> ConfigTable -> bool -> bool) -> bool :=
  probed [(1%u8, failures, up)] [(addr 1%u8, ok)] 2000.

Definition shows (s : ServerHealth) (up : bool) (failures : Z) : bool :=
  assert_eq (healthy s) up && (consecutive_failures s =? failures).

Definition backoff (n : Z) (d : Duration) : bool := returning (backoff_for n) (Z.eqb d).

Definition servers_up (t : ConfigTable) : list bool := map s_healthy (concat (map servers (configs t))).

Definition probe_tests : suite :=
  [("backoff_for_below_threshold_uses_probe_interval",
     forallb (fun n => backoff n PROBE_INTERVAL) [0; 1; FAILURE_THRESHOLD - 1]);
   ("backoff_for_at_threshold_uses_schedule_entries",
     backoff FAILURE_THRESHOLD (from_secs 10) && backoff (FAILURE_THRESHOLD + 1) (from_secs 30));
   ("backoff_for_past_schedule_clamps_to_last_entry",
     backoff (FAILURE_THRESHOLD + 3) (from_secs 300) && backoff (FAILURE_THRESHOLD + 100) (from_secs 300));
   ("success_on_new_address_flips_healthy_and_marks_changed",
     one_probe 0 false true (fun s _ ch => ch && shows s true 0));
   ("success_on_already_healthy_resets_failures_without_changing",
     one_probe 2 true true (fun s _ ch => negb ch && shows s true 0));
   ("failure_below_threshold_keeps_healthy_and_does_not_change",
     one_probe 0 true false (fun s _ ch => negb ch && shows s true 1));
   ("failure_at_threshold_flips_unhealthy_and_marks_changed",
     one_probe (FAILURE_THRESHOLD - 1) true false (fun s _ ch => ch && shows s false FAILURE_THRESHOLD));
   ("already_unhealthy_failure_just_increments_counter",
     one_probe (FAILURE_THRESHOLD + 5) false false (fun s _ ch => negb ch && shows s false (FAILURE_THRESHOLD + 6)));
   ("recovery_from_unhealthy_marks_changed_and_resets_failures",
     one_probe 10 false true (fun s _ ch => ch && shows s true 0));
   ("next_probe_at_uses_probe_interval_on_success",
     one_probe 0 true true (fun s _ _ => next_probe_at s =? 2000 + PROBE_INTERVAL));
   ("next_probe_at_uses_backoff_on_failure",
     one_probe FAILURE_THRESHOLD false false (fun s _ _ => next_probe_at s =? 2000 + from_secs 30))].

Definition mirror_tests : suite :=
  [("transition_mirrors_healthy_flag_onto_config_servers",
     unwrap two_servers (fun t => assert_eq (servers_up t) [false; false]) &&
     probed [(1%u8, 0, false); (2%u8, 0, true)] [(addr 1%u8, true); (addr 2%u8, true)] 2000
       (fun _ t ch => ch && assert_eq (servers_up t) [true; true]));
   ("mirror_runs_unconditionally_to_recover_from_sighup_rebuild",
     one_probe 0 true true (fun _ t ch => negb ch && assert_eq (servers_up t) [true; false]))].

Definition flap_tests : suite :=
  [("warmup_recovery_does_not_count_as_a_flap",
     one_probe 0 false true (fun s _ _ => healthy s && ever_healthy s && (transitions s =? 0)));
   ("real_flap_increments_transitions",
     one_probe (FAILURE_THRESHOLD - 1) true false (fun s _ _ =>
       negb (healthy s) && (transitions s =? 1) &&
       returning (probe_step s true 3000) (fun r => healthy r.1 && (transitions r.1 =? 2))));
   ("state_since_unchanged_when_state_does_not_flip",
     one_probe 0 true true (fun s _ _ => state_since s =? 1000));
   ("evict_removes_addrs_not_in_current_set",
     let st := evict_removed (fixture_state 0 [(1%u8, 0, true); (2%u8, 5, false)]) {[addr 1%u8]} in
     is_some (st !! addr 1%u8) && is_none (st !! addr 2%u8));
   ("evict_is_a_noop_when_nothing_was_removed",
     Nat.eqb (size (evict_removed (fixture_state 0 [(1%u8, 0, true); (2%u8, 0, true)]) {[addr 1%u8; addr 2%u8]})) 2);
   ("evict_clears_all_when_current_is_empty",
     Nat.eqb (size (evict_removed (fixture_state 0 [(1%u8, 0, true); (2%u8, 0, false)]) ∅)) 0);
   ("state_since_resets_at_threshold_crossing_instant",
     one_probe (FAILURE_THRESHOLD - 1) true false (fun s _ _ => negb (healthy s) && (state_since s =? 2000)))].

(** ** Time stamps and descriptor names *)

Definition rfc3339_tests : suite :=
  let at_time s ms t := assert_eq (format_rfc3339_utc s ms) (lit t) in
  [("rfc3339_epoch", at_time 0 0 "1970-01-01T00:00:00.000Z");
   ("rfc3339_known_date", at_time 1776384000 0 "2026-04-17T00:00:00.000Z");
   ("rfc3339_with_millis", at_time 1776429296 789 "2026-04-17T12:34:56.789Z");
   ("rfc3339_leap_year_boundary", at_time 1709251199 0 "2024-02-29T23:59:59.000Z")].

#[local] Instance FdKind_eq_dec : EqDecision FdKind.
Proof. solve_decision. Defined.

Definition name_tests : suite :=
  [("name_parses_round_trip",
     forallb (fun q => assert_eq (parse_name (sock_name q)) (Some (q, Sock)) &&
                       assert_eq (parse_name (umem_name q)) (Some (q, Umem))) [0; 1; 7; 64; 4095]);
   ("name_rejects_garbage",
     forallb (fun s => is_none (parse_name (lit s)))
       [EmptyString; "pesigitg-q"; "pesigitg-qabc-sock"; "pesigitg-q5-other"; "foo-q5-sock"])].

Lemma threading_tests_pass : failures (count_tests ++ topology_tests ++ placement_tests ++ pool_tests) = [].
Proof. run_suite. Qed.

Lemma neigh_tests_pass : failures (neigh_request_tests ++ neigh_parse_tests ++ neigh_chunk_tests) = [].
Proof. run_suite. Qed.

Lemma stats_tests_pass : failures (delta_tests ++ stats_text_tests ++ aggregate_tests ++ rate_tests) = [].
Proof. run_suite. Qed.

Lemma health_tests_pass : failures (probe_tests ++ mirror_tests ++ flap_tests) = [].
Proof. run_suite. Qed.

Lemma naming_tests_pass : failures (rfc3339_tests ++ name_tests) = [].
Proof. run_suite. Qed.
