(* ===== verification/TestControl.v ===== *)
(** * Tests of the status API and of the control tool

    The test modules of [status_api.rs] and of [pesigitg-control/src/main.rs]. *)

From S2P Require Import Prelude Std Common Route RetryConfig ConfigTable Decimal Text Json DaemonConfig Stats.
From S2P Require Import Status Control Inspect ControlMain Float64 Watch Aes Testing.

#[local] Open Scope string_scope.
#[local] Open Scope list_scope.
#[local] Open Scope Z_scope.
#[local] Existing Instance fips_aes.

(** ** Looking into documents *)

(** [v[k]], and the comparisons of a value with a literal. *)
Definition at_key (v : json) (k : string) : json := or_null (get (lit k) v).

Definition is_num (v : json) (k : string) (n : Z) : bool := is_u64_val n (at_key v k).
Definition is_text (v : json) (k s : string) : bool := is_str_val (lit s) (at_key v k).
Definition is_flag (v : json) (k : string) (b : bool) : bool := assert_eq (as_bool (at_key v k)) (Some b).
Definition is_null (v : json) : bool := match v with JNull => true | _ => false end.

(** [v[k].as_array().unwrap()] *)
Definition with_array (v : json) (k : string) (check : list json -> bool) : bool :=
  unwrap_some (as_array (at_key v k)) check.

Definition nth_doc (l : list json) (i : nat) : json := or_null (nth_error l i).

(** ** The status API *)

Definition fixture_args : Args :=
  mkArgs [443; 4433] (lit "lo") 2 (Some (lit "/etc/pesigitgd.toml")) (Some (lit "/etc/pesigitgd-route.toml"))
    (Some (lit "/run/pesigitgd.sock")) true.

Definition plain_srv (id address : string) : RawServer := mkRawServer (lit id) (lit address) None false.

Definition fixture_table : rs (result ConfigTable (table_error unit unit)) :=
  table_from_str
    (fun _ => Ok [mkRawConfig 0%u8 false 2%u8 5%u8 None [plain_srv "0001" "10.0.0.1"; plain_srv "0002" "2001:db8::1"] None])
    (fun _ => Ok None) 0 1%positive [].

(** What the build script puts into the binary. *)
Definition built : BuildInfo := mkBuild (lit "0.9.0") (lit "2026-02-03") (lit "rustc 1.90.0") (lit "x86_64-unknown-linux-gnu").

Definition all_zero : Snapshot := mkStats 0 0 0 (replicate 7 0) 0 0 0 0 0 0 0 0 0 0 0 0 0.

(** The test looks at fields of the view, which is a document here. *)
Definition view_doc (s : Snapshot) : json := obj (snapshot_view s).

Definition view_tests : suite :=
  [("snapshot_view_filters_zero_cid_configs",
     let m := at_key (view_doc (mkStats 0 0 0 [3; 0; 5; 0; 0; 0; 1] 0 0 0 0 0 0 0 0 0 0 0 0 0)) "cid_by_config" in
     match m with JObj f => Nat.eqb (length f) 3 | _ => false end
     && is_num m "0" 3 && is_num m "2" 5 && is_num m "6" 1);
   ("snapshot_view_omits_cid_by_config_when_all_zero",
     match at_key (view_doc all_zero) "cid_by_config" with JObj [] => true | _ => false end);
   ("snapshot_view_preserves_top_level_counters",
     let v := view_doc (mkStats 10 9 4 (replicate 7 0) 3 1 0 1 0 1 7 0 0 0 0 0 0) in
     is_num v "rx_packets" 10 && is_num v "forwarded" 9 && is_num v "cid_routed" 4
     && is_num v "fallback_routed" 3 && is_num v "cid_unroutable" 1 && is_num v "draining_forwarded" 1
     && is_num v "icmp_forwarded" 0 && is_num v "passed" 1 && is_num v "pending_fill_peak" 7);
   ("snapshot_view_nests_retry_subtree",
     let r := at_key (view_doc (mkStats 0 0 0 (replicate 7 0) 0 0 0 0 0 0 0 5 4 3 2 1 1)) "retry" in
     is_num r "initials_seen" 5 && is_num r "issued" 4 && is_num r "token_validated" 3
     && is_num r "token_invalid" 2 && is_num r "token_expired" 1 && is_num r "parse_error" 1);
   ("version_response_uses_compile_time_constants",
     let v := build_version_response built in
     is_str_val PROC_NAME (at_key v "name") && is_str_val (cargo_pkg_version built) (at_key v "version")
     && is_str_val (build_date built) (at_key v "build_date")
     && is_str_val (rustc_version built) (at_key v "rustc_version")
     && is_str_val (build_target built) (at_key v "target"));
   ("health_response_status_ok_when_alive_meets_expected",
     let v := build_health_response (mkWorkerHealth 4 4) 0 in
     is_text v "status" "ok" && is_num v "workers_alive" 4 && is_num v "workers_expected" 4);
   ("health_response_status_ok_when_alive_exceeds_expected",
     is_text (build_health_response (mkWorkerHealth 5 4) 0) "status" "ok");
   ("health_response_status_degraded_when_alive_below_expected",
     let v := build_health_response (mkWorkerHealth 2 4) 0 in
     is_text v "status" "degraded" && is_num v "workers_alive" 2);
   ("encryption_name_maps_three_variants",
     let key := repeated 16 0%u8 in
     let cipher := aes_new key in
     assert_eq (encryption_name Plaintext) (lit "plaintext")
     && assert_eq (encryption_name (SinglePass key cipher)) (lit "single_pass")
     && assert_eq (encryption_name (FourPass key cipher)) (lit "four_pass"))].

(** The other end writes the request, shuts down its writing side and reads the answer; the
    bytes arrive as one piece, or as many as the buffer takes. *)
Definition stream_read (st : list byte) (n : Z) : result (list byte) unit * list byte :=
  (Ok (take (Z.to_nat n) st), drop (Z.to_nat n) st).

Definition drive_handle_connection (request : list byte) (check : json -> bool) : bool :=
  unwrap fixture_table (fun t =>
    unwrap_some
      (handle_connection stream_read request built
         (mkView fixture_args t [all_zero] (mkWorkerHealth 1 1) 0 0 (fun _ _ => 0)))
      (fun m => returning m (fun o => unwrap_some o check))).

Definition get_request (s : string) (eol : list byte) : list byte := bytes_of (lit s) ++ eol.

Definition connection_tests : suite :=
  [("config_response_serializes_args_and_route",
     unwrap fixture_table (fun t =>
       returning (build_config_response fixture_args t 0 (fun _ _ => 0)) (fun v =>
         let d := at_key v "daemon" in
         is_text d "interface" "lo"
         && with_array d "ports" (fun l => assert_eq (map as_u64 l) [Some 443; Some 4433])
         && is_num d "queues" 2 && is_flag d "foreground" true
         && is_text d "status_socket_path" "/run/pesigitgd.sock"
         && with_array (at_key v "route") "configs" (fun cs =>
              Nat.eqb (length cs) 1 && is_num (nth_doc cs 0) "config_id" 0
              && is_text (nth_doc cs 0) "encryption" "plaintext"
              && with_array (nth_doc cs 0) "servers" (fun ss =>
                   Nat.eqb (length ss) 2 && is_text (nth_doc ss 0) "id" "0001"
                   && is_text (nth_doc ss 0) "address" "10.0.0.1")))));
   ("handle_connection_root_lists_endpoints",
     drive_handle_connection (get_request "GET /" [10]%u8) (fun v =>
       with_array v "endpoints" (fun l =>
         forallb (fun e => existsb (is_str_val (lit e)) l) ["/health"; "/version"; "/stats"; "/config"])));
   ("handle_connection_unknown_endpoint",
     drive_handle_connection (get_request "GET /nope" [10]%u8) (fun v => is_text v "error" "unknown endpoint"));
   ("handle_connection_request_too_long",
     drive_handle_connection (repeated MAX_REQUEST_BYTES 65%u8) (fun v => is_text v "error" "request too long"));
   ("handle_connection_handles_crlf_terminator",
     drive_handle_connection (get_request "GET /" [13; 10]%u8) (fun v => with_array v "endpoints" (fun _ => true)));
   ("handle_connection_dispatches_version",
     drive_handle_connection (get_request "GET /version" [10]%u8) (fun v =>
       is_str_val (cargo_pkg_version built) (at_key v "version")))].

Lemma status_tests_pass : failures (view_tests ++ connection_tests) = [].
Proof. run_suite. Qed.

(** ** Names, targets and arguments *)

Definition pidfile_iface (name : string) : option str := iface_from_pidfile (lit name).
Definition sock_iface (name : string) : option str := iface_from_sockname (lit name).

(** A command line: every argument ended by a zero byte. *)
Definition cmdline (args : list string) : list byte := concat (map (fun a => bytes_of (lit a) ++ [0]%u8) args).

Definition iface_of (args : list string) : option str := iface_from_cmdline (cmdline args).

Definition parses_to (s : string) (t : Target) : bool :=
  match target_from_str (lit s), t with
  | Ok (Pid p), Pid q => p =? q
  | Ok (Interface i), Interface j => bool_decide (i = j)
  | _, _ => false
  end.

Definition is_empty_target (s : string) : bool :=
  match target_from_str (lit s) with Err Empty => true | _ => false end.

Definition name_target_tests : suite :=
  [("iface_from_pidfile_accepts_typical",
     assert_eq (pidfile_iface "pesigitgd-eth0.pid") (Some (lit "eth0"))
     && assert_eq (pidfile_iface "pesigitgd-enp2s0f0.pid") (Some (lit "enp2s0f0")));
   ("iface_from_pidfile_rejects_non_matches",
     forallb (fun n => is_none (pidfile_iface n)) ["pesigitgd.pid"; "pesigitgd-.pid"; "other-eth0.pid"; "pesigitgd-eth0"]);
   ("iface_from_sockname_accepts_typical",
     assert_eq (sock_iface "status-eth0.sock") (Some (lit "eth0"))
     && assert_eq (sock_iface "status-enp2s0f0.sock") (Some (lit "enp2s0f0")));
   ("iface_from_sockname_rejects_non_matches",
     forallb (fun n => is_none (sock_iface n)) ["status-.sock"; "eth0.sock"; "status-eth0"]);
   ("iface_from_cmdline_short_space",
     assert_eq (iface_of ["pesigitgd"; "-i"; "eth0"; "-p"; "443"]) (Some (lit "eth0")));
   ("iface_from_cmdline_short_combined", assert_eq (iface_of ["pesigitgd"; "-ieth0"]) (Some (lit "eth0")));
   ("iface_from_cmdline_long_space",
     assert_eq (iface_of ["pesigitgd"; "--interface"; "eth0"]) (Some (lit "eth0")));
   ("iface_from_cmdline_long_equals",
     assert_eq (iface_of ["pesigitgd"; "--interface=eth0"]) (Some (lit "eth0")));
   ("iface_from_cmdline_missing_when_only_config",
     is_none (iface_of ["pesigitgd"; "-c"; "/etc/pesigitg.conf"]));
   ("iface_from_cmdline_handles_dangling_flag", is_none (iface_of ["pesigitgd"; "-i"]));
   ("target_parses_pid", parses_to "1234" (Pid 1234));
   ("target_parses_interface", parses_to "eth0" (Interface (lit "eth0")));
   ("target_rejects_empty", is_empty_target EmptyString && is_empty_target "   ");
   ("target_trims_whitespace", parses_to "  eth0  " (Interface (lit "eth0")) && parses_to " 42 " (Pid 42))].

Section commands.
  Context {IoError TomlError : Type} (toml : str -> result (list RawConfig) TomlError).
  Context (read_to_string : str -> result str IoError) (show_route_error : RouteConfigError IoError TomlError -> str).
  Context (lower_char : Z -> str) (pkg_version : str) (watch : host -> Z -> option str -> act unit).

Definition found (name : string) : result Cmd str :=
  find_cmd toml read_to_string show_route_error lower_char pkg_version watch (lit name).

Definition resolves (name cmd : string) : bool :=
  match found name with Ok c => assert_eq (c_name c) (lit cmd) | Err _ => false end.

Definition refused (name why : string) : bool :=
  match found name with Ok _ => false | Err e => contains_str (lit why) e end.

Definition find_cmd_tests : suite :=
  [("find_cmd_exact_match_wins_over_prefix", resolves "stats" "stats");
   ("find_cmd_alias_resolves_to_primary",
     resolves "reload" "hup" && resolves "usr1" "dump-stats" && resolves "usr2" "restart"
     && resolves "handoff" "restart");
   ("find_cmd_unique_prefix", resolves "hu" "hup" && resolves "co" "config" && resolves "res" "restart");
   ("find_cmd_ambiguous_prefix_rejected", refused "s" "ambiguous");
   ("find_cmd_unknown", refused "nope" "unknown")].

End commands.

Definition extra_args {A} (r : result A TargetError) : bool := match r with Err (ExtraArgs _) => true | _ => false end.

Definition ok_with {A E} (r : result A E) (check : A -> bool) : bool := match r with Ok a => check a | Err _ => false end.

Definition extracts (args : list string) (v : option string) (rest : list string) : bool :=
  ok_with (extract_flag (map lit args) (lit "-n") (lit "--interval")) (fun r =>
    assert_eq r.1 (option_map lit v) && assert_eq r.2 (map lit rest)).

Definition argument_tests : suite :=
  [("expect_no_args_accepts_empty", ok_with (expect_no_args []) (fun _ => true));
   ("expect_no_args_rejects_extras", extra_args (expect_no_args [lit "x"]));
   ("expect_optional_target_zero_or_one",
     ok_with (expect_optional_target []) is_none
     && ok_with (expect_optional_target [lit "eth0"]) (fun t => assert_eq t (Some (lit "eth0"))));
   ("expect_optional_target_rejects_two", extra_args (expect_optional_target [lit "eth0"; lit "extra"]));
   ("format_duration_units",
     assert_eq (format_duration 0) (lit "0s") && assert_eq (format_duration 59) (lit "59s")
     && assert_eq (format_duration 60) (lit "1m0s") && assert_eq (format_duration 3600) (lit "1h0m")
     && assert_eq (format_duration 86400) (lit "1d0h"));
   ("extract_flag_short_space", extracts ["-n"; "5"; "eth0"] (Some "5") ["eth0"]);
   ("extract_flag_long_space", extracts ["--interval"; "10"] (Some "10") []);
   ("extract_flag_long_equals", extracts ["--interval=2"; "eth0"] (Some "2") ["eth0"]);
   ("extract_flag_absent_leaves_args", extracts ["eth0"] None ["eth0"]);
   ("extract_flag_dangling_value", extra_args (extract_flag [lit "-n"] (lit "-n") (lit "--interval")));
   ("extract_flag_last_occurrence_wins", extracts ["-n"; "1"; "--interval=5"] (Some "5") []);
   ("rate_zero_delta_is_zero", assert_eq (watch_rate 100 100 (of_u64 1)) (lit "0.00"));
   ("rate_counter_reset_marker", assert_eq (watch_rate 5 1000 (of_u64 1)) (lit "*"));
   ("rate_scales_format_to_magnitude",
     assert_eq (watch_rate 110 100 (of_u64 1)) (lit "10.00") && assert_eq (watch_rate 1100 100 (of_u64 1)) (lit "1000.0")
     && assert_eq (watch_rate 20100 100 (of_u64 1)) (lit "20000"))].

Lemma command_tests_pass {IoError TomlError} toml rd (show : RouteConfigError IoError TomlError -> str) lower v watch :
  failures (name_target_tests ++ find_cmd_tests toml rd show lower v watch ++ argument_tests) = [].
Proof. run_suite. Qed.

(** ** [whoami] *)

Definition plaintext_cfg (id sid_len nonce_len : Z) (servers : list json) : json :=
  obj [(lit "config_id", JNum id); (lit "encryption", JStr (lit "plaintext"));
       (lit "server_id_length", JNum sid_len); (lit "nonce_length", JNum nonce_len); (lit "servers", JArr servers)].

Definition server (id addr : string) (mac : json) (healthy draining : bool) (more : list (str * json)) : json :=
  obj ([(lit "id", JStr (lit id)); (lit "address", JStr (lit addr)); (lit "mac", mac);
        (lit "healthy", JBool healthy); (lit "draining", JBool draining)] ++ more).

Definition mac_1 : json := JStr (lit "aa:bb:cc:dd:ee:01").
Definition mac_2 : json := JStr (lit "aa:bb:cc:dd:ee:02").

Definition first_server (healthy draining : bool) : json :=
  server "000001" "10.0.1.10:443" mac_1 healthy draining [].

(** The healthy first server with its counters. *)
Definition flapping (transitions since : Z) : json :=
  server "000001" "10.0.1.10:443" mac_1 true false
    [(lit "transitions", JNum transitions); (lit "state_since_secs", JNum since)].

(** A first octet of zero, a server id of three bytes, and a nonce of 13. *)
Definition cid_of (id : list byte) : list byte := [0]%u8 ++ id ++ repeated 13 0%u8.

(** [find_line]: a test panics when no line has the prefix. *)
Definition find_line (out : rs (list str)) (prefix : string) (check : str -> bool) : bool :=
  returning out (fun lines => unwrap_some (find (starts_with (lit prefix)) lines) check).

Definition line_is (out : rs (list str)) (prefix line : string) : bool :=
  find_line out prefix (fun l => assert_eq l (lit line)).
Definition line_has (out : rs (list str)) (prefix : string) (parts : list string) : bool :=
  find_line out prefix (fun l => forallb (fun p => contains_str (lit p) l) parts).
Definition line_lacks (out : rs (list str)) (prefix : string) (parts : list string) : bool :=
  find_line out prefix (fun l => forallb (fun p => negb (contains_str (lit p) l)) parts).

Definition whoami_verdict_tests : suite :=
  [("whoami_reserved_config_id", line_has (analyze_whoami [0xe0; 0; 1]%u8 []) "verdict:" ["reserved"]);
   ("whoami_unknown_config_id",
     line_has (analyze_whoami [0x40; 0; 1]%u8 [plaintext_cfg 0 3 13 []]) "verdict:"
       ["no route config with config_id=2"]);
   ("whoami_truncated_cid",
     line_has (analyze_whoami [0; 1; 2]%u8 [plaintext_cfg 0 3 13 []]) "verdict:" ["truncated"; "17"]);
   ("whoami_plaintext_routes_to_known_server",
     let out := analyze_whoami (cid_of [0; 0; 1]%u8)
       [plaintext_cfg 0 3 13 [first_server true false; server "000002" "10.0.1.11:443" mac_2 true false []]] in
     line_is out "server_id:" "server_id: 000001"
     && line_has out "verdict:" ["routes to 10.0.1.10:443"; "aa:bb:cc:dd:ee:01"]
     && line_is out "state:" "state:     healthy");
   ("whoami_plaintext_draining_server_flagged",
     line_has (analyze_whoami (cid_of [0; 0; 1]%u8) [plaintext_cfg 0 3 13 [first_server true true]])
       "state:" ["draining"]);
   ("whoami_plaintext_unhealthy_server_flagged",
     line_has (analyze_whoami (cid_of [0; 0; 1]%u8) [plaintext_cfg 0 3 13 [first_server false false]])
       "state:" ["UNHEALTHY"]);
   ("whoami_plaintext_unknown_server_flagged",
     line_has (analyze_whoami (cid_of [0xff; 0xff; 0xff]%u8) [plaintext_cfg 0 3 13 [first_server true false]])
       "verdict:" ["no entry"; "cid_unroutable"])].

Definition ends_str (p s : str) : bool := starts_with (rev p) (rev s).

Definition whoami_state_tests : suite :=
  [("whoami_state_line_surfaces_transitions_and_age",
     line_has (analyze_whoami (cid_of [0; 0; 1]%u8) [plaintext_cfg 0 3 13 [flapping 3 192]])
       "state:" ["healthy"; "for 3m12s"; "3 flaps"]);
   ("whoami_state_line_pluralizes_single_flap",
     let out := analyze_whoami (cid_of [0; 0; 1]%u8) [plaintext_cfg 0 3 13 [flapping 1 5]] in
     find_line out "state:" (fun l => contains_str (lit "1 flap,") l || ends_str (lit "1 flap") l)
     && line_lacks out "state:" ["1 flaps"]);
   ("whoami_state_line_omits_counters_when_absent",
     line_lacks (analyze_whoami (cid_of [0; 0; 1]%u8) [plaintext_cfg 0 3 13 [first_server true false]])
       "state:" ["flap"; "for "]);
   ("whoami_encrypted_scheme_defers_to_offline",
     let out := analyze_whoami ([0]%u8 ++ repeated 16 0xaa%u8)
       [obj [(lit "config_id", JNum 0); (lit "encryption", JStr (lit "single_pass"));
             (lit "server_id_length", JNum 3); (lit "nonce_length", JNum 13);
             (lit "servers", JArr [first_server true false])]] in
     line_has out "verdict:" ["encrypted (single_pass)"]
     && returning out (existsb (contains_str (lit "--route-config"))))].

(** [parse_offline]: the test unwraps what [parse_routes] makes of a text with these entries. *)
Definition parse_offline (raws : list RawConfig) (check : list RouteConfig -> bool) : bool :=
  unwrap (parse_routes (IoError := unit) (TomlError := unit) (fun _ => Ok raws) []) check.

Definition with_mac (id addr mac : string) (draining : bool) : RawServer :=
  mkRawServer (lit id) (lit addr) (Some (lit mac)) draining.

Definition entry (id sid nonce : byte) (key : option string) (l : list RawServer) : RawConfig :=
  mkRawConfig id false sid nonce (option_map lit key) l None.

Definition PLAINTEXT_TOML : list RawConfig :=
  [entry 0%u8 3%u8 13%u8 None
     [with_mac "000001" "10.0.1.10" "aa:bb:cc:dd:ee:01" false; with_mac "000002" "10.0.1.11" "aa:bb:cc:dd:ee:02" false]].

Definition offline (cid : list byte) (raws : list RawConfig) (check : rs (list str) -> bool) : bool :=
  parse_offline raws (fun configs => check (analyze_whoami_offline cid configs)).

Definition whoami_offline_tests : suite :=
  [("offline_plaintext_routes_to_known_server",
     offline (cid_of [0; 0; 1]%u8) PLAINTEXT_TOML (fun out =>
       line_is out "scheme:" "scheme:    plaintext" && line_is out "server_id:" "server_id: 000001"
       && line_has out "verdict:" ["routes to 10.0.1.10"; "aa:bb:cc:dd:ee:01"]));
   ("offline_reserved_config_id", line_has (analyze_whoami_offline [0xe0; 0; 1]%u8 []) "verdict:" ["reserved"]);
   ("offline_unknown_config_id",
     offline [0x40; 0; 1]%u8 PLAINTEXT_TOML (fun out => line_has out "verdict:" ["config_id=2"]));
   ("offline_truncated_cid",
     offline [0; 1; 2]%u8 PLAINTEXT_TOML (fun out => line_has out "verdict:" ["truncated"]));
   ("offline_unknown_server_flagged",
     offline (cid_of [0xff; 0xff; 0xff]%u8) PLAINTEXT_TOML (fun out =>
       line_has out "verdict:" ["no entry"; "cid_unroutable"]));
   ("offline_draining_flag_surfaced",
     offline (cid_of [0; 0; 1]%u8)
       [entry 0%u8 3%u8 13%u8 None [with_mac "000001" "10.0.1.10" "aa:bb:cc:dd:ee:01" true]] (fun out =>
       line_is out "state:" "state:     draining"));
   ("offline_encrypted_scheme_label",
     offline ([0]%u8 ++ repeated 16 0xaa%u8)
       [entry 0%u8 3%u8 13%u8 (Some "000102030405060708090a0b0c0d0e0f") [plain_srv "000001" "10.0.1.10"]] (fun out =>
       line_is out "scheme:" "scheme:    single_pass" && line_has out "verdict:" ["no entry"]))].

(** ** [backend-config] *)

Definition rollover_entry (id : byte) (key : string) (l : list RawServer) : RawConfig :=
  mkRawConfig id true 3%u8 13%u8 (Some (lit key)) l None.

Definition ROLLOVER_TOML : list RawConfig :=
  [rollover_entry 0%u8 "597a84b3093ebb17567bcb7e06721d68"
     [plain_srv "000001" "10.0.1.10"; mkRawServer (lit "000002") (lit "10.0.1.11") None true];
   rollover_entry 1%u8 "a1b2c3d4e5f6a7b8c9d0e1f2a3b4c5d6" [plain_srv "000001" "10.0.1.10"]].

Definition FOUR_PASS_TOML : list RawConfig :=
  [entry 2%u8 3%u8 4%u8 (Some "000102030405060708090a0b0c0d0e0f") [plain_srv "abc123" "2001:db8::1"]].

Definition PLAINTEXT_BACKEND_TOML : list RawConfig := [entry 0%u8 2%u8 5%u8 None [plain_srv "0001" "10.0.1.10"]].

(** The matches of a server id, and how many a test expects. *)
Definition matches (raws : list RawConfig) (id : string) (redact : bool) (filter : option Z) (n : nat)
    (check : list json -> bool) : bool :=
  parse_offline raws (fun configs =>
    let m := analyze_backend_config_offline (lit id) configs redact filter in
    Nat.eqb (length m) n && check m).

Definition backend_offline_tests : suite :=
  [("backend_config_offline_single_pass_emits_all_fields",
     matches ROLLOVER_TOML "000002" false None 1 (fun m =>
       let e := nth_doc m 0 in
       is_num e "config_id" 0 && is_text e "server_id" "000002" && is_num e "server_id_length" 3
       && is_num e "nonce_length" 13 && is_flag e "first_octet_encodes_cid_length" true
       && is_text e "encryption" "single_pass" && is_text e "key" "597a84b3093ebb17567bcb7e06721d68"
       && is_flag e "key_redacted" false && is_flag e "draining" true && is_text e "address" "10.0.1.11"
       && is_num e "cid_total_length" 17));
   ("backend_config_offline_rollover_returns_both_configs",
     matches ROLLOVER_TOML "000001" false None 2 (fun m =>
       is_num (nth_doc m 0) "config_id" 0 && is_num (nth_doc m 1) "config_id" 1
       && assert_ne (as_str (at_key (nth_doc m 0) "key")) (as_str (at_key (nth_doc m 1) "key"))));
   ("backend_config_offline_no_key_redacts_only_encrypted",
     matches ROLLOVER_TOML "000001" true None 2 (forallb (fun e =>
       is_text e "encryption" "single_pass" && is_null (at_key e "key") && is_flag e "key_redacted" true)));
   ("backend_config_offline_plaintext_keeps_key_null_unredacted",
     matches PLAINTEXT_BACKEND_TOML "0001" false None 1 (fun m =>
       is_text (nth_doc m 0) "encryption" "plaintext" && is_null (at_key (nth_doc m 0) "key")
       && is_flag (nth_doc m 0) "key_redacted" false));
   ("backend_config_offline_four_pass_label",
     matches FOUR_PASS_TOML "abc123" false None 1 (fun m =>
       is_text (nth_doc m 0) "encryption" "four_pass" && is_num (nth_doc m 0) "cid_total_length" 8));
   ("backend_config_offline_config_id_filter",
     matches ROLLOVER_TOML "000001" false (Some 1) 1 (fun m => is_num (nth_doc m 0) "config_id" 1));
   ("backend_config_offline_no_match_returns_empty", matches ROLLOVER_TOML "ffffff" false None 0 (fun _ => true))].

Definition live_cfg (scheme : string) (sid nonce : Z) (first_octet : bool) (servers : list json) : json :=
  obj [(lit "config_id", JNum 0); (lit "encryption", JStr (lit scheme)); (lit "server_id_length", JNum sid);
       (lit "nonce_length", JNum nonce); (lit "first_octet_encodes_cid_length", JBool first_octet);
       (lit "servers", JArr servers)].

Definition online (id : string) (configs : list json) (n : nat) (check : json -> bool) : bool :=
  let m := analyze_backend_config_online (lit id) configs None in
  Nat.eqb (length m) n && check (nth_doc m 0).

Definition cid_hex_refused (s : string) : bool :=
  unwrap_err (parse_cid_hex (lit s)) (fun e => match e with ExtraArgs _ => true | _ => false end).

Definition backend_online_tests : suite :=
  [("backend_config_online_redacts_keys_for_encrypted_configs",
     online "000001" [live_cfg "single_pass" 3 13 true [server "000001" "10.0.1.10" mac_1 true false []]] 1 (fun e =>
       is_text e "encryption" "single_pass" && is_null (at_key e "key") && is_flag e "key_redacted" true
       && is_num e "cid_total_length" 17 && is_text e "address" "10.0.1.10"));
   ("backend_config_online_plaintext_unredacted",
     online "0001" [live_cfg "plaintext" 2 5 false [server "0001" "10.0.1.10" JNull true false []]] 1 (fun e =>
       is_text e "encryption" "plaintext" && is_flag e "key_redacted" false));
   ("backend_config_online_no_match_returns_empty",
     online "ffffff" [live_cfg "plaintext" 3 13 true [server "000001" "10.0.1.10" JNull true false []]] 0
       (fun _ => true));
   ("parse_cid_hex_accepts_typical",
     unwrap (parse_cid_hex (lit "0001020304")) (fun v => assert_eq v [0; 1; 2; 3; 4]%u8));
   ("parse_cid_hex_rejects_empty", cid_hex_refused EmptyString);
   ("parse_cid_hex_rejects_odd_length", cid_hex_refused "abc");
   ("parse_cid_hex_rejects_non_hex", cid_hex_refused "ab0g")].

Lemma inspect_tests_pass :
  failures (whoami_verdict_tests ++ whoami_state_tests ++ whoami_offline_tests ++ backend_offline_tests
            ++ backend_online_tests) = [].
Proof. run_suite. Qed.
